(* ===== verification/_CoqProject ===== *)
-Q . S2P
Prelude.v
RaftNode.v
RaftSpec.v
RaftLog.v
RaftSafety.v
RaftCluster.v
RaftNodeFacts.v
RaftRefine.v
RaftSim.v
RaftScenario.v
RaftTheorems.v
RaftBehaviour.v
RaftApply.v
RaftTransport.v
RaftTimer.v
GoBytes.v
Sha256.v
DhtId.v
GoFloat.v
DhtBucket.v
DhtRouting.v
DhtLookup.v
DhtStore.v
GoText.v
GoParse.v
GoUtf8.v
GoJson.v
GoTime.v
GoFormat.v
GoFlag.v
Base64.v
Wire.v
NodeApp.v
NodeExchange.v
GossipFlood.v
Sensor.v
SensorCodec.v
GossipSim.v
DhtSim.v
DhtSimRun.v
Servers.v
NodeMain.v
Coordinator.v
RpcMessages.v
CoordinatorRpc.v
CoordinatorHttp.v
CoordinatorMetrics.v
HttpMux.v
CoordinatorMain.v
EndToEnd.v
