(* ===== verification/Prelude.v ===== *)
(** * A verification of EdgeSim, a peer-to-peer edge network

    EdgeSim (src/) is a Go system of four cooperating parts: edge nodes that read
    sensors and gossip the readings (cmd/node), a Kademlia-style distributed hash
    table (pkg/dht, exercised by cmd/dhtsim), a Raft implementation (pkg/raft) and
    the coordinators that replicate readings with it (cmd/coordinator).  Nodes and
    coordinators talk over length-prefixed frames.  A reading travels from a node
    by gossip to other nodes and to a coordinator; the coordinator proposes it to
    its Raft group, and each coordinator stores what its Raft node applies.

    This file is the shared prelude.  The development is a shallow embedding: a
    struct is a record with the same fields, a method a function from the state
    before to the state after, an error a value of a sum or option, a slice index
    out of range [Panic] ([exec]).  Integers are [Z] with the wrap-around of their
    Go width written out where an operation can leave it ([u64], [i64], [u32]).
    A method under a mutex is one step.  Clock, random numbers and map iteration
    order are arguments; theorems hold for all their values.  Logging is omitted.

    ** Raft (pkg/raft)

    - [RaftNode]: the node.  [Node], [NewNode], [HandleRequestVote],
      [HandleAppendEntries], [onElectionTimeout], [Propose], [Run] and their helpers
      carry the names of node.go.  Methods with several critical sections are split
      at the unlocks ([startElection_enter], [_request], [_recv], likewise
      [Propose_*] and [sendHeartbeats_*]) and composed again in [startElection],
      [Propose] and [Run].
    - [RaftCluster]: all nodes, the goroutines they started and the RPCs in flight,
      with one executable event per critical section ([fire_*]).  Any event may
      happen next, so delivery is unordered and lossy and all interleavings of the
      critical sections are covered; [reachable] is the closure.
    - [RaftSpec], [RaftLog], [RaftSafety]: an abstract replication protocol over
      logs and votes, and its safety by induction on its steps.
    - [RaftNodeFacts], [RaftRefine], [RaftSim]: each cluster event is matched by
      steps of the protocol; the simulation relation and the refinement.
    - [RaftTheorems]: what follows for the cluster: refinement, one leader per term,
      log matching, leader completeness, durability of successful proposals on a
      majority, agreement of proposals, absence of panics, append-only leaders and
      stable votes.
    - [RaftBehaviour]: exact behaviour of the handlers, elections and proposals
      decided by their answers, quorums, timer and [Run].
    - [RaftApply]: the state machines get every log position once, with the entry
      collected from there, though in no fixed order, as [applyEntries] runs outside
      the lock; and two reachable clusters in which the code departs from Raft: a
      heartbeat commits an entry it was not checked against, and a follower that
      missed an entry never gets another, in any continuation.
    - [RaftTimer]: the election timer as the code has it, a [time.Timer] with a channel
      and the stop-drain-reset of [resetTimer]; it refines the duration [RaftNode] keeps
      as long as no reset comes between an expiry and the send of its tick.
    - [RaftTransport]: the in-process transport over a heap of shared nodes.
      [RaftScenario] holds the concrete clusters the witnesses run.

    ** Distributed hash table (pkg/dht, cmd/dhtsim)

    - [GoBytes], [Sha256]: strings, hexadecimal and SHA-256, executable, with the
      standard's test vectors.
    - [DhtId]: identifiers, XOR distance as the big-endian number the code builds,
      [bucketIndex]; the metric laws, print/parse round trip, buckets as prefixes.
    - [DhtBucket]: a bucket with its slice manipulations; it implements a bounded
      least-recently-seen list ([lru_add]).
    - [DhtRouting]: the routing table and its invariant; [PeerSource] is the
      interface lookups use, implemented by the table.
    - [DhtLookup]: the iterative lookup over any [PeerSource] and any network: it
      returns the closest of all peers it heard of, asks nobody twice, stops, and
      does not depend on Go's map order.
    - [DhtStore]: storage, RPC handlers, iterative store and find, and the simulated
      network of cmd/dhtsim: what is stored is found.
    - [DhtSim], [DhtSimRun]: the program cmd/dhtsim.  [buildNetwork] gives a full
      mesh; in a mesh every lookup hears of everybody, so a value is stored at every
      node and found from any; [dhtsim_run] follows all phases of [main].

    ** Sensors and the gossip simulator (pkg/sensor, pkg/gossip)

    - [GoFloat], [GoParse]: binary64 as integer multiples of 2^-1074 with rounding
      to nearest even, infinities and NaN, and [strconv.ParseFloat]; rounding is
      monotone, and sums and quotients stay within integer bounds.
    - [Sensor]: readings, their generation, distances, filtering and averages.  The
      classes [Rand] and [Trig] are what is used of math/rand and math.  Generated
      readings are in range, and averages are not moved out of it by rounding.
    - [GoUtf8], [GoJson], [GoTime], [GoFormat]: what is used of unicode/utf8,
      encoding/json, time and strconv to write and read messages.  The JSON scanner is a
      machine on bytes; [parse_print], [parse_format] and [decode_encode_float] are the
      round trips of JSON values, RFC 3339 times and shortest decimal floats.
    - [SensorCodec]: [EncodeReading] and [DecodeReading] to the byte: which readings can
      be encoded, and that those come back.
    - [GossipSim]: the simulator; with fanout for all peers it is breadth-first
      search, and otherwise it reaches only what that search reaches.

    ** Nodes and coordinators (cmd/node, cmd/coordinator)

    - [GoText], [Base64], [Wire]: splitting, decimal and base64 text; frames and
      messages and their round trips.
    - [NodeApp]: a node's state, server and gossip handler; a message ID is processed
      once, and what is forwarded to whom.
    - [NodeExchange]: two processes over the byte stream: a broadcast reading
      arrives, the bootstrap handshake hands over the server's view.
    - [GossipFlood]: a network of nodes with unordered, lossy delivery: one message
      ID causes a bounded number of frames, and with enough fanout and TTL reaches
      every node the sender can reach.
    - [Servers]: listening, the accept loop all servers share, and the node's server with
      its connections interleaved at the locks of the state: every frame of every
      connection is taken once, a message is accepted once over all of them, and a run
      shows an old reading stored over a newer one.
    - [GoFlag], [NodeMain]: flags, durations and the configuration of a node; the
      process: the server, the sensor loop, the bootstrap and the metrics loop
      ([SensorAt], [BootAt], [Conn] say where each goroutine is), interleaved lock by
      lock.
    - [Coordinator]: the reading store as a state machine (replicas agree, the target
      is announced once), the gossip intake and the peer list.
    - [RpcMessages]: the messages of the Raft RPCs and their JSON form, with the round
      trips; [Json] is the class of types that have one.
    - [CoordinatorRpc]: the Raft RPC server, client and TCP transport; [Transport] is
      the interface of pkg/raft, implemented by both transports, and the votes of an
      election are verified against it; a forwarded proposal is the leader's.
    - [CoordinatorHttp], [CoordinatorMetrics]: configuration, the region query over
      HTTP on every branch, and the gauges that show the Raft node.
    - [HttpMux]: the HTTP servers: [http.ServeMux] with its path cleaning in front of the
      region handler and of the metrics: what is served, redirected and not found.
    - [CoordinatorMain]: the coordinator process: its goroutines ([Task], [Runner],
      [Meter]) step from lock to lock in any order over the node, the store and the
      gauges.  Collected entries are applied once; they are applied in log order if none
      waits while others are collected, and a run shows that they need not be; a
      goroutine that is not disturbed does what the whole-function handlers of
      [Coordinator] and [CoordinatorRpc] say.
    - [EndToEnd]: the parts composed: what a node senses reaches a leading
      coordinator, is applied, and is what a region query around the node answers.

    ** Bounds and fuel

    Recursion is structural almost everywhere.  [collect_loop] has the distance
    between [lastApplied] and [commitIndex] as fuel, one unit per iteration;
    [lookup_loop] the number of rounds of the source; [readFrames] the length of the
    stream plus one, as a frame takes four bytes; [Itoa] twenty digits, enough for 64
    bits; [duration_terms] the length of the text; [rounds] of the gossip simulator
    the number of steps of the source.  Theorems that need counters not to wrap (terms, log lengths) say so.

    ** Parameters

    [NodeApp], [NodeExchange], [GossipFlood] and [Coordinator] are generic in the type of
    readings and its codec; [NodeMain], [CoordinatorMain] and [EndToEnd] use them at
    [Sensor.Reading] and [SensorCodec].  The Go memory model is not represented: the reads
    of a node's log outside its mutex are atomic steps here.

    The random source ([Rand]) and the trigonometric functions ([Trig]) are classes
    with their documented ranges as laws.  Floats have one zero, and products are
    rounded before they are added (no fused operations, which Go allows a compiler to
    use on some targets); so a negative zero is printed as zero.  A [Time] is a number of
    nanoseconds and the offset of its zone.  The standard library is that of Go 1.21, which
    go.mod names.  The handler of the Prometheus library is a parameter, and what a peer
    answers to an RPC of the coordinator process is an input.  The environment, the command line and the URL query are
    functions or lists of strings.

    ** Not modelled

    Registration with Prometheus, signal handling, the timeouts of the HTTP servers and
    their graceful shutdown: calls of libraries around the modelled handlers.  TCP
    connections deliver the bytes the other side sent, up to some end; the two-second
    limits of dials enter as connections that fail.  Contexts expire in the lookups and
    handlers that take them, but not within a run of cmd/dhtsim; the context of the
    coordinator's [main] is never cancelled.  The text of log lines. *)

From Stdlib Require Import ZArith Lia.
From stdpp Require Import base tactics numbers option list strings gmap relations.

#[local] Open Scope Z_scope.

(** ** Go's fixed-width integers

    Go's [uint64], [int]/[int64] (64-bit targets), [uint32] and [uint8] are
    modelled as [Z] kept in range by the conversion that every arithmetic
    operation that can leave the range applies. *)

Definition u64 (z : Z) : Z := z mod 2 ^ 64.
Definition u32 (z : Z) : Z := z mod 2 ^ 32.
Definition u8 (z : Z) : Z := z mod 2 ^ 8.
Definition i64 (z : Z) : Z := (z + 2 ^ 63) mod 2 ^ 64 - 2 ^ 63.

Lemma u64_id z : 0 <= z < 2 ^ 64 -> u64 z = z.
Proof. apply Z.mod_small. Qed.

Lemma u64_range z : 0 <= u64 z < 2 ^ 64.
Proof. apply Z.mod_pos_bound. lia. Qed.

Lemma u32_id z : 0 <= z < 2 ^ 32 -> u32 z = z.
Proof. apply Z.mod_small. Qed.

Lemma i64_id z : - 2 ^ 63 <= z < 2 ^ 63 -> i64 z = z.
Proof. intros ?. unfold i64. rewrite Z.mod_small; lia. Qed.

Lemma i64_range z : - 2 ^ 63 <= i64 z < 2 ^ 63.
Proof. unfold i64. pose proof (Z.mod_pos_bound (z + 2 ^ 63) (2 ^ 64)). lia. Qed.

(** ** Run-time panics

    [Panic] is an index out of range: the goroutine, and with it the process,
    dies.  Code that can index a slice runs in this monad. *)

Inductive exec (A : Type) : Type :=
| Ok (a : A)
| Panic.
Arguments Ok {A} a.
Arguments Panic {A}.

Definition exec_bind {A B} (m : exec A) (f : A -> exec B) : exec B :=
  match m with Ok a => f a | Panic => Panic end.

Declare Scope go_scope.
Delimit Scope go_scope with go.
Notation "'let!' x ':=' m 'in' k" := (exec_bind m (fun x => k))
  (at level 200, x pattern, m at level 100, k at level 200, right associativity) : go_scope.
Notation "a '=?s' b" := (bool_decide (a = b :> string)) (at level 70) : go_scope.
#[local] Open Scope go_scope.

Lemma exec_bind_Ok {A B} (m : exec A) (f : A -> exec B) b :
  exec_bind m f = Ok b <-> exists a, m = Ok a /\ f a = Ok b.
Proof. destruct m; simpl; naive_solver. Qed.

(** Slice indexing [l[i]]: out of range (negative included) panics. *)
Definition go_index {A} (l : list A) (i : Z) : exec A :=
  if i <? 0 then Panic
  else match l !! Z.to_nat i with Some x => Ok x | None => Panic end.

Lemma go_index_Ok {A} (l : list A) i x :
  go_index l i = Ok x <-> 0 <= i /\ l !! Z.to_nat i = Some x.
Proof.
  unfold go_index. destruct (Z.ltb_spec i 0); [naive_solver lia|].
  destruct (l !! Z.to_nat i) eqn:?; naive_solver lia.
Qed.

Lemma go_index_lt {A} (l : list A) i :
  0 <= i < Z.of_nat (length l) -> exists x, go_index l i = Ok x /\ l !! Z.to_nat i = Some x.
Proof.
  intros Hi. destruct (lookup_lt_is_Some_2 l (Z.to_nat i)) as [x Hx]; [lia|].
  exists x. split; [|done]. apply go_index_Ok. split; [lia|done].
Qed.

(** ** Automation *)

Create HintDb edgesim.
#[export] Hint Rewrite @length_app @length_insert @length_take @length_drop : edgesim.
#[export] Hint Resolve u64_range : edgesim.

(** Turn every boolean [Z] comparison in the context into a proposition. *)
Ltac zbool :=
  repeat match goal with
  | H : (_ <? _) = true |- _ => apply Z.ltb_lt in H
  | H : (_ <? _) = false |- _ => apply Z.ltb_ge in H
  | H : (_ <=? _) = true |- _ => apply Z.leb_le in H
  | H : (_ <=? _) = false |- _ => apply Z.leb_gt in H
  | H : (_ =? _) = true |- _ => apply Z.eqb_eq in H
  | H : (_ =? _) = false |- _ => apply Z.eqb_neq in H
  | H : bool_decide _ = true |- _ => apply bool_decide_eq_true in H
  | H : bool_decide _ = false |- _ => apply bool_decide_eq_false in H
  | H : negb _ = true |- _ => apply negb_true_iff in H
  | H : negb _ = false |- _ => apply negb_false_iff in H
  | H : _ && _ = true |- _ => apply andb_true_iff in H; destruct H
  | H : _ || _ = false |- _ => apply orb_false_iff in H; destruct H
  end.

(** Split on the conditions of the code in the goal, one [if] at a time. *)
Ltac split_ifs :=
  repeat match goal with
  | |- context [if ?b then _ else _] =>
      lazymatch b with
      | context [if _ then _ else _] => fail
      | _ => let E := fresh "E" in destruct b eqn:E
      end
  end; zbool.

(** The same in a hypothesis. *)
Ltac split_ifs_in H :=
  repeat match type of H with
  | context [if ?b then _ else _] =>
      lazymatch b with
      | context [if _ then _ else _] => fail
      | _ => let E := fresh "E" in destruct b eqn:E
      end
  end; zbool.
