(* ===== verification/RaftNode.v ===== *)
(** * The Raft node (src/pkg/raft/node.go, types.go)

    Data and operations of [raft.Node], one definition per method.  A method
    that locks [n.mu] once is a pure function on the node; a method with
    several critical sections ([startElection], [Propose], [sendHeartbeats])
    is one definition per section ([..._enter], [..._recv]), composed by the
    sequential runs at the end of this file and, with arbitrary interleaving,
    by the cluster model. *)

From stdpp Require Import base gmap strings list.
From S2P Require Import Prelude.

#[local] Open Scope Z_scope.
#[local] Open Scope go_scope.

(** ** Types (types.go) *)

Inductive State : Type := StateFollower | StateCandidate | StateLeader.

#[export] Instance State_eq_dec : EqDecision State.
Proof. solve_decision. Defined.

(** The errors of the package; [ErrReplicationFailed] is the anonymous
    [fmt.Errorf("replication failed")], [ErrContext] is [ctx.Err()]. *)
Inductive RaftError : Type :=
| ErrInvalidConfig | ErrNilTransport | ErrInvalidTimeout | ErrNotLeader
| ErrReplicationFailed | ErrContext.

Record LogEntry : Type := mkEntry { entry_Term : Z; entry_Command : string }.

#[export] Instance LogEntry_eq_dec : EqDecision LogEntry.
Proof. solve_decision. Defined.

Record RequestVoteRequest : Type := mkVoteReq {
  rv_Term : Z; rv_CandidateID : string; rv_LastLogIndex : Z; rv_LastLogTerm : Z }.

Record RequestVoteResponse : Type := mkVoteResp {
  rvr_Term : Z; rvr_VoteGranted : bool }.

Record AppendEntriesRequest : Type := mkAppendReq {
  ae_Term : Z; ae_LeaderID : string; ae_PrevLogIndex : Z; ae_PrevLogTerm : Z;
  ae_Entries : list LogEntry; ae_LeaderCommit : Z }.

Record AppendEntriesResponse : Type := mkAppendResp {
  aer_Term : Z; aer_Success : bool }.

#[export] Instance RequestVoteRequest_eq_dec : EqDecision RequestVoteRequest.
Proof. solve_decision. Defined.
#[export] Instance RequestVoteResponse_eq_dec : EqDecision RequestVoteResponse.
Proof. solve_decision. Defined.
#[export] Instance AppendEntriesRequest_eq_dec : EqDecision AppendEntriesRequest.
Proof. solve_decision. Defined.
#[export] Instance AppendEntriesResponse_eq_dec : EqDecision AppendEntriesResponse.
Proof. solve_decision. Defined.

(** [Config]: of the interface-valued fields only whether they are nil
    matters to the node's own state. *)
Record Config : Type := mkConfig {
  cfg_ID : string; cfg_Peers : list string; cfg_hasTransport : bool;
  cfg_ElectionTimeoutMin : Z; cfg_ElectionTimeoutMax : Z;
  cfg_HeartbeatInterval : Z; cfg_RPCTimeout : Z }.

(** [Node]: the election timer is the duration it was last armed with, [None]
    when it is not running (not created yet, expired or stopped); times are
    nanoseconds, 0 being the zero [time.Time]. *)
Record Node : Type := mkNode {
  id : string; peers : list string;
  currentTerm : Z; votedFor : string; leaderID : string; state : State;
  log : list LogEntry; commitIndex : Z; lastApplied : Z; lastHeartbeat : Z;
  electionMin : Z; electionMax : Z; heartbeat : Z; rpcTimeout : Z;
  electionTimer : option Z }.

(** What a method reads from outside: the clock and the node's [rand.Rand]. *)
Record Env : Type := mkEnv { now : Z; Int63n : Z -> Z }.

(** Field assignments. *)
Definition set_term_vote (n : Node) (t : Z) (v : string) : Node :=
  mkNode (id n) (peers n) t v (leaderID n) (state n) (log n) (commitIndex n)
    (lastApplied n) (lastHeartbeat n) (electionMin n) (electionMax n)
    (heartbeat n) (rpcTimeout n) (electionTimer n).
Definition set_role (n : Node) (s : State) (l : string) : Node :=
  mkNode (id n) (peers n) (currentTerm n) (votedFor n) l s (log n) (commitIndex n)
    (lastApplied n) (lastHeartbeat n) (electionMin n) (electionMax n)
    (heartbeat n) (rpcTimeout n) (electionTimer n).
Definition set_log (n : Node) (l : list LogEntry) : Node :=
  mkNode (id n) (peers n) (currentTerm n) (votedFor n) (leaderID n) (state n) l
    (commitIndex n) (lastApplied n) (lastHeartbeat n) (electionMin n)
    (electionMax n) (heartbeat n) (rpcTimeout n) (electionTimer n).
Definition set_commit (n : Node) (c a : Z) : Node :=
  mkNode (id n) (peers n) (currentTerm n) (votedFor n) (leaderID n) (state n)
    (log n) c a (lastHeartbeat n) (electionMin n)
    (electionMax n) (heartbeat n) (rpcTimeout n) (electionTimer n).
Definition set_lastHeartbeat (n : Node) (h : Z) : Node :=
  mkNode (id n) (peers n) (currentTerm n) (votedFor n) (leaderID n) (state n)
    (log n) (commitIndex n) (lastApplied n) h (electionMin n)
    (electionMax n) (heartbeat n) (rpcTimeout n) (electionTimer n).
Definition set_electionTimer (n : Node) (t : option Z) : Node :=
  mkNode (id n) (peers n) (currentTerm n) (votedFor n) (leaderID n) (state n)
    (log n) (commitIndex n) (lastApplied n) (lastHeartbeat n) (electionMin n)
    (electionMax n) (heartbeat n) (rpcTimeout n) t.

(** ** Construction *)

Definition defaultRPCTimeout : Z := 250 * 1000000.

Definition NewNode (cfg : Config) : RaftError + Node :=
  if cfg_ID cfg =?s "" then inl ErrInvalidConfig
  else if negb (cfg_hasTransport cfg) then inl ErrNilTransport
  else if (cfg_ElectionTimeoutMin cfg <=? 0) || (cfg_ElectionTimeoutMax cfg <=? 0)
          || (cfg_HeartbeatInterval cfg <=? 0) then inl ErrInvalidTimeout
  else if cfg_ElectionTimeoutMax cfg <? cfg_ElectionTimeoutMin cfg then inl ErrInvalidTimeout
  else
    let rpcTimeout := if cfg_RPCTimeout cfg <=? 0 then defaultRPCTimeout
                      else cfg_RPCTimeout cfg in
    inr (mkNode (cfg_ID cfg) (cfg_Peers cfg) 0 "" "" StateFollower [] 0 0 0
           (cfg_ElectionTimeoutMin cfg) (cfg_ElectionTimeoutMax cfg)
           (cfg_HeartbeatInterval cfg) rpcTimeout None).

(** ** The election timer *)

Definition nextElectionTimeout (e : Env) (n : Node) : Z :=
  if electionMin n =? electionMax n then electionMin n
  else
    let delta := i64 (electionMax n - electionMin n) in
    let offset := Int63n e delta in
    i64 (electionMin n + offset).

(** Both branches of the source (fresh timer, [resetTimer]) leave the timer armed
    with the new duration.  The channel is not part of the node: [RaftTimer] models
    it, and what [resetTimer] may leave in it. *)
Definition resetElectionTimer (e : Env) (n : Node) : Node :=
  set_electionTimer n (Some (nextElectionTimeout e n)).

(** [stopElectionTimer]; again without the channel. *)
Definition stopElectionTimer (n : Node) : Node := set_electionTimer n None.

(** ** Log accessors *)

(** [uint64(len(n.log))]: a Go length is below 2^63, the conversion is exact. *)
Definition lastLogIndex (n : Node) : Z := Z.of_nat (length (log n)).

Definition lastLogTerm (n : Node) : Z :=
  match last (log n) with Some x => entry_Term x | None => 0 end.

Definition isLogUpToDate (n : Node) (candidateIndex candidateTerm : Z) : bool :=
  let localTerm := lastLogTerm n in
  if negb (candidateTerm =? localTerm) then localTerm <? candidateTerm
  else lastLogIndex n <=? candidateIndex.

Definition matchPrevLog (n : Node) (prevIndex prevTerm : Z) : exec bool :=
  if prevIndex =? 0 then Ok true
  else if lastLogIndex n <? prevIndex then Ok false
  else let! x := go_index (log n) (prevIndex - 1) in Ok (entry_Term x =? prevTerm).

(** The loop of [appendEntries]; [index] is [int(prevIndex) + i]. *)
Fixpoint appendEntries_loop (l : list LogEntry) (index : Z) (entries : list LogEntry)
  : exec (list LogEntry) :=
  match entries with
  | [] => Ok l
  | entry :: rest =>
      if index <? Z.of_nat (length l) then
        let! x := go_index l index in
        let l' := if negb (entry_Term x =? entry_Term entry)
                  then take (Z.to_nat index) l ++ [entry] else l in
        appendEntries_loop l' (index + 1) rest
      else appendEntries_loop (l ++ [entry]) (index + 1) rest
  end.

Definition appendEntries (n : Node) (prevIndex : Z) (entries : list LogEntry) : exec Node :=
  let! l := appendEntries_loop (log n) (i64 prevIndex) entries in Ok (set_log n l).

(** ** Commit and apply *)

(** The loop [for n.lastApplied < n.commitIndex]; the fuel passed below is the
    distance, one unit per iteration. *)
Fixpoint collect_loop (fuel : nat) (n : Node) (acc : list LogEntry)
  : exec (Node * list LogEntry) :=
  if lastApplied n <? commitIndex n then
    match fuel with
    | O => Ok (n, acc)
    | S fuel =>
        let! x := go_index (log n) (lastApplied n) in
        collect_loop fuel (set_commit n (commitIndex n) (lastApplied n + 1)) (acc ++ [x])
    end
  else Ok (n, acc).

Definition collectCommittedLocked (n : Node) : exec (Node * list LogEntry) :=
  if commitIndex n <=? lastApplied n then Ok (n, [])
  else collect_loop (Z.to_nat (commitIndex n - lastApplied n)) n [].

(** [applyEntries] calls [applyFn], a step function of the replicated state
    machine's state [S], on each entry in order; a nil [applyFn] skips. *)
Definition applyEntries {S} (applyFn : option (LogEntry -> S -> S))
    (entries : list LogEntry) (s : S) : S :=
  match applyFn with
  | None => s
  | Some f => fold_left (fun s x => f x s) entries s
  end.

(** ** Elections *)

(** [(len(n.peers)+1)/2 + 1]; [Z.quot] is Go's truncating division. *)
Definition quorum (n : Node) : Z :=
  Z.quot (Z.of_nat (length (peers n)) + 1) 2 + 1.

Definition stepDownLocked (n : Node) (term : Z) (leader : string) : Node :=
  let t := if currentTerm n <? term then term else currentTerm n in
  set_role (set_term_vote n t "") StateFollower leader.

Definition HandleRequestVote (e : Env) (n : Node) (req : RequestVoteRequest)
  : Node * RequestVoteResponse :=
  if rv_Term req <? currentTerm n then (n, mkVoteResp (currentTerm n) false)
  else
    let n := if currentTerm n <? rv_Term req
             then stepDownLocked n (rv_Term req) "" else n in
    if negb (isLogUpToDate n (rv_LastLogIndex req) (rv_LastLogTerm req))
    then (n, mkVoteResp (currentTerm n) false)
    else
      let grant := (votedFor n =?s "") || (votedFor n =?s rv_CandidateID req) in
      let n := if grant then set_term_vote n (currentTerm n) (rv_CandidateID req) else n in
      let n := if grant then resetElectionTimer e n else n in
      (n, mkVoteResp (currentTerm n) grant).

(** [HandleAppendEntries] up to the unlock; the entries returned are the ones
    it hands to [applyEntries] afterwards. *)
Definition HandleAppendEntries (e : Env) (n : Node) (req : AppendEntriesRequest)
  : exec (Node * AppendEntriesResponse * list LogEntry) :=
  if ae_Term req <? currentTerm n
  then Ok (n, mkAppendResp (currentTerm n) false, [])
  else
    let n := if currentTerm n <? ae_Term req
             then stepDownLocked n (ae_Term req) (ae_LeaderID req) else n in
    let hasEntries := negb (bool_decide (ae_Entries req = [])) in
    let! ok := (if hasEntries
                then matchPrevLog n (ae_PrevLogIndex req) (ae_PrevLogTerm req)
                else Ok true) in
    if hasEntries && negb ok
    then Ok (n, mkAppendResp (currentTerm n) false, [])
    else
      let! n := (if hasEntries
                 then appendEntries n (ae_PrevLogIndex req) (ae_Entries req)
                 else Ok n) in
      let n := if commitIndex n <? ae_LeaderCommit req then
                 let lastIndex := lastLogIndex n in
                 if ae_LeaderCommit req <? lastIndex
                 then set_commit n (ae_LeaderCommit req) (lastApplied n)
                 else set_commit n lastIndex (lastApplied n)
               else n in
      let n := set_lastHeartbeat n (now e) in
      let! (n, entriesToApply) := collectCommittedLocked n in
      let n := set_role n StateFollower (ae_LeaderID req) in
      let n := resetElectionTimer e n in
      Ok (n, mkAppendResp (currentTerm n) true, entriesToApply).

(** [onElectionTimeout]: a leader only re-arms its timer, anyone else starts an
    election; [true] asks for [startElection]. *)
Definition onElectionTimeout (e : Env) (n : Node) : Node * bool :=
  if bool_decide (state n = StateLeader) then (resetElectionTimer e n, false)
  else (n, true).

(** The locals of a running [startElection]. *)
Record Election : Type := mkElection {
  el_term : Z; el_votes : Z; el_needed : Z; el_responses : Z }.

(** First critical section of [startElection], with the timer reset and the
    initialisation of the locals that follow it. *)
Definition startElection_enter (e : Env) (n : Node) : Node * Election :=
  let n := set_term_vote n (u64 (currentTerm n + 1)) (id n) in
  let n := set_role n StateCandidate "" in
  let term := currentTerm n in
  let n := resetElectionTimer e n in
  (n, mkElection term 1 (quorum n) 0).

(** The request each peer's goroutine builds, reading the log when it runs. *)
Definition startElection_request (n : Node) (term : Z) : RequestVoteRequest :=
  mkVoteReq term (id n) (lastLogIndex n) (lastLogTerm n).

(** What the loop does after one response. *)
Inductive ElectionOutcome : Type :=
| ElectionWait (el : Election)     (* back to the head of the loop *)
| ElectionReturn                   (* [return], or the loop is over *)
| ElectionPromote.                 (* calls [becomeLeader] *)

(** The body of the loop on a response received from [respCh]. *)
Definition startElection_recv (e : Env) (n : Node) (el : Election)
    (resp : RequestVoteResponse) : Node * ElectionOutcome :=
  let el := mkElection (el_term el) (el_votes el) (el_needed el) (el_responses el + 1) in
  let next el := if el_responses el <? Z.of_nat (length (peers n))
                 then ElectionWait el else ElectionReturn in
  if currentTerm n <? rvr_Term resp
  then (resetElectionTimer e (stepDownLocked n (rvr_Term resp) ""), ElectionReturn)
  else if negb (bool_decide (state n = StateCandidate)) || negb (currentTerm n =? el_term el)
  then (n, ElectionReturn)
  else if rvr_VoteGranted resp then
    let el := mkElection (el_term el) (el_votes el + 1) (el_needed el) (el_responses el) in
    if el_needed el <=? el_votes el then (n, ElectionPromote) else (n, next el)
  else (n, next el).

(** [becomeLeader] up to its unlock; [true] when it goes on to send heartbeats. *)
Definition becomeLeader (n : Node) : Node * bool :=
  if negb (bool_decide (state n = StateCandidate)) then (n, false)
  else if leaderID n =?s id n then (n, false)
  else (set_role n StateLeader (id n), true).

(** ** Heartbeats *)

(** First critical section of [sendHeartbeats]: the term the goroutines use,
    or [None] when the node is not the leader. *)
Definition sendHeartbeats_enter (e : Env) (n : Node) : Node * option Z :=
  if negb (bool_decide (state n = StateLeader)) then (n, None)
  else (set_lastHeartbeat n (now e), Some (currentTerm n)).

Definition sendHeartbeats_request (n : Node) (term : Z) : AppendEntriesRequest :=
  mkAppendReq term (id n) (lastLogIndex n) (lastLogTerm n) [] (commitIndex n).

(** The goroutine of one peer, on a response. *)
Definition sendHeartbeats_recv (e : Env) (n : Node) (term : Z)
    (resp : AppendEntriesResponse) : Node :=
  if term <? aer_Term resp then
    let n := if currentTerm n <? aer_Term resp
             then stepDownLocked n (aer_Term resp) "" else n in
    resetElectionTimer e n
  else n.

(** ** Proposals *)

(** The locals of a running [Propose]. *)
Record Proposal : Type := mkProposal {
  pr_entry : LogEntry; pr_prevIndex : Z; pr_prevTerm : Z; pr_newIndex : Z;
  pr_acks : Z; pr_needed : Z; pr_responses : Z }.

Definition Propose_enter (n : Node) (command : string) : RaftError + (Node * Proposal) :=
  if negb (bool_decide (state n = StateLeader)) then inl ErrNotLeader
  else
    let prevIndex := lastLogIndex n in
    let prevTerm := lastLogTerm n in
    let entry := mkEntry (currentTerm n) command in
    let n := set_log n (log n ++ [entry]) in
    let newIndex := lastLogIndex n in
    inr (n, mkProposal entry prevIndex prevTerm newIndex 1 (quorum n) 0).

(** The request each peer's goroutine builds; [commitIndex] is read when it runs. *)
Definition Propose_request (n : Node) (pr : Proposal) : AppendEntriesRequest :=
  mkAppendReq (entry_Term (pr_entry pr)) (id n) (pr_prevIndex pr) (pr_prevTerm pr)
    [pr_entry pr] (commitIndex n).

Inductive ProposeOutcome : Type :=
| ProposeWait (pr : Proposal)
| ProposeReturn (err : option RaftError).

(** The body of the loop on a response: the node, what the loop does next and
    the entries given to [applyEntries]. *)
Definition Propose_recv (n : Node) (pr : Proposal) (resp : AppendEntriesResponse)
  : exec (Node * ProposeOutcome * list LogEntry) :=
  let pr := mkProposal (pr_entry pr) (pr_prevIndex pr) (pr_prevTerm pr) (pr_newIndex pr)
              (pr_acks pr) (pr_needed pr) (pr_responses pr + 1) in
  let next pr := if pr_responses pr <? Z.of_nat (length (peers n))
                 then ProposeWait pr else ProposeReturn (Some ErrReplicationFailed) in
  if entry_Term (pr_entry pr) <? aer_Term resp then
    let n := if currentTerm n <? aer_Term resp
             then stepDownLocked n (aer_Term resp) "" else n in
    Ok (n, ProposeReturn (Some ErrNotLeader), [])
  else if aer_Success resp then
    let pr := mkProposal (pr_entry pr) (pr_prevIndex pr) (pr_prevTerm pr) (pr_newIndex pr)
                (pr_acks pr + 1) (pr_needed pr) (pr_responses pr) in
    if pr_needed pr <=? pr_acks pr then
      if commitIndex n <? pr_newIndex pr then
        let! (n, entriesToApply) :=
          collectCommittedLocked (set_commit n (pr_newIndex pr) (lastApplied n)) in
        Ok (n, ProposeReturn None, entriesToApply)
      else Ok (n, ProposeReturn None, [])
    else Ok (n, next pr, [])
  else Ok (n, next pr, []).

(** ** Sequential runs

    [startElection] and [Propose] when nothing else touches the node between
    their critical sections: [resps] are the responses in the order they
    come out of the channel, [None] being a failed RPC; a list shorter than the
    peers means that [ctx] is done first. *)

Fixpoint startElection_loop (e : Env) (n : Node) (el : Election)
    (resps : list (option RequestVoteResponse)) : Node :=
  match resps with
  | [] => n
  | r :: rest =>
      let resp := match r with Some resp => resp
                  | None => mkVoteResp (el_term el) false end in
      match startElection_recv e n el resp with
      | (n, ElectionWait el) => startElection_loop e n el rest
      | (n, ElectionReturn) => n
      | (n, ElectionPromote) =>
          let '(n, ok) := becomeLeader n in
          if ok then fst (sendHeartbeats_enter e n) else n
      end
  end.

Definition startElection (e : Env) (n : Node)
    (resps : list (option RequestVoteResponse)) : Node :=
  let '(n, el) := startElection_enter e n in
  startElection_loop e n el (take (length (peers n)) resps).

Fixpoint Propose_loop (n : Node) (pr : Proposal)
    (resps : list (option AppendEntriesResponse)) (acc : list LogEntry)
  : exec (Node * option RaftError * list LogEntry) :=
  match resps with
  | [] => Ok (n, Some (if pr_responses pr <? Z.of_nat (length (peers n))
                       then ErrContext else ErrReplicationFailed), acc)
  | r :: rest =>
      let resp := match r with Some resp => resp
                  | None => mkAppendResp (entry_Term (pr_entry pr)) false end in
      let! (n, out, es) := Propose_recv n pr resp in
      match out with
      | ProposeWait pr => Propose_loop n pr rest (acc ++ es)
      | ProposeReturn err => Ok (n, err, acc ++ es)
      end
  end.

Definition Propose (n : Node) (command : string)
    (resps : list (option AppendEntriesResponse))
  : exec (Node * option RaftError * list LogEntry) :=
  match Propose_enter n command with
  | inl err => Ok (n, Some err, [])
  | inr (n, pr) => Propose_loop n pr (take (length (peers n)) resps) []
  end.

(** ** The loop of [Run]

    What the [select] of [Run] receives: the end of the context, the election
    timer (with the vote responses of the election it may start) or the
    heartbeat ticker. *)
Inductive RunEvent : Type :=
| RunDone
| RunTimer (e : Env) (resps : list (option RequestVoteResponse))
| RunTick (e : Env).

(** A timer that has fired is not running any more. *)
Definition expireElectionTimer (n : Node) : Node := set_electionTimer n None.

(** The loop, from its head: the node and, when the context ended, [ctx.Err()]. *)
Fixpoint Run_loop (n : Node) (evs : list RunEvent) : Node * option RaftError :=
  match evs with
  | [] => (n, None)
  | RunDone :: _ => (stopElectionTimer n, Some ErrContext)
  | RunTimer e resps :: evs =>
      let '(n, start) := onElectionTimeout e (expireElectionTimer n) in
      Run_loop (if start then startElection e n resps else n) evs
  | RunTick e :: evs => Run_loop (fst (sendHeartbeats_enter e n)) evs
  end.

Definition Run (e : Env) (n : Node) (evs : list RunEvent) : Node * option RaftError :=
  Run_loop (resetElectionTimer e n) evs.

(** ** Accessors

    Each takes the lock on its own; [LogSnapshot] copies the log. *)
Definition Node_State (n : Node) : State := state n.
Definition CurrentTerm (n : Node) : Z := currentTerm n.
Definition LeaderID (n : Node) : string := leaderID n.
Definition CommitIndex (n : Node) : Z := commitIndex n.
Definition LastHeartbeatTime (n : Node) : Z := lastHeartbeat n.
Definition LogSnapshot (n : Node) : list LogEntry := log n.
