(* ===== verification/RaftSpec.v ===== *)
(** * The replication protocol, abstractly

    The contract of the Raft package as a transition system over the part of
    each node the protocol depends on (term, vote, role, log), with history
    variables: who voted for whom in each term, the log of each term's leader,
    what each member acknowledged, and the entries that were chosen.  Steps are
    whole protocol actions; the cluster model is proved to implement them.
    Election safety, log matching and leader completeness are invariants. *)

From stdpp Require Import base gmap strings list relations.
From S2P Require Import Prelude RaftNode.

#[local] Open Scope Z_scope.

Record ANode : Type := mkANode {
  a_term : Z; a_vote : option string; a_role : State; a_log : list LogEntry }.

Record AState : Type := mkAState {
  a_nodes : gmap string ANode;
  (** who a member voted for in a term *)
  a_voted : gmap (string * Z) string;
  (** the leader of a term and its log while it leads *)
  a_llog : gmap Z (string * list LogEntry);
  (** the longest prefix of the term's leader log a member acknowledged *)
  a_acked : gmap (string * Z) nat;
  (** the (term, length) prefixes reported as committed by their leader *)
  a_chosen : list (Z * nat) }.

Definition lastTerm (l : list LogEntry) : Z :=
  match last l with Some x => entry_Term x | None => 0 end.

(** The voting rule: the candidate's last term is later, or equal with a log
    at least as long. *)
Definition upToDate (l : list LogEntry) (li lt : Z) : Prop :=
  lastTerm l < lt \/ (lt = lastTerm l /\ Z.of_nat (length l) <= li).

(** The log of a follower after one entry at position [p]. *)
Definition putEntry (l : list LogEntry) (p : nat) (x : LogEntry) : list LogEntry :=
  match l !! p with
  | Some y => if entry_Term y =? entry_Term x then l else take p l ++ [x]
  | None => l ++ [x]
  end.

Definition termAt (l : list LogEntry) (p : nat) : option Z := entry_Term <$> l !! p.

(** The follower's consistency check on the entry before position [p]. *)
Definition prevMatch (l L : list LogEntry) (p : nat) : Prop :=
  match p with O => True | S q => exists t, termAt l q = Some t /\ termAt L q = Some t end.

(** Case analysis on the lookups of an updated history or node map. *)
Ltac lookups :=
  repeat match goal with
  | H : <[_ := _]> _ !! _ = Some _ |- _ =>
      let Hn := fresh "Hn" in let Hk := fresh "Hk" in
      apply lookup_insert_Some in H; destruct H as [[? ?]|[Hn Hk]]; simplify_eq
  | H : ?m !! ?k = Some ?a, H' : ?m !! ?k = Some ?b |- _ =>
      assert (a = b) by congruence; clear H'; simplify_eq
  end.

Section Protocol.
Context (M : gset string).

Definition majority (Q : gset string) : Prop :=
  Q ⊆ M /\ (size M < 2 * size Q)%nat.

Definition ackd (s : AState) (v : string) (T : Z) (k : nat) : Prop :=
  exists m, a_acked s !! (v, T) = Some m /\ (k <= m)%nat.

Definition upd (s : AState) (i : string) (n : ANode) : AState :=
  mkAState (<[i := n]> (a_nodes s)) (a_voted s) (a_llog s) (a_acked s) (a_chosen s).

Definition add_vote (s : AState) (v : string) (T : Z) (c : string) : AState :=
  mkAState (a_nodes s) (<[(v, T) := c]> (a_voted s)) (a_llog s) (a_acked s) (a_chosen s).

Definition set_llog (s : AState) (T : Z) (i : string) (L : list LogEntry) : AState :=
  mkAState (a_nodes s) (a_voted s) (<[T := (i, L)]> (a_llog s)) (a_acked s) (a_chosen s).

Definition add_ack (s : AState) (v : string) (T : Z) (k : nat) : AState :=
  mkAState (a_nodes s) (a_voted s) (a_llog s)
    (<[(v, T) := Nat.max k (default 0%nat (a_acked s !! (v, T)))]> (a_acked s)) (a_chosen s).

Definition add_chosen (s : AState) (T : Z) (k : nat) : AState :=
  mkAState (a_nodes s) (a_voted s) (a_llog s) (a_acked s) ((T, k) :: a_chosen s).

Inductive astep : AState -> AState -> Prop :=
(** a member learns of a later term and becomes a follower in it *)
| as_adopt s v n t :
    a_nodes s !! v = Some n -> a_term n < t ->
    astep s (upd s v (mkANode t None StateFollower (a_log n)))
(** a member accepts the leader of its term *)
| as_follow s v n :
    a_nodes s !! v = Some n ->
    astep s (upd s v (mkANode (a_term n) (a_vote n) StateFollower (a_log n)))
(** a member stands for election *)
| as_elect s i n :
    a_nodes s !! i = Some n ->
    astep s (add_vote (upd s i (mkANode (a_term n + 1) (Some i) StateCandidate (a_log n)))
               i (a_term n + 1) i)
(** a member votes; [li] and [lt] are what the candidate said of its log *)
| as_vote s v n c nc li lt :
    v <> c -> a_nodes s !! v = Some n -> a_nodes s !! c = Some nc ->
    a_vote n = None \/ a_vote n = Some c ->
    a_voted s !! (c, a_term n) = Some c ->
    (a_role nc = StateCandidate -> a_term nc = a_term n ->
     li = Z.of_nat (length (a_log nc)) /\ lt = lastTerm (a_log nc)) ->
    upToDate (a_log n) li lt ->
    astep s (add_vote (upd s v (mkANode (a_term n) (Some c) (a_role n) (a_log n)))
               v (a_term n) c)
(** a candidate with a majority of votes leads *)
| as_lead s i n Q :
    a_nodes s !! i = Some n -> a_role n = StateCandidate -> majority Q ->
    (forall v, v ∈ Q -> a_voted s !! (v, a_term n) = Some i) ->
    astep s (set_llog (upd s i (mkANode (a_term n) (a_vote n) StateLeader (a_log n)))
               (a_term n) i (a_log n))
(** a leader appends a command of its own *)
| as_propose s i n cmd :
    a_nodes s !! i = Some n -> a_role n = StateLeader ->
    let l := a_log n ++ [mkEntry (a_term n) cmd] in
    astep s (add_ack (set_llog (upd s i (mkANode (a_term n) (a_vote n) StateLeader l))
                        (a_term n) i l) i (a_term n) (length l))
(** a follower takes one entry of its leader's log *)
| as_replicate s v n j L p x :
    a_nodes s !! v = Some n -> a_llog s !! a_term n = Some (j, L) -> j <> v ->
    L !! p = Some x -> prevMatch (a_log n) L p -> entry_Term x = a_term n ->
    astep s (add_ack (upd s v (mkANode (a_term n) (a_vote n) StateFollower
                                 (putEntry (a_log n) p x))) v (a_term n) (S p))
(** the leader of [T] counts a majority of acknowledgements *)
| as_choose s T k x j L Q :
    a_llog s !! T = Some (j, L) -> L !! k = Some x -> entry_Term x = T ->
    majority Q -> (forall v, v ∈ Q -> ackd s v T (S k)) ->
    astep s (add_chosen s T (S k)).

Definition ainit (s : AState) : Prop :=
  dom (a_nodes s) = M /\
  (forall i n, a_nodes s !! i = Some n -> n = mkANode 0 None StateFollower []) /\
  a_voted s = ∅ /\ a_llog s = ∅ /\ a_acked s = ∅ /\ a_chosen s = [].

Lemma majority_intersect Q1 Q2 :
  majority Q1 -> majority Q2 -> exists v, v ∈ Q1 /\ v ∈ Q2.
Proof.
  intros [Hs1 Hc1] [Hs2 Hc2].
  destruct (decide (Q1 ∩ Q2 = ∅)) as [Hd|Hne].
  - exfalso. assert (size (Q1 ∪ Q2) = size Q1 + size Q2)%nat as Hu.
    { apply size_union. set_solver. }
    assert (Hle : Q1 ∪ Q2 ⊆ M) by set_solver.
    apply subseteq_size in Hle. lia.
  - apply set_choose_L in Hne as [v Hv]. exists v. set_solver.
Qed.

(** ** Votes and leaders *)

Record VoteInv (s : AState) : Prop := {
  vi_dom : dom (a_nodes s) = M;
  vi_nonneg v n : a_nodes s !! v = Some n -> 0 <= a_term n;
  vi_voted v T c : a_voted s !! (v, T) = Some c ->
    exists n, a_nodes s !! v = Some n /\ 1 <= T <= a_term n /\
              (T = a_term n -> a_vote n = Some c);
  vi_vote v n c : a_nodes s !! v = Some n -> a_vote n = Some c ->
    a_voted s !! (v, a_term n) = Some c;
  vi_self v n : a_nodes s !! v = Some n -> a_role n <> StateFollower -> a_vote n = Some v;
  vi_lead T i L : a_llog s !! T = Some (i, L) ->
    (exists Q, majority Q /\ forall v, v ∈ Q -> a_voted s !! (v, T) = Some i) /\
    exists n, a_nodes s !! i = Some n /\ T <= a_term n /\
              (T = a_term n -> a_role n <> StateCandidate);
  vi_leader i n : a_nodes s !! i = Some n -> a_role n = StateLeader ->
    a_llog s !! a_term n = Some (i, a_log n) }.

Lemma majority_inhabited Q : majority Q -> exists v, v ∈ Q.
Proof. intros HQ. destruct (majority_intersect Q Q HQ HQ) as (v & ? & _). eauto. Qed.

Lemma llog_unique s T i L Q j :
  VoteInv s -> a_llog s !! T = Some (i, L) -> majority Q ->
  (forall v, v ∈ Q -> a_voted s !! (v, T) = Some j) -> i = j.
Proof.
  intros Hinv HL HQ Hv. destruct (vi_lead _ Hinv _ _ _ HL) as [(Q' & HQ' & Hv') _].
  destruct (majority_intersect _ _ HQ HQ') as (v & H1 & H2).
  apply Hv in H1. apply Hv' in H2. congruence.
Qed.

Lemma llog_pos s T i L : VoteInv s -> a_llog s !! T = Some (i, L) -> 1 <= T.
Proof.
  intros Hinv HL. destruct (vi_lead _ Hinv _ _ _ HL) as [(Q & HQ & Hv) _].
  destruct (majority_inhabited _ HQ) as [v Hvq].
  destruct (vi_voted _ Hinv _ _ _ (Hv _ Hvq)) as (n & ? & ? & ?). lia.
Qed.

Lemma dom_upd s i n n' :
  dom (a_nodes s) = M -> a_nodes s !! i = Some n -> dom (<[i := n']> (a_nodes s)) = M.
Proof.
  intros <- Hi. rewrite dom_insert_L. apply elem_of_dom_2 in Hi. set_solver.
Qed.

Lemma vote_follow_step s v n n' :
  VoteInv s -> a_nodes s !! v = Some n ->
  (a_term n < a_term n' /\ a_vote n' = None \/
   a_term n' = a_term n /\ a_vote n' = a_vote n) ->
  a_role n' = StateFollower -> VoteInv (upd s v n').
Proof.
  intros Hinv Hv Hch Hrole. destruct Hinv as [Hd H0 Hvd Hvt Hself Hlead Hldr].
  split; simpl.
  - eauto using dom_upd.
  - intros w m Hm. lookups; [|eauto]. specialize (H0 _ _ Hv). lia.
  - intros w T c Hw. destruct (Hvd _ _ _ Hw) as (m & Hm & HT & Heq).
    destruct (decide (w = v)) as [->|Hne].
    + exists n'. rewrite lookup_insert_eq. lookups. split; [done|].
      split; [lia|]. intros ->. destruct Hch as [[? ?]|[E1 E2]]; [lia|].
      rewrite E2. apply Heq. lia.
    + exists m. by rewrite lookup_insert_ne.
  - intros w m c Hm Hc. lookups; [|eauto].
    destruct Hch as [[? E]|[E1 E2]]; [congruence|].
    rewrite E1. eapply Hvt; [done|congruence].
  - intros w m Hm Hr. lookups; first [congruence|eauto].
  - intros T i L HL. destruct (Hlead _ _ _ HL) as [HQ (m & Hm & HT & Hr)]. split; [done|].
    destruct (decide (i = v)) as [->|Hne].
    + exists n'. rewrite lookup_insert_eq. lookups. split; [done|].
      split; [lia|]. intros _. congruence.
    + exists m. by rewrite lookup_insert_ne.
  - intros i m Hm Hr. lookups; first [congruence|eauto].
Qed.

(** Recording a vote of a member that is in the term, for [c]. *)
Lemma vote_cast_step s v n n' c :
  VoteInv s -> a_nodes s !! v = Some n ->
  (a_term n' = a_term n + 1 /\ c = v \/
   a_term n' = a_term n /\ 1 <= a_term n /\ (a_vote n = None \/ a_vote n = Some c)) ->
  a_vote n' = Some c ->
  (a_role n' = StateFollower \/ a_role n' = StateCandidate /\ c = v /\ a_term n' = a_term n + 1 \/
   a_role n' = a_role n /\ a_term n' = a_term n /\ a_log n' = a_log n) ->
  VoteInv (add_vote (upd s v n') v (a_term n') c).
Proof.
  intros Hinv Hv Ht Hvote Hrole. pose proof (llog_unique s) as _.
  destruct Hinv as [Hd H0 Hvd Hvt Hself Hlead Hldr].
  pose proof (H0 _ _ Hv) as Hn0.
  split; simpl.
  - eauto using dom_upd.
  - intros w m Hm. lookups; [|eauto]. lia.
  - intros w T c' Hw. lookups.
    + exists n'. rewrite lookup_insert_eq. repeat split; try done; lia.
    + destruct (Hvd _ _ _ Hk) as (m & Hm & HT & Heq).
      destruct (decide (w = v)) as [->|Hne].
      * exists n'. rewrite lookup_insert_eq. lookups. split; [done|]. split; [lia|].
        intros ->. congruence.
      * exists m. by rewrite lookup_insert_ne.
  - intros w m c' Hm Hc. lookups.
    + rewrite lookup_insert_eq. congruence.
    + rewrite lookup_insert_ne by congruence. eauto.
  - intros w m Hm Hr. lookups; [|eauto].
    destruct Hrole as [?|[(?&->&?)|(E&Et&?)]]; [congruence|done|].
    rewrite E in Hr. destruct Ht as [[? ->]|(?&?&Hor)]; [done|].
    specialize (Hself _ _ Hv Hr). destruct Hor; congruence.
  - intros T i L HL. destruct (Hlead _ _ _ HL) as [(Q & HQ & HvQ) (m & Hm & HT & Hr)]. split.
    + exists Q. split; [done|]. intros w Hw.
      destruct (decide ((v, a_term n') = (w, T))) as [E|Hne];
        [|rewrite lookup_insert_ne by done; auto].
      injection E as -> <-. rewrite lookup_insert_eq. f_equal.
      destruct (Hvd _ _ _ (HvQ _ Hw)) as (m' & Hm' & HT' & Heq). lookups.
      destruct Ht as [[? ?]|(?&?&Hor)]; [lia|]. rewrite Heq in Hor by lia.
      destruct Hor; congruence.
    + destruct (decide (i = v)) as [->|Hne].
      * exists n'. rewrite lookup_insert_eq. lookups. split; [done|].
        split; [lia|]. intros ->.
        destruct Hrole as [?|[(?&->&?)|(E&Et&?)]]; [congruence|lia|].
        rewrite E. apply Hr. lia.
      * exists m. by rewrite lookup_insert_ne.
  - intros i m Hm Hr. lookups; [|eauto].
    destruct Hrole as [?|[(?&->&?)|(E&Et&Elog)]]; [congruence|congruence|].
    rewrite Et, Elog. apply Hldr; congruence.
Qed.

Lemma vote_lead_step s i n Q :
  VoteInv s -> a_nodes s !! i = Some n -> a_role n = StateCandidate -> majority Q ->
  (forall v, v ∈ Q -> a_voted s !! (v, a_term n) = Some i) ->
  a_llog s !! a_term n = None /\
  VoteInv (set_llog (upd s i (mkANode (a_term n) (a_vote n) StateLeader (a_log n)))
             (a_term n) i (a_log n)).
Proof.
  intros Hinv Hi Hc HQ Hv.
  assert (Hnone : a_llog s !! a_term n = None).
  { destruct (a_llog s !! a_term n) as [[j L]|] eqn:E; [|done]. exfalso.
    assert (j = i) as -> by eauto using llog_unique.
    destruct (vi_lead _ Hinv _ _ _ E) as [_ (m & Hm & _ & Hr)]. lookups. by apply Hr. }
  split; [done|]. destruct Hinv as [Hd H0 Hvd Hvt Hself Hlead Hldr].
  split; simpl.
  - eauto using dom_upd.
  - intros w m Hm. lookups; simpl; eauto.
  - intros w T c Hw. destruct (Hvd _ _ _ Hw) as (m & Hm & HT & Heq).
    destruct (decide (w = i)) as [->|Hne].
    + eexists. rewrite lookup_insert_eq. by lookups.
    + exists m. by rewrite lookup_insert_ne.
  - intros w m c Hm Hc'. lookups; simpl in *; eauto.
  - intros w m Hm Hr. lookups; simpl; [|eauto]. apply Hself; congruence.
  - intros T j L HL. lookups.
    + split; [by exists Q|]. eexists. rewrite lookup_insert_eq. by split.
    + destruct (Hlead _ _ _ Hk) as [HQ' (m & Hm & HT & Hr)]. split; [done|].
      destruct (decide (j = i)) as [->|Hne].
      * eexists. rewrite lookup_insert_eq. by lookups.
      * exists m. by rewrite lookup_insert_ne.
  - intros j m Hm Hr. lookups; simpl; [by rewrite lookup_insert_eq|].
    destruct (decide (a_term m = a_term n)) as [E|Hne].
    + specialize (Hldr _ _ Hk Hr). congruence.
    + rewrite lookup_insert_ne by done. eauto.
Qed.

Lemma vote_propose_step s i n l :
  VoteInv s -> a_nodes s !! i = Some n -> a_role n = StateLeader ->
  VoteInv (set_llog (upd s i (mkANode (a_term n) (a_vote n) StateLeader l)) (a_term n) i l).
Proof.
  intros Hinv Hi Hl. pose proof (vi_leader _ Hinv _ _ Hi Hl) as Hli.
  destruct (vi_lead _ Hinv _ _ _ Hli) as [HQi _].
  destruct Hinv as [Hd H0 Hvd Hvt Hself Hlead Hldr].
  split; simpl.
  - eauto using dom_upd.
  - intros w m Hm. lookups; simpl; eauto.
  - intros w T c Hw. destruct (Hvd _ _ _ Hw) as (m & Hm & HT & Heq).
    destruct (decide (w = i)) as [->|Hne].
    + eexists. rewrite lookup_insert_eq. by lookups.
    + exists m. by rewrite lookup_insert_ne.
  - intros w m c Hm Hc'. lookups; simpl in *; eauto.
  - intros w m Hm Hr. lookups; simpl; [|eauto]. apply Hself; congruence.
  - intros T j L HL. lookups.
    + split; [done|]. eexists. rewrite lookup_insert_eq. by split.
    + destruct (Hlead _ _ _ Hk) as [HQ' (m & Hm & HT & Hr)]. split; [done|].
      destruct (decide (j = i)) as [->|Hne].
      * eexists. rewrite lookup_insert_eq. by lookups.
      * exists m. by rewrite lookup_insert_ne.
  - intros j m Hm Hr. lookups; simpl; [by rewrite lookup_insert_eq|].
    destruct (decide (a_term m = a_term n)) as [E|Hne].
    + specialize (Hldr _ _ Hk Hr). congruence.
    + rewrite lookup_insert_ne by done. eauto.
Qed.

Lemma vote_add_ack s v T k : VoteInv s -> VoteInv (add_ack s v T k).
Proof. by intros []; split. Qed.

Lemma vote_step s s' : VoteInv s -> astep s s' -> VoteInv s'.
Proof.
  intros Hinv Hstep. revert Hinv.
  destruct Hstep as [s0 v n t Hv Ht|s0 v n Hv|s0 i n Hi|s0 v n c nc li lt Hne Hv Hc Hvote Hcv _ _
              |s0 i n Q Hi Hr HQ HvQ|s0 i n cmd Hi Hr l|s0 v n j L p x Hv HL Hne Hx Hp Hxt
              |s0 T k x j L Q HL Hx HxT HQ Hack]; intros Hinv; simpl.
  - eapply vote_follow_step; eauto.
  - eapply vote_follow_step; eauto.
  - eapply (vote_cast_step _ _ _ (mkANode _ _ _ _)); eauto; simpl; intuition.
  - destruct (vi_voted _ Hinv _ _ _ Hcv) as (? & _ & ? & _).
    eapply (vote_cast_step _ _ _ (mkANode _ _ _ _)); eauto; simpl; intuition.
  - eapply vote_lead_step; eauto.
  - apply vote_add_ack. eapply vote_propose_step; eauto.
  - apply vote_add_ack. eapply vote_follow_step; eauto.
  - by destruct Hinv; split.
Qed.

Lemma vote_init s : ainit s -> VoteInv s.
Proof.
  intros (Hd & Hn & Hvt & Hl & Ha & Hc). split; try done.
  - intros v n Hv. by rewrite (Hn _ _ Hv).
  - intros v T c Hv. by rewrite Hvt in Hv.
  - intros v n c Hv. by rewrite (Hn _ _ Hv).
  - intros v n Hv. by rewrite (Hn _ _ Hv).
  - intros T i L HL. by rewrite Hl in HL.
  - intros v n Hv. by rewrite (Hn _ _ Hv).
Qed.
End Protocol.
