(* ===== verification/RaftLog.v ===== *)
(** * Log matching for the abstract protocol

    Every log is, up to each of its entries, a prefix of the log of the leader
    of that entry's term ([anchored]); two logs that agree on the term of an
    entry therefore agree on everything before it. *)

From stdpp Require Import base gmap strings list relations.
From S2P Require Import Prelude RaftNode RaftSpec.

#[local] Open Scope Z_scope.

(** ** Prefixes *)

Lemma take_le_eq {A} (l l' : list A) j k :
  (j <= k)%nat -> take k l = take k l' -> take j l = take j l'.
Proof.
  intros Hjk H. apply (f_equal (take j)) in H.
  by rewrite !take_take, Nat.min_l in H.
Qed.

Lemma take_eq_lookup {A} (l l' : list A) j k :
  (j < k)%nat -> take k l = take k l' -> l !! j = l' !! j.
Proof.
  intros Hjk H. apply (f_equal (lookup j)) in H.
  by rewrite !lookup_take_lt in H by done.
Qed.

Lemma take_eq_length {A} (l l' : list A) k :
  take k l = take k l' -> (k <= length l)%nat -> (k <= length l')%nat.
Proof. intros H Hk. apply (f_equal length) in H. rewrite !length_take in H. lia. Qed.

Lemma take_prefix {A} (l l' : list A) k :
  l `prefix_of` l' -> (k <= length l)%nat -> take k l' = take k l.
Proof. intros [r ->] Hk. by rewrite take_app_le. Qed.

Lemma take_S_lookup {A} (l : list A) k x : l !! k = Some x -> take (S k) l = take k l ++ [x].
Proof. apply take_S_r. Qed.

#[export] Hint Resolve lookup_lt_Some : edgesim.

Section LogMatching.
Context (M : gset string).
Implicit Types s : AState.

Definition anchored s (l : list LogEntry) : Prop :=
  forall k x, l !! k = Some x ->
  exists j L, a_llog s !! entry_Term x = Some (j, L) /\ take (S k) l = take (S k) L.

Definition llog_le s s' : Prop :=
  forall T j L, a_llog s !! T = Some (j, L) ->
  exists L', a_llog s' !! T = Some (j, L') /\ L `prefix_of` L'.

Lemma llog_le_refl s s' : a_llog s' = a_llog s -> llog_le s s'.
Proof. intros E T j L HL. exists L. by rewrite E. Qed.

Lemma anchored_mono s s' l : llog_le s s' -> anchored s l -> anchored s' l.
Proof.
  intros Hle Ha k x Hx. destruct (Ha _ _ Hx) as (j & L & HL & Ht).
  destruct (Hle _ _ _ HL) as (L' & HL' & Hp). exists j, L'. split; [done|].
  rewrite Ht. symmetry. apply take_prefix; [done|].
  eapply take_eq_length; [done|]. apply lookup_lt_Some in Hx. lia.
Qed.

Lemma anchored_take s l k : anchored s l -> anchored s (take k l).
Proof.
  intros Ha j x Hx. apply lookup_take_Some in Hx as [Hx Hj].
  destruct (Ha _ _ Hx) as (i & L & HL & Ht). exists i, L. split; [done|].
  by rewrite take_take, Nat.min_l by lia.
Qed.

Lemma anchored_match s l L p :
  anchored s l -> anchored s L -> prevMatch l L p -> take p l = take p L.
Proof.
  intros Hl HL. destruct p as [|q]; [done|]. intros (t & H1 & H2).
  apply fmap_Some in H1 as (x & Hx & ->). apply fmap_Some in H2 as (y & Hy & E).
  destruct (Hl _ _ Hx) as (j & L1 & HL1 & ->).
  destruct (HL _ _ Hy) as (j2 & L2 & HL2 & ->). congruence.
Qed.

(** What a follower's log is after an entry: unchanged when it already holds
    the leader's prefix, and exactly that prefix otherwise. *)
Lemma putEntry_cases s l j L p x :
  anchored s l -> anchored s L -> a_llog s !! entry_Term x = Some (j, L) ->
  L !! p = Some x -> prevMatch l L p ->
  (putEntry l p x = l /\ take (S p) l = take (S p) L) \/
  (putEntry l p x = take (S p) L /\
   forall k, (p < k)%nat -> take k l = take k L -> (k <= length L)%nat -> False).
Proof.
  intros Hl HL HT Hx Hm. pose proof (anchored_match _ _ _ _ Hl HL Hm) as Hpre.
  pose proof (lookup_lt_Some _ _ _ Hx) as Hlen.
  unfold putEntry. destruct (l !! p) as [y|] eqn:Hy; [|right].
  - destruct (Z.eqb_spec (entry_Term y) (entry_Term x)) as [E|Hne]; [left|right].
    + split; [done|]. destruct (Hl _ _ Hy) as (j' & L' & HL' & ->). congruence.
    + rewrite Hpre, <- take_S_lookup by done. split; [done|].
      intros k Hk Heq _. apply (take_eq_lookup _ _ p) in Heq; [|done]. congruence.
  - apply lookup_ge_None in Hy.
    assert (Hp : (p <= length l)%nat) by (eapply take_eq_length; [symmetry; done|lia]).
    replace l with (take p l) by (rewrite take_ge by lia; done).
    rewrite Hpre, <- take_S_lookup by done. split; [done|].
    intros k Hk Heq HkL. symmetry in Heq. apply take_eq_length in Heq; [|done].
    rewrite length_take in Heq. lia.
Qed.

Record LogInv s : Prop := {
  li_node v n : a_nodes s !! v = Some n ->
    anchored s (a_log n) /\ forall x, x ∈ a_log n -> entry_Term x <= a_term n;
  li_llog T i L : a_llog s !! T = Some (i, L) ->
    anchored s L /\ forall x, x ∈ L -> entry_Term x <= T }.

Lemma log_mono s s' :
  LogInv s -> a_llog s' = a_llog s ->
  (forall v n', a_nodes s' !! v = Some n' -> exists n, a_nodes s !! v = Some n /\
     a_log n' = a_log n /\ a_term n <= a_term n') -> LogInv s'.
Proof.
  intros [Hn Hl] E Hs. pose proof (llog_le_refl _ _ E) as Hle. split.
  - intros v n' Hv. destruct (Hs _ _ Hv) as (n & Hn' & -> & Ht).
    destruct (Hn _ _ Hn') as [Ha Hx]. split; [by eapply anchored_mono|].
    intros x Hin. specialize (Hx _ Hin). lia.
  - intros T i L HL. rewrite E in HL. destruct (Hl _ _ _ HL). eauto using anchored_mono.
Qed.

Lemma llog_le_lead s i n n' :
  a_llog s !! a_term n = None ->
  llog_le s (set_llog (upd s i n') (a_term n) i (a_log n)).
Proof.
  intros Hnone T j L HL. exists L. simpl.
  rewrite lookup_insert_ne by congruence. done.
Qed.

Lemma llog_le_propose s i n n' l :
  a_llog s !! a_term n = Some (i, a_log n) -> a_log n `prefix_of` l ->
  llog_le s (set_llog (upd s i n') (a_term n) i l).
Proof.
  intros HT Hp T j L HL. simpl. destruct (decide (T = a_term n)) as [->|Hne].
  - exists l. rewrite lookup_insert_eq. rewrite HT in HL. by simplify_eq.
  - exists L. by rewrite lookup_insert_ne.
Qed.

Lemma log_lead_step s i n vt :
  LogInv s -> a_nodes s !! i = Some n -> a_llog s !! a_term n = None ->
  LogInv (set_llog (upd s i (mkANode (a_term n) vt StateLeader (a_log n)))
            (a_term n) i (a_log n)).
Proof.
  intros [Hn Hl] Hi Hnone. pose proof (llog_le_lead s i n) as Hle. split; simpl.
  - intros v m Hv. lookups; simpl.
    + destruct (Hn _ _ Hi). eauto using anchored_mono.
    + destruct (Hn _ _ Hk). eauto using anchored_mono.
  - intros T j L HL. lookups.
    + destruct (Hn _ _ Hi). eauto using anchored_mono.
    + destruct (Hl _ _ _ Hk). eauto using anchored_mono.
Qed.

Lemma log_propose_step s i n cmd vt :
  LogInv s -> a_nodes s !! i = Some n ->
  a_llog s !! a_term n = Some (i, a_log n) ->
  let l := a_log n ++ [mkEntry (a_term n) cmd] in
  LogInv (set_llog (upd s i (mkANode (a_term n) vt StateLeader l)) (a_term n) i l).
Proof.
  intros [Hn Hl] Hi HT l. set (s' := set_llog _ _ _ _).
  assert (Hle : llog_le s s') by (eapply llog_le_propose; [done|apply prefix_app_r; done]).
  destruct (Hn _ _ Hi) as [Ha Hx].
  assert (Hl' : anchored s' l /\ forall x, x ∈ l -> entry_Term x <= a_term n).
  { split.
    - intros k x Hk. subst l. apply lookup_app_Some in Hk as [Hk|[Hlen Hk]].
      + destruct (anchored_mono _ _ _ Hle Ha _ _ Hk) as (j & L & HL & Ht).
        exists j, L. split; [done|]. rewrite <- Ht. apply take_app_le.
        apply lookup_lt_Some in Hk. lia.
      + apply list_lookup_singleton_Some in Hk as [Hk <-]. simpl.
        exists i, (a_log n ++ [mkEntry (a_term n) cmd]). by rewrite lookup_insert_eq.
    - intros x [Hin|Hin]%elem_of_app; [auto|]. apply list_elem_of_singleton in Hin. by subst. }
  split; simpl.
  - intros v m Hv. lookups; simpl; [done|].
    destruct (Hn _ _ Hk). eauto using anchored_mono.
  - intros T j L HL. lookups; [done|]. destruct (Hl _ _ _ Hk). eauto using anchored_mono.
Qed.

Lemma log_put_step s v n j L p x vt :
  LogInv s -> a_nodes s !! v = Some n -> a_llog s !! a_term n = Some (j, L) ->
  L !! p = Some x -> prevMatch (a_log n) L p -> entry_Term x = a_term n ->
  LogInv (upd s v (mkANode (a_term n) vt StateFollower (putEntry (a_log n) p x))).
Proof.
  intros [Hn Hl] Hv HL Hx Hp Ht. destruct (Hn _ _ Hv) as [Ha Hle].
  destruct (Hl _ _ _ HL) as [HaL HleL].
  split; simpl; [|intros T i L' HL'; destruct (Hl _ _ _ HL'); done].
  intros w m Hw. lookups; simpl; [|by destruct (Hn _ _ Hk)].
  assert (HT : a_llog s !! entry_Term x = Some (j, L)) by congruence.
  destruct (putEntry_cases s _ _ _ _ _ Ha HaL HT Hx Hp) as [[-> _]|[-> _]]; [done|].
  split; [by apply anchored_take|]. intros y Hy. apply HleL.
  apply list_elem_of_lookup in Hy as [q Hq].
  apply lookup_take_Some in Hq as [Hq _]. apply list_elem_of_lookup. eauto.
Qed.

Lemma log_step s s' : VoteInv M s -> LogInv s -> astep M s s' -> LogInv s'.
Proof.
  intros Hvi Hinv Hstep. revert Hvi Hinv.
  destruct Hstep as [s0 v n t Hv Ht|s0 v n Hv|s0 i n Hi|s0 v n c nc li lt Hne Hv Hc Hvote Hcv _ _
              |s0 i n Q Hi Hr HQ HvQ|s0 i n cmd Hi Hr l|s0 v n j L p x Hv HL Hne Hx Hp Hxt
              |s0 T k x j L Q HL Hx HxT HQ Hack]; intros Hvi Hinv; simpl.
  1-4,8: apply (log_mono s0); [done|done|simpl];
    intros w m Hw; lookups; eexists; split_and!; eauto; simpl; lia.
  - destruct (vote_lead_step _ _ _ _ _ Hvi Hi Hr HQ HvQ). by apply log_lead_step.
  - destruct (log_propose_step _ _ _ cmd (a_vote n) Hinv Hi (vi_leader _ _ Hvi _ _ Hi Hr)).
    by split.
  - destruct (log_put_step _ _ _ _ _ _ _ (a_vote n) Hinv Hv HL Hx Hp Hxt). by split.
Qed.

Lemma log_init s : ainit M s -> LogInv s.
Proof.
  intros (Hd & Hn & _ & Hl & _). split.
  - intros v n Hv. rewrite (Hn _ _ Hv). simpl. split; [by intros k x|].
    by intros x Hx%elem_of_nil.
  - intros T i L HL. by rewrite Hl in HL.
Qed.

Lemma log_matching s v n w m k t :
  LogInv s -> a_nodes s !! v = Some n -> a_nodes s !! w = Some m ->
  termAt (a_log n) k = Some t -> termAt (a_log m) k = Some t ->
  take (S k) (a_log n) = take (S k) (a_log m).
Proof.
  intros [Hn _] Hv Hw H1 H2. destruct (Hn _ _ Hv) as [Hav _]. destruct (Hn _ _ Hw) as [Haw _].
  apply (anchored_match s _ _ (S k)); [done|done|]. by exists t.
Qed.
End LogMatching.
