(* ===== verification/RaftSafety.v ===== *)
(** * Leader completeness for the abstract protocol

    A prefix acknowledged by a majority in its leader's term is in the log of
    every leader of a later term.  The invariant says of each entry [k] that
    the leader of [T] created: every log that should still hold it does, or
    the entry is [dead], a majority having moved past [T] without
    acknowledging it, so that it can never be chosen. *)

From stdpp Require Import base gmap strings list relations.
From S2P Require Import Prelude RaftNode RaftSpec RaftLog.

#[local] Open Scope Z_scope.

Section Safety.
Context (M : gset string).
Implicit Types s : AState.

#[local] Instance ackd_dec s v T k : Decision (ackd s v T k).
Proof.
  refine (match a_acked s !! (v, T) as o return a_acked s !! (v, T) = o -> _ with
          | Some m => fun E => match decide (k <= m)%nat with
                               | left H => left _ | right H => right _ end
          | None => fun E => right _ end eq_refl).
  - by exists m.
  - intros (m' & E' & ?). congruence.
  - intros (m' & E' & ?). congruence.
Defined.

(** The leader of [T] created the entry at position [k]. *)
Definition own s (T : Z) (k : nat) : Prop :=
  exists j L x, a_llog s !! T = Some (j, L) /\ L !! k = Some x /\ entry_Term x = T.

(** No majority can acknowledge the first [k] entries of [T] any more. *)
Definition dead s (T : Z) (k : nat) : Prop :=
  exists Q, majority M Q /\ forall v, v ∈ Q ->
  (exists n, a_nodes s !! v = Some n /\ T < a_term n) /\ ~ ackd s v T k.

(** A log starts with the first [k] entries of [T]'s leader. *)
Definition agree s (T : Z) (k : nat) (l : list LogEntry) : Prop :=
  exists j L, a_llog s !! T = Some (j, L) /\ (k <= length L)%nat /\ take k l = take k L.

Definition safe s T k l : Prop := agree s T k l \/ dead s T k.

Record SafeInv s : Prop := {
  si_votedself v U c : a_voted s !! (v, U) = Some c -> a_voted s !! (c, U) = Some c;
  si_acked v T m : a_acked s !! (v, T) = Some m ->
    exists n j L, a_nodes s !! v = Some n /\ T <= a_term n /\
                  a_llog s !! T = Some (j, L) /\ (m <= length L)%nat;
  si_keep v n T k : a_nodes s !! v = Some n -> own s T k -> ackd s v T (S k) ->
    safe s T (S k) (a_log n);
  si_lead U i L T k : a_llog s !! U = Some (i, L) -> T < U -> own s T k ->
    safe s T (S k) L;
  si_cand v U c nc T k : a_voted s !! (v, U) = Some c -> a_nodes s !! c = Some nc ->
    a_term nc = U -> a_role nc = StateCandidate -> T < U -> own s T k ->
    ackd s v T (S k) -> safe s T (S k) (a_log nc);
  si_chosen T k : (T, k) ∈ a_chosen s -> exists k', k = S k' /\ own s T k' /\
    exists Q, majority M Q /\ forall v, v ∈ Q -> ackd s v T k }.

(** ** What every step preserves *)

Record ext s s' : Prop := {
  ext_llog : llog_le s s';
  ext_term v n : a_nodes s !! v = Some n ->
    exists n', a_nodes s' !! v = Some n' /\ a_term n <= a_term n';
  ext_ack v T k : ackd s v T k -> ackd s' v T k;
  ext_newack v T k : ackd s' v T k -> ackd s v T k \/
    exists n, a_nodes s !! v = Some n /\ a_term n = T }.

Lemma agree_mono s s' T k l : ext s s' -> agree s T k l -> agree s' T k l.
Proof.
  intros He (j & L & HL & Hk & Ht). destruct (ext_llog _ _ He _ _ _ HL) as (L' & HL' & Hp).
  exists j, L'. split; [done|]. split; [apply prefix_length in Hp; lia|].
  by rewrite Ht, (take_prefix L L').
Qed.

Lemma dead_mono s s' T k : ext s s' -> dead s T k -> dead s' T k.
Proof.
  intros He (Q & HQ & Hv). exists Q. split; [done|]. intros v Hin.
  destruct (Hv _ Hin) as [(n & Hn & Ht) Hna].
  destruct (ext_term _ _ He _ _ Hn) as (n' & Hn' & Ht'). split; [exists n'; split; [done|lia]|].
  intros Ha. apply (ext_newack _ _ He) in Ha as [Ha|(m & Hm & E)]; [done|].
  assert (m = n) by congruence. subst. lia.
Qed.

Lemma safe_mono s s' T k l : ext s s' -> safe s T k l -> safe s' T k l.
Proof. intros He [?|?]; [left; by eapply agree_mono|right; by eapply dead_mono]. Qed.

Lemma own_mono s s' T k : llog_le s s' -> own s T k -> own s' T k.
Proof.
  intros Hle (j & L & x & HL & Hk & Hx). destruct (Hle _ _ _ HL) as (L' & HL' & Hp).
  exists j, L', x. split_and!; [done| |done]. by eapply prefix_lookup_Some.
Qed.

Lemma agree_own s T k l :
  own s T k -> agree s T (S k) l -> exists x, l !! k = Some x /\ entry_Term x = T.
Proof.
  intros (j & L & x & HL & Hk & Hx) (j' & L' & HL' & Hlen & Ht). simplify_eq.
  exists x. split; [|done]. rewrite <- Hk. eapply take_eq_lookup; [|done]. lia.
Qed.

Lemma agree_extend s T k l l' : agree s T k l -> l `prefix_of` l' -> agree s T k l'.
Proof.
  intros (j & L & HL & Hlen & Ht) Hp. exists j, L. split_and!; [done|done|].
  rewrite <- Ht. apply take_prefix; [done|]. eapply take_eq_length; [symmetry; done|done].
Qed.

Lemma dead_not_chosen s T k Q :
  dead s T k -> majority M Q -> (forall v, v ∈ Q -> ackd s v T k) -> False.
Proof.
  intros (Q' & HQ' & Hv') HQ Hv. destruct (majority_intersect M _ _ HQ HQ') as (v & H1 & H2).
  destruct (Hv' _ H2) as [_ Hn]. auto.
Qed.

(** ** The voting rule *)

Lemma last_entry (l : list LogEntry) : l <> [] ->
  exists y, l !! pred (length l) = Some y /\ entry_Term y = lastTerm l.
Proof.
  intros Hne. unfold lastTerm. destruct (last l) as [y|] eqn:Hl.
  - exists y. by rewrite <- last_lookup.
  - by apply last_None in Hl.
Qed.

Lemma last_anchored s l : anchored s l -> l <> [] ->
  exists j L, a_llog s !! lastTerm l = Some (j, L) /\ l = take (length l) L.
Proof.
  intros Ha Hne. destruct (last_entry _ Hne) as (y & Hk & <-).
  destruct (Ha _ _ Hk) as (j & L & HL & Ht). exists j, L. split; [done|].
  destruct l; [done|]. simpl in *. by rewrite <- Ht, firstn_all.
Qed.

(** A candidate that passes a voter's check has every live entry the voter has. *)
Lemma vote_rule s T k lv lc :
  VoteInv M s -> LogInv s -> SafeInv s -> anchored s lv -> anchored s lc -> own s T k ->
  agree s T (S k) lv -> upToDate lv (Z.of_nat (length lc)) (lastTerm lc) ->
  safe s T (S k) lc.
Proof.
  intros Hvi Hli Hsi Hav Hac Hown Hag Hup.
  destruct (agree_own _ _ _ _ Hown Hag) as (x & Hx & HxT).
  destruct Hown as (j0 & L0 & x0 & HL0 & Hx0 & Hx0T).
  assert (Hpos : 1 <= T) by eauto using llog_pos.
  destruct (last_anchored s lv Hav) as (jv & Lv & HLv & Elv); [by destruct lv|].
  assert (HTv : T <= lastTerm lv).
  { destruct (li_llog _ Hli _ _ _ HLv) as [_ Hle]. rewrite <- HxT. apply Hle.
    rewrite Elv in Hx. apply lookup_take_Some in Hx as [Hx _].
    apply list_elem_of_lookup. eauto. }
  assert (Hlc : lc <> []).
  { intros ->. unfold upToDate, lastTerm in Hup. simpl in Hup.
    fold (lastTerm lv) in Hup. lia. }
  destruct (last_anchored s lc Hac Hlc) as (jc & Lc & HLc & Elc).
  assert (Hkv : (S k <= length lv)%nat) by (apply lookup_lt_Some in Hx; lia).
  destruct Hup as [Hlt|[Heq Hlen]].
  - destruct (si_lead _ Hsi _ _ _ T k HLc) as [Hagc|Hd]; [lia|by exists j0, L0, x0| |by right].
    destruct (decide (S k <= length lc)%nat) as [Hle|Hgt].
    + left. destruct Hagc as (j & L & HL & HkL & Ht). exists j, L. split_and!; [done|done|].
      rewrite <- Ht, Elc, take_take, Nat.min_l by lia. done.
    + exfalso. destruct Hagc as (j & L & HL & HkL & Ht).
      destruct (last_entry lc Hlc) as (y & Hy & Eyt).
      assert (Hp : (pred (length lc) < S k)%nat) by lia.
      assert (Hy' : Lc !! pred (length lc) = Some y).
      { assert (take (length lc) Lc !! pred (length lc) = Some y) as Hy2 by (by rewrite <- Elc).
        by apply lookup_take_Some in Hy2 as [Hy2 _]. }
      rewrite (take_eq_lookup _ _ _ _ Hp Ht) in Hy'.
      destruct (li_llog _ Hli _ _ _ HL) as [_ HleL].
      assert (entry_Term y <= T) by (apply HleL, list_elem_of_lookup; eauto). lia.
  - left. destruct Hag as (j & L & HL & HkL & Ht). exists j, L. split_and!; [done|done|].
    rewrite <- Ht. rewrite Heq in HLc. rewrite HLv in HLc. simplify_eq.
    rewrite Elv, Elc, !take_take. f_equal. lia.
Qed.

(** ** Every step extends the history *)

Lemma ackd_add s v T k w U m :
  ackd (add_ack s v T k) w U m <-> ackd s w U m \/ (w = v /\ U = T /\ (m <= k)%nat).
Proof.
  unfold ackd. simpl. destruct (decide ((v, T) = (w, U))) as [E|Hne].
  - injection E as -> ->. rewrite lookup_insert_eq. split.
    + intros (m' & [= <-] & Hle).
      destruct (a_acked s !! (w, U)) as [m0|]; simpl in Hle; [|right; split_and!; auto; lia].
      destruct (decide (m <= m0)%nat); [left; eauto|right; split_and!; auto; lia].
    + intros [(m' & E & Hle)|(_ & _ & Hle)]; eexists; (split; [reflexivity|]);
        [rewrite E; simpl; lia|lia].
  - rewrite lookup_insert_ne by done. split; [auto|].
    intros [?|(-> & -> & _)]; [done|congruence].
Qed.

Lemma ext_nodes s s' v n n' :
  a_nodes s !! v = Some n -> a_nodes s' = <[v := n']> (a_nodes s) -> a_term n <= a_term n' ->
  forall w m, a_nodes s !! w = Some m ->
  exists m', a_nodes s' !! w = Some m' /\ a_term m <= a_term m'.
Proof.
  intros Hv E Ht w m Hw. rewrite E. destruct (decide (w = v)) as [->|Hne].
  - exists n'. rewrite lookup_insert_eq. by simplify_eq.
  - exists m. by rewrite lookup_insert_ne.
Qed.

Lemma step_ext s s' : VoteInv M s -> astep M s s' -> ext s s'.
Proof.
  intros Hvi Hstep. revert Hvi.
  destruct Hstep as [s0 v n t Hv Ht|s0 v n Hv|s0 i n Hi|s0 v n c nc li lt Hne Hv Hc Hvote Hcv _ _
              |s0 i n Q Hi Hr HQ HvQ|s0 i n cmd Hi Hr l|s0 v n j L p x Hv HL Hne Hx Hp Hxt
              |s0 T k x j L Q HL Hx HxT HQ Hack]; intros Hvi.
  1-4: split; [by apply llog_le_refl|eapply ext_nodes; [|reflexivity|]; [eassumption|simpl; lia]|done|by left].
  - destruct (vote_lead_step _ _ _ _ _ Hvi Hi Hr HQ HvQ).
    split; [by apply llog_le_lead|eapply ext_nodes; [|reflexivity|]; [eassumption|simpl; lia]|done|by left].
  - pose proof (vi_leader _ _ Hvi _ _ Hi Hr). split.
    + eapply llog_le_propose; [done|by apply prefix_app_r].
    + eapply ext_nodes; [|reflexivity|]; [eassumption|simpl; lia].
    + intros w T k Ha. apply ackd_add. by left.
    + intros w T k Ha. apply ackd_add in Ha as [Ha|(-> & -> & _)]; [by left|right; eauto].
  - split; [by apply llog_le_refl|eapply ext_nodes; [|reflexivity|]; [eassumption|simpl; lia]| |].
    + intros w T k Ha. apply ackd_add. by left.
    + intros w T k Ha. apply ackd_add in Ha as [Ha|(-> & -> & _)]; [by left|right; eauto].
  - split; [by apply llog_le_refl|eauto with lia|done|by left].
Qed.

(** ** Preservation, one kind of step at a time *)

Lemma voted_before s v U c : VoteInv M s -> SafeInv s -> a_voted s !! (v, U) = Some c ->
  exists n nc, a_nodes s !! v = Some n /\ U <= a_term n /\
               a_nodes s !! c = Some nc /\ U <= a_term nc.
Proof.
  intros Hvi Hsi Hv. destruct (vi_voted _ _ Hvi _ _ _ Hv) as (n & ? & ? & _).
  destruct (vi_voted _ _ Hvi _ _ _ (si_votedself _ Hsi _ _ _ Hv)) as (nc & ? & ? & _).
  exists n, nc. split_and!; try done; lia.
Qed.

(** The clauses on acknowledgements and on chosen prefixes survive any step
    that does not touch them. *)
Lemma acked_mono s s' v T m : SafeInv s -> ext s s' -> a_acked s !! (v, T) = Some m ->
  exists n j L, a_nodes s' !! v = Some n /\ T <= a_term n /\
                a_llog s' !! T = Some (j, L) /\ (m <= length L)%nat.
Proof.
  intros Hsi He Hm. destruct (si_acked _ Hsi _ _ _ Hm) as (nv & j & L & Hnv & Ht & HL & Hle).
  destruct (ext_term _ _ He _ _ Hnv) as (n' & Hn' & Ht').
  destruct (ext_llog _ _ He _ _ _ HL) as (L' & HL' & Hp). apply prefix_length in Hp.
  exists n', j, L'. split_and!; try done; lia.
Qed.

Lemma acked_default s v T j L : SafeInv s -> a_llog s !! T = Some (j, L) ->
  (default 0 (a_acked s !! (v, T)) <= length L)%nat.
Proof.
  intros Hsi HL. destruct (a_acked s !! (v, T)) as [m|] eqn:E; simpl; [|lia].
  destruct (si_acked _ Hsi _ _ _ E) as (? & j' & L' & _ & _ & HL' & ?). by simplify_eq.
Qed.

Lemma chosen_mono s s' T k : SafeInv s -> ext s s' -> (T, k) ∈ a_chosen s ->
  exists k', k = S k' /\ own s' T k' /\
  exists Q, majority M Q /\ forall v, v ∈ Q -> ackd s' v T k.
Proof.
  intros Hsi He Hin. destruct (si_chosen _ Hsi _ _ Hin) as (k' & -> & Ho & Q & HQ & HaQ).
  exists k'. split; [done|]. split; [by eapply own_mono, Ho; apply He|].
  exists Q. split; [done|]. intros v Hv. eapply ext_ack; eauto.
Qed.

(** Steps that keep every log and acknowledgement: only the clauses about
    candidates and votes can change. *)
Lemma safe_same_logs s s' :
  SafeInv s -> ext s s' -> a_llog s' = a_llog s -> a_acked s' = a_acked s ->
  a_chosen s' = a_chosen s ->
  (forall v n', a_nodes s' !! v = Some n' ->
     exists n, a_nodes s !! v = Some n /\ a_log n' = a_log n) ->
  (forall v U c, a_voted s' !! (v, U) = Some c -> a_voted s' !! (c, U) = Some c) ->
  (forall v U c nc T k, a_voted s' !! (v, U) = Some c -> a_nodes s' !! c = Some nc ->
     a_term nc = U -> a_role nc = StateCandidate -> T < U -> own s T k ->
     ackd s v T (S k) -> safe s T (S k) (a_log nc)) ->
  SafeInv s'.
Proof.
  intros Hsi He El Ea Ec Hlog Hself Hcand. pose proof Hsi as [Hvs Hac Hk Hl Hc Hch].
  assert (Hown : forall T k, own s' T k -> own s T k) by (unfold own; rewrite El; done).
  assert (Hackd : forall v T k, ackd s' v T k -> ackd s v T k)
    by (unfold ackd; rewrite Ea; done).
  split.
  - done.
  - intros v T m Hm. rewrite Ea in Hm. by eapply acked_mono.
  - intros v n' T k Hn' Ho Ha. destruct (Hlog _ _ Hn') as (n & Hn & ->).
    eapply safe_mono; eauto.
  - intros U i L T k HL HT Ho. rewrite El in HL. eapply safe_mono; eauto.
  - intros v U c nc T k Hv Hnc Ht Hr HT Ho Ha. eapply safe_mono; eauto.
  - intros T k Hin. rewrite Ec in Hin. by eapply chosen_mono.
Qed.

Lemma safe_follow_step s v n n' :
  SafeInv s -> ext s (upd s v n') -> a_nodes s !! v = Some n -> a_log n' = a_log n ->
  a_role n' = StateFollower -> SafeInv (upd s v n').
Proof.
  intros Hsi He Hv Elog Hrole. eapply safe_same_logs; eauto.
  - simpl. intros w m Hw. lookups; eauto.
  - apply (si_votedself _ Hsi).
  - simpl. intros w U c nc T k Hw Hnc HU Hr HT Ho Ha. lookups; [congruence|].
    eapply (si_cand _ Hsi); eauto.
Qed.

Lemma safe_elect_step s i n :
  VoteInv M s -> SafeInv s -> a_nodes s !! i = Some n ->
  let s' := add_vote (upd s i (mkANode (a_term n + 1) (Some i) StateCandidate (a_log n)))
              i (a_term n + 1) i in
  ext s s' -> SafeInv s'.
Proof.
  intros Hvi Hsi Hi s' He. eapply safe_same_logs; eauto; simpl.
  - intros w m Hw. lookups; eauto.
  - intros w U c Hw. lookups; [by rewrite lookup_insert_eq|].
    apply (si_votedself _ Hsi) in Hk. destruct (decide ((i, a_term n + 1) = (c, U))) as [E|?].
    + injection E as -> <-. apply lookup_insert_eq.
    + by rewrite lookup_insert_ne.
  - intros w U c nc T k Hw Hnc HU Hr HT Ho Ha.
    apply lookup_insert_Some in Hnc as [[<- <-]|[Hne Hnc]]; simpl in *.
    + apply lookup_insert_Some in Hw as [[E _]|[_ Hw]].
      * injection E as <- _. by apply (si_keep _ Hsi i n).
      * exfalso. destruct (voted_before _ _ _ _ Hvi Hsi Hw) as (_ & m & _ & _ & Hm & Hle).
        assert (m = n) by congruence. subst. lia.
    + apply lookup_insert_Some in Hw as [[E ->]|[_ Hw]]; [congruence|].
      by eapply (si_cand _ Hsi).
Qed.

Lemma safe_vote_step s v n c nc li lt :
  VoteInv M s -> LogInv s -> SafeInv s -> v <> c ->
  a_nodes s !! v = Some n -> a_nodes s !! c = Some nc ->
  a_vote n = None \/ a_vote n = Some c -> a_voted s !! (c, a_term n) = Some c ->
  (a_role nc = StateCandidate -> a_term nc = a_term n ->
     li = Z.of_nat (length (a_log nc)) /\ lt = lastTerm (a_log nc)) ->
  upToDate (a_log n) li lt ->
  let s' := add_vote (upd s v (mkANode (a_term n) (Some c) (a_role n) (a_log n)))
              v (a_term n) c in
  ext s s' -> SafeInv s'.
Proof.
  intros Hvi Hli Hsi Hvc Hv Hc Hvote Hcv Hreq Hup s' He. eapply safe_same_logs; eauto; simpl.
  - intros w m Hw. lookups; eauto.
  - intros w U d Hw. lookups; [rewrite lookup_insert_ne; [done|congruence]|].
    apply (si_votedself _ Hsi) in Hk. destruct (decide ((v, a_term n) = (d, U))) as [E|?].
    + exfalso. injection E as <- <-. destruct (vi_voted _ _ Hvi _ _ _ Hk) as (m & Hm & _ & E).
      assert (m = n) by congruence. subst m. rewrite E in Hvote by done.
      destruct Hvote; congruence.
    + by rewrite lookup_insert_ne.
  - intros w U d nd T k Hw Hnd HU Hr HT Ho Ha.
    assert (exists nd0, a_nodes s !! d = Some nd0 /\ a_term nd0 = U /\
      a_role nd0 = StateCandidate /\ a_log nd = a_log nd0) as (nd0 & Hnd0 & HU0 & Hr0 & ->).
    { apply lookup_insert_Some in Hnd as [[<- <-]|[_ Hnd]]; simpl in *; eauto. }
    apply lookup_insert_Some in Hw as [[E ->]|[_ Hw]]; [|by eapply (si_cand _ Hsi)].
    injection E as <- <-. assert (nd0 = nc) by congruence. subst nd0.
    destruct (Hreq Hr0 HU0) as [-> ->].
    destruct (si_keep _ Hsi _ _ _ _ Hv Ho Ha) as [Hag|Hd]; [|by right].
    destruct (li_node _ Hli _ _ Hv). destruct (li_node _ Hli _ _ Hc). eapply (vote_rule s T k (a_log n) (a_log nc)); eauto.
Qed.

Lemma own_lead s i n n' T k :
  LogInv s -> a_nodes s !! i = Some n -> a_llog s !! a_term n = None ->
  own (set_llog (upd s i n') (a_term n) i (a_log n)) T k -> own s T k.
Proof.
  intros Hli Hi Hnone (j & L & x & HL & Hk & Hx). simpl in HL.
  apply lookup_insert_Some in HL as [[<- [= <- <-]]|[_ HL]]; [|by exists j, L, x].
  destruct (li_node _ Hli _ _ Hi) as [Ha _].
  destruct (Ha _ _ Hk) as (j & L & HL & _). congruence.
Qed.

Lemma safe_lead_step s i n Q :
  VoteInv M s -> LogInv s -> SafeInv s -> a_nodes s !! i = Some n ->
  a_role n = StateCandidate -> majority M Q ->
  (forall v, v ∈ Q -> a_voted s !! (v, a_term n) = Some i) ->
  a_llog s !! a_term n = None ->
  let s' := set_llog (upd s i (mkANode (a_term n) (a_vote n) StateLeader (a_log n)))
              (a_term n) i (a_log n) in
  ext s s' -> SafeInv s'.
Proof.
  intros Hvi Hli Hsi Hi Hr HQ HvQ Hnone s' He.
  assert (Hown : forall T k, own s' T k -> own s T k) by (intros T k; by apply own_lead).
  split; simpl.
  - apply (si_votedself _ Hsi).
  - intros v T m Hm. by apply (acked_mono s s').
  - intros v nv T k Hv Ho Ha. apply (safe_mono s); [done|].
    lookups; simpl; eapply (si_keep _ Hsi); eauto.
  - intros U j L T k HL HT Ho. apply (safe_mono s); [done|].
    apply lookup_insert_Some in HL as [[<- [= <- <-]]|[_ HL]]; [|by eapply (si_lead _ Hsi); eauto].
    destruct (decide (set_Exists (fun v => ackd s v T (S k)) Q)) as [(v & Hv & Ha)|Hno].
    + by eapply (si_cand _ Hsi v (a_term n) i n); eauto.
    + right. exists Q. split; [done|]. intros v Hv. split.
      * destruct (vi_voted _ _ Hvi _ _ _ (HvQ _ Hv)) as (nv & Hnv & ? & _).
        exists nv. split; [done|lia].
      * intros Ha. apply Hno. by exists v.
  - intros v U c nc T k Hv Hnc HU Hrc HT Ho Ha. apply (safe_mono s); [done|].
    lookups. eapply (si_cand _ Hsi); eauto.
  - intros T k Hin. by apply (chosen_mono s s').
Qed.

(** What the leader of [T0] creates is new, everything else was there. *)
Lemma own_propose s i n n' l x T k :
  a_llog s !! a_term n = Some (i, a_log n) -> l = a_log n ++ [x] ->
  own (set_llog (upd s i n') (a_term n) i l) T k ->
  own s T k \/ (T = a_term n /\ k = length (a_log n)).
Proof.
  intros HT -> (j & L & y & HL & Hk & Hy). simpl in HL.
  apply lookup_insert_Some in HL as [[<- [= <- <-]]|[_ HL]]; [|left; by exists j, L, y].
  apply lookup_app_Some in Hk as [Hk|[Hlen Hk]].
  - left. by exists i, (a_log n), y.
  - right. apply list_lookup_singleton_Some in Hk as [Hk _]. split; [done|lia].
Qed.

Lemma not_ackd_fresh s v T i L : SafeInv s -> a_llog s !! T = Some (i, L) ->
  ~ ackd s v T (S (length L)).
Proof.
  intros Hsi HL (m & Hm & Hle). destruct (si_acked _ Hsi _ _ _ Hm) as (n & j & L' & _ & _ & HL' & ?).
  simplify_eq. lia.
Qed.

Lemma safe_propose_step s i n cmd :
  VoteInv M s -> LogInv s -> SafeInv s -> a_nodes s !! i = Some n -> a_role n = StateLeader ->
  let l := a_log n ++ [mkEntry (a_term n) cmd] in
  let s' := add_ack (set_llog (upd s i (mkANode (a_term n) (a_vote n) StateLeader l))
                       (a_term n) i l) i (a_term n) (length l) in
  ext s s' -> SafeInv s'.
Proof.
  intros Hvi Hli Hsi Hi Hr l s' He. pose proof (vi_leader _ _ Hvi _ _ Hi Hr) as HT0.
  assert (Hpre : a_log n `prefix_of` l) by (by apply prefix_app_r).
  assert (Hlen : length l = S (length (a_log n))) by (unfold l; rewrite length_app; simpl; lia).
  assert (Hnew : a_llog s' !! a_term n = Some (i, l)) by apply lookup_insert_eq.
  assert (Hown : forall T k, own s' T k -> own s T k \/ (T = a_term n /\ k = length (a_log n))).
  { intros T k. by eapply own_propose. }
  assert (Hack : forall v T k, ackd s' v T k -> ackd s v T k \/ (v = i /\ T = a_term n)).
  { intros v T k Ha. apply ackd_add in Ha as [Ha|(-> & -> & _)]; [by left|by right]. }
  pose proof (fun v => not_ackd_fresh _ v _ _ _ Hsi HT0) as Hfresh.
  split.
  - apply (si_votedself _ Hsi).
  - intros v T m Hm. simpl in Hm. apply lookup_insert_Some in Hm as [[[= <- <-] <-]|[_ Hm]].
    + exists (mkANode (a_term n) (a_vote n) StateLeader l), i, l. simpl.
      rewrite !lookup_insert_eq. split_and!; try done.
      pose proof (acked_default _ i _ _ _ Hsi HT0). lia.
    + by apply (acked_mono s s').
  - intros v nv T k Hv Ho Ha. simpl in Hv.
    apply lookup_insert_Some in Hv as [[<- <-]|[Hne Hv]]; simpl.
    + destruct (decide (T = a_term n)) as [->|HneT].
      * left. exists i, l. split_and!; [done| |done].
        destruct Ho as (j & L & y & HL & Hk & _). simplify_eq. apply lookup_lt_Some in Hk. lia.
      * destruct (Hown _ _ Ho) as [Ho'|[? _]]; [|done].
        destruct (Hack _ _ _ Ha) as [Ha'|[_ ?]]; [|done].
        destruct (si_keep _ Hsi _ _ _ _ Hi Ho' Ha') as [Hag|Hd]; [left|right].
        -- eapply agree_extend; [by eapply agree_mono|done].
        -- by eapply dead_mono.
    + destruct (Hack _ _ _ Ha) as [Ha'|[? _]]; [|done].
      destruct (Hown _ _ Ho) as [Ho'|[-> ->]]; [|by apply Hfresh in Ha'].
      apply (safe_mono s); [done|]. by eapply (si_keep _ Hsi).
  - intros U j L T k HL HT Ho. simpl in HL.
    apply lookup_insert_Some in HL as [[<- [= <- <-]]|[HneU HL]].
    + destruct (Hown _ _ Ho) as [Ho'|[-> _]]; [|lia].
      destruct (si_lead _ Hsi _ _ _ _ _ HT0 HT Ho') as [Hag|Hd]; [left|right].
      * eapply agree_extend; [by eapply agree_mono|done].
      * by eapply dead_mono.
    + destruct (Hown _ _ Ho) as [Ho'|[-> ->]].
      { apply (safe_mono s); [done|]. by eapply (si_lead _ Hsi). }
      right. destruct (vi_lead _ _ Hvi _ _ _ HL) as [(Q & HQ & HvQ) _].
      exists Q. split; [done|]. intros v Hv.
      destruct (vi_voted _ _ Hvi _ _ _ (HvQ _ Hv)) as (nv & Hnv & HU & _).
      destruct (ext_term _ _ He _ _ Hnv) as (n' & Hn' & Ht').
      split; [exists n'; split; [done|lia]|]. intros Ha.
      destruct (Hack _ _ _ Ha) as [Ha'|[-> _]]; [by apply Hfresh in Ha'|].
      simplify_eq. lia.
  - intros v U c nc T k Hv Hnc HU Hrc HT Ho Ha. simpl in Hv, Hnc.
    apply lookup_insert_Some in Hnc as [[_ <-]|[Hne Hnc]]; [done|].
    destruct (voted_before _ _ _ _ Hvi Hsi Hv) as (nv & _ & Hnv & HUv & _ & _).
    destruct (Hack _ _ _ Ha) as [Ha'|[-> ->]]; [|simplify_eq; lia].
    destruct (Hown _ _ Ho) as [Ho'|[-> ->]]; [|by apply Hfresh in Ha'].
    apply (safe_mono s); [done|]. by eapply (si_cand _ Hsi).
  - intros T k Hin. by apply (chosen_mono s s').
Qed.

(** The follower's side of one entry: it then holds the leader's prefix, and
    still holds whatever it had acknowledged. *)
Section Replicate.
Context (s : AState) (v : string) (n : ANode) (j : string) (L : list LogEntry)
  (p : nat) (x : LogEntry).
Hypothesis Hli : LogInv s.
Hypothesis Hsi : SafeInv s.
Hypothesis Hv : a_nodes s !! v = Some n.
Hypothesis HL : a_llog s !! a_term n = Some (j, L).
Hypothesis Hx : L !! p = Some x.
Hypothesis Hp : prevMatch (a_log n) L p.
Hypothesis Hxt : entry_Term x = a_term n.

Lemma replicate_cases :
  (putEntry (a_log n) p x = a_log n /\ take (S p) (a_log n) = take (S p) L) \/
  (putEntry (a_log n) p x = take (S p) L /\
   forall k, (p < k)%nat -> take k (a_log n) = take k L -> (k <= length L)%nat -> False).
Proof.
  destruct (li_node _ Hli _ _ Hv) as [Hav _]. destruct (li_llog _ Hli _ _ _ HL) as [HaL _].
  apply (putEntry_cases s _ j); try done. congruence.
Qed.

Lemma replicate_put k : (k <= S p)%nat -> agree s (a_term n) k (putEntry (a_log n) p x).
Proof.
  intros Hk. pose proof (lookup_lt_Some _ _ _ Hx) as HpL.
  exists j, L. split_and!; [done|lia|]. destruct replicate_cases as [[-> E]|[-> _]].
  - by eapply take_le_eq.
  - rewrite take_take, Nat.min_l by lia. done.
Qed.

Lemma replicate_keep T k : own s T k -> ackd s v T (S k) ->
  safe s T (S k) (putEntry (a_log n) p x).
Proof.
  intros Ho Ha. destruct (si_keep _ Hsi _ _ _ _ Hv Ho Ha) as [Hag|Hd]; [|by right].
  destruct replicate_cases as [[-> _]|[-> Hno]]; [by left|].
  assert (HTn : T <= a_term n).
  { destruct Ha as (m & Hm & _). destruct (si_acked _ Hsi _ _ _ Hm) as (nv & ? & ? & Hnv & ? & _).
    by simplify_eq. }
  assert (safe s T (S k) L) as [HagL|Hd]; [|left|by right].
  { destruct (decide (T = a_term n)) as [->|Hne]; [|eapply (si_lead _ Hsi); eauto; lia].
    left. exists j, L. destruct Ho as (j' & L' & y & HL' & Hk & _). simplify_eq.
    apply lookup_lt_Some in Hk. split_and!; [done|lia|done]. }
  destruct Hag as (j1 & L1 & HL1 & Hlen1 & E1). destruct HagL as (j2 & L2 & HL2 & Hlen2 & E2).
  simplify_eq. exists j1, L1. split_and!; [done|done|].
  destruct (decide (S k <= S p)%nat) as [Hle|Hgt].
  - rewrite take_take, Nat.min_l by lia. done.
  - exfalso. apply (Hno (S k)); [lia|congruence|].
    eapply take_eq_length; [symmetry; exact E2|lia].
Qed.
End Replicate.

Lemma safe_replicate_step s v n j L p x :
  VoteInv M s -> LogInv s -> SafeInv s -> a_nodes s !! v = Some n ->
  a_llog s !! a_term n = Some (j, L) -> j <> v -> L !! p = Some x ->
  prevMatch (a_log n) L p -> entry_Term x = a_term n ->
  let s' := add_ack (upd s v (mkANode (a_term n) (a_vote n) StateFollower
                                (putEntry (a_log n) p x))) v (a_term n) (S p) in
  ext s s' -> SafeInv s'.
Proof.
  intros Hvi Hli Hsi Hv HL Hjv Hx Hp Hxt s' He.
  pose proof (lookup_lt_Some _ _ _ Hx) as HpL.
  assert (Hown : forall T k, own s' T k -> own s T k) by done.
  assert (Hack : forall w T k, ackd s' w T k ->
    ackd s w T k \/ (w = v /\ T = a_term n /\ (k <= S p)%nat)).
  { intros w T k Ha. by apply ackd_add in Ha. }
  split.
  - apply (si_votedself _ Hsi).
  - intros w T m Hm. simpl in Hm. apply lookup_insert_Some in Hm as [[[= <- <-] <-]|[_ Hm]].
    + eexists _, j, L. simpl. rewrite lookup_insert_eq. split_and!; [done|done|done|].
      pose proof (acked_default _ v _ _ _ Hsi HL). lia.
    + by apply (acked_mono s s').
  - intros w nw T k Hw Ho Ha. apply (safe_mono s); [done|]. simpl in Hw.
    apply lookup_insert_Some in Hw as [[<- <-]|[Hne Hw]]; simpl.
    + destruct (Hack _ _ _ Ha) as [Ha'|(_ & -> & Hk)]; [by eapply replicate_keep|].
      left. by eapply replicate_put.
    + destruct (Hack _ _ _ Ha) as [Ha'|(-> & _)]; [|done]. by eapply (si_keep _ Hsi).
  - intros U i L' T k HL' HTU Ho. apply (safe_mono s); [done|]. by eapply (si_lead _ Hsi).
  - intros w U c nc T k Hw Hnc HU Hrc HTU Ho Ha. apply (safe_mono s); [done|]. simpl in Hw, Hnc.
    apply lookup_insert_Some in Hnc as [[_ <-]|[Hne Hnc]]; [done|].
    destruct (Hack _ _ _ Ha) as [Ha'|(-> & -> & _)]; [by eapply (si_cand _ Hsi)|].
    destruct (voted_before _ _ _ _ Hvi Hsi Hw) as (nv & _ & Hnv & HUv & _). simplify_eq. lia.
  - intros T k Hin. by apply (chosen_mono s s').
Qed.

Lemma safe_step s s' :
  VoteInv M s -> LogInv s -> SafeInv s -> astep M s s' -> SafeInv s'.
Proof.
  intros Hvi Hli Hsi Hstep. pose proof (step_ext _ _ Hvi Hstep) as He. revert Hvi Hli Hsi He.
  destruct Hstep as [s0 v n t Hv Ht|s0 v n Hv|s0 i n Hi|s0 v n c nc li lt Hne Hv Hc Hvote Hcv Hq Hup
              |s0 i n Q Hi Hr HQ HvQ|s0 i n cmd Hi Hr l|s0 v n j L p x Hv HL Hne Hx Hp Hxt
              |s0 T k x j L Q HL Hx HxT HQ Hack]; intros Hvi Hli Hsi He.
  - by eapply safe_follow_step.
  - by eapply safe_follow_step.
  - by apply safe_elect_step.
  - by eapply safe_vote_step.
  - destruct (vote_lead_step _ _ _ _ _ Hvi Hi Hr HQ HvQ). by eapply safe_lead_step.
  - by apply safe_propose_step.
  - by eapply safe_replicate_step.
  - destruct Hsi as [H1 H2 H3 H4 H5 H6]. split; try done.
    intros U m Hin. apply elem_of_cons in Hin as [[= -> ->]|Hin]; [|by apply H6].
    exists k. split; [done|]. split; [by exists j, L, x|]. by exists Q.
Qed.

Lemma safe_init s : ainit M s -> SafeInv s.
Proof.
  intros (Hd & Hn & Hv & Hl & Ha & Hc).
  split; unfold own, ackd; rewrite ?Hv, ?Hl, ?Ha, ?Hc; try set_solver.
Qed.

(** ** The contract *)

Record AInv s : Prop := {
  ai_vote : VoteInv M s; ai_log : LogInv s; ai_safe : SafeInv s }.

Definition areachable s : Prop := exists s0, ainit M s0 /\ rtc (astep M) s0 s.

Lemma ainv_init s : ainit M s -> AInv s.
Proof. intros. split; [by apply vote_init|by apply (log_init M)|by apply safe_init]. Qed.

Lemma ainv_step s s' : AInv s -> astep M s s' -> AInv s'.
Proof.
  intros [Hv Hl Hs] Hstep.
  split; [by eapply vote_step|by eapply log_step|by eapply safe_step].
Qed.

Lemma ainv_steps s s' : AInv s -> rtc (astep M) s s' -> AInv s'.
Proof. intros Hinv Hsteps. revert Hinv. induction Hsteps; eauto using ainv_step. Qed.

Lemma ainv_reachable s : areachable s -> AInv s.
Proof. intros (s0 & H0 & Hs). eapply ainv_steps; [by apply ainv_init|done]. Qed.

Lemma ainv_election_safety s i j ni nj :
  AInv s -> a_nodes s !! i = Some ni -> a_nodes s !! j = Some nj ->
  a_role ni = StateLeader -> a_role nj = StateLeader -> a_term ni = a_term nj -> i = j.
Proof.
  intros [Hv _ _] Hi Hj Hri Hrj Ht. pose proof (vi_leader _ _ Hv _ _ Hi Hri) as H1.
  pose proof (vi_leader _ _ Hv _ _ Hj Hrj) as H2. congruence.
Qed.

Lemma ainv_chosen_agree s T k U i L :
  AInv s -> (T, k) ∈ a_chosen s -> a_llog s !! U = Some (i, L) -> T <= U -> agree s T k L.
Proof.
  intros [_ _ Hs] Hin HL HTU. destruct (si_chosen _ Hs _ _ Hin) as (k' & -> & Ho & Q & HQ & HaQ).
  destruct (decide (T = U)) as [<-|Hne].
  - destruct Ho as (j & L' & x & HL' & Hk & _). simplify_eq. apply lookup_lt_Some in Hk.
    exists i, L. split_and!; [done|lia|done].
  - assert (Hlt : T < U) by lia.
    destruct (si_lead _ Hs _ _ _ _ _ HL Hlt Ho) as [?|Hd]; [done|].
    by destruct (dead_not_chosen _ _ _ _ Hd HQ HaQ).
Qed.

Lemma ainv_chosen_keep s T k v n :
  AInv s -> (T, k) ∈ a_chosen s -> a_nodes s !! v = Some n -> ackd s v T k ->
  agree s T k (a_log n).
Proof.
  intros [_ _ Hs] Hin Hv Ha. destruct (si_chosen _ Hs _ _ Hin) as (k' & -> & Ho & Q & HQ & HaQ).
  destruct (si_keep _ Hs _ _ _ _ Hv Ho Ha) as [?|Hd]; [done|].
  by destruct (dead_not_chosen _ _ _ _ Hd HQ HaQ).
Qed.
End Safety.
