(* ===== verification/RaftCluster.v ===== *)
(** * A cluster of Raft nodes

    The nodes of a cluster, the goroutines they have started and the messages
    between them, as an executable transition function.  An event is one
    critical section of the code (everything between [n.mu.Lock()] and
    [n.mu.Unlock()]) or one goroutine building its request; events interleave
    arbitrarily.  The network may delay, reorder and lose messages; a message
    is delivered at most once, and a caller can give up on a call at any time
    (its context expires), which is how RPC errors appear.

    The state is that of the running Go program: the nodes, the locals of each
    running [startElection] (one per node, because only the [Run] goroutine calls
    it), [Propose] and [applyEntries], the goroutines that have not built their
    request yet, and the messages in flight; and the history of what was applied. *)

From stdpp Require Import base gmap strings list.
From S2P Require Import Prelude RaftNode.

#[local] Open Scope Z_scope.
#[local] Open Scope go_scope.

(** A goroutine spawned for peer [p] that has not read its inputs yet. *)
Inductive Task : Type :=
| TVote (i : string) (term : Z) (p : string)
| THeartbeat (i : string) (term : Z) (p : string)
| TAppend (j : nat) (p : string).

(** Messages; [call] says which [Propose] an append belongs to, [None] being a
    heartbeat, and a response repeats the term of its request. *)
Inductive Packet : Type :=
| PVoteReq (src dst : string) (req : RequestVoteRequest)
| PVoteResp (src dst : string) (term : Z) (resp : RequestVoteResponse)
| PAppendReq (src dst : string) (call : option nat) (req : AppendEntriesRequest)
| PAppendResp (src dst : string) (call : option nat) (term : Z) (resp : AppendEntriesResponse).

#[export] Instance Task_eq_dec : EqDecision Task.
Proof. solve_decision. Defined.
#[export] Instance Packet_eq_dec : EqDecision Packet.
Proof. solve_decision. Defined.

(** A running [startElection]: its locals, the peers whose goroutine has not
    reported yet, and whether it is about to call [becomeLeader]. *)
Record ElectionRun : Type := mkElectionRun {
  er_el : Election; er_waiting : list string; er_promote : bool }.

(** A [Propose] call: its node and locals, the peers that have not reported,
    and what it returned ([None] while it runs). *)
Record ProposeRun : Type := mkProposeRun {
  prn_node : string; prn_pr : Proposal; prn_waiting : list string;
  prn_done : option (option RaftError) }.

(** A running [applyEntries], called after the lock is released: its node, the log
    position of its next entry and the entries it has not handed over yet. *)
Record Batch : Type := mkBatch { b_node : string; b_start : nat; b_entries : list LogEntry }.

Record Cluster : Type := mkCluster {
  nodes : gmap string Node;
  elections : gmap string ElectionRun;
  proposals : list ProposeRun;
  tasks : list Task;
  net : list Packet;
  applying : list Batch;
  (** what each state machine was given, in order, with the log positions *)
  applied : gmap string (list (nat * LogEntry)) }.

Definition with_node (c : Cluster) (i : string) (n : Node) : Cluster :=
  mkCluster (<[i := n]> (nodes c)) (elections c) (proposals c) (tasks c) (net c) (applying c) (applied c).
Definition with_elections (c : Cluster) (el : gmap string ElectionRun) : Cluster :=
  mkCluster (nodes c) el (proposals c) (tasks c) (net c) (applying c) (applied c).
Definition with_proposals (c : Cluster) (ps : list ProposeRun) : Cluster :=
  mkCluster (nodes c) (elections c) ps (tasks c) (net c) (applying c) (applied c).
Definition with_tasks (c : Cluster) (ts : list Task) : Cluster :=
  mkCluster (nodes c) (elections c) (proposals c) ts (net c) (applying c) (applied c).
Definition with_net (c : Cluster) (ps : list Packet) : Cluster :=
  mkCluster (nodes c) (elections c) (proposals c) (tasks c) ps (applying c) (applied c).
(** [applyEntries] is called with what was collected; it returns at once on nothing. *)
Definition with_batch (c : Cluster) (i : string) (start : Z) (es : list LogEntry) : Cluster :=
  mkCluster (nodes c) (elections c) (proposals c) (tasks c) (net c)
    (applying c ++ if bool_decide (es = []) then [] else [mkBatch i (Z.to_nat start) es]) (applied c).

(** Take one occurrence out of a bag. *)
Fixpoint remove1 {A} `{EqDecision A} (x : A) (l : list A) : list A :=
  match l with
  | [] => []
  | y :: l => if decide (x = y) then l else y :: remove1 x l
  end.

Inductive Event : Type :=
(** the election timer fires in [Run] *)
| EvTimeout (i : string) (e : Env)
(** a vote goroutine builds and sends its request *)
| EvVoteTask (i : string) (term : Z) (p : string)
(** a vote request arrives *)
| EvDeliverVote (src dst : string) (req : RequestVoteRequest) (e : Env)
(** [startElection] receives from [respCh] the response of [p], or its error *)
| EvElectionRecv (i p : string) (r : option RequestVoteResponse) (e : Env)
(** the context of [startElection] is done *)
| EvElectionCancel (i : string)
(** [startElection] calls [becomeLeader] *)
| EvBecomeLeader (i : string)
(** [sendHeartbeats], from the ticker or from [becomeLeader] *)
| EvHeartbeat (i : string) (e : Env)
| EvHeartbeatTask (i : string) (term : Z) (p : string)
| EvDeliverAppend (src dst : string) (call : option nat) (req : AppendEntriesRequest) (e : Env)
| EvHeartbeatRecv (i p : string) (term : Z) (resp : AppendEntriesResponse) (e : Env)
(** a client calls [Propose] *)
| EvPropose (i : string) (command : string)
| EvProposeTask (j : nat) (p : string)
| EvProposeRecv (j : nat) (p : string) (r : option AppendEntriesResponse)
| EvProposeCancel (j : nat)
(** a running [applyEntries] calls [applyFn] on its next entry *)
| EvApply (b : nat).

(** The onset of an election.  [onElectionTimeout] releases the lock before
    [startElection] takes it; nothing but this goroutine makes a node leader,
    so joining the two sections loses no behaviour. *)
Definition fire_timeout (c : Cluster) (i : string) (e : Env) : option (exec Cluster) :=
  match nodes c !! i, elections c !! i with
  | Some n, None =>
      let '(n, start) := onElectionTimeout e n in
      if start then
        let '(n, el) := startElection_enter e n in
        let c := with_node c i n in
        let c := with_tasks c (map (TVote i (el_term el)) (peers n) ++ tasks c) in
        Some (Ok (if bool_decide (peers n = []) then c
                  else with_elections c
                         (<[i := mkElectionRun el (peers n) false]> (elections c))))
      else Some (Ok (with_node c i n))
  | _, _ => None
  end.

Definition fire_vote_task (c : Cluster) (i : string) (term : Z) (p : string)
  : option (exec Cluster) :=
  match nodes c !! i with
  | Some n =>
      if bool_decide (TVote i term p ∈ tasks c) then
        let c := with_tasks c (remove1 (TVote i term p) (tasks c)) in
        Some (Ok (with_net c (PVoteReq i p (startElection_request n term) :: net c)))
      else None
  | None => None
  end.

Definition fire_deliver_vote (c : Cluster) (src dst : string) (req : RequestVoteRequest)
    (e : Env) : option (exec Cluster) :=
  match nodes c !! dst with
  | Some n =>
      if bool_decide (PVoteReq src dst req ∈ net c) then
        let '(n, resp) := HandleRequestVote e n req in
        let c := with_node c dst n in
        Some (Ok (with_net c (PVoteResp dst src (rv_Term req) resp
                              :: remove1 (PVoteReq src dst req) (net c))))
      else None
  | None => None
  end.

Definition fire_election_recv (c : Cluster) (i p : string) (r : option RequestVoteResponse)
    (e : Env) : option (exec Cluster) :=
  match nodes c !! i, elections c !! i with
  | Some n, Some er =>
      let el := er_el er in
      let arrived := match r with
                     | Some resp => bool_decide (PVoteResp p i (el_term el) resp ∈ net c)
                     | None => true end in
      if negb (er_promote er) && bool_decide (p ∈ er_waiting er) && arrived then
        let resp := match r with Some resp => resp
                    | None => mkVoteResp (el_term el) false end in
        let c := match r with
                 | Some resp => with_net c (remove1 (PVoteResp p i (el_term el) resp) (net c))
                 | None => c end in
        let '(n, out) := startElection_recv e n el resp in
        let c := with_node c i n in
        Some (Ok (with_elections c
          match out with
          | ElectionWait el =>
              <[i := mkElectionRun el (remove1 p (er_waiting er)) false]> (elections c)
          | ElectionReturn => delete i (elections c)
          | ElectionPromote =>
              <[i := mkElectionRun (mkElection (el_term el) (el_votes el + 1) (el_needed el)
                                      (el_responses el + 1))
                       (remove1 p (er_waiting er)) true]> (elections c)
          end))
      else None
  | _, _ => None
  end.

Definition fire_election_cancel (c : Cluster) (i : string) : option (exec Cluster) :=
  match elections c !! i with
  | Some er => if er_promote er then None
               else Some (Ok (with_elections c (delete i (elections c))))
  | None => None
  end.

Definition fire_become_leader (c : Cluster) (i : string) : option (exec Cluster) :=
  match nodes c !! i, elections c !! i with
  | Some n, Some er =>
      if er_promote er then
        let '(n, _) := becomeLeader n in
        Some (Ok (with_elections (with_node c i n) (delete i (elections c))))
      else None
  | _, _ => None
  end.

Definition fire_heartbeat (c : Cluster) (i : string) (e : Env) : option (exec Cluster) :=
  match nodes c !! i with
  | Some n =>
      let '(n, term) := sendHeartbeats_enter e n in
      let c := with_node c i n in
      Some (Ok match term with
               | Some term => with_tasks c (map (THeartbeat i term) (peers n) ++ tasks c)
               | None => c end)
  | None => None
  end.

Definition fire_heartbeat_task (c : Cluster) (i : string) (term : Z) (p : string)
  : option (exec Cluster) :=
  match nodes c !! i with
  | Some n =>
      if bool_decide (THeartbeat i term p ∈ tasks c) then
        let c := with_tasks c (remove1 (THeartbeat i term p) (tasks c)) in
        Some (Ok (with_net c (PAppendReq i p None (sendHeartbeats_request n term) :: net c)))
      else None
  | None => None
  end.

Definition fire_deliver_append (c : Cluster) (src dst : string) (call : option nat)
    (req : AppendEntriesRequest) (e : Env) : option (exec Cluster) :=
  match nodes c !! dst with
  | Some n =>
      if bool_decide (PAppendReq src dst call req ∈ net c) then
        let start := lastApplied n in
        Some (let! (n, resp, es) := HandleAppendEntries e n req in
              let c := with_node c dst n in
              let c := with_net c (PAppendResp dst src call (ae_Term req) resp
                                   :: remove1 (PAppendReq src dst call req) (net c)) in
              Ok (with_batch c dst start es))
      else None
  | None => None
  end.

Definition fire_heartbeat_recv (c : Cluster) (i p : string) (term : Z)
    (resp : AppendEntriesResponse) (e : Env) : option (exec Cluster) :=
  match nodes c !! i with
  | Some n =>
      if bool_decide (PAppendResp p i None term resp ∈ net c) then
        let c := with_node c i (sendHeartbeats_recv e n term resp) in
        Some (Ok (with_net c (remove1 (PAppendResp p i None term resp) (net c))))
      else None
  | None => None
  end.

Definition fire_propose (c : Cluster) (i : string) (command : string) : option (exec Cluster) :=
  match nodes c !! i with
  | Some n =>
      match Propose_enter n command with
      | inl _ => Some (Ok c)
      | inr (n, pr) =>
          let done := if bool_decide (peers n = [])
                      then Some (Some ErrReplicationFailed) else None in
          let j := length (proposals c) in
          let c := with_node c i n in
          let c := with_proposals c (proposals c ++ [mkProposeRun i pr (peers n) done]) in
          Some (Ok (with_tasks c (map (TAppend j) (peers n) ++ tasks c)))
      end
  | None => None
  end.

Definition fire_propose_task (c : Cluster) (j : nat) (p : string) : option (exec Cluster) :=
  match proposals c !! j with
  | Some run =>
      match nodes c !! prn_node run with
      | Some n =>
          if bool_decide (TAppend j p ∈ tasks c) then
            let c := with_tasks c (remove1 (TAppend j p) (tasks c)) in
            Some (Ok (with_net c (PAppendReq (prn_node run) p (Some j)
                                    (Propose_request n (prn_pr run)) :: net c)))
          else None
      | None => None
      end
  | None => None
  end.

Definition fire_propose_recv (c : Cluster) (j : nat) (p : string)
    (r : option AppendEntriesResponse) : option (exec Cluster) :=
  match proposals c !! j with
  | Some run =>
      match nodes c !! prn_node run with
      | Some n =>
          let i := prn_node run in
          let pr := prn_pr run in
          let term := entry_Term (pr_entry pr) in
          let arrived := match r with
                         | Some resp => bool_decide (PAppendResp p i (Some j) term resp ∈ net c)
                         | None => true end in
          if bool_decide (prn_done run = None) && bool_decide (p ∈ prn_waiting run) && arrived
          then
            let resp := match r with Some resp => resp
                        | None => mkAppendResp term false end in
            let c := match r with
                     | Some resp => with_net c (remove1 (PAppendResp p i (Some j) term resp) (net c))
                     | None => c end in
            let start := lastApplied n in
            Some (let! (n, out, es) := Propose_recv n pr resp in
                  let c := with_batch (with_node c i n) i start es in
                  let waiting := remove1 p (prn_waiting run) in
                  let run := match out with
                             | ProposeWait pr => mkProposeRun i pr waiting None
                             | ProposeReturn err => mkProposeRun i pr waiting (Some err)
                             end in
                  Ok (with_proposals c (<[j := run]> (proposals c))))
          else None
      | None => None
      end
  | None => None
  end.

Definition fire_propose_cancel (c : Cluster) (j : nat) : option (exec Cluster) :=
  match proposals c !! j with
  | Some run =>
      if bool_decide (prn_done run = None) then
        let run := mkProposeRun (prn_node run) (prn_pr run) (prn_waiting run)
                     (Some (Some ErrContext)) in
        Some (Ok (with_proposals c (<[j := run]> (proposals c))))
      else None
  | None => None
  end.

(** One call of [applyFn].  Several [applyEntries] may run at once, so their calls
    interleave; a caller may go on before its own is done, which the code never does
    and which only adds executions. *)
Definition fire_apply (c : Cluster) (b : nat) : option (exec Cluster) :=
  match applying c !! b with
  | Some (mkBatch i pos (entry :: entries)) =>
      match nodes c !! i with
      | Some _ =>
          Some (Ok (mkCluster (nodes c) (elections c) (proposals c) (tasks c) (net c)
            (<[b := mkBatch i (S pos) entries]> (applying c))
            (<[i := default [] (applied c !! i) ++ [(pos, entry)]]> (applied c))))
      | None => None
      end
  | _ => None
  end.

(** [None]: the event cannot happen now.  [Some Panic]: the process dies. *)
Definition fire (ev : Event) (c : Cluster) : option (exec Cluster) :=
  match ev with
  | EvTimeout i e => fire_timeout c i e
  | EvVoteTask i term p => fire_vote_task c i term p
  | EvDeliverVote src dst req e => fire_deliver_vote c src dst req e
  | EvElectionRecv i p r e => fire_election_recv c i p r e
  | EvElectionCancel i => fire_election_cancel c i
  | EvBecomeLeader i => fire_become_leader c i
  | EvHeartbeat i e => fire_heartbeat c i e
  | EvHeartbeatTask i term p => fire_heartbeat_task c i term p
  | EvDeliverAppend src dst call req e => fire_deliver_append c src dst call req e
  | EvHeartbeatRecv i p term resp e => fire_heartbeat_recv c i p term resp e
  | EvPropose i command => fire_propose c i command
  | EvProposeTask j p => fire_propose_task c j p
  | EvProposeRecv j p r => fire_propose_recv c j p r
  | EvProposeCancel j => fire_propose_cancel c j
  | EvApply b => fire_apply c b
  end.

Definition step (c c' : Cluster) : Prop := exists ev, fire ev c = Some (Ok c').

(** A run from a given state, for concrete executions. *)
Fixpoint run (evs : list Event) (c : Cluster) : option Cluster :=
  match evs with
  | [] => Some c
  | ev :: evs => match fire ev c with Some (Ok c') => run evs c' | _ => None end
  end.

(** A cluster whose members [M] are fresh nodes made by [NewNode], each with
    the other members as its peers. *)
Definition fresh_member (M : gset string) (i : string) (n : Node) : Prop :=
  exists cfg, NewNode cfg = inr n /\ cfg_ID cfg = i /\ NoDup (cfg_Peers cfg) /\
  forall p, p ∈ cfg_Peers cfg <-> p ∈ M /\ p <> i.

Definition initial (M : gset string) (c : Cluster) : Prop :=
  dom (nodes c) = M /\ (forall i n, nodes c !! i = Some n -> fresh_member M i n) /\
  elections c = ∅ /\ proposals c = [] /\ tasks c = [] /\ net c = [] /\
  applying c = [] /\ applied c = ∅.

(** Reached from an initial cluster of members [M] in [k] events. *)
Definition reachable (M : gset string) (k : nat) (c : Cluster) : Prop :=
  exists c0, initial M c0 /\ nsteps step k c0 c.

Lemma elem_of_remove1 {A} `{EqDecision A} (x y : A) l : x ∈ remove1 y l -> x ∈ l.
Proof.
  induction l as [|z l IH]; simpl; [done|]. destruct (decide (y = z)); set_solver.
Qed.

Lemma NoDup_remove1 {A} `{EqDecision A} (y : A) l : NoDup l ->
  NoDup (remove1 y l) /\ y ∉ remove1 y l.
Proof.
  induction 1 as [|z l Hz Hl [IH1 IH2]]; simpl; [split; [constructor|set_solver]|].
  destruct (decide (y = z)) as [->|Hne]; [done|]. split.
  - constructor; [|done]. intros ?%elem_of_remove1. done.
  - set_solver.
Qed.

Lemma run_nsteps evs c c' : run evs c = Some c' -> nsteps step (length evs) c c'.
Proof.
  revert c. induction evs as [|ev evs IH]; simpl; intros c H.
  - injection H as ->. constructor.
  - destruct (fire ev c) as [[c1|]|] eqn:E; try done. econstructor; [by exists ev|auto].
Qed.
