(* ===== verification/RaftNodeFacts.v ===== *)
(** * Behaviour of the Raft node's methods

    Per-method facts: what each handler does on every branch, that no handler
    indexes the log out of range, and the invariant the handlers keep. *)

From stdpp Require Import base gmap strings list.
From S2P Require Import Prelude RaftNode RaftSpec.

#[local] Open Scope Z_scope.
#[local] Open Scope go_scope.

(** The part of a node the protocol depends on; an empty [votedFor] is no vote. *)
Definition core (n : Node) : ANode :=
  mkANode (currentTerm n) (if votedFor n =?s "" then None else Some (votedFor n))
    (state n) (log n).

(** ** The log *)

Lemma lastLogTerm_core n : lastLogTerm n = lastTerm (log n).
Proof. done. Qed.

Lemma isLogUpToDate_spec n li lt : isLogUpToDate n li lt = true <-> upToDate (log n) li lt.
Proof.
  unfold isLogUpToDate, upToDate, lastLogIndex. rewrite lastLogTerm_core.
  destruct (Z.eqb_spec lt (lastTerm (log n))); simpl.
  - rewrite Z.leb_le. lia.
  - rewrite Z.ltb_lt. lia.
Qed.

(** [matchPrevLog] never panics, and accepts exactly a zero index or an index
    within the log whose entry has the term. *)
Lemma matchPrevLog_spec n p pt : 0 <= p ->
  exists b, matchPrevLog n p pt = Ok b /\
  (b = true <-> p = 0 \/ (1 <= p /\ termAt (log n) (Z.to_nat (p - 1)) = Some pt)).
Proof.
  intros Hp. unfold matchPrevLog, lastLogIndex, termAt.
  destruct (Z.eqb_spec p 0); [exists true; split; [done|naive_solver]|].
  destruct (Z.ltb_spec (Z.of_nat (length (log n))) p).
  - exists false. split; [done|]. rewrite (lookup_ge_None_2 (log n)) by lia. simpl. naive_solver.
  - destruct (go_index_lt (log n) (p - 1)) as (x & -> & Hx); [lia|]. simpl.
    exists (entry_Term x =? pt). split; [done|]. rewrite Hx. simpl.
    rewrite Z.eqb_eq. split; [intros <-; right; split; [lia|done]|].
    intros [?|[_ [= ?]]]; [lia|done].
Qed.

(** The entries of a request, one after the other. *)
Fixpoint putEntries (l : list LogEntry) (p : nat) (es : list LogEntry) : list LogEntry :=
  match es with [] => l | x :: es => putEntries (putEntry l p x) (S p) es end.

Lemma putEntry_length l p x : (p <= length l)%nat -> (S p <= length (putEntry l p x))%nat.
Proof.
  intros Hp. unfold putEntry. destruct (l !! p) as [y|] eqn:Hy.
  - apply lookup_lt_Some in Hy.
    destruct (entry_Term y =? entry_Term x); [lia|]. rewrite length_app, length_take. simpl. lia.
  - rewrite length_app. simpl. lia.
Qed.

Lemma putEntry_length_le l p x : (p <= length l)%nat ->
  (length (putEntry l p x) <= length l + 1)%nat.
Proof.
  intros Hp. unfold putEntry. destruct (l !! p) as [y|] eqn:Hy.
  - destruct (entry_Term y =? entry_Term x); rewrite ?length_app, ?length_take; simpl; lia.
  - rewrite length_app. simpl. lia.
Qed.

Lemma putEntry_take l p x q : (p <= length l)%nat -> (q <= p)%nat ->
  take q (putEntry l p x) = take q l.
Proof.
  intros Hp Hq. unfold putEntry. destruct (l !! p) as [y|] eqn:Hy.
  - destruct (entry_Term y =? entry_Term x); [done|].
    rewrite take_app_le by (rewrite length_take; lia). rewrite take_take. f_equal. lia.
  - apply take_app_le. lia.
Qed.

Lemma putEntry_term l p x : (p <= length l)%nat ->
  termAt (putEntry l p x) p = Some (entry_Term x).
Proof.
  intros Hp. unfold putEntry, termAt. destruct (l !! p) as [y|] eqn:Hy.
  - destruct (Z.eqb_spec (entry_Term y) (entry_Term x)) as [E|].
    + rewrite Hy. simpl. by rewrite E.
    + rewrite lookup_app_r by (rewrite length_take; lia).
      apply lookup_lt_Some in Hy. rewrite length_take.
      by replace (p - p `min` length l)%nat with 0%nat by lia.
  - apply lookup_ge_None in Hy. rewrite lookup_app_r by lia.
    by replace (p - length l)%nat with 0%nat by lia.
Qed.

Lemma termAt_take l q p t : (q < p)%nat -> termAt l q = Some t -> termAt (take p l) q = Some t.
Proof. intros Hq. unfold termAt. by rewrite lookup_take_lt. Qed.

Lemma putEntries_take l p es q : (p <= length l)%nat -> (q <= p)%nat ->
  take q (putEntries l p es) = take q l.
Proof.
  revert l p. induction es as [|x es IH]; intros l p Hp Hq; simpl; [done|].
  rewrite IH by (try apply putEntry_length; lia). by apply putEntry_take.
Qed.

(** Every entry of the request ends up at its position, by term. *)
Lemma putEntries_term l p es k x : (p <= length l)%nat -> es !! k = Some x ->
  termAt (putEntries l p es) (p + k) = Some (entry_Term x).
Proof.
  revert l p k. induction es as [|y es IH]; intros l p k Hp Hk; [done|].
  destruct k as [|k]; simpl in *.
  - simplify_eq. rewrite Nat.add_0_r. unfold termAt.
    rewrite <- (lookup_take_lt _ (S p)) by lia.
    rewrite putEntries_take by (try apply putEntry_length; lia).
    rewrite lookup_take_lt by lia. by apply putEntry_term.
  - replace (p + S k)%nat with (S p + k)%nat by lia. apply IH; [|done]. by apply putEntry_length.
Qed.

Lemma putEntries_length_le l p es : (p <= length l)%nat ->
  (length (putEntries l p es) <= length l + length es)%nat.
Proof.
  revert l p. induction es as [|x es IH]; intros l p Hp; simpl; [lia|].
  pose proof (putEntry_length_le l p x Hp). pose proof (putEntry_length l p x Hp).
  specialize (IH (putEntry l p x) (S p)). lia.
Qed.

Lemma appendEntries_loop_spec es l p : 0 <= p <= Z.of_nat (length l) ->
  appendEntries_loop l p es = Ok (putEntries l (Z.to_nat p) es).
Proof.
  revert l p. induction es as [|x es IH]; intros l p Hp; simpl; [done|].
  pose proof (putEntry_length l (Z.to_nat p) x) as Hlen.
  replace (S (Z.to_nat p)) with (Z.to_nat (p + 1)) by lia.
  destruct (Z.ltb_spec p (Z.of_nat (length l))).
  - destruct (go_index_lt l p) as (y & -> & Hy); [lia|]. simpl.
    rewrite <- IH by lia. unfold putEntry. rewrite Hy.
    by destruct (entry_Term y =? entry_Term x).
  - rewrite <- IH by lia. unfold putEntry. by rewrite (lookup_ge_None_2 l) by lia.
Qed.

(** [appendEntries] at an index within the log. *)
Lemma appendEntries_spec n p es : 0 <= p <= Z.of_nat (length (log n)) ->
  Z.of_nat (length (log n)) < 2 ^ 63 ->
  appendEntries n p es = Ok (set_log n (putEntries (log n) (Z.to_nat p) es)).
Proof.
  intros Hp Hlen. unfold appendEntries. rewrite i64_id by lia.
  by rewrite appendEntries_loop_spec.
Qed.

(** ** Commit *)

Lemma collect_loop_spec fuel n acc :
  0 <= lastApplied n -> commitIndex n <= Z.of_nat (length (log n)) ->
  Z.of_nat fuel = commitIndex n - lastApplied n ->
  collect_loop fuel n acc = Ok (set_commit n (commitIndex n) (commitIndex n),
    acc ++ take fuel (drop (Z.to_nat (lastApplied n)) (log n))).
Proof.
  revert n acc. induction fuel as [|fuel IH]; intros n acc H0 Hc Hf; simpl.
  - destruct (Z.ltb_spec (lastApplied n) (commitIndex n)); [lia|].
    rewrite app_nil_r. do 2 f_equal. destruct n; simpl in *. unfold set_commit. simpl.
    f_equal. lia.
  - destruct (Z.ltb_spec (lastApplied n) (commitIndex n)); [|lia].
    destruct (go_index_lt (log n) (lastApplied n)) as (x & -> & Hx); [lia|]. simpl.
    rewrite IH by (simpl; lia). simpl. do 2 f_equal. rewrite <- app_assoc. f_equal. simpl.
    replace (Z.to_nat (lastApplied n + 1)) with (S (Z.to_nat (lastApplied n))) by lia.
    by rewrite (drop_S _ _ _ Hx).
Qed.

(** When the commit index is within the log, the entries handed over are
    exactly those from the last applied one up to it, and the apply index
    catches up. *)
Lemma collectCommittedLocked_spec n :
  0 <= lastApplied n -> commitIndex n <= Z.of_nat (length (log n)) ->
  exists n', collectCommittedLocked n =
    Ok (n', take (Z.to_nat (commitIndex n - lastApplied n))
              (drop (Z.to_nat (lastApplied n)) (log n))) /\
  n' = set_commit n (commitIndex n) (Z.max (lastApplied n) (commitIndex n)).
Proof.
  intros H0 Hc. unfold collectCommittedLocked. destruct (Z.leb_spec (commitIndex n) (lastApplied n)).
  - exists n. split.
    + replace (Z.to_nat (commitIndex n - lastApplied n)) with 0%nat by lia. done.
    + rewrite Z.max_l by lia. by destruct n.
  - rewrite collect_loop_spec by lia. eexists. split; [done|]. by rewrite Z.max_r by lia.
Qed.

Lemma collectCommittedLocked_caught_up n :
  commitIndex n <= lastApplied n -> collectCommittedLocked n = Ok (n, []).
Proof.
  intros H. unfold collectCommittedLocked. by destruct (Z.leb_spec (commitIndex n) (lastApplied n)); [|lia].
Qed.

(** The code relies on the log reaching the commit index: otherwise it panics. *)
Lemma collect_loop_panics fuel n acc :
  0 <= lastApplied n -> Z.of_nat (length (log n)) < commitIndex n ->
  Z.of_nat fuel = commitIndex n - lastApplied n -> lastApplied n <= Z.of_nat (length (log n)) ->
  collect_loop fuel n acc = Panic.
Proof.
  revert n acc. induction fuel as [|fuel IH]; intros n acc H0 Hc Hf Hl; [lia|]. simpl.
  destruct (Z.ltb_spec (lastApplied n) (commitIndex n)); [|lia].
  destruct (decide (lastApplied n = Z.of_nat (length (log n)))) as [E|Hne].
  - unfold go_index. rewrite (proj2 (Z.ltb_ge _ _)) by lia.
    by rewrite (lookup_ge_None_2 (log n)) by lia.
  - destruct (go_index_lt (log n) (lastApplied n)) as (x & -> & Hx); [lia|]. simpl.
    apply IH; simpl; lia.
Qed.

(** ** Votes *)

Definition adopt (n : Node) (t : Z) (l : string) : Node :=
  if currentTerm n <? t then stepDownLocked n t l else n.

Lemma adopt_core n t l :
  core (adopt n t l) = core n \/
  (currentTerm n < t /\ core (adopt n t l) = mkANode t None StateFollower (log n)).
Proof.
  unfold adopt. destruct (Z.ltb_spec (currentTerm n) t); [right|by left].
  split; [done|]. unfold stepDownLocked, core. simpl. by rewrite (proj2 (Z.ltb_lt _ _)).
Qed.

Lemma adopt_fields n t l :
  id (adopt n t l) = id n /\ peers (adopt n t l) = peers n /\ log (adopt n t l) = log n /\
  commitIndex (adopt n t l) = commitIndex n /\ lastApplied (adopt n t l) = lastApplied n /\
  currentTerm (adopt n t l) = Z.max (currentTerm n) t.
Proof.
  unfold adopt, stepDownLocked. destruct (Z.ltb_spec (currentTerm n) t); simpl;
    split_and!; try done; lia.
Qed.

(** The vote handler: a request of an older term changes nothing; otherwise
    the node is first in the request's term, and it votes exactly when the
    candidate's log is up to date and no other candidate has its vote. *)
Lemma HandleRequestVote_cases e n req n' resp :
  HandleRequestVote e n req = (n', resp) ->
  (rv_Term req < currentTerm n /\ n' = n /\ resp = mkVoteResp (currentTerm n) false) \/
  (currentTerm n <= rv_Term req /\
   let n1 := adopt n (rv_Term req) "" in
   resp = mkVoteResp (rv_Term req) (rvr_VoteGranted resp) /\
   ((rvr_VoteGranted resp = false /\ n' = n1) \/
    (rvr_VoteGranted resp = true /\ upToDate (log n) (rv_LastLogIndex req) (rv_LastLogTerm req) /\
     (votedFor n1 = "" \/ votedFor n1 = rv_CandidateID req) /\
     n' = resetElectionTimer e (set_term_vote n1 (currentTerm n1) (rv_CandidateID req))))).
Proof.
  unfold HandleRequestVote. destruct (Z.ltb_spec (rv_Term req) (currentTerm n)) as [Hlt|Hge].
  - intros [= <- <-]. by left.
  - fold (adopt n (rv_Term req) ""). intros H. right. split; [done|]. simpl.
    set (n1 := adopt n (rv_Term req) "") in *.
    destruct (adopt_fields n (rv_Term req) "") as (_ & _ & Hlog & _ & _ & Ht). fold n1 in Hlog, Ht.
    rewrite Z.max_r in Ht by lia.
    destruct (isLogUpToDate n1 _ _) eqn:Hup; simpl in H.
    + apply isLogUpToDate_spec in Hup. rewrite Hlog in Hup.
      destruct ((votedFor n1 =?s "") || (votedFor n1 =?s rv_CandidateID req)) eqn:Hg;
        simplify_eq/=; (split; [congruence|]).
      * right. split_and!; try done. apply orb_true_iff in Hg as [Hg|Hg]; zbool; auto.
      * by left.
    + simplify_eq/=. split; [congruence|]. by left.
Qed.

(** ** Appends *)

(** What [HandleAppendEntries] does after the term check, on the node [n1]
    already in the request's term, when it accepts with resulting log [l]. *)
Definition accept_commit (n1 : Node) (l : list LogEntry) (lc : Z) : Z :=
  if commitIndex n1 <? lc then Z.min lc (Z.of_nat (length l)) else commitIndex n1.

Lemma HandleAppendEntries_tail e n1 lc lid :
  0 <= commitIndex n1 <= lastApplied n1 ->
  let n2 := if commitIndex n1 <? lc then
              if lc <? lastLogIndex n1 then set_commit n1 lc (lastApplied n1)
              else set_commit n1 (lastLogIndex n1) (lastApplied n1)
            else n1 in
  exists es,
  (let! (n, es) := collectCommittedLocked (set_lastHeartbeat n2 (now e)) in
   let n := set_role n StateFollower lid in
   let n := resetElectionTimer e n in
   Ok (n, mkAppendResp (currentTerm n) true, es)) =
  Ok (resetElectionTimer e (set_role (set_commit (set_lastHeartbeat n1 (now e))
        (accept_commit n1 (log n1) lc)
        (Z.max (lastApplied n1) (accept_commit n1 (log n1) lc))) StateFollower lid),
      mkAppendResp (currentTerm n1) true, es) /\
  es = take (Z.to_nat (accept_commit n1 (log n1) lc - lastApplied n1))
         (drop (Z.to_nat (lastApplied n1)) (log n1)).
Proof.
  intros Hinv n2. unfold accept_commit.
  assert (Hn2 : n2 = set_commit n1 (if commitIndex n1 <? lc then Z.min lc (lastLogIndex n1)
                                    else commitIndex n1) (lastApplied n1)).
  { subst n2. destruct (commitIndex n1 <? lc) eqn:E; [|by destruct n1].
    destruct (Z.ltb_spec lc (lastLogIndex n1)); [by rewrite Z.min_l by lia|].
    by rewrite Z.min_r by lia. }
  rewrite Hn2. clear n2 Hn2. unfold lastLogIndex.
  destruct (Z.ltb_spec (commitIndex n1) lc) as [Hlt|Hge].
  - set (m := set_lastHeartbeat _ _).
    destruct (collectCommittedLocked_spec m) as (n' & -> & ->); [simpl; lia..|].
    simpl. eauto.
  - rewrite collectCommittedLocked_caught_up by (simpl; lia). simpl.
    rewrite Z.max_l by lia. eexists. split; [reflexivity|].
    by replace (Z.to_nat _) with 0%nat by lia.
Qed.

(** The consistency check of [HandleAppendEntries]. *)
Definition prevOk (l : list LogEntry) (p pt : Z) : Prop :=
  p = 0 \/ (1 <= p /\ termAt l (Z.to_nat (p - 1)) = Some pt).

Lemma prevOk_length l p pt : prevOk l p pt -> 0 <= p <= Z.of_nat (length l).
Proof.
  intros [->|[Hp Ht]]; [lia|]. apply fmap_Some in Ht as (x & Hx & _).
  apply lookup_lt_Some in Hx. lia.
Qed.

(** What every method keeps: the apply index is never behind the commit
    index, and the log is a Go slice. *)
Definition node_inv (n : Node) : Prop :=
  0 <= commitIndex n <= lastApplied n /\ Z.of_nat (length (log n)) < 2 ^ 63.

Definition accepted (e : Env) (n1 : Node) (req : AppendEntriesRequest) (l : list LogEntry) : Node :=
  let c := accept_commit n1 l (ae_LeaderCommit req) in
  resetElectionTimer e (set_role (set_commit (set_lastHeartbeat (set_log n1 l) (now e))
    c (Z.max (lastApplied n1) c)) StateFollower (ae_LeaderID req)).

(** The append handler, on every branch. *)
Lemma HandleAppendEntries_cases e n req :
  node_inv n -> 0 <= ae_PrevLogIndex req ->
  exists n' resp es, HandleAppendEntries e n req = Ok (n', resp, es) /\
  ((ae_Term req < currentTerm n /\ n' = n /\ resp = mkAppendResp (currentTerm n) false /\ es = []) \/
   (currentTerm n <= ae_Term req /\
    let n1 := adopt n (ae_Term req) (ae_LeaderID req) in
    ((ae_Entries req <> [] /\ ~ prevOk (log n) (ae_PrevLogIndex req) (ae_PrevLogTerm req) /\
      n' = n1 /\ resp = mkAppendResp (ae_Term req) false /\ es = []) \/
     exists l, (ae_Entries req = [] /\ l = log n \/
       ae_Entries req <> [] /\ prevOk (log n) (ae_PrevLogIndex req) (ae_PrevLogTerm req) /\
       l = putEntries (log n) (Z.to_nat (ae_PrevLogIndex req)) (ae_Entries req)) /\
     n' = accepted e n1 req l /\ resp = mkAppendResp (ae_Term req) true /\
     es = take (Z.to_nat (accept_commit n1 l (ae_LeaderCommit req) - lastApplied n))
            (drop (Z.to_nat (lastApplied n)) l)))).
Proof.
  intros [Hci Hlen] Hp. unfold HandleAppendEntries.
  destruct (Z.ltb_spec (ae_Term req) (currentTerm n)) as [Hlt|Hge].
  { do 3 eexists. split; [reflexivity|]. by left. }
  fold (adopt n (ae_Term req) (ae_LeaderID req)).
  destruct (adopt_fields n (ae_Term req) (ae_LeaderID req)) as (_ & _ & Hlog & Hc & Ha & Ht).
  rewrite Z.max_r in Ht by lia. set (n1 := adopt _ _ _) in *.
  destruct (bool_decide_reflect (ae_Entries req = [])) as [He|He]; simpl.
  - destruct (HandleAppendEntries_tail e n1 (ae_LeaderCommit req) (ae_LeaderID req))
      as (es & E & ->); [by rewrite Hc, Ha|].
    do 3 eexists. split; [exact E|]. right. split; [done|]. right. exists (log n).
    split; [by left|]. unfold accepted. rewrite Ht, Hlog, Ha.
    replace (set_log n1 (log n)) with n1 by (destruct n1; simpl in *; by subst). done.
  - destruct (matchPrevLog_spec n1 (ae_PrevLogIndex req) (ae_PrevLogTerm req) Hp) as (b & -> & Hb).
    rewrite Hlog in Hb. change (_ \/ _) with (prevOk (log n) (ae_PrevLogIndex req)
      (ae_PrevLogTerm req)) in Hb. simpl. destruct b; simpl.
    + assert (Hok : prevOk (log n) (ae_PrevLogIndex req) (ae_PrevLogTerm req)) by (by apply Hb).
      pose proof (prevOk_length _ _ _ Hok).
      rewrite appendEntries_spec by (rewrite Hlog; lia). simpl. rewrite Hlog.
      set (l := putEntries _ _ _).
      destruct (HandleAppendEntries_tail e (set_log n1 l) (ae_LeaderCommit req) (ae_LeaderID req))
        as (es & E & ->); [simpl; by rewrite Hc, Ha|].
      do 3 eexists. split; [exact E|]. right. split; [done|]. right. exists l.
      split; [by right|]. unfold accepted. cbn [currentTerm lastApplied log set_log].
      rewrite Ht, Ha. by split_and!.
    + do 3 eexists. split; [reflexivity|]. right. split; [done|]. left.
      rewrite Ht. split_and!; try done. intros ?%Hb. done.
Qed.

(** ** Counting *)

Definition count_vote (el : Election) (granted : bool) : Election :=
  mkElection (el_term el) (el_votes el + (if granted then 1 else 0)) (el_needed el)
    (el_responses el + 1).

(** The election loop on one response: a later term ends the election, a
    change of role or term ends it, and otherwise the vote is counted. *)
Lemma startElection_recv_cases e n el resp n' out :
  startElection_recv e n el resp = (n', out) ->
  (currentTerm n < rvr_Term resp /\
   n' = resetElectionTimer e (adopt n (rvr_Term resp) "") /\ out = ElectionReturn) \/
  (rvr_Term resp <= currentTerm n /\ n' = n /\
   (out = ElectionReturn \/
    (state n = StateCandidate /\ currentTerm n = el_term el /\
     (out = ElectionWait (count_vote el (rvr_VoteGranted resp)) \/
      out = ElectionPromote /\ rvr_VoteGranted resp = true /\
      el_needed el <= el_votes el + 1)))).
Proof.
  unfold startElection_recv. cbn [el_term el_votes el_needed el_responses].
  destruct (Z.ltb_spec (currentTerm n) (rvr_Term resp)) as [Hlt|Hge].
  { intros [= <- <-]. left. unfold adopt. by rewrite (proj2 (Z.ltb_lt _ _)). }
  destruct (bool_decide_reflect (state n = StateCandidate)); simpl;
    [|intros [= <- <-]; right; auto].
  destruct (Z.eqb_spec (currentTerm n) (el_term el)); simpl; [|intros [= <- <-]; right; auto].
  unfold count_vote. destruct (rvr_VoteGranted resp).
  - destruct (Z.leb_spec (el_needed el) (el_votes el + 1)); intros [= <- <-]; right; [auto 12|].
    destruct (_ <? _); auto 12.
  - rewrite Z.add_0_r. intros [= <- <-]. right. destruct (_ <? _); auto 12.
Qed.

Definition count_ack (pr : Proposal) (ok : bool) : Proposal :=
  mkProposal (pr_entry pr) (pr_prevIndex pr) (pr_prevTerm pr) (pr_newIndex pr)
    (pr_acks pr + (if ok then 1 else 0)) (pr_needed pr) (pr_responses pr + 1).

(** The proposal loop on one response, when the log reaches [newIndex] should
    the entry be committed. *)
Lemma Propose_recv_cases n pr resp :
  0 <= commitIndex n <= lastApplied n ->
  (aer_Success resp = true -> aer_Term resp <= entry_Term (pr_entry pr) ->
   pr_needed pr <= pr_acks pr + 1 -> pr_newIndex pr <= Z.of_nat (length (log n))) ->
  exists n' out es, Propose_recv n pr resp = Ok (n', out, es) /\
  ((entry_Term (pr_entry pr) < aer_Term resp /\ n' = adopt n (aer_Term resp) "" /\
    out = ProposeReturn (Some ErrNotLeader) /\ es = []) \/
   (aer_Term resp <= entry_Term (pr_entry pr) /\
    ((aer_Success resp = true /\ pr_needed pr <= pr_acks pr + 1 /\ out = ProposeReturn None /\
      let c := Z.max (commitIndex n) (pr_newIndex pr) in
      n' = set_commit n c (Z.max (lastApplied n) c) /\
      es = take (Z.to_nat (c - lastApplied n)) (drop (Z.to_nat (lastApplied n)) (log n))) \/
     ((aer_Success resp = true -> pr_acks pr + 1 < pr_needed pr) /\ n' = n /\ es = [] /\
      (out = ProposeWait (count_ack pr (aer_Success resp)) \/
       out = ProposeReturn (Some ErrReplicationFailed)))))).
Proof.
  intros Hci Hlog. unfold Propose_recv.
  cbn [pr_entry pr_prevIndex pr_prevTerm pr_newIndex pr_acks pr_needed pr_responses].
  destruct (Z.ltb_spec (entry_Term (pr_entry pr)) (aer_Term resp)) as [Hlt|Hge].
  { do 3 eexists. split; [reflexivity|]. by left. }
  unfold count_ack. destruct (aer_Success resp).
  - destruct (Z.leb_spec (pr_needed pr) (pr_acks pr + 1)) as [Hq|Hq].
    + specialize (Hlog eq_refl Hge Hq). destruct (Z.ltb_spec (commitIndex n) (pr_newIndex pr)).
      * destruct (collectCommittedLocked_spec (set_commit n (pr_newIndex pr) (lastApplied n)))
          as (n' & -> & ->); [simpl; lia..|]. do 3 eexists. split; [reflexivity|].
        right. split; [done|]. left. rewrite (Z.max_r (commitIndex n)) by lia. done.
      * do 3 eexists. split; [reflexivity|]. right. split; [done|]. left.
        simpl. rewrite (Z.max_l (commitIndex n)) by lia.
        rewrite Z.max_l by lia. replace (Z.to_nat (commitIndex n - _)) with 0%nat by lia.
        by destruct n.
    + do 3 eexists. split; [reflexivity|]. right. split; [done|]. right.
      split_and!; try done. destruct (_ <? _); auto.
  - do 3 eexists. split; [reflexivity|]. right. split; [done|]. right. rewrite Z.add_0_r.
    split_and!; try done. destruct (_ <? _); auto.
Qed.
