(* ===== verification/RaftRefine.v ===== *)
(** * The cluster implements the protocol

    A simulation between the cluster of running nodes and the abstract
    protocol: every event of the cluster is zero or more protocol steps, and
    what is in flight (goroutines, messages, the locals of running elections
    and proposals) is justified by the protocol's history. *)

From stdpp Require Import base gmap strings list relations.
From S2P Require Import Prelude RaftNode RaftSpec RaftLog RaftSafety RaftCluster.
From S2P Require Import RaftNodeFacts.

#[local] Open Scope Z_scope.
#[local] Open Scope go_scope.

Section Refine.
Context (M : gset string).
Implicit Types (c : Cluster) (s : AState) (n : Node) (k : Z).

(** ** Growth of the history *)

Record hist_le s s' : Prop := {
  hl_voted key v : a_voted s !! key = Some v -> a_voted s' !! key = Some v;
  hl_llog : llog_le s s';
  hl_ack v T m : ackd s v T m -> ackd s' v T m;
  hl_chosen x : x ∈ a_chosen s -> x ∈ a_chosen s' }.

Lemma llog_le_trans s1 s2 s3 : llog_le s1 s2 -> llog_le s2 s3 -> llog_le s1 s3.
Proof.
  intros H1 H2 T j L HL. destruct (H1 _ _ _ HL) as (L' & HL' & Hp).
  destruct (H2 _ _ _ HL') as (L'' & HL'' & Hp'). exists L''. split; [done|by etrans].
Qed.

Lemma hist_le_trans s1 s2 s3 : hist_le s1 s2 -> hist_le s2 s3 -> hist_le s1 s3.
Proof.
  intros [A1 B1 C1 D1] [A2 B2 C2 D2]. split; eauto using llog_le_trans.
Qed.

Lemma hist_le_refl s : hist_le s s.
Proof. split; auto. by apply llog_le_refl. Qed.

Lemma astep_hist s s' : AInv M s -> astep M s s' -> hist_le s s'.
Proof.
  intros [Hvi Hli Hsi] Hstep. destruct (step_ext M _ _ Hvi Hstep) as [Hle _ Hack _].
  split; [|done|done|]; revert Hvi; destruct Hstep; intros Hvi; simpl; try done; try set_solver.
  - intros [w T] u Hw. destruct (decide ((i, a_term n + 1) = (w, T))) as [E|Hne];
      [|by rewrite lookup_insert_ne].
    injection E as -> <-. destruct (vi_voted _ _ Hvi _ _ _ Hw) as (m & Hm & ? & _).
    assert (m = n) by congruence. subst. lia.
  - intros [w T] u Hw. destruct (decide ((v, a_term n) = (w, T))) as [E|Hne];
      [|by rewrite lookup_insert_ne].
    injection E as -> <-. destruct (vi_voted _ _ Hvi _ _ _ Hw) as (m & Hm & ? & Heq).
    assert (m = n) by congruence. subst. rewrite lookup_insert_eq. rewrite Heq in * by done.
    match goal with H : _ \/ _ |- _ => destruct H; congruence end.
Qed.

Lemma asteps_hist s s' : AInv M s -> rtc (astep M) s s' -> hist_le s s'.
Proof.
  intros Hinv Hs. revert Hinv. induction Hs as [|s1 s2 s3 H12 H23 IH]; intros Hinv.
  - apply hist_le_refl.
  - eapply hist_le_trans; [by apply astep_hist|]. eauto using ainv_step.
Qed.

(** ** What is in flight *)

Definition node_ok k (i : string) n : Prop :=
  (id n = i /\ i <> "") /\
  (NoDup (peers n) /\ forall p, p ∈ peers n <-> p ∈ M /\ p <> i) /\
  0 <= currentTerm n <= k /\ 0 <= commitIndex n <= lastApplied n /\
  Z.of_nat (length (log n)) <= k.

(** [x] is the entry at position [p] of the log of [i], leader of [T], after an
    entry of term [pt]. *)
Definition entry_at s (T : Z) (i : string) (p : nat) (x : LogEntry) (pt : Z) : Prop :=
  exists L, a_llog s !! T = Some (i, L) /\ L !! p = Some x /\ entry_Term x = T /\
            pt = lastTerm (take p L).

Definition others (i p : string) : Prop := i ∈ M /\ p ∈ M /\ p <> i.

Definition pr_term (pr : Proposal) : Z := entry_Term (pr_entry pr).

Definition task_ok c s (t : Task) : Prop :=
  match t with
  | TVote i T p => others i p /\ a_voted s !! (i, T) = Some i
  | THeartbeat i T p => others i p /\ exists L, a_llog s !! T = Some (i, L)
  | TAppend j p => exists run, proposals c !! j = Some run /\ others (prn_node run) p
  end.

Definition pkt_ok c s k (pk : Packet) : Prop :=
  match pk with
  | PVoteReq src dst req =>
      others src dst /\ rv_CandidateID req = src /\ a_voted s !! (src, rv_Term req) = Some src /\
      forall n, nodes c !! src = Some n -> state n = StateCandidate ->
      currentTerm n = rv_Term req ->
      rv_LastLogIndex req = lastLogIndex n /\ rv_LastLogTerm req = lastLogTerm n
  | PVoteResp src dst T resp =>
      0 <= rvr_Term resp <= k /\ (rvr_VoteGranted resp = true -> a_voted s !! (src, T) = Some dst)
  | PAppendReq src dst call req =>
      others src dst /\ ae_LeaderID req = src /\ 0 <= ae_PrevLogIndex req /\
      (exists L, a_llog s !! ae_Term req = Some (src, L)) /\
      (ae_Entries req = [] \/
       exists x p, ae_Entries req = [x] /\ ae_PrevLogIndex req = Z.of_nat p /\
                   entry_at s (ae_Term req) src p x (ae_PrevLogTerm req)) /\
      forall j, call = Some j -> exists run, proposals c !! j = Some run /\
        ae_Term req = pr_term (prn_pr run) /\ ae_Entries req = [pr_entry (prn_pr run)] /\
        pr_newIndex (prn_pr run) = ae_PrevLogIndex req + 1
  | PAppendResp src dst call T resp =>
      0 <= aer_Term resp <= k /\
      (aer_Success resp = true -> forall j, call = Some j ->
       exists run, proposals c !! j = Some run /\
       ackd s src (pr_term (prn_pr run)) (Z.to_nat (pr_newIndex (prn_pr run))))
  end.

Definition election_ok c s (i : string) (er : ElectionRun) : Prop :=
  let el := er_el er in
  exists n (G : gset string), nodes c !! i = Some n /\
  a_voted s !! (i, el_term el) = Some i /\
  (state n = StateCandidate -> currentTerm n = el_term el) /\
  el_needed el = quorum n /\
  (NoDup (er_waiting er) /\ forall p, p ∈ er_waiting er -> p ∈ peers n) /\
  (forall p, p ∈ G -> p ∈ peers n /\ p ∉ er_waiting er /\ a_voted s !! (p, el_term el) = Some i) /\
  el_votes el = 1 + Z.of_nat (size G) /\
  (er_promote er = true -> el_needed el <= el_votes el).

Definition prop_ok c s (run : ProposeRun) : Prop :=
  let pr := prn_pr run in
  exists n (G : gset string) p, nodes c !! prn_node run = Some n /\
  entry_at s (pr_term pr) (prn_node run) p (pr_entry pr) (pr_prevTerm pr) /\
  (pr_prevIndex pr = Z.of_nat p /\ pr_newIndex pr = Z.of_nat (S p)) /\
  pr_needed pr = quorum n /\
  (NoDup (prn_waiting run) /\ forall q, q ∈ prn_waiting run -> q ∈ peers n) /\
  (forall v, v ∈ G -> v ∈ peers n /\ v ∉ prn_waiting run /\ ackd s v (pr_term pr) (S p)) /\
  ackd s (prn_node run) (pr_term pr) (S p) /\
  pr_acks pr = 1 + Z.of_nat (size G) /\
  (prn_done run = Some None -> (pr_term pr, S p) ∈ a_chosen s).

Record CInv c s k : Prop := {
  ci_abs : a_nodes s = core <$> nodes c;
  ci_dom : dom (nodes c) = M;
  ci_node i n : nodes c !! i = Some n -> node_ok k i n;
  ci_task t : t ∈ tasks c -> task_ok c s t;
  ci_net pk : pk ∈ net c -> pkt_ok c s k pk;
  ci_el i er : elections c !! i = Some er -> election_ok c s i er;
  ci_prop j run : proposals c !! j = Some run -> prop_ok c s run }.

Lemma ci_lookup c s k i n : CInv c s k -> nodes c !! i = Some n -> a_nodes s !! i = Some (core n).
Proof. intros Hc Hi. rewrite (ci_abs _ _ _ Hc), lookup_fmap, Hi. done. Qed.

Lemma ci_member c s k i : CInv c s k -> i ∈ M -> exists n, nodes c !! i = Some n.
Proof. intros Hc Hi. rewrite <- (ci_dom _ _ _ Hc) in Hi. by apply elem_of_dom in Hi. Qed.

Lemma voted_term c s k i T v n : CInv c s k -> AInv M s -> a_voted s !! (i, T) = Some v ->
  nodes c !! i = Some n -> T <= currentTerm n.
Proof.
  intros Hc [Hvi _ _] Hv Hn. destruct (vi_voted _ _ Hvi _ _ _ Hv) as (m & Hm & ? & _).
  rewrite (ci_lookup _ _ _ _ _ Hc Hn) in Hm. simplify_eq. simpl in *. lia.
Qed.

(** ** Stability *)

(** A node that stays a candidate of the same term keeps its log. *)
Definition node_le n n' : Prop :=
  id n' = id n /\ peers n' = peers n /\ currentTerm n <= currentTerm n' /\
  (state n' = StateCandidate -> currentTerm n' = currentTerm n ->
   state n = StateCandidate /\ log n' = log n).

(** In addition it does not start an election. *)
Definition quiet n n' : Prop :=
  node_le n n' /\ (state n' = StateCandidate -> currentTerm n' = currentTerm n).

Definition same_call (run run' : ProposeRun) : Prop :=
  prn_node run' = prn_node run /\ pr_entry (prn_pr run') = pr_entry (prn_pr run) /\
  pr_newIndex (prn_pr run') = pr_newIndex (prn_pr run).

Definition props_le c c' : Prop :=
  forall j run, proposals c !! j = Some run ->
  exists run', proposals c' !! j = Some run' /\ same_call run run'.

Lemma props_le_refl c c' : proposals c' = proposals c -> props_le c c'.
Proof. intros E j run Hj. exists run. rewrite E. done. Qed.

Lemma quorum_peers n n' : peers n' = peers n -> quorum n' = quorum n.
Proof. intros E. unfold quorum. by rewrite E. Qed.

Section Update.
Context (c c' : Cluster) (s s' : AState) (k k' : Z) (i : string) (n n' : Node).
Hypothesis Hc : CInv c s k.
Hypothesis Ha : AInv M s.
Hypothesis Hi : nodes c !! i = Some n.
Hypothesis Hnodes : nodes c' = <[i := n']> (nodes c).
Hypothesis Hle : node_le n n'.
Hypothesis Hh : hist_le s s'.
Hypothesis Hp : props_le c c'.
Hypothesis Hk : k <= k'.

Lemma upd_node j m : nodes c !! j = Some m ->
  exists m', nodes c' !! j = Some m' /\ node_le m m' /\ (j <> i -> m' = m) /\ (j = i -> m' = n').
Proof.
  intros Hj. rewrite Hnodes. destruct (decide (j = i)) as [->|Hne].
  - exists n'. rewrite lookup_insert_eq. by simplify_eq.
  - exists m. rewrite lookup_insert_ne by done. done.
Qed.

Lemma entry_at_mono T j p x pt : entry_at s T j p x pt -> entry_at s' T j p x pt.
Proof.
  intros (L & HL & Hx & HT & ->). destruct (hl_llog _ _ Hh _ _ _ HL) as (L' & HL' & Hpre).
  exists L'. split_and!; [done|by eapply prefix_lookup_Some|done|].
  f_equal. symmetry. apply take_prefix; [done|]. apply lookup_lt_Some in Hx. lia.
Qed.

Lemma llog_mono T j : (exists L, a_llog s !! T = Some (j, L)) ->
  exists L, a_llog s' !! T = Some (j, L).
Proof. intros (L & HL). destruct (hl_llog _ _ Hh _ _ _ HL) as (L' & HL' & _). eauto. Qed.

Lemma task_ok_mono t : task_ok c s t -> task_ok c' s' t.
Proof.
  destruct t; simpl; intros Ht.
  - destruct Ht. eauto using hl_voted.
  - destruct Ht. eauto using llog_mono.
  - destruct Ht as (run & Hr & Ho). destruct (Hp _ _ Hr) as (run' & Hr' & E & _).
    exists run'. by rewrite E.
Qed.

Lemma pkt_ok_mono pk : pkt_ok c s k pk -> pkt_ok c' s' k' pk.
Proof.
  destruct pk as [src dst req|src dst T resp|src dst call req|src dst call T resp]; simpl.
  - intros (Ho & Hid & Hv & Hreq). split_and!; [done|done|by eapply hl_voted|].
    intros m' Hm' Hst Ht. destruct Ho as (Hsrc & _). apply (ci_member _ _ _ _ Hc) in Hsrc as [m Hm].
    destruct (upd_node _ _ Hm) as (m2 & Hm2 & (_ & _ & Hterm & Hcand) & _). simplify_eq.
    pose proof (voted_term _ _ _ _ _ _ _ Hc Ha Hv Hm) as HT.
    assert (E : currentTerm m' = currentTerm m) by lia.
    destruct (Hcand Hst E) as [Hst' Elog]. unfold lastLogIndex, lastLogTerm. rewrite Elog.
    apply Hreq; [done|done|lia].
  - intros [Hb Hg]. split; [lia|]. eauto using hl_voted.
  - intros (Ho & Hid & Hpi & HL & He & Hcall). split_and!; try done.
    + by apply llog_mono.
    + destruct He as [?|(x & p & ? & ? & ?)]; [by left|]. right. eauto 6 using entry_at_mono.
    + intros j ->. destruct (Hcall _ eq_refl) as (run & Hr & ? & ? & ?).
      destruct (Hp _ _ Hr) as (run' & Hr' & _ & E1 & E2). exists run'.
      unfold pr_term. rewrite E1, E2. done.
  - intros [Hb Hs]. split; [lia|]. intros Hok j ->.
    destruct (Hs Hok _ eq_refl) as (run & Hr & Hack).
    destruct (Hp _ _ Hr) as (run' & Hr' & _ & E1 & E2). exists run'.
    unfold pr_term. rewrite E1, E2. split; [done|]. by apply (hl_ack _ _ Hh).
Qed.

Lemma election_ok_mono j er : (quiet n n' \/ j <> i) ->
  election_ok c s j er -> election_ok c' s' j er.
Proof.
  intros Hq (m & G & Hm & Hv & Hst & Hneed & Hw & HG & Hvotes & Hpr).
  destruct (upd_node _ _ Hm) as (m' & Hm' & (_ & Ep & Hterm & Hcand) & Hne & Heq).
  exists m', G. rewrite Ep. split_and!; try done.
  - by eapply hl_voted.
  - intros Hst'. destruct (decide (j = i)) as [->|Hji]; [|rewrite Hne in * by done; auto].
    destruct Hq as [[_ Hq]|?]; [|done]. rewrite Heq in * by done. simplify_eq.
    rewrite Hq by done. apply Hst. by apply Hcand; [|apply Hq].
  - by rewrite (quorum_peers m m').
  - apply Hw.
  - apply Hw.
  - intros p Hin. destruct (HG _ Hin) as (? & ? & ?). eauto using hl_voted.
Qed.

Lemma prop_ok_mono run : prop_ok c s run -> prop_ok c' s' run.
Proof.
  intros (m & G & p & Hm & He & Hidx & Hneed & Hw & HG & Hown & Hacks & Hd).
  destruct (upd_node _ _ Hm) as (m' & Hm' & (_ & Ep & _) & _ & _).
  exists m', G, p. rewrite Ep. split_and!; try done; try apply Hw; try apply Hidx.
  - by apply entry_at_mono.
  - by rewrite (quorum_peers m m').
  - intros v Hin. destruct (HG _ Hin) as (? & ? & ?). split_and!; try done. by apply (hl_ack _ _ Hh).
  - by apply (hl_ack _ _ Hh).
  - intros ?. apply (hl_chosen _ _ Hh). auto.
Qed.

(** Rebuilding the invariant after an event that changes node [i]. *)
Lemma cinv_update :
  a_nodes s' = <[i := core n']> (a_nodes s) -> node_ok k' i n' ->
  (quiet n n' \/ elections c !! i = None) ->
  (forall t, t ∈ tasks c' -> t ∈ tasks c \/ task_ok c' s' t) ->
  (forall pk, pk ∈ net c' -> pk ∈ net c \/ pkt_ok c' s' k' pk) ->
  (forall j er, elections c' !! j = Some er -> elections c !! j = Some er \/ election_ok c' s' j er) ->
  (forall j run, proposals c' !! j = Some run ->
     proposals c !! j = Some run \/ prop_ok c' s' run) ->
  CInv c' s' k'.
Proof.
  intros Habs Hok Hq Ht Hn He Hpr. pose proof Hc as [Cabs Cdom Cnode Ctask Cnet Cel Cprop]. split.
  - rewrite Habs, Cabs, Hnodes. by rewrite fmap_insert.
  - rewrite Hnodes, dom_insert_L. apply elem_of_dom_2 in Hi. set_solver.
  - intros j m Hj. rewrite Hnodes in Hj. apply lookup_insert_Some in Hj as [[<- <-]|[_ Hj]]; [done|].
    destruct (Cnode _ _ Hj) as (? & ? & ? & ? & ?). unfold node_ok. split_and!; try tauto; lia.
  - intros t Hin. destruct (Ht _ Hin); [|done]. by apply task_ok_mono, Ctask.
  - intros pk Hin. destruct (Hn _ Hin); [|done]. by apply pkt_ok_mono, Cnet.
  - intros j er Hj. destruct (He _ _ Hj) as [Hj'|]; [|done].
    apply election_ok_mono; [|by apply Cel]. destruct Hq; [by left|right]. congruence.
  - intros j run Hj. destruct (Hpr _ _ Hj) as [Hj'|]; [|done]. by eapply prop_ok_mono, Cprop.
Qed.
End Update.
End Refine.
