(* ===== verification/RaftSim.v ===== *)
(** * The simulation, event by event

    Each event of the cluster keeps the simulation relation, taking the
    protocol steps it stands for, and none panics. *)

From stdpp Require Import base gmap strings list relations.
From S2P Require Import Prelude RaftNode RaftSpec RaftLog RaftSafety RaftCluster.
From S2P Require Import RaftNodeFacts RaftRefine.

#[local] Open Scope Z_scope.
#[local] Open Scope go_scope.

(** ** Node-local facts *)

Lemma core_eq n n' : core n' = core n ->
  currentTerm n' = currentTerm n /\ state n' = state n /\ log n' = log n.
Proof. unfold core. intros [= ? ? ? ?]. done. Qed.

Lemma quiet_refl n n' : id n' = id n -> peers n' = peers n -> core n' = core n -> quiet n n'.
Proof.
  intros E1 E2 (E3 & E4 & E5)%core_eq. unfold quiet, node_le. rewrite E1, E2, E3, E4, E5.
  split_and!; try done; lia.
Qed.

Lemma quiet_follower n n' : id n' = id n -> peers n' = peers n ->
  currentTerm n <= currentTerm n' -> state n' <> StateCandidate -> quiet n n'.
Proof. intros. unfold quiet, node_le. split_and!; try done. Qed.

Lemma quiet_trans n1 n2 n3 : quiet n1 n2 -> quiet n2 n3 -> quiet n1 n3.
Proof.
  intros [(E1 & E2 & Ht & Hc) Hq] [(E1' & E2' & Ht' & Hc') Hq']. unfold quiet, node_le.
  rewrite E1', E2', E1, E2. split_and!; try done; [lia| |].
  - intros Hs Ht3. destruct Hc' as [Hs2 El]; [done|auto|]. rewrite El.
    apply Hc; [done|]. by apply Hq.
  - intros Hs. assert (E : currentTerm n3 = currentTerm n2) by auto.
    destruct (Hc' Hs E) as [Hs2 _]. rewrite E. auto.
Qed.

Lemma adopt_state n t l : currentTerm n < t -> state (adopt n t l) = StateFollower.
Proof. intros H. unfold adopt. by rewrite (proj2 (Z.ltb_lt _ _)). Qed.

Lemma quiet_adopt n t l : quiet n (adopt n t l).
Proof.
  destruct (adopt_fields n t l) as (E1 & E2 & E3 & _ & _ & E4).
  destruct (decide (currentTerm n < t)) as [Hlt|Hge].
  - apply quiet_follower; try done; [lia|]. by rewrite adopt_state.
  - apply quiet_refl; try done. unfold adopt. by rewrite (proj2 (Z.ltb_ge _ _)) by lia.
Qed.

Section Sim.
Context (M : gset string).
Implicit Types (c : Cluster) (s : AState) (n : Node) (k : Z).

Lemma node_ok_adopt k i n t l : node_ok M k i n -> 0 <= t <= k -> node_ok M k i (adopt n t l).
Proof.
  destruct (adopt_fields n t l) as (E1 & E2 & E3 & E4 & E5 & E6). unfold node_ok.
  rewrite E1, E2, E3, E4, E5, E6. intros. split_and!; try tauto; lia.
Qed.

Lemma node_ok_core k k' i n n' : node_ok M k i n -> core n' = core n -> id n' = id n ->
  peers n' = peers n -> 0 <= commitIndex n' <= lastApplied n' -> k <= k' -> node_ok M k' i n'.
Proof.
  intros Hn (E1 & E2 & E3)%core_eq E4 E5 Hc Hk. unfold node_ok in *.
  rewrite E1, E3, E4, E5. split_and!; try tauto; lia.
Qed.

Lemma abs_same c s k i n n' : CInv M c s k -> nodes c !! i = Some n -> core n' = core n ->
  a_nodes s = <[i := core n']> (a_nodes s).
Proof.
  intros Hc Hi E. rewrite E. symmetry. apply insert_id. eapply ci_lookup; eauto.
Qed.

(** Learning a term is at most one protocol step. *)
Lemma sim_adopt s i n t l : a_nodes s !! i = Some (core n) ->
  exists s', rtc (astep M) s s' /\ a_nodes s' = <[i := core (adopt n t l)]> (a_nodes s).
Proof.
  intros Hi. destruct (adopt_core n t l) as [E|[Hlt E]]; rewrite E.
  - exists s. split; [done|]. symmetry. by apply insert_id.
  - eexists. split; [apply rtc_once; by eapply (as_adopt _ _ _ (core n))|]. done.
Qed.

Definition sim_ok s k (r : option (exec Cluster)) : Prop :=
  match r with
  | None => True
  | Some Panic => False
  | Some (Ok c') => exists s', rtc (astep M) s s' /\ CInv M c' s' (k + 1)
  end.

(** Most events only change one node, without an election. *)
Lemma sim_quiet c c' s s' k i n n' :
  CInv M c s k -> AInv M s -> nodes c !! i = Some n -> nodes c' = <[i := n']> (nodes c) ->
  rtc (astep M) s s' -> a_nodes s' = <[i := core n']> (a_nodes s) ->
  quiet n n' -> node_ok M (k + 1) i n' -> props_le c c' ->
  (forall t, t ∈ tasks c' -> t ∈ tasks c \/ task_ok M c' s' t) ->
  (forall pk, pk ∈ net c' -> pk ∈ net c \/ pkt_ok M c' s' (k + 1) pk) ->
  (forall j er, elections c' !! j = Some er ->
     elections c !! j = Some er \/ election_ok c' s' j er) ->
  (forall j run, proposals c' !! j = Some run ->
     proposals c !! j = Some run \/ prop_ok c' s' run) ->
  sim_ok s k (Some (Ok c')).
Proof.
  intros Hc Ha Hi Hn Hs Habs Hq Hok Hp Ht Hpk He Hpr. exists s'. split; [done|].
  assert (hist_le s s') by (by eapply asteps_hist). pose proof Hq as [? _].
  eapply (cinv_update M c c' s s' k (k + 1) i n n'); eauto; lia.
Qed.

(** Events that leave every node's protocol state alone. *)
Lemma sim_same c c' s k i n n' :
  CInv M c s k -> AInv M s -> nodes c !! i = Some n -> nodes c' = <[i := n']> (nodes c) ->
  core n' = core n -> id n' = id n -> peers n' = peers n ->
  0 <= commitIndex n' <= lastApplied n' -> props_le c c' ->
  (forall t, t ∈ tasks c' -> t ∈ tasks c \/ task_ok M c' s t) ->
  (forall pk, pk ∈ net c' -> pk ∈ net c \/ pkt_ok M c' s (k + 1) pk) ->
  (forall j er, elections c' !! j = Some er ->
     elections c !! j = Some er \/ election_ok c' s j er) ->
  (forall j run, proposals c' !! j = Some run ->
     proposals c !! j = Some run \/ prop_ok c' s run) ->
  sim_ok s k (Some (Ok c')).
Proof.
  intros Hc Ha Hi Hn E1 E2 E3 Hci. pose proof (ci_node _ _ _ _ Hc _ _ Hi) as Hok.
  eapply (sim_quiet c c' s s k i n n'); eauto.
  - done.
  - by eapply abs_same.
  - by apply quiet_refl.
  - eapply node_ok_core; eauto; lia.
Qed.

(** ** Elections *)

Section Events.
Context (c : Cluster) (s : AState) (k : Z).
Hypothesis Hc : CInv M c s k.
Hypothesis Ha : AInv M s.
Hypothesis Hk : k + 1 < 2 ^ 63.

Lemma sim_timeout i e : sim_ok s k (fire_timeout c i e).
Proof.
  unfold fire_timeout. destruct (nodes c !! i) as [n|] eqn:Hi; [|done].
  destruct (elections c !! i) eqn:Hel; [done|].
  pose proof (ci_node _ _ _ _ Hc _ _ Hi) as Hok.
  pose proof Hok as ((Hid & Hne) & (Hnd & Hpeers) & Ht & Hci & Hlen).
  unfold onElectionTimeout. destruct (bool_decide_reflect (state n = StateLeader)).
  { eapply (sim_same c _ s k i n); eauto using props_le_refl. }
  unfold startElection_enter. simpl. rewrite u64_id by lia.
  set (n' := resetElectionTimer _ _).
  set (s' := add_vote (upd s i (mkANode (currentTerm n + 1) (Some i) StateCandidate (log n)))
               i (currentTerm n + 1) i).
  assert (Hcore : core n' = mkANode (currentTerm n + 1) (Some i) StateCandidate (log n)).
  { unfold core. simpl. rewrite Hid. by rewrite bool_decide_false. }
  assert (Hstep : astep M s s').
  { eapply (as_elect _ _ i (core n)), ci_lookup; eauto. }
  set (c' := if bool_decide _ then _ else _).
  exists s'. split; [by apply rtc_once|].
  assert (Hnodes : nodes c' = <[i := n']> (nodes c)) by (subst c'; by destruct (bool_decide _)).
  eapply (cinv_update M c c' s s' k (k + 1) i n n'); eauto.
  - unfold node_le. simpl. split_and!; try done; lia.
  - by eapply astep_hist.
  - apply props_le_refl. subst c'. by destruct (bool_decide _).
  - lia.
  - simpl. by rewrite <- Hcore.
  - unfold node_ok. simpl. split_and!; try tauto; try lia.
  - intros t Hin. assert (Hin' : t ∈ map (TVote i (currentTerm n + 1)) (peers n) ++ tasks c)
      by (subst c'; by destruct (bool_decide _)).
    apply elem_of_app in Hin' as [Hin'|?]; [|by left]. right.
    apply list_elem_of_fmap in Hin' as (p & -> & Hp). simpl. apply Hpeers in Hp.
    split; [|apply lookup_insert_eq]. unfold others. rewrite <- (ci_dom _ _ _ _ Hc) at 1.
    split; [by eapply elem_of_dom_2|done].
  - intros pk Hin. left. subst c'. by destruct (bool_decide _).
  - intros j er Hj. subst c'. destruct (bool_decide _); simpl in Hj; [by left|].
    apply lookup_insert_Some in Hj as [[<- <-]|[_ ?]]; [right|by left].
    exists n', ∅. simpl. rewrite lookup_insert_eq. split_and!; try done.
    apply lookup_insert_eq.
  - intros j run Hj. left. subst c'. by destruct (bool_decide _).
Qed.

Lemma sim_vote_task i term p : sim_ok s k (fire_vote_task c i term p).
Proof.
  unfold fire_vote_task. destruct (nodes c !! i) as [n|] eqn:Hi; [|done].
  destruct (bool_decide_reflect (TVote i term p ∈ tasks c)) as [Hin|]; [|done].
  pose proof (ci_node _ _ _ _ Hc _ _ Hi) as Hok.
  pose proof Hok as ((Hid & Hne) & (Hnd & Hpeers) & Ht & Hci & Hlen).
  destruct (ci_task _ _ _ _ Hc _ Hin) as [Ho Hv].
  eapply (sim_same c _ s k i n n); eauto using props_le_refl.
  - simpl. by rewrite insert_id.
  - simpl. intros t ?%elem_of_remove1. by left.
  - simpl. intros pk [->|?]%elem_of_cons; [right|by left]. simpl.
    split_and!; try done. intros m Hm. simplify_eq. done.
Qed.

(** A granted vote is a step of the protocol. *)
Lemma sim_grant s1 n1 nc src dst req : dst <> src -> src <> "" ->
  a_nodes s1 !! dst = Some (core n1) -> a_nodes s1 !! src = Some (core nc) ->
  votedFor n1 = "" \/ votedFor n1 = src -> a_voted s1 !! (src, currentTerm n1) = Some src ->
  (state nc = StateCandidate -> currentTerm nc = currentTerm n1 ->
     rv_LastLogIndex req = Z.of_nat (length (log nc)) /\ rv_LastLogTerm req = lastTerm (log nc)) ->
  upToDate (log n1) (rv_LastLogIndex req) (rv_LastLogTerm req) ->
  astep M s1 (add_vote (upd s1 dst (mkANode (currentTerm n1) (Some src) (state n1) (log n1))) dst (currentTerm n1) src).
Proof.
  intros Hm Hne Hd Hs Hvf Hv Hreq Hup.
  eapply (as_vote _ _ dst (core n1) src (core nc) (rv_LastLogIndex req) (rv_LastLogTerm req)); try done.
  destruct Hvf as [Hvf|Hvf]; simpl; rewrite Hvf; [left; by rewrite bool_decide_true|right; by rewrite bool_decide_false].
Qed.

Lemma sim_deliver_vote src dst req e : sim_ok s k (fire_deliver_vote c src dst req e).
Proof.
  unfold fire_deliver_vote. destruct (nodes c !! dst) as [n|] eqn:Hi; [|done].
  destruct (bool_decide_reflect (PVoteReq src dst req ∈ net c)) as [Hin|]; [|done].
  pose proof (ci_node _ _ _ _ Hc _ _ Hi) as Hok.
  destruct (ci_net _ _ _ _ Hc _ Hin) as ((Hsrc & Hdst & Hne) & Hcand & Hv & Hreq).
  destruct (ci_member _ _ _ _ _ Hc Hsrc) as [nc Hnc].
  pose proof (voted_term _ _ _ _ _ _ _ _ Hc Ha Hv Hnc) as HT.
  destruct (ci_node _ _ _ _ Hc _ _ Hnc) as ((_ & Hsrc0) & _ & Htc & _).
  destruct (HandleRequestVote e n req) as [n' resp] eqn:Hh.
  set (c' := with_net _ _).
  assert (Hnet : forall pk, pk ∈ net c' -> pk ∈ net c \/ pk = PVoteResp dst src (rv_Term req) resp).
  { simpl. intros pk [->|?%elem_of_remove1]%elem_of_cons; auto. }
  assert (Hcur : 0 <= currentTerm n <= k) by apply Hok.
  apply HandleRequestVote_cases in Hh as [(Hlt & -> & ->)|(Hge & Eresp & Hcase)].
  { eapply (sim_same c c' s k dst n n); eauto using props_le_refl; [apply Hok|].
    intros pk [?| ->]%Hnet; [by left|right]. simpl. split; [lia|done]. }
  set (n1 := adopt n (rv_Term req) "") in *.
  assert (Hpos : 0 <= rv_Term req).
  { destruct Ha as [Hvi _ _]. destruct (vi_voted _ _ Hvi _ _ _ Hv) as (? & _ & ? & _). lia. }
  destruct (sim_adopt s dst n (rv_Term req) "") as (s1 & Hs1 & Habs1); [by eapply ci_lookup|].
  fold n1 in Habs1.
  assert (Hok1 : node_ok M (k + 1) dst n1).
  { apply node_ok_adopt; [|lia]. eapply node_ok_core; eauto; [apply Hok|lia]. }
  destruct Hcase as [[Hg ->]|(Hg & Hup & Hvf & ->)].
  { eapply (sim_quiet c c' s s1 k dst n n1); eauto using props_le_refl, quiet_adopt.
    intros pk [?| ->]%Hnet; [by left|right]. simpl. rewrite Eresp, Hg. simpl.
    split; [lia|done]. }
  assert (Ha1 : AInv M s1) by (by eapply ainv_steps).
  assert (Hh1 : hist_le s s1) by (by apply (asteps_hist M)).
  destruct (adopt_fields n (rv_Term req) "") as (E1 & E2 & E3 & E4 & E5 & E6). fold n1 in E1, E2, E3, E4, E5, E6.
  rewrite Z.max_r in E6 by lia.
  set (s2 := add_vote (upd s1 dst (mkANode (currentTerm n1) (Some src) (state n1) (log n1)))
               dst (currentTerm n1) src).
  assert (Hstep : astep M s1 s2).
  { apply (sim_grant s1 n1 nc src dst req); try done.
    - by rewrite Habs1, lookup_insert_eq.
    - rewrite Habs1, lookup_insert_ne by done. by eapply ci_lookup.
    - by rewrite <- Hcand.
    - rewrite E6. by apply (hl_voted _ _ Hh1).
    - rewrite E6. intros Hst Hteq. by apply Hreq.
    - by rewrite E3. }
  eapply (sim_quiet c c' s s2 k dst n); eauto using props_le_refl.
  - by eapply rtc_r.
  - simpl. rewrite Habs1, insert_insert_eq. f_equal. unfold core. simpl. rewrite Hcand.
    by rewrite bool_decide_false.
  - eapply quiet_trans; [apply quiet_adopt|]. unfold quiet, node_le. simpl.
    split_and!; try done; lia.
  - intros pk [?| ->]%Hnet; [by left|right]. simpl. rewrite Eresp. simpl. split; [lia|].
    intros _. rewrite <- E6. apply lookup_insert_eq.
Qed.

(** Counting one more vote keeps the tally honest: the counted peers are
    distinct and all voted for the candidate. *)
Lemma election_count c' i n er p g b :
  nodes c' = <[i := n]> (nodes c) -> nodes c !! i = Some n -> election_ok c s i er ->
  p ∈ er_waiting er -> (g = true -> a_voted s !! (p, el_term (er_el er)) = Some i) ->
  (b = true -> el_needed (er_el er) <= el_votes (er_el er) + if g then 1 else 0) ->
  election_ok c' s i (mkElectionRun (count_vote (er_el er) g) (remove1 p (er_waiting er)) b).
Proof.
  intros Hn Hi (m & G & Hm & Hv & Hst & Hneed & (Hnd & Hw) & HG & Hvotes & Hpr) Hin Hg Hb.
  simplify_eq. destruct (NoDup_remove1 p (er_waiting er) Hnd) as [Hnd' Hp].
  exists n, (if g then {[p]} ∪ G else G). simpl. rewrite Hn, lookup_insert_eq.
  split_and!; try done.
  - intros q ?%elem_of_remove1. auto.
  - intros q Hq. assert (q = p /\ g = true \/ q ∈ G) as [[-> ->]|HqG] by (destruct g; set_solver).
    + auto.
    + destruct (HG _ HqG) as (? & Hqw & ?). split_and!; try done.
      intros ?%elem_of_remove1. done.
  - destruct g; [|lia]. rewrite size_union, size_singleton; [lia|].
    apply disjoint_singleton_l. intros HpG. by destruct (HG _ HpG) as (_ & ? & _).
Qed.

(** What a received vote, or a failed request, says. *)
Lemma vote_answer i n er p (r : option RequestVoteResponse) : nodes c !! i = Some n -> election_ok c s i er ->
  match r with Some resp => bool_decide (PVoteResp p i (el_term (er_el er)) resp ∈ net c) | None => true end = true ->
  let resp := match r with Some resp => resp | None => mkVoteResp (el_term (er_el er)) false end in
  rvr_Term resp <= k /\ (rvr_VoteGranted resp = true -> a_voted s !! (p, el_term (er_el er)) = Some i).
Proof.
  intros Hi Heok Harr. pose proof (ci_node _ _ _ _ Hc _ _ Hi) as Hok.
  assert (Hcur : 0 <= currentTerm n <= k) by apply Hok. destruct r as [resp|]; simpl.
  - apply bool_decide_eq_true in Harr. apply (ci_net _ _ _ _ Hc) in Harr as [? ?]. split; [lia|done].
  - destruct Heok as (m & G & Hm & Hv & _). simplify_eq.
    pose proof (voted_term _ _ _ _ _ _ _ _ Hc Ha Hv Hi). split; [lia|done].
Qed.

Lemma sim_election_recv i p r e : sim_ok s k (fire_election_recv c i p r e).
Proof.
  unfold fire_election_recv. destruct (nodes c !! i) as [n|] eqn:Hi; [|done].
  destruct (elections c !! i) as [er|] eqn:Hel; [|done].
  destruct (negb (er_promote er) && _ && _) eqn:Hen; [|done].
  apply andb_true_iff in Hen as [Hen Harr]. apply andb_true_iff in Hen as [Hpr Hwait].
  apply bool_decide_eq_true in Hwait.
  pose proof (ci_node _ _ _ _ Hc _ _ Hi) as Hok. pose proof (ci_el _ _ _ _ Hc _ _ Hel) as Heok.
  assert (Hcur : 0 <= currentTerm n <= k) by apply Hok.
  set (resp := match r with Some resp => resp | None => _ end).
  set (c1 := match r with Some resp => _ | None => c end).
  assert (Hc1 : nodes c1 = nodes c /\ elections c1 = elections c /\ tasks c1 = tasks c /\
                proposals c1 = proposals c /\ forall pk, pk ∈ net c1 -> pk ∈ net c).
  { subst c1. destruct r; simpl; split_and!; try done. by intros pk ?%elem_of_remove1. }
  destruct Hc1 as (En & Ee & Et & Ep & Enet).
  assert (Hresp := vote_answer i n er p r Hi Heok Harr). fold resp in Hresp.
  destruct Hresp as [Hrt Hgr].
  destruct (startElection_recv e n (er_el er) resp) as [n' out] eqn:Hrecv.
  apply startElection_recv_cases in Hrecv as [(Hlt & -> & ->)|(Hge & -> & Hout)].
  - destruct (sim_adopt s i n (rvr_Term resp) "") as (s1 & Hs1 & Habs1); [by eapply ci_lookup|].
    eapply (sim_quiet c _ s s1 k i n (resetElectionTimer e (adopt n (rvr_Term resp) ""))); eauto.
    + simpl. by rewrite En.
    + eapply quiet_trans; [apply quiet_adopt|by apply quiet_refl].
    + apply (node_ok_adopt (k + 1) i n (rvr_Term resp) ""); [|lia].
      eapply node_ok_core; eauto; [apply Hok|lia].
    + by apply props_le_refl.
    + simpl. rewrite Et. auto.
    + simpl. rewrite Ee. intros j er' [? ?]%lookup_delete_Some. by left.
    + simpl. rewrite Ep. auto.
  - eapply (sim_same c _ s k i n n); eauto; simpl.
    + by rewrite En.
    + apply Hok.
    + by apply props_le_refl.
    + rewrite Et. auto.
    + rewrite Ee. intros j er' Hj. destruct Hout as [->|(Hst & Hterm & [->|(-> & Hg & Hq)])].
      * apply lookup_delete_Some in Hj as [_ ?]. by left.
      * apply lookup_insert_Some in Hj as [[<- <-]|[_ ?]]; [right|by left].
        eapply (election_count _ i n er p _ false); simpl; eauto; by rewrite ?En.
      * apply lookup_insert_Some in Hj as [[<- <-]|[_ ?]]; [right|by left].
        specialize (Hgr Hg). eapply (election_count _ i n er p true true); simpl; rewrite ?En; eauto.
    + rewrite Ep. auto.
Qed.

Lemma sim_election_cancel i : sim_ok s k (fire_election_cancel c i).
Proof.
  unfold fire_election_cancel. destruct (elections c !! i) as [er|] eqn:Hel; [|done].
  destruct (er_promote er); [done|].
  destruct (ci_el _ _ _ _ Hc _ _ Hel) as (n & _ & Hi & _).
  pose proof (ci_node _ _ _ _ Hc _ _ Hi) as Hok.
  eapply (sim_same c _ s k i n n); eauto using props_le_refl; simpl.
  - by rewrite insert_id.
  - apply Hok.
  - intros j er' [? ?]%lookup_delete_Some. by left.
Qed.

(** The members are the node and its peers. *)
Lemma member_count i n : nodes c !! i = Some n -> size M = S (length (peers n)).
Proof.
  intros Hi. destruct (ci_node _ _ _ _ Hc _ _ Hi) as (_ & (Hnd & Hp) & _).
  assert (HM : i ∈ M) by (rewrite <- (ci_dom _ _ _ _ Hc); by eapply elem_of_dom_2).
  assert (M = {[i]} ∪ list_to_set (peers n)) as ->.
  { apply set_eq. intros x. rewrite elem_of_union, elem_of_singleton, elem_of_list_to_set, Hp.
    destruct (decide (x = i)); naive_solver. }
  rewrite size_union, size_singleton, size_list_to_set by
    (try done; intros x; rewrite elem_of_singleton, elem_of_list_to_set, Hp; naive_solver). done.
Qed.

(** A node and [quorum - 1] of its peers are a majority. *)
Lemma quorum_majority i n (G : gset string) :
  nodes c !! i = Some n -> (forall p, p ∈ G -> p ∈ peers n) ->
  quorum n <= 1 + Z.of_nat (size G) -> majority M ({[i]} ∪ G).
Proof.
  intros Hi HG Hq. pose proof (member_count _ _ Hi) as Hsz.
  destruct (ci_node _ _ _ _ Hc _ _ Hi) as (_ & (Hnd & Hp) & _).
  assert (HM : i ∈ M) by (rewrite <- (ci_dom _ _ _ _ Hc); by eapply elem_of_dom_2).
  split.
  - intros x [->%elem_of_singleton|Hx]%elem_of_union; [done|]. by apply HG, Hp in Hx as [? _].
  - rewrite size_union, size_singleton by
      (intros x; rewrite elem_of_singleton; intros -> [_ ?]%HG%Hp; done).
    unfold quorum in Hq. rewrite Z.quot_div_nonneg in Hq by lia.
    pose proof (Z.div_mod (Z.of_nat (length (peers n)) + 1) 2 ltac:(lia)).
    pose proof (Z.mod_pos_bound (Z.of_nat (length (peers n)) + 1) 2 ltac:(lia)). lia.
Qed.

Lemma sim_become_leader i : sim_ok s k (fire_become_leader c i).
Proof.
  unfold fire_become_leader. destruct (nodes c !! i) as [n|] eqn:Hi; [|done].
  destruct (elections c !! i) as [er|] eqn:Hel; [|done].
  destruct (er_promote er) eqn:Hpr; [|done].
  pose proof (ci_node _ _ _ _ Hc _ _ Hi) as Hok.
  pose proof Hok as ((Hid & Hne) & (Hnd & Hpeers) & Ht & Hci & Hlen).
  destruct (ci_el _ _ _ _ Hc _ _ Hel)
    as (m & G & Hm & Hv & Hst & Hneed & Hw & HG & Hvotes & Hq). simplify_eq.
  specialize (Hq Hpr). unfold becomeLeader.
  assert (Hskip : sim_ok s k (Some (Ok (with_elections (with_node c (id n) n)
                                          (delete (id n) (elections c)))))).
  { eapply (sim_same c _ s k (id n) n n); eauto using props_le_refl; simpl.
    intros j er' [? ?]%lookup_delete_Some. by left. }
  destruct (bool_decide_reflect (state n = StateCandidate)) as [Hcand|]; [|done]. simpl.
  destruct (bool_decide_reflect (leaderID n = id n)); [done|].
  specialize (Hst Hcand). set (n' := set_role n StateLeader (id n)).
  set (s' := set_llog (upd s (id n) (core n')) (currentTerm n) (id n) (log n)).
  assert (Hstep : astep M s s').
  { eapply (as_lead _ _ (id n) (core n) ({[id n]} ∪ G)); simpl; try done.
    - by eapply ci_lookup.
    - eapply quorum_majority; eauto; [|lia]. intros p Hp. by apply HG.
    - rewrite Hst. intros v [->%elem_of_singleton|HvG]%elem_of_union; [done|]. by apply HG. }
  eapply (sim_quiet c _ s s' k (id n) n n'); eauto using props_le_refl, rtc_once; simpl.
  - by apply quiet_follower; simpl; [..|lia|].
  - unfold node_ok. simpl. split_and!; try tauto; lia.
  - intros j er' [? ?]%lookup_delete_Some. by left.
Qed.

(** ** Heartbeats *)

Lemma leader_llog i n : nodes c !! i = Some n -> state n = StateLeader ->
  a_llog s !! currentTerm n = Some (i, log n).
Proof.
  intros Hi Hl. destruct Ha as [Hvi _ _]. apply (vi_leader _ _ Hvi i (core n)); [|done].
  by eapply ci_lookup.
Qed.

Lemma others_peer i n p : nodes c !! i = Some n -> p ∈ peers n -> others M i p.
Proof.
  intros Hi Hp. destruct (ci_node _ _ _ _ Hc _ _ Hi) as (_ & (_ & Hpeers) & _).
  apply Hpeers in Hp as [? ?]. split; [|done]. rewrite <- (ci_dom _ _ _ _ Hc).
  by eapply elem_of_dom_2.
Qed.

Lemma sim_heartbeat i e : sim_ok s k (fire_heartbeat c i e).
Proof.
  unfold fire_heartbeat. destruct (nodes c !! i) as [n|] eqn:Hi; [|done].
  pose proof (ci_node _ _ _ _ Hc _ _ Hi) as Hok. unfold sendHeartbeats_enter.
  destruct (bool_decide_reflect (state n = StateLeader)) as [Hl|]; simpl.
  - eapply (sim_same c _ s k i n (set_lastHeartbeat n (now e))); eauto using props_le_refl; simpl.
    + apply Hok.
    + intros t [Hin|?]%elem_of_app; [right|by left].
      apply list_elem_of_fmap in Hin as (p & -> & Hp). simpl.
      split; [by eapply others_peer|]. eauto using leader_llog.
  - eapply (sim_same c _ s k i n n); eauto using props_le_refl. apply Hok.
Qed.

Lemma sim_heartbeat_task i term p : sim_ok s k (fire_heartbeat_task c i term p).
Proof.
  unfold fire_heartbeat_task. destruct (nodes c !! i) as [n|] eqn:Hi; [|done].
  destruct (bool_decide_reflect (THeartbeat i term p ∈ tasks c)) as [Hin|]; [|done].
  pose proof (ci_node _ _ _ _ Hc _ _ Hi) as Hok.
  destruct (ci_task _ _ _ _ Hc _ Hin) as [Ho HL].
  eapply (sim_same c _ s k i n n); eauto using props_le_refl; simpl.
  - by rewrite insert_id.
  - apply Hok.
  - intros t ?%elem_of_remove1. by left.
  - intros pk [->|?]%elem_of_cons; [right|by left]. simpl.
    split_and!; try done; [apply Hok|unfold lastLogIndex; lia|by left].
Qed.

Lemma sim_heartbeat_recv i p term resp e : sim_ok s k (fire_heartbeat_recv c i p term resp e).
Proof.
  unfold fire_heartbeat_recv. destruct (nodes c !! i) as [n|] eqn:Hi; [|done].
  destruct (bool_decide_reflect (PAppendResp p i None term resp ∈ net c)) as [Hin|]; [|done].
  pose proof (ci_node _ _ _ _ Hc _ _ Hi) as Hok.
  destruct (ci_net _ _ _ _ Hc _ Hin) as [Hrt _].
  assert (Hnet : forall pk, pk ∈ remove1 (PAppendResp p i None term resp) (net c) ->
    pk ∈ net c) by (intros pk; apply elem_of_remove1).
  unfold sendHeartbeats_recv. destruct (Z.ltb_spec term (aer_Term resp)).
  - fold (adopt n (aer_Term resp) "").
    destruct (sim_adopt s i n (aer_Term resp) "") as (s1 & Hs1 & Habs1); [by eapply ci_lookup|].
    eapply (sim_quiet c _ s s1 k i n (resetElectionTimer e (adopt n (aer_Term resp) "")));
      eauto using props_le_refl; simpl; eauto.
    + eapply quiet_trans; [apply quiet_adopt|by apply quiet_refl].
    + apply (node_ok_adopt (k + 1) i n (aer_Term resp) ""); [|lia].
      eapply node_ok_core; eauto; [apply Hok|lia].
  - eapply (sim_same c _ s k i n n); eauto using props_le_refl; simpl; eauto. apply Hok.
Qed.

(** ** Appends *)

Lemma llog_bound i T L : a_llog s !! T = Some (i, L) -> 0 <= T <= k.
Proof.
  intros HL. destruct Ha as [Hvi _ _]. pose proof (llog_pos _ _ _ _ _ Hvi HL).
  destruct (vi_lead _ _ Hvi _ _ _ HL) as [_ (m & Hm & Ht & _)].
  rewrite (ci_abs _ _ _ _ Hc), lookup_fmap in Hm. destruct (nodes c !! i) as [n|] eqn:Hi; [|done].
  simplify_eq/=. destruct (ci_node _ _ _ _ Hc _ _ Hi) as (_ & _ & ? & _). lia.
Qed.

Lemma accepted_core e n1 req l :
  core (accepted e n1 req l) = mkANode (currentTerm n1) (a_vote (core n1)) StateFollower l.
Proof. done. Qed.

Lemma accepted_ok e n1 req l i : node_ok M (k + 1) i n1 ->
  Z.of_nat (length l) <= k + 1 -> node_ok M (k + 1) i (accepted e n1 req l).
Proof.
  intros (H1 & H2 & H3 & H4 & H5) Hl. unfold node_ok, accepted. simpl.
  split_and!; try tauto; try lia. unfold accept_commit.
  destruct (Z.ltb_spec (commitIndex n1) (ae_LeaderCommit req)); lia.
Qed.

(** The protocol steps behind an accepted request. *)
Lemma sim_follow e s1 n1 i req : a_nodes s1 !! i = Some (core n1) ->
  exists s2, astep M s1 s2 /\
    a_nodes s2 = <[i := core (accepted e n1 req (log n1))]> (a_nodes s1).
Proof. intros Hi. eexists. split; [by eapply as_follow|]. done. Qed.

Lemma prevMatch_prevOk l L p pt x : L !! p = Some x -> pt = lastTerm (take p L) ->
  prevOk l (Z.of_nat p) pt -> prevMatch l L p.
Proof.
  intros Hx -> Hok. destruct p as [|q]; [done|]. destruct Hok as [?|[_ Ht]]; [lia|].
  replace (Z.to_nat (Z.of_nat (S q) - 1)) with q in Ht by lia.
  exists (lastTerm (take (S q) L)). split; [done|].
  destruct (lookup_lt_is_Some_2 L q) as [y Hy]; [apply lookup_lt_Some in Hx; lia|].
  unfold termAt, lastTerm. by rewrite Hy, (take_S_lookup _ _ _ Hy), last_snoc.
Qed.

Lemma sim_replicate e s1 n1 i req src p x : a_nodes s1 !! i = Some (core n1) ->
  currentTerm n1 = ae_Term req -> src <> i ->
  entry_at s1 (ae_Term req) src p x (ae_PrevLogTerm req) ->
  prevOk (log n1) (Z.of_nat p) (ae_PrevLogTerm req) ->
  exists s2, astep M s1 s2 /\
    a_nodes s2 = <[i := core (accepted e n1 req (putEntry (log n1) p x))]> (a_nodes s1) /\
    ackd s2 i (ae_Term req) (S p).
Proof.
  intros Hi Ht Hne (L & HL & Hx & HxT & Hpt) Hok. rewrite <- Ht in *. eexists. split_and!.
  - eapply (as_replicate _ _ i (core n1) src L p x); try done.
    by eapply prevMatch_prevOk.
  - done.
  - apply ackd_add. right. done.
Qed.

(** A request that is accepted: the protocol follows, or replicates its one entry. *)
Lemma sim_accept e s1 n n1 src dst req l : a_nodes s1 !! dst = Some (core n1) -> log n1 = log n ->
  currentTerm n1 = ae_Term req -> src <> dst -> Z.of_nat (length (log n)) <= k ->
  (ae_Entries req = [] \/ exists x p, ae_Entries req = [x] /\ ae_PrevLogIndex req = Z.of_nat p /\
     entry_at s1 (ae_Term req) src p x (ae_PrevLogTerm req)) ->
  (ae_Entries req = [] /\ l = log n \/
   ae_Entries req <> [] /\ prevOk (log n) (ae_PrevLogIndex req) (ae_PrevLogTerm req) /\
     l = putEntries (log n) (Z.to_nat (ae_PrevLogIndex req)) (ae_Entries req)) ->
  exists s2, astep M s1 s2 /\ a_nodes s2 = <[dst := core (accepted e n1 req l)]> (a_nodes s1) /\
    (forall x, ae_Entries req = [x] -> ackd s2 dst (ae_Term req) (Z.to_nat (ae_PrevLogIndex req + 1))) /\
    Z.of_nat (length l) <= k + 1.
Proof.
  intros Hn1 E3 E6 Hne Hn He [[Hnil ->]|(Hsome & Hprev & ->)].
  - rewrite <- E3. destruct (sim_follow e s1 n1 dst req Hn1) as (s2 & ? & ?).
    exists s2. split_and!; try done; [|rewrite E3; lia]. intros x Hx. congruence.
  - destruct He as [?|(x & p & Hx & Hp & Hat)]; [done|]. rewrite Hx, Hp in *. cbn [putEntries].
    rewrite Nat2Z.id, <- E3 in *.
    destruct (sim_replicate e s1 n1 dst req src p x) as (s2 & ? & ? & ?); try done.
    exists s2. split_and!; try done.
    + intros _ _. by replace (Z.to_nat (Z.of_nat p + 1)) with (S p) by lia.
    + pose proof (prevOk_length _ _ _ Hprev).
      pose proof (putEntry_length_le (log n1) p x). rewrite E3 in *. lia.
Qed.

Lemma sim_deliver_append src dst call req e :
  sim_ok s k (fire_deliver_append c src dst call req e).
Proof.
  unfold fire_deliver_append. destruct (nodes c !! dst) as [n|] eqn:Hi; [|done].
  destruct (bool_decide_reflect (PAppendReq src dst call req ∈ net c)) as [Hin|]; [|done].
  pose proof (ci_node _ _ _ _ Hc _ _ Hi) as Hok.
  destruct (ci_net _ _ _ _ Hc _ Hin) as ((Hsrc & Hdst & Hne) & Hlid & Hpi & (L & HL) & He & Hcall).
  pose proof (llog_bound _ _ _ HL) as HT.
  assert (Hcur : 0 <= currentTerm n <= k) by apply Hok.
  destruct (HandleAppendEntries_cases e n req) as (n' & resp & es & -> & Hcase); [|done|].
  { destruct Hok as (_ & _ & _ & ? & ?). split; [done|lia]. }
  cbn [exec_bind]. set (c' := with_batch _ _ _ _).
  assert (Hnet : forall pk, pk ∈ net c' ->
    pk ∈ net c \/ pk = PAppendResp dst src call (ae_Term req) resp).
  { simpl. intros pk [->|?%elem_of_remove1]%elem_of_cons; auto. }
  destruct Hcase as [(Hlt & -> & -> & ->)|(Hge & Hcase)].
  { eapply (sim_same c c' s k dst n n); eauto using props_le_refl; [apply Hok|].
    intros pk [?| ->]%Hnet; [by left|right]. simpl. split; [lia|done]. }
  set (n1 := adopt n (ae_Term req) (ae_LeaderID req)) in *.
  destruct (sim_adopt s dst n (ae_Term req) (ae_LeaderID req)) as (s1 & Hs1 & Habs1);
    [by eapply ci_lookup|]. fold n1 in Habs1.
  assert (Hok1 : node_ok M (k + 1) dst n1).
  { apply node_ok_adopt; [|lia]. eapply node_ok_core; eauto; [apply Hok|lia]. }
  destruct Hcase as [(_ & _ & -> & -> & ->)|(l & Hl & -> & -> & ->)].
  { eapply (sim_quiet c c' s s1 k dst n n1); eauto using props_le_refl, quiet_adopt.
    intros pk [?| ->]%Hnet; [by left|right]. simpl. split; [lia|done]. }
  destruct (adopt_fields n (ae_Term req) (ae_LeaderID req)) as (E1 & E2 & E3 & E4 & E5 & E6).
  fold n1 in E1, E2, E3, E4, E5, E6. rewrite Z.max_r in E6 by lia.
  assert (Hh1 : hist_le s s1) by (by apply (asteps_hist M)).
  assert (Hn1 : a_nodes s1 !! dst = Some (core n1)) by (by rewrite Habs1, lookup_insert_eq).
  destruct (sim_accept e s1 n n1 src dst req l) as (s2 & Hs2 & Habs2 & Hack & Hlen);
    [exact Hn1|exact E3|exact E6|congruence|apply Hok| |exact Hl|].
  { destruct He as [?|(x & p & Hx & Hp & Hat)]; [by left|right]. exists x, p. split_and!; try done. by eapply entry_at_mono. }
  eapply (sim_quiet c c' s s2 k dst n (accepted e n1 req l)); eauto using props_le_refl.
  - by eapply rtc_r.
  - by rewrite Habs2, Habs1, insert_insert_eq.
  - apply (quiet_trans _ n1); [apply quiet_adopt|]. by apply quiet_follower; simpl; [..|lia|].
  - by apply accepted_ok.
  - intros pk [?| ->]%Hnet; [by left|right]. simpl. split; [lia|].
    intros _ j ->. destruct (Hcall _ eq_refl) as (run & Hrun & HrT & Hre & Hri).
    exists run. split; [done|]. rewrite <- HrT, Hri. by eapply Hack.
Qed.

(** ** Proposals *)

Lemma sim_propose i command : sim_ok s k (fire_propose c i command).
Proof.
  unfold fire_propose. destruct (nodes c !! i) as [n|] eqn:Hi; [|done].
  pose proof (ci_node _ _ _ _ Hc _ _ Hi) as Hok.
  pose proof Hok as ((Hid & Hne) & (Hnd & Hpeers) & Ht & Hci & Hlen).
  unfold Propose_enter. destruct (bool_decide_reflect (state n = StateLeader)) as [Hl|]; simpl.
  2: { eapply (sim_same c c s k i n n); eauto using props_le_refl. by rewrite insert_id. }
  set (x := mkEntry (currentTerm n) command). set (n' := set_log n (log n ++ [x])).
  pose proof (leader_llog _ _ Hi Hl) as HL.
  assert (Hcore : core n' = mkANode (currentTerm n) (a_vote (core n)) StateLeader (log n ++ [x]))
    by (unfold core; simpl; by rewrite Hl).
  set (s' := add_ack (set_llog (upd s i (mkANode (currentTerm n) (a_vote (core n)) StateLeader
                                           (log n ++ [x]))) (currentTerm n) i (log n ++ [x]))
               i (currentTerm n) (length (log n ++ [x]))).
  assert (Hstep : astep M s s').
  { eapply (as_propose _ s i (core n) command); [by eapply ci_lookup|done]. }
  assert (Elen : length (log n ++ [x]) = S (length (log n))) by (rewrite length_app; simpl; lia).
  set (pr := mkProposal _ _ _ _ _ _ _). set (done := if bool_decide (peers n = []) then _ else _).
  set (c' := with_tasks _ _).
  eapply (sim_quiet c c' s s' k i n n'); eauto using rtc_once.
  - by rewrite Hcore.
  - by apply quiet_follower; simpl; [..|lia|congruence].
  - unfold node_ok. simpl. rewrite Elen. split_and!; try tauto; lia.
  - intros j run Hj. exists run. split; [|done]. simpl. by apply lookup_app_l_Some.
  - simpl. intros t [Hin|?]%elem_of_app; [right|by left].
    apply list_elem_of_fmap in Hin as (p & -> & Hp). simpl.
    exists (mkProposeRun i pr (peers n) done). split; [by apply list_lookup_middle|].
    by eapply others_peer.
  - simpl. intros j run Hj. apply lookup_app_Some in Hj as [?|[_ Hj]]; [by left|right].
    apply list_lookup_singleton_Some in Hj as [_ <-].
    exists n', ∅, (length (log n)). simpl. rewrite lookup_insert_eq. split_and!; try done.
    + exists (log n ++ [x]). simpl. rewrite lookup_insert_eq. split_and!; try done.
      * by apply list_lookup_middle.
      * by rewrite take_app_length.
    + unfold lastLogIndex. simpl. by rewrite Elen.
    + apply ackd_add. right. by rewrite Elen.
    + subst done. by destruct (bool_decide _).
Qed.

Lemma sim_propose_task j p : sim_ok s k (fire_propose_task c j p).
Proof.
  unfold fire_propose_task. destruct (proposals c !! j) as [run|] eqn:Hj; [|done].
  destruct (nodes c !! prn_node run) as [n|] eqn:Hi; [|done].
  destruct (bool_decide_reflect (TAppend j p ∈ tasks c)) as [Hin|]; [|done].
  pose proof (ci_node _ _ _ _ Hc _ _ Hi) as Hok.
  destruct (ci_task _ _ _ _ Hc _ Hin) as (run' & Hj' & Ho). simplify_eq.
  destruct (ci_prop _ _ _ _ Hc _ _ Hj) as (m & G & q & _ & Hat & (Hpi & Hni) & _).
  eapply (sim_same c _ s k (prn_node run) n n); eauto using props_le_refl; simpl.
  - by rewrite insert_id.
  - apply Hok.
  - intros t ?%elem_of_remove1. by left.
  - intros pk [->|?]%elem_of_cons; [right|by left]. simpl.
    split_and!; try done; [apply Hok|lia| | |].
    + destruct Hat as (L & HL & _). eauto.
    + right. by exists (pr_entry (prn_pr run)), q.
    + intros j' [= <-]. exists run. split_and!; try done. lia.
Qed.

Lemma sim_propose_cancel j : sim_ok s k (fire_propose_cancel c j).
Proof.
  unfold fire_propose_cancel. destruct (proposals c !! j) as [run|] eqn:Hj; [|done].
  destruct (bool_decide_reflect (prn_done run = None)); [|done].
  destruct (ci_prop _ _ _ _ Hc _ _ Hj) as (n & G & q & Hi & Hrest).
  pose proof (ci_node _ _ _ _ Hc _ _ Hi) as Hok.
  eapply (sim_same c _ s k (prn_node run) n n); eauto; simpl; auto.
  - by rewrite insert_id.
  - apply Hok.
  - intros j' run' Hj'. simpl. destruct (decide (j' = j)) as [->|Hne].
    + simplify_eq. eexists. rewrite list_lookup_insert_eq by (by eapply lookup_lt_Some). done.
    + exists run'. by rewrite list_lookup_insert_ne.
  - intros j' run' Hj'. apply list_lookup_insert_Some in Hj' as [(_ & <- & _)|[_ ?]]; [right|by left].
    exists n, G, q. simpl. destruct Hrest as (H1 & H2 & H3 & H4 & H5 & H6 & H7 & _).
    repeat (split; [done|]). done.
Qed.

(** Counting one more acknowledgement, or none, and possibly returning. *)
Lemma prop_count c' s' n n' run pr' p g d :
  nodes c' = <[prn_node run := n']> (nodes c) -> nodes c !! prn_node run = Some n ->
  peers n' = peers n -> hist_le s s' -> prop_ok c s run -> p ∈ prn_waiting run ->
  (pr' = prn_pr run /\ g = false \/ pr' = count_ack (prn_pr run) g) ->
  (g = true -> ackd s p (pr_term (prn_pr run)) (Z.to_nat (pr_newIndex (prn_pr run)))) ->
  (d = Some None -> (pr_term (prn_pr run), Z.to_nat (pr_newIndex (prn_pr run))) ∈ a_chosen s') ->
  prop_ok c' s' (mkProposeRun (prn_node run) pr' (remove1 p (prn_waiting run)) d).
Proof.
  intros Hn Hi Ep Hh (m & G & q & Hm & Hat & Hidx & Hneed & (Hnd & Hw) & HG & Hown & Hacks & _)
    Hin Hpr Hg Hd. simplify_eq. destruct Hidx as [Hpi Hni]. rewrite Hni, Nat2Z.id in *.
  destruct (NoDup_remove1 p (prn_waiting run) Hnd) as [Hnd' Hp].
  assert (Epr : pr_entry pr' = pr_entry (prn_pr run) /\ pr_prevIndex pr' = pr_prevIndex (prn_pr run) /\
    pr_prevTerm pr' = pr_prevTerm (prn_pr run) /\ pr_newIndex pr' = pr_newIndex (prn_pr run) /\
    pr_needed pr' = pr_needed (prn_pr run) /\
    pr_acks pr' = pr_acks (prn_pr run) + if g then 1 else 0).
  { destruct Hpr as [[-> ->]| ->]; simpl; split_and!; try done; lia. }
  destruct Epr as (E1 & E2 & E3 & E4 & E5 & E6).
  exists n', (if g then {[p]} ∪ G else G), q. unfold pr_term in *. cbn [prn_pr prn_node prn_waiting prn_done].
  rewrite Hn, lookup_insert_eq, Ep, E1, E2, E3, E4, E5, E6.
  split_and!; try done.
  - by eapply entry_at_mono.
  - by rewrite (quorum_peers n n').
  - intros v ?%elem_of_remove1. auto.
  - intros v Hv. assert (v = p /\ g = true \/ v ∈ G) as [[-> ->]|HvG] by (destruct g; set_solver).
    + split_and!; auto. apply (hl_ack _ _ Hh). auto.
    + destruct (HG _ HvG) as (? & Hvw & ?). split_and!; [done| |by apply (hl_ack _ _ Hh)].
      intros ?%elem_of_remove1. done.
  - by apply (hl_ack _ _ Hh).
  - destruct g; [|lia]. rewrite size_union, size_singleton; [lia|].
    apply disjoint_singleton_l. intros HpG. by destruct (HG _ HpG) as (_ & ? & _).
Qed.

(** A counted majority of acknowledgements is a protocol choice, and the
    leader's log still reaches the entry. *)
Lemma sim_choose run n p :
  nodes c !! prn_node run = Some n -> prop_ok c s run -> p ∈ prn_waiting run ->
  ackd s p (pr_term (prn_pr run)) (Z.to_nat (pr_newIndex (prn_pr run))) ->
  pr_needed (prn_pr run) <= pr_acks (prn_pr run) + 1 ->
  let s' := add_chosen s (pr_term (prn_pr run)) (Z.to_nat (pr_newIndex (prn_pr run))) in
  astep M s s' /\ pr_newIndex (prn_pr run) <= Z.of_nat (length (log n)).
Proof.
  intros Hi (m & G & q & Hm & Hat & (Hpi & Hni) & Hneed & (Hnd & Hw) & HG & Hown & Hacks & _)
    Hin Hack Hq. simplify_eq. rewrite Hni, Nat2Z.id in *. intros s'.
  destruct Hat as (L & HL & Hx & HxT & _).
  assert (Hmaj : majority M ({[prn_node run]} ∪ ({[p]} ∪ G))).
  { eapply quorum_majority; eauto.
    - intros v [->%elem_of_singleton|Hv]%elem_of_union; [auto|]. by apply HG.
    - rewrite size_union, size_singleton; [lia|].
      apply disjoint_singleton_l. intros HpG. by destruct (HG _ HpG) as (_ & ? & _). }
  assert (Hstep : astep M s s').
  { eapply (as_choose _ s _ q); eauto.
    intros v [->%elem_of_singleton|[->%elem_of_singleton|Hv]%elem_of_union]%elem_of_union;
      [done|done|]. by apply HG. }
  split; [done|].
  assert (Hag : agree s' (pr_term (prn_pr run)) (S q) (a_log (core n))).
  { eapply (ainv_chosen_keep M s' _ _ (prn_node run)); eauto using ainv_step.
    - simpl. left.
    - simpl. by eapply ci_lookup. }
  destruct Hag as (j & L' & HL' & Hlen & Ht). symmetry in Ht. apply take_eq_length in Ht; [|done].
  simpl in Ht. lia.
Qed.

Lemma props_le_insert c' j run run' :
  proposals c !! j = Some run -> proposals c' = <[j := run']> (proposals c) ->
  same_call run run' -> props_le c c'.
Proof.
  intros Hj E Hs j' r Hj'. rewrite E. destruct (decide (j' = j)) as [->|Hne].
  - simplify_eq. exists run'. rewrite list_lookup_insert_eq by (by eapply lookup_lt_Some). done.
  - exists r. by rewrite list_lookup_insert_ne.
Qed.

(** What a received acknowledgement, or a failed request, says. *)
Lemma append_answer j run p (r : option AppendEntriesResponse) : proposals c !! j = Some run ->
  match r with
  | Some resp => bool_decide (PAppendResp p (prn_node run) (Some j) (entry_Term (pr_entry (prn_pr run))) resp ∈ net c)
  | None => true end = true ->
  let resp := match r with Some resp => resp | None => mkAppendResp (entry_Term (pr_entry (prn_pr run))) false end in
  0 <= aer_Term resp <= k /\ (aer_Success resp = true ->
    ackd s p (pr_term (prn_pr run)) (Z.to_nat (pr_newIndex (prn_pr run)))).
Proof.
  intros Hj Harr. pose proof (ci_prop _ _ _ _ Hc _ _ Hj) as Hpok. destruct r as [resp|]; simpl.
  - apply bool_decide_eq_true in Harr. apply (ci_net _ _ _ _ Hc) in Harr as [? Hs].
    split; [lia|]. intros Hsu. destruct (Hs Hsu _ eq_refl) as (run' & Hr' & ?). by simplify_eq.
  - destruct Hpok as (m & G & q & _ & (L & HL & _) & _).
    pose proof (llog_bound _ _ _ HL). unfold pr_term in *. split; [lia|done].
Qed.

Lemma insert_cases {A} (l : list A) j x j' y : <[j := x]> l !! j' = Some y -> l !! j' = Some y \/ y = x.
Proof. intros H. apply list_lookup_insert_Some in H as [(_ & <- & _)|[_ ?]]; auto. Qed.

Lemma sim_propose_recv j p r : sim_ok s k (fire_propose_recv c j p r).
Proof.
  unfold fire_propose_recv. destruct (proposals c !! j) as [run|] eqn:Hj; [|done].
  destruct (nodes c !! prn_node run) as [n|] eqn:Hi; [|done].
  destruct (bool_decide (prn_done run = None) && _ && _) eqn:Hen; [|done].
  apply andb_true_iff in Hen as [Hen Harr]. apply andb_true_iff in Hen as [Hdone Hwait]. zbool.
  pose proof (ci_node _ _ _ _ Hc _ _ Hi) as Hok. pose proof (ci_prop _ _ _ _ Hc _ _ Hj) as Hpok.
  set (resp := match r with Some resp => resp | None => _ end).
  set (c1 := match r with Some resp => _ | None => c end).
  assert (Hc1 : nodes c1 = nodes c /\ elections c1 = elections c /\ tasks c1 = tasks c /\
                proposals c1 = proposals c /\ forall pk, pk ∈ net c1 -> pk ∈ net c).
  { subst c1. destruct r; simpl; split_and!; try done. by intros pk ?%elem_of_remove1. }
  destruct Hc1 as (En & Ee & Et & Ep & Enet).
  assert (Hresp := append_answer j run p r Hj Harr). fold resp in Hresp.
  destruct Hresp as [Hrt Hack].
  destruct (Propose_recv_cases n (prn_pr run) resp) as (n' & out & es & -> & Hcase).
  { apply Hok. }
  { intros Hs _ Hq. by eapply (sim_choose run n p); eauto. }
  cbn [exec_bind].
  destruct Hcase as [(_ & -> & -> & ->)|(_ & [(Hs & Hq & -> & -> & ->)|(Hs & -> & -> & Hout)])].
  - destruct (sim_adopt s (prn_node run) n (aer_Term resp) "") as (s1 & Hs1 & Habs1);
      [by eapply ci_lookup|].
    assert (Hh1 : hist_le s s1) by (by apply (asteps_hist M)).
    destruct (adopt_fields n (aer_Term resp) "") as (_ & Epe & _).
    eapply (sim_quiet c _ s s1 k (prn_node run) n (adopt n (aer_Term resp) ""));
      eauto using quiet_adopt; simpl; rewrite ?En, ?Et, ?Ee, ?Ep; auto.
    + apply node_ok_adopt; [|lia]. eapply node_ok_core; eauto; [apply Hok|lia].
    + eapply props_le_insert; [done|simpl; by rewrite ?Ep|done].
    + intros j' r' [?| ->]%insert_cases; [by left|right].
      eapply (prop_count _ s1 n _ run _ p false); eauto; simpl; by rewrite ?En.
  - destruct (sim_choose run n p) as [Hstep Hlen]; auto.
    set (s1 := add_chosen _ _ _) in *.
    eapply (sim_quiet c _ s s1 k (prn_node run) n); eauto using rtc_once; simpl;
      rewrite ?En, ?Et, ?Ee, ?Ep; auto.
    + by eapply abs_same.
    + by apply quiet_refl.
    + eapply node_ok_core; eauto; simpl; [|lia]. destruct Hok as (_ & _ & _ & ? & _). lia.
    + eapply props_le_insert; [done|simpl; by rewrite ?Ep|done].
    + intros j' r' [?| ->]%insert_cases; [by left|right].
      eapply (prop_count _ s1 n (set_commit n _ _) run _ p false);
        [simpl; by rewrite ?En|done|done|by eapply astep_hist|done|done|by left|done|].
      intros _. left.
  - eapply (sim_same c _ s k (prn_node run) n n); eauto; simpl;
      rewrite ?En, ?Et, ?Ee, ?Ep; auto.
    + apply Hok.
    + eapply props_le_insert; [done|simpl; by rewrite ?Ep|]. by destruct Hout as [->| ->].
    + intros j' r' [?| ->]%insert_cases; [by left|right].
      destruct Hout as [->| ->].
      * eapply (prop_count _ s n _ run _ p (aer_Success resp)); eauto using hist_le_refl;
          simpl; by rewrite ?En.
      * eapply (prop_count _ s n _ run _ p false); eauto using hist_le_refl;
          simpl; by rewrite ?En.
Qed.

(** Applying an entry touches no node and no message. *)
Lemma sim_apply b : sim_ok s k (fire_apply c b).
Proof.
  unfold fire_apply. destruct (applying c !! b) as [[i pos [|x es]]|]; [done| |done].
  destruct (nodes c !! i) as [n|] eqn:Hi; [|done]. pose proof (ci_node _ _ _ _ Hc _ _ Hi) as Hok.
  eapply (sim_same c _ s k i n n); eauto using props_le_refl; simpl; auto; [by rewrite insert_id|apply Hok].
Qed.

(** ** Every event *)

Lemma fire_sim ev : sim_ok s k (fire ev c).
Proof.
  destruct ev; simpl; auto using sim_timeout, sim_vote_task, sim_deliver_vote,
    sim_election_recv, sim_election_cancel, sim_become_leader, sim_heartbeat,
    sim_heartbeat_task, sim_deliver_append, sim_heartbeat_recv, sim_propose,
    sim_propose_task, sim_propose_recv, sim_propose_cancel, sim_apply.
Qed.
End Events.
End Sim.
