(* ===== verification/RaftScenario.v ===== *)
(** * Concrete executions of the cluster

    Runs of a three-node cluster under the event semantics of [RaftCluster]:
    an election, a replicated command, and an execution in which a follower
    applies an entry the cluster never chose.  They are computed with the
    executable model and give the theorems about reachable states their
    concrete instances. *)

From stdpp Require Import base gmap strings list relations.
From S2P Require Import Prelude RaftNode RaftCluster.

#[local] Open Scope Z_scope.
#[local] Open Scope go_scope.

(** The clock stands still and the random source always draws 0. *)
Definition demo_env : Env := mkEnv 0 (fun _ => 0).

Definition demo_cfg (i : string) (ps : list string) : Config :=
  mkConfig i ps true 150 300 50 0.

Definition demo_node (i : string) (ps : list string) : Node :=
  mkNode i ps 0 "" "" StateFollower [] 0 0 0 150 300 50 defaultRPCTimeout None.

Definition demo_members : gset string := {["A"; "B"; "C"]}.

Definition demo_start : Cluster :=
  mkCluster (<["A" := demo_node "A" ["B"; "C"]]> (<["B" := demo_node "B" ["A"; "C"]]>
             {["C" := demo_node "C" ["A"; "B"]]})) ∅ [] [] [] [] ∅.

Lemma demo_initial : initial demo_members demo_start.
Proof.
  split_and!; try done.
  intros i n Hi. unfold demo_start in Hi. simpl in Hi.
  apply lookup_insert_Some in Hi as [[<- <-]|[_ Hi]];
    [|apply lookup_insert_Some in Hi as [[<- <-]|[_ Hi]];
      [|apply lookup_singleton_Some in Hi as [<- <-]]].
  all: (match goal with |- fresh_member _ _ (demo_node ?i ?ps) => exists (demo_cfg i ps) end);
    split_and!; [done|done|repeat constructor; set_solver|]; intros p; simpl;
      unfold demo_members; set_solver.
Qed.

Lemma demo_reachable evs c :
  run evs demo_start = Some c -> reachable demo_members (length evs) c.
Proof. intros H. exists demo_start. split; [apply demo_initial|by apply run_nsteps]. Qed.

(** The part of an event list that elects [i] in [term] with the vote of [p]. *)
Definition elect (i p : string) (term li lt : Z) : list Event :=
  [EvTimeout i demo_env; EvVoteTask i term p;
   EvDeliverVote i p (mkVoteReq term i li lt) demo_env;
   EvElectionRecv i p (Some (mkVoteResp term true)) demo_env; EvBecomeLeader i].

(** A proposal of [i], number [j], that [p] acknowledges. *)
Definition replicate (i p : string) (j : nat) (term prev prevTerm commit : Z) (cmd : string)
  : list Event :=
  [EvPropose i cmd; EvProposeTask j p;
   EvDeliverAppend i p (Some j)
     (mkAppendReq term i prev prevTerm [mkEntry term cmd] commit) demo_env;
   EvProposeRecv j p (Some (mkAppendResp term true))].

Definition demo_events : list Event :=
  elect "A" "B" 1 0 0 ++ replicate "A" "B" 0 1 0 0 0 "x" ++
  replicate "A" "B" 1 1 1 1 1 "y".

Definition demo_final : Cluster := default demo_start (run demo_events demo_start).

(** [A] leads term 1 and appends [x] without reaching anyone; [B] leads term 2
    and gets [y] acknowledged by [C]; then [B]'s heartbeat reaches [A]. *)
Definition stale_events : list Event :=
  elect "A" "B" 1 0 0 ++ [EvPropose "A" "x"] ++ elect "B" "C" 2 0 0 ++
  replicate "B" "C" 1 2 0 0 0 "y" ++ [EvApply 0] ++
  [EvHeartbeat "B" demo_env; EvHeartbeatTask "B" 2 "A";
   EvDeliverAppend "B" "A" None (mkAppendReq 2 "B" 1 2 [] 1) demo_env; EvApply 1].

Definition stale_final : Cluster := default demo_start (run stale_events demo_start).

(** One log entry is rejected for ever after one lost append: [A]'s first
    append never reaches [C], and [C] refuses the second. *)
Definition gap_events : list Event :=
  elect "A" "B" 1 0 0 ++ replicate "A" "B" 0 1 0 0 0 "x" ++
  [EvPropose "A" "y"; EvProposeTask 1 "C";
   EvDeliverAppend "A" "C" (Some 1%nat) (mkAppendReq 1 "A" 1 1 [mkEntry 1 "y"] 1) demo_env].

Definition gap_final : Cluster := default demo_start (run gap_events demo_start).

(** ** What the runs reach *)

Definition node_of (c : Cluster) (i : string) : Node := default (demo_node i []) (nodes c !! i).

Definition call_of (c : Cluster) (j : nat) : ProposeRun :=
  default (mkProposeRun "" (mkProposal (mkEntry 0 "") 0 0 0 0 0 0) [] None) (proposals c !! j).

(** A run that succeeds reaches its final state. *)
Lemma demo_run evs : (if run evs demo_start is Some _ then true else false) = true ->
  reachable demo_members (length evs) (default demo_start (run evs demo_start)).
Proof.
  intros H. apply demo_reachable. destruct (run evs demo_start); [done|discriminate].
Qed.

Lemma demo_final_reachable : reachable demo_members (length demo_events) demo_final.
Proof. apply demo_run. by vm_compute. Qed.

Lemma stale_final_reachable : reachable demo_members (length stale_events) stale_final.
Proof. apply demo_run. by vm_compute. Qed.

Lemma gap_final_reachable : reachable demo_members (length gap_events) gap_final.
Proof. apply demo_run. by vm_compute. Qed.

(** The state right after the election, and the rest of the run. *)
Definition demo_elected : Cluster :=
  default demo_start (run (elect "A" "B" 1 0 0) demo_start).

Lemma demo_elected_reachable : reachable demo_members 5 demo_elected.
Proof. apply (demo_run (elect "A" "B" 1 0 0)). by vm_compute. Qed.

Lemma demo_final_steps : nsteps step 8 demo_elected demo_final.
Proof. apply (run_nsteps (drop 5 demo_events)). by vm_compute. Qed.
