(* ===== verification/RaftTheorems.v ===== *)
(** * Guarantees of the Raft cluster

    What the simulation gives for the running cluster: at most one leader per
    term, matching logs, append-only leaders, no lost committed command and no
    panic.  Every theorem is about states reached in fewer than 2^63 events, so
    that neither the [uint64] terms nor the [int] log indices wrap. *)

From stdpp Require Import base gmap strings list relations.
From S2P Require Import Prelude RaftNode RaftSpec RaftLog RaftSafety RaftCluster.
From S2P Require Import RaftNodeFacts RaftRefine RaftSim RaftScenario.

#[local] Open Scope Z_scope.
#[local] Open Scope go_scope.

(** ** Construction *)

(** [NewNode] accepts exactly the configurations with an ID, a transport,
    positive timeouts and an election range that is not inverted; the node it
    returns is a follower in term 0 with no vote, no leader and an empty log,
    and an RPC timeout that is never zero. *)
Theorem NewNode_spec (cfg : Config) :
  let valid := cfg_ID cfg <> "" /\ cfg_hasTransport cfg = true /\
    0 < cfg_ElectionTimeoutMin cfg <= cfg_ElectionTimeoutMax cfg /\
    0 < cfg_HeartbeatInterval cfg in
  match NewNode cfg with
  | inr n => valid /\ id n = cfg_ID cfg /\ peers n = cfg_Peers cfg /\
      core n = mkANode 0 None StateFollower [] /\ leaderID n = "" /\
      commitIndex n = 0 /\ lastApplied n = 0 /\ 0 < rpcTimeout n
  | inl err => ~ valid /\ (err = ErrInvalidConfig <-> cfg_ID cfg = "")
  end.
Proof.
  unfold NewNode. destruct (bool_decide_reflect (cfg_ID cfg = "")); [naive_solver|].
  destruct (cfg_hasTransport cfg); simpl; [|naive_solver].
  destruct (Z.leb_spec (cfg_ElectionTimeoutMin cfg) 0); simpl; [split; [lia|done]|].
  destruct (Z.leb_spec (cfg_ElectionTimeoutMax cfg) 0); simpl; [split; [lia|done]|].
  destruct (Z.leb_spec (cfg_HeartbeatInterval cfg) 0); simpl; [split; [lia|done]|].
  destruct (Z.ltb_spec (cfg_ElectionTimeoutMax cfg) (cfg_ElectionTimeoutMin cfg)); simpl.
  - split; [lia|done].
  - split_and!; try done; try lia.
    destruct (Z.leb_spec (cfg_RPCTimeout cfg) 0); unfold defaultRPCTimeout; lia.
Qed.

(** ** Reachable states *)

Section Cluster.
Context (M : gset string).

Lemma NewNode_fresh cfg n : NewNode cfg = inr n ->
  id n = cfg_ID cfg /\ cfg_ID cfg <> "" /\ peers n = cfg_Peers cfg /\
  core n = mkANode 0 None StateFollower [] /\ commitIndex n = 0 /\ lastApplied n = 0.
Proof.
  unfold NewNode. intros H. destruct (bool_decide_reflect (cfg_ID cfg = "")); [done|].
  split_ifs_in H; by simplify_eq.
Qed.

Lemma initial_sim c : initial M c -> exists s, ainit M s /\ CInv M c s 0.
Proof.
  intros (Hd & Hn & He & Hp & Ht & Hnet & Happ).
  exists (mkAState (core <$> nodes c) ∅ ∅ ∅ []). split.
  - split_and!; try done; simpl.
    + by rewrite dom_fmap_L.
    + intros i n Hi. rewrite lookup_fmap in Hi. apply fmap_Some in Hi as (m & Hm & ->).
      destruct (Hn _ _ Hm) as (cfg & Hcfg & _). apply (NewNode_fresh _ _ Hcfg).
  - split; rewrite ?He, ?Hp, ?Ht, ?Hnet; try done; try set_solver.
    intros i n Hi. destruct (Hn _ _ Hi) as (cfg & Hcfg & Hid & Hnd & Hpe).
    destruct (NewNode_fresh _ _ Hcfg) as (E1 & Hne & E2 & Ec & E3 & E4).
    unfold core in Ec. injection Ec as E5 _ _ E6. unfold node_ok.
    rewrite E1, E2, E3, E4, E5, E6, Hid. subst i. split_and!; try done; simpl; lia.
Qed.

(** Every reachable cluster is related to a reachable protocol state. *)
Lemma nsteps_sim k c0 c s0 : nsteps step k c0 c -> forall k0, CInv M c0 s0 k0 -> AInv M s0 ->
  k0 + Z.of_nat k < 2 ^ 63 ->
  exists s, rtc (astep M) s0 s /\ CInv M c s (k0 + Z.of_nat k).
Proof.
  intros H. revert s0. induction H as [c|k c0 c1 c [ev Hev] Hs IH]; intros s0 k0 Hc Ha Hk.
  - exists s0. rewrite Z.add_0_r. done.
  - pose proof (fire_sim M c0 s0 k0 Hc Ha) as Hsim. specialize (Hsim ltac:(lia) ev).
    rewrite Hev in Hsim. destruct Hsim as (s1 & Hs1 & Hc1).
    destruct (IH s1 (k0 + 1)) as (s & Hs' & Hcs); [done|by eapply ainv_steps|lia|].
    exists s. split; [by etrans|]. by replace (k0 + Z.of_nat (S k)) with (k0 + 1 + Z.of_nat k) by lia.
Qed.

Lemma reachable_sim k c : reachable M k c -> Z.of_nat k < 2 ^ 63 ->
  exists s, areachable M s /\ CInv M c s (Z.of_nat k).
Proof.
  intros (c0 & H0 & Hs) Hk. destruct (initial_sim _ H0) as (s0 & Hi & Hc).
  destruct (nsteps_sim _ _ _ _ Hs _ Hc (ainv_init _ _ Hi)) as (s & Hs' & Hcs); [lia|].
  exists s. split; [by exists s0|done].
Qed.

(** The same for a run that continues from a reachable state. *)
Lemma reachable_run_sim k m c c' : reachable M k c -> nsteps step m c c' ->
  Z.of_nat (k + m) < 2 ^ 63 ->
  exists s s', AInv M s /\ AInv M s' /\ hist_le s s' /\ rtc (astep M) s s' /\
    CInv M c s (Z.of_nat k) /\ CInv M c' s' (Z.of_nat k + Z.of_nat m).
Proof.
  intros Hr Hs Hk. destruct (reachable_sim _ _ Hr) as (s & Har & Hc); [lia|].
  apply ainv_reachable in Har.
  destruct (nsteps_sim _ _ _ _ Hs _ Hc Har) as (s' & Hs' & Hc'); [lia|].
  exists s, s'. split_and!; try done; [by eapply ainv_steps|by apply (asteps_hist M)].
Qed.

Lemma chosen_run k c s run : CInv M c s k -> run ∈ proposals c -> prn_done run = Some None ->
  let T := entry_Term (pr_entry (prn_pr run)) in
  let p := Z.to_nat (pr_newIndex (prn_pr run) - 1) in
  pr_newIndex (prn_pr run) = Z.of_nat (S p) /\ (T, S p) ∈ a_chosen s /\
  exists j L, a_llog s !! T = Some (j, L) /\ L !! p = Some (pr_entry (prn_pr run)).
Proof.
  intros Hc (j & Hj)%list_elem_of_lookup Hd. apply (ci_prop _ _ _ _ Hc) in Hj.
  destruct Hj as (n & G & p & _ & (L & HL & Hx & _) & [_ Hidx] & _ & _ & _ & _ & _ & Hch).
  simpl. rewrite Hidx. replace (Z.to_nat (Z.of_nat (S p) - 1)) with p by lia.
  split_and!; [done|by apply Hch|]. by exists (prn_node run), L.
Qed.

Lemma asteps_term s s' v n : AInv M s -> rtc (astep M) s s' -> a_nodes s !! v = Some n ->
  exists n', a_nodes s' !! v = Some n' /\ a_term n <= a_term n'.
Proof.
  intros Ha Hs. revert n Ha. induction Hs as [s|s1 s2 s3 H12 H23 IH]; intros n Ha Hn; [eauto with lia|].
  destruct (ext_term _ _ (step_ext M _ _ (ai_vote _ _ Ha) H12) _ _ Hn) as (n2 & Hn2 & Hle).
  destruct (IH n2) as (n3 & Hn3 & Hle'); [by eapply ainv_step|done|]. exists n3. split; [done|lia].
Qed.

(** Logs that agree with a leader's log on a chosen prefix hold its last entry. *)
Lemma agree_lookup s T p l j L x : a_llog s !! T = Some (j, L) -> L !! p = Some x ->
  agree s T (S p) l -> l !! p = Some x.
Proof.
  intros HL Hx (j' & L' & HL' & _ & Et). rewrite HL in HL'. injection HL' as <- <-.
  rewrite <- (lookup_take_lt l (S p)), Et, lookup_take_lt by lia. done.
Qed.

(** A leader of a chosen command's term or a later one holds it. *)
Lemma chosen_in_leader k c s run i n : CInv M c s k -> AInv M s ->
  run ∈ proposals c -> prn_done run = Some None -> nodes c !! i = Some n -> state n = StateLeader ->
  entry_Term (pr_entry (prn_pr run)) <= currentTerm n ->
  log n !! Z.to_nat (pr_newIndex (prn_pr run) - 1) = Some (pr_entry (prn_pr run)).
Proof.
  intros Hc Ha Hin Hd Hi Hst Ht. destruct (chosen_run _ _ _ _ Hc Hin Hd) as (_ & Hch & j & L & HL & Hx).
  pose proof (vi_leader _ _ (ai_vote _ _ Ha) _ _ (ci_lookup _ _ _ _ _ _ Hc Hi) Hst) as Hl.
  eapply agree_lookup; [exact HL|exact Hx|]. by eapply (ainv_chosen_agree M).
Qed.
End Cluster.

(** ** The guarantees *)

(** C1: refinement.  Every state the running cluster reaches is a state of the
    abstract replication protocol: the nodes' terms, votes, roles and logs are
    those of a reachable protocol state, in which every command whose [Propose]
    returned success is chosen. *)
Theorem cluster_refines_protocol M k c :
  reachable M k c -> Z.of_nat k < 2 ^ 63 ->
  exists s, areachable M s /\ a_nodes s = core <$> nodes c /\
  forall run, run ∈ proposals c -> prn_done run = Some None ->
  (entry_Term (pr_entry (prn_pr run)), Z.to_nat (pr_newIndex (prn_pr run))) ∈ a_chosen s.
Proof.
  intros Hr Hk. destruct (reachable_sim _ _ _ Hr Hk) as (s & Har & Hc). exists s.
  split_and!; [done|apply Hc|]. intros run Hin Hd.
  destruct (chosen_run _ _ _ _ _ Hc Hin Hd) as (E & Hch & _). rewrite E, Nat2Z.id. done.
Qed.

Lemma cluster_refines_protocol_witness :
  exists s, areachable demo_members s /\ a_nodes s = core <$> nodes demo_final /\
  forall run, run ∈ proposals demo_final -> prn_done run = Some None ->
  (entry_Term (pr_entry (prn_pr run)), Z.to_nat (pr_newIndex (prn_pr run))) ∈ a_chosen s.
Proof. apply (cluster_refines_protocol _ _ _ demo_final_reachable). by vm_compute. Defined.

(** C2: election safety.  Two nodes that are leaders in the same term are the
    same node. *)
Theorem election_safety M k c i j ni nj :
  reachable M k c -> Z.of_nat k < 2 ^ 63 ->
  nodes c !! i = Some ni -> nodes c !! j = Some nj ->
  state ni = StateLeader -> state nj = StateLeader -> currentTerm ni = currentTerm nj -> i = j.
Proof.
  intros Hr Hk Hi Hj Hsi Hsj Ht. destruct (reachable_sim _ _ _ Hr Hk) as (s & Ha & Hc).
  apply ainv_reachable in Ha.
  eapply (ainv_election_safety M s i j); eauto using ci_lookup.
Qed.

Lemma election_safety_witness :
  state (node_of demo_final "A") = StateLeader /\ "A" = "A".
Proof.
  split; [by vm_compute|].
  by apply (election_safety _ _ _ "A" "A" (node_of demo_final "A") (node_of demo_final "A")
    demo_final_reachable); vm_compute.
Defined.

(** C16: log matching.  If two nodes' logs have an entry of the same term at the
    same position, the logs are identical up to and including it. *)
Theorem node_log_matching M k c i j ni nj p xi xj :
  reachable M k c -> Z.of_nat k < 2 ^ 63 ->
  nodes c !! i = Some ni -> nodes c !! j = Some nj ->
  log ni !! p = Some xi -> log nj !! p = Some xj -> entry_Term xi = entry_Term xj ->
  take (S p) (log ni) = take (S p) (log nj).
Proof.
  intros Hr Hk Hi Hj Hxi Hxj Ht. destruct (reachable_sim _ _ _ Hr Hk) as (s & Ha & Hc).
  apply ainv_reachable in Ha as [_ Hl _].
  apply (log_matching s i (core ni) j (core nj) p (entry_Term xi)); eauto using ci_lookup;
    unfold termAt; simpl; rewrite ?Hxi, ?Hxj; simpl; congruence.
Qed.

Lemma node_log_matching_witness :
  take 2 (log (node_of demo_final "A")) = take 2 (log (node_of demo_final "B")).
Proof.
  by apply (node_log_matching _ _ _ "A" "B" _ _ 1 (mkEntry 1 "y") (mkEntry 1 "y")
    demo_final_reachable); vm_compute.
Defined.

(** C3: leader completeness.  A command whose [Propose] returned success is at
    its index in the log of every leader of its term or a later one. *)
Theorem leader_completeness M k c run i n :
  reachable M k c -> Z.of_nat k < 2 ^ 63 ->
  run ∈ proposals c -> prn_done run = Some None ->
  nodes c !! i = Some n -> state n = StateLeader ->
  entry_Term (pr_entry (prn_pr run)) <= currentTerm n ->
  log n !! Z.to_nat (pr_newIndex (prn_pr run) - 1) = Some (pr_entry (prn_pr run)).
Proof.
  intros Hr Hk Hin Hd Hi Hst Ht. destruct (reachable_sim _ _ _ Hr Hk) as (s & Ha & Hc).
  apply ainv_reachable in Ha. by eapply (chosen_in_leader M).
Qed.

Lemma leader_completeness_witness :
  log (node_of demo_final "A") !! 1%nat = Some (mkEntry 1 "y").
Proof.
  apply (leader_completeness _ _ _ (call_of demo_final 1) "A" _ demo_final_reachable);
    [done|apply (list_elem_of_lookup_2 _ 1)|..]; by vm_compute.
Defined.

(** C4: durability.  A command whose [Propose] returned success is, and stays,
    at its index in the logs of a majority of the members. *)
Theorem committed_on_majority M k c run :
  reachable M k c -> Z.of_nat k < 2 ^ 63 ->
  run ∈ proposals c -> prn_done run = Some None ->
  exists Q, majority M Q /\ forall v, v ∈ Q -> exists n, nodes c !! v = Some n /\
  log n !! Z.to_nat (pr_newIndex (prn_pr run) - 1) = Some (pr_entry (prn_pr run)).
Proof.
  intros Hr Hk Hin Hd. destruct (reachable_sim _ _ _ Hr Hk) as (s & Ha & Hc).
  apply ainv_reachable in Ha. destruct (chosen_run _ _ _ _ _ Hc Hin Hd) as (_ & Hch & j & L & HL & Hx).
  destruct (si_chosen _ _ (ai_safe _ _ Ha) _ _ Hch) as (p & [= <-] & _ & Q & HQ & HaQ).
  exists Q. split; [done|]. intros v Hv. destruct (ci_member _ _ _ _ _ Hc (proj1 HQ _ Hv)) as [n Hn].
  exists n. split; [done|]. eapply agree_lookup; [exact HL|exact Hx|].
  eapply (ainv_chosen_keep M s _ _ v (core n)); eauto using ci_lookup.
Qed.

Lemma committed_on_majority_witness :
  exists Q, majority demo_members Q /\ forall v, v ∈ Q -> exists n, nodes demo_final !! v = Some n /\
  log n !! 1%nat = Some (mkEntry 1 "y").
Proof.
  apply (committed_on_majority _ _ _ (call_of demo_final 1) demo_final_reachable);
    [done|apply (list_elem_of_lookup_2 _ 1)|..]; by vm_compute.
Defined.

(** C15: agreement.  Two successful proposals, at any leaders and in any terms,
    never get the same index for different commands. *)
Theorem proposals_agree M k c run1 run2 :
  reachable M k c -> Z.of_nat k < 2 ^ 63 ->
  run1 ∈ proposals c -> prn_done run1 = Some None ->
  run2 ∈ proposals c -> prn_done run2 = Some None ->
  pr_newIndex (prn_pr run1) = pr_newIndex (prn_pr run2) ->
  pr_entry (prn_pr run1) = pr_entry (prn_pr run2).
Proof.
  intros Hr Hk Hi1 Hd1 Hi2 Hd2 Hidx. destruct (reachable_sim _ _ _ Hr Hk) as (s & Ha & Hc).
  apply ainv_reachable in Ha.
  destruct (chosen_run _ _ _ _ _ Hc Hi1 Hd1) as (_ & Hc1 & j1 & L1 & HL1 & Hx1).
  destruct (chosen_run _ _ _ _ _ Hc Hi2 Hd2) as (_ & Hc2 & j2 & L2 & HL2 & Hx2).
  rewrite Hidx in Hc1, Hx1.
  destruct (Z.le_ge_cases (entry_Term (pr_entry (prn_pr run1))) (entry_Term (pr_entry (prn_pr run2)))).
  - pose proof (agree_lookup _ _ _ _ _ _ _ HL1 Hx1
      (ainv_chosen_agree M _ _ _ _ _ _ Ha Hc1 HL2 ltac:(done))). congruence.
  - pose proof (agree_lookup _ _ _ _ _ _ _ HL2 Hx2
      (ainv_chosen_agree M _ _ _ _ _ _ Ha Hc2 HL1 ltac:(lia))). congruence.
Qed.

Lemma proposals_agree_witness :
  pr_entry (prn_pr (call_of demo_final 0)) = mkEntry 1 "x" /\
  pr_entry (prn_pr (call_of demo_final 0)) = pr_entry (prn_pr (call_of demo_final 0)).
Proof.
  split; [by vm_compute|].
  apply (proposals_agree _ _ _ (call_of demo_final 0) (call_of demo_final 0) demo_final_reachable);
    [done|apply (list_elem_of_lookup_2 _ 0)| |apply (list_elem_of_lookup_2 _ 0)|..]; by vm_compute.
Defined.

(** C17: no panic.  No event kills a node of a reachable cluster: the log is
    never indexed out of range, in particular the leader still holds every
    entry it commits. *)
Theorem cluster_never_panics M k c ev :
  reachable M k c -> Z.of_nat k + 1 < 2 ^ 63 -> fire ev c <> Some Panic.
Proof.
  intros Hr Hk Hp. destruct (reachable_sim _ _ _ Hr) as (s & Ha & Hc); [lia|].
  apply ainv_reachable in Ha. pose proof (fire_sim M c s _ Hc Ha Hk ev) as Hsim.
  by rewrite Hp in Hsim.
Qed.

Lemma cluster_never_panics_witness :
  fire (EvPropose "A" "z") demo_final <> Some Panic.
Proof. apply (cluster_never_panics _ _ _ _ demo_final_reachable). by vm_compute. Defined.

(** leaders are append-only.  While a node leads one term, however many
    events happen in between, its log only grows at the end. *)
Theorem leader_append_only M k m c c' i n n' :
  reachable M k c -> nsteps step m c c' -> Z.of_nat (k + m) < 2 ^ 63 ->
  nodes c !! i = Some n -> nodes c' !! i = Some n' ->
  state n = StateLeader -> state n' = StateLeader -> currentTerm n' = currentTerm n ->
  log n `prefix_of` log n'.
Proof.
  intros Hr Hs Hk Hn Hn' Hst Hst' Ht.
  destruct (reachable_run_sim _ _ _ _ _ Hr Hs Hk) as (s & s' & Ha & Ha' & Hh & _ & Hc & Hc').
  pose proof (vi_leader _ _ (ai_vote _ _ Ha) _ _ (ci_lookup _ _ _ _ _ _ Hc Hn) Hst) as H1.
  pose proof (vi_leader _ _ (ai_vote _ _ Ha') _ _ (ci_lookup _ _ _ _ _ _ Hc' Hn') Hst') as H2.
  destruct (hl_llog _ _ Hh _ _ _ H1) as (L & HL & Hp). simpl in *. rewrite Ht in H2. congruence.
Qed.

Lemma leader_append_only_witness :
  log (node_of demo_elected "A") `prefix_of` log (node_of demo_final "A").
Proof.
  by apply (leader_append_only _ _ _ _ _ "A" _ _ demo_elected_reachable demo_final_steps);
    vm_compute.
Defined.

(** one vote per term, and terms never go back.  However many events happen
    in between, a node's term does not decrease, and a vote it has given stands
    as long as its term is the same. *)
Theorem vote_and_term_stable M k m c c' i n n' :
  reachable M k c -> nsteps step m c c' -> Z.of_nat (k + m) < 2 ^ 63 ->
  nodes c !! i = Some n -> nodes c' !! i = Some n' ->
  currentTerm n <= currentTerm n' /\
  (currentTerm n' = currentTerm n -> votedFor n <> "" -> votedFor n' = votedFor n).
Proof.
  intros Hr Hs Hk Hn Hn'.
  destruct (reachable_run_sim _ _ _ _ _ Hr Hs Hk) as (s & s' & Ha & Ha' & Hh & Hss & Hc & Hc').
  pose proof (ci_lookup _ _ _ _ _ _ Hc Hn) as H1. pose proof (ci_lookup _ _ _ _ _ _ Hc' Hn') as H2.
  split.
  - destruct (asteps_term M _ _ _ _ Ha Hss H1) as (m' & Hm' & Hle). simplify_eq. done.
  - intros Ht Hv. assert (Hvote : a_vote (core n) = Some (votedFor n)).
    { simpl. by rewrite bool_decide_eq_false_2. }
    apply (vi_vote _ _ (ai_vote _ _ Ha) _ _ _ H1), (hl_voted _ _ Hh) in Hvote.
    destruct (vi_voted _ _ (ai_vote _ _ Ha') _ _ _ Hvote) as (m' & Hm' & _ & Heq).
    simplify_eq. simpl in Heq. specialize (Heq (eq_sym Ht)).
    destruct (bool_decide_reflect (votedFor n' = "")); congruence.
Qed.

Lemma vote_and_term_stable_witness :
  let n := node_of demo_elected "B" in let n' := node_of demo_final "B" in
  currentTerm n <= currentTerm n' /\
  (currentTerm n' = currentTerm n -> votedFor n <> "" -> votedFor n' = votedFor n).
Proof.
  by apply (vote_and_term_stable _ _ _ _ _ "B" _ _ demo_elected_reachable demo_final_steps);
    vm_compute.
Defined.
