(* ===== verification/RaftBehaviour.v ===== *)
(** * What each Raft operation guarantees on its own

    Complete descriptions of the handlers, of the sequential runs of an
    election and a proposal, of the [Run] loop and of the timers, and the
    bookkeeping of applied entries across a whole cluster. *)

From stdpp Require Import base gmap strings list relations.
From S2P Require Import Prelude RaftNode RaftSpec RaftCluster RaftNodeFacts RaftRefine.
From S2P Require Import RaftSim RaftScenario RaftTheorems.

#[local] Open Scope Z_scope.
#[local] Open Scope go_scope.

(** ** The handlers *)

(** the vote handler.  It grants a vote exactly when the request is not
    from an older term, the candidate's log is at least as up to date as the
    node's, and the node has not voted for another candidate in that term; it
    always answers with the term it ends in, never touches the log or the
    commit state, and without a new term a refusal changes nothing. *)
Theorem HandleRequestVote_spec e n req :
  let '(n', resp) := HandleRequestVote e n req in
  (rvr_VoteGranted resp = true <->
     currentTerm n <= rv_Term req /\
     upToDate (log n) (rv_LastLogIndex req) (rv_LastLogTerm req) /\
     (currentTerm n < rv_Term req \/ votedFor n = "" \/ votedFor n = rv_CandidateID req)) /\
  rvr_Term resp = currentTerm n' /\ currentTerm n' = Z.max (currentTerm n) (rv_Term req) /\
  log n' = log n /\ commitIndex n' = commitIndex n /\ lastApplied n' = lastApplied n /\
  (rvr_VoteGranted resp = true ->
     votedFor n' = rv_CandidateID req /\ is_Some (electionTimer n')) /\
  (rvr_VoteGranted resp = false -> rv_Term req <= currentTerm n -> n' = n).
Proof.
  unfold HandleRequestVote. destruct (Z.ltb_spec (rv_Term req) (currentTerm n)) as [Hlt|Hge].
  { simpl. split_and!; done || lia || naive_solver lia. }
  fold (adopt n (rv_Term req) "").
  assert (Hv : votedFor (adopt n (rv_Term req) "") =
    if currentTerm n <? rv_Term req then "" else votedFor n)
    by (unfold adopt; by destruct (_ <? _)).
  assert (Hsame : rv_Term req <= currentTerm n -> adopt n (rv_Term req) "" = n).
  { intros. unfold adopt. destruct (Z.ltb_spec (currentTerm n) (rv_Term req)); [lia|done]. }
  destruct (adopt_fields n (rv_Term req) "") as (_ & _ & El & Ec & Ea & Et).
  set (n1 := adopt _ _ _) in *. clearbody n1.
  assert (Hup : isLogUpToDate n1 (rv_LastLogIndex req) (rv_LastLogTerm req) = true <->
    upToDate (log n) (rv_LastLogIndex req) (rv_LastLogTerm req)).
  { rewrite isLogUpToDate_spec. by rewrite El. }
  destruct (isLogUpToDate n1 _ _); simpl.
  - destruct ((votedFor n1 =?s "") || (votedFor n1 =?s rv_CandidateID req)) eqn:Hg; simpl.
    + split_and!; try done. split; [|done]. intros _.
      split_and!; [done|by apply Hup|]. rewrite Hv in Hg.
      destruct (Z.ltb_spec (currentTerm n) (rv_Term req)); [by left|right].
      apply orb_true_iff in Hg as [Hg|Hg]; zbool; auto.
    + split_and!; try done. split; [done|]. intros (_ & _ & Hor).
      rewrite Hv in Hg. apply orb_false_iff in Hg as [H1 H2]. zbool.
      destruct (Z.ltb_spec (currentTerm n) (rv_Term req)); [done|]. destruct Hor as [?|[?|?]]; [lia|done..].
  - split_and!; try done. split; [done|]. intros (_ & Hu & _). by apply Hup in Hu.
Qed.

(** C24: the append handler.  On any node whose apply index is not behind its
    commit index it returns (no panic) and keeps that invariant.  It succeeds
    exactly when the request is not from an older term and either carries no
    entries or matches the log at the previous index; on success the log holds
    the request's entries, the commit index follows the leader's up to the end
    of the log, the node is a follower of the sender, and the entries handed to
    the state machine are the segment of the log from the old to the new apply
    index.  On failure only the term can change. *)
Theorem HandleAppendEntries_spec e n req :
  node_inv n -> 0 <= ae_PrevLogIndex req ->
  Z.of_nat (length (log n) + length (ae_Entries req)) < 2 ^ 63 ->
  exists n' resp es, HandleAppendEntries e n req = Ok (n', resp, es) /\ node_inv n' /\
  (aer_Success resp = true <-> currentTerm n <= ae_Term req /\
     (ae_Entries req = [] \/ prevOk (log n) (ae_PrevLogIndex req) (ae_PrevLogTerm req))) /\
  aer_Term resp = currentTerm n' /\ currentTerm n' = Z.max (currentTerm n) (ae_Term req) /\
  es = take (Z.to_nat (lastApplied n' - lastApplied n)) (drop (Z.to_nat (lastApplied n)) (log n')) /\
  if aer_Success resp then
    log n' = putEntries (log n) (Z.to_nat (ae_PrevLogIndex req)) (ae_Entries req) /\
    commitIndex n' = (if commitIndex n <? ae_LeaderCommit req
                      then Z.min (ae_LeaderCommit req) (lastLogIndex n') else commitIndex n) /\
    lastApplied n' = Z.max (lastApplied n) (commitIndex n') /\
    state n' = StateFollower /\ leaderID n' = ae_LeaderID req /\ is_Some (electionTimer n')
  else log n' = log n /\ commitIndex n' = commitIndex n /\ lastApplied n' = lastApplied n.
Proof.
  intros Hinv Hp Hlen. pose proof Hinv as [Hci _].
  destruct (HandleAppendEntries_cases e n req Hinv Hp) as (n' & resp & es & -> & Hcase).
  exists n', resp, es. split; [done|].
  destruct Hcase as [(Hlt & -> & -> & ->)|(Hge & Hcase)]; simpl in *.
  { split_and!; try done; try lia; try by rewrite Z.sub_diag. }
  destruct (adopt_fields n (ae_Term req) (ae_LeaderID req)) as (_ & _ & El & Ec & Ea & Et).
  destruct Hcase as [(Hne & Hno & -> & -> & ->)|(l & Hl & -> & -> & ->)]; simpl.
  { unfold node_inv. rewrite El, Ec, Ea, Et, Z.sub_diag. split_and!; try done; try lia.
    split; [done|]. intros [_ [?|?]]; done. }
  assert (Hll : l = putEntries (log n) (Z.to_nat (ae_PrevLogIndex req)) (ae_Entries req) /\
    Z.of_nat (length l) < 2 ^ 63).
  { destruct Hl as [[-> ->]|(_ & Hok & ->)]; simpl; [split; [done|lia]|]. split; [done|].
    pose proof (prevOk_length _ _ _ Hok).
    pose proof (putEntries_length_le (log n) (Z.to_nat (ae_PrevLogIndex req)) (ae_Entries req)).
    lia. }
  destruct Hll as [Ell Hlen']. unfold accept_commit. rewrite Ec, Ea.
  unfold node_inv, lastLogIndex. simpl. rewrite ?Et, ?Ec, ?Ea.
  split_and!; try done; try lia.
  - unfold accept_commit. rewrite Ec.
    destruct (Z.ltb_spec (commitIndex n) (ae_LeaderCommit req)); lia.
  - split; [|done]. intros _. split; [done|]. destruct Hl as [[? _]|(_ & ? & _)]; auto.
  - f_equal. lia.
Qed.

Lemma HandleAppendEntries_spec_witness :
  let n := set_log (demo_node "B" ["A"; "C"]) [mkEntry 1 "x"] in
  let req := mkAppendReq 2 "A" 1 1 [mkEntry 2 "y"] 1 in
  exists n' resp es, HandleAppendEntries demo_env n req = Ok (n', resp, es) /\ node_inv n' /\
  log n' = [mkEntry 1 "x"; mkEntry 2 "y"] /\ es = [mkEntry 1 "x"].
Proof.
  intros n req.
  destruct (HandleAppendEntries_spec demo_env n req) as (n' & resp & es & H & Hinv & _);
    [split; [simpl; lia|by vm_compute]|done|by vm_compute|].
  exists n', resp, es. split; [done|]. split; [done|]. vm_compute in H. by simplify_eq.
Defined.

(** ** Elections and proposals run to the end *)

(** Votes granted among the responses. *)
Definition grants (resps : list (option RequestVoteResponse)) : Z :=
  Z.of_nat (length (filter (fun r => (rvr_VoteGranted <$> r) = Some true) resps)).

Definition acknowledgements (resps : list (option AppendEntriesResponse)) : Z :=
  Z.of_nat (length (filter (fun r => (aer_Success <$> r) = Some true) resps)).

Lemma grants_cons r resps : grants (r :: resps) =
  (if bool_decide ((rvr_VoteGranted <$> r) = Some true) then 1 else 0) + grants resps.
Proof.
  unfold grants. rewrite filter_cons. case_bool_decide; case_decide; try done; simpl; lia.
Qed.

Lemma acknowledgements_cons r resps : acknowledgements (r :: resps) =
  (if bool_decide ((aer_Success <$> r) = Some true) then 1 else 0) + acknowledgements resps.
Proof.
  unfold acknowledgements. rewrite filter_cons.
  case_bool_decide; case_decide; try done; simpl; lia.
Qed.

Lemma quorum_pos n : 1 <= quorum n /\ (peers n <> [] -> 2 <= quorum n).
Proof.
  unfold quorum. rewrite Z.quot_div_nonneg by lia. destruct (peers n) as [|p ps]; simpl length; [done|].
  assert (1 <= (Z.of_nat (S (length ps)) + 1) / 2) by (apply Z.div_le_lower_bound; lia). lia.
Qed.

Lemma startElection_loop_spec e resps n el :
  state n = StateCandidate -> currentTerm n = el_term el -> leaderID n = "" -> id n <> "" ->
  el_votes el < el_needed el ->
  el_responses el + Z.of_nat (length resps) = Z.of_nat (length (peers n)) ->
  (forall r, Some r ∈ resps -> rvr_Term r <= el_term el) ->
  let n' := startElection_loop e n el resps in
  currentTerm n' = currentTerm n /\ votedFor n' = votedFor n /\ log n' = log n /\
  (state n' = StateLeader <-> el_needed el <= el_votes el + grants resps) /\
  (state n' <> StateLeader -> n' = n) /\ (is_Some (electionTimer n) -> is_Some (electionTimer n')).
Proof.
  revert el. induction resps as [|r resps IH]; intros el Hst Ht Hl Hid Hv Hr Hall; simpl.
  { unfold grants. simpl. split_and!; try done. rewrite Hst. split; [done|lia]. }
  set (resp := match r with Some _ => _ | None => _ end).
  assert (Hterm : rvr_Term resp <= el_term el).
  { subst resp. destruct r; simpl; [apply Hall; set_solver|lia]. }
  assert (Hg : bool_decide ((rvr_VoteGranted <$> r) = Some true) = rvr_VoteGranted resp).
  { subst resp. destruct r as [[t []]|]; done. }
  rewrite grants_cons, Hg. unfold startElection_recv.
  cbn [el_term el_votes el_needed el_responses].
  rewrite (proj2 (Z.ltb_ge _ _)) by lia. rewrite Hst, Ht, Z.eqb_refl. simpl.
  assert (Hgr : 0 <= grants resps) by (unfold grants; lia).
  assert (Hall' : forall r, Some r ∈ resps -> rvr_Term r <= el_term el) by set_solver.
  simpl length in Hr.
  destruct (rvr_VoteGranted resp).
  - destruct (Z.leb_spec (el_needed el) (el_votes el + 1)).
    + unfold becomeLeader. rewrite Hst. simpl. rewrite Hl, bool_decide_eq_false_2 by done.
      simpl. split_and!; try done. split; [lia|done].
    + destruct (Z.ltb_spec (el_responses el + 1) (Z.of_nat (length (peers n)))).
      * destruct (IH (mkElection (el_term el) (el_votes el + 1) (el_needed el) (el_responses el + 1)))
          as (-> & -> & -> & Hiff & ?); [first [done|simpl; lia]..|].
        simpl in Hiff. split_and!; try tauto. rewrite Hiff. lia.
      * destruct resps; [|simpl in *; lia]. unfold grants. simpl. split_and!; try done.
        rewrite Hst. split; [done|lia].
  - destruct (Z.ltb_spec (el_responses el + 1) (Z.of_nat (length (peers n)))).
    + destruct (IH (mkElection (el_term el) (el_votes el) (el_needed el) (el_responses el + 1)))
        as (-> & -> & -> & Hiff & ?); [first [done|simpl; lia]..|].
      simpl in Hiff. by split_and!; try tauto.
    + destruct resps; [|simpl in *; lia]. unfold grants. simpl. split_and!; try done.
      rewrite Hst. split; [done|lia].
Qed.

(** C25: elections are decided by the votes.  Take an election of a node with at least
    one peer that nothing else interrupts.  When every peer answers (or its RPC fails)
    and none is in a later term, the node ends the election in the new term with its
    own vote, its log unchanged and its timer armed; it is the leader exactly if its
    own vote and the votes granted are a quorum, and otherwise stays a candidate. *)
Theorem startElection_decides e n resps :
  id n <> "" -> peers n <> [] -> length resps = length (peers n) ->
  (forall r, Some r ∈ resps -> rvr_Term r <= u64 (currentTerm n + 1)) ->
  let n' := startElection e n resps in
  currentTerm n' = u64 (currentTerm n + 1) /\ votedFor n' = id n /\ log n' = log n /\
  is_Some (electionTimer n') /\
  state n' = if quorum n <=? 1 + grants resps then StateLeader else StateCandidate.
Proof.
  intros Hid Hpe Hlen Hall n'. subst n'. unfold startElection, startElection_enter.
  cbn [peers resetElectionTimer set_electionTimer set_role set_term_vote].
  rewrite take_ge by lia. set (n1 := resetElectionTimer e _). set (el := mkElection _ _ _ _).
  destruct (quorum_pos n) as [_ Hq]. specialize (Hq Hpe).
  destruct (startElection_loop_spec e resps n1 el) as (-> & -> & -> & Hiff & Hnot & Htimer);
    try done; [change (1 < quorum n); lia|simpl; lia|].
  split_and!; try done; [by apply Htimer|].
  change (el_needed el) with (quorum n) in Hiff. simpl in Hiff.
  destruct (Z.leb_spec (quorum n) (1 + grants resps)); [by apply Hiff|].
  rewrite Hnot; [done|]. intros ?%Hiff. lia.
Qed.

Lemma startElection_decides_witness :
  state (startElection demo_env (demo_node "A" ["B"; "C"]) [None; Some (mkVoteResp 1 true)])
    = StateLeader.
Proof.
  rewrite (proj2 (proj2 (proj2 (proj2 (startElection_decides demo_env (demo_node "A" ["B"; "C"])
    [None; Some (mkVoteResp 1 true)] ltac:(done) ltac:(done) ltac:(done)
    ltac:(intros r Hr; assert (r = mkVoteResp 1 true) as -> by set_solver; by vm_compute)))))).
  by vm_compute.
Defined.

Lemma Propose_loop_spec resps n pr acc :
  0 <= commitIndex n -> commitIndex n <= lastApplied n < pr_newIndex pr ->
  pr_newIndex pr = Z.of_nat (length (log n)) ->
  pr_acks pr < pr_needed pr ->
  pr_responses pr + Z.of_nat (length resps) = Z.of_nat (length (peers n)) ->
  (forall r, Some r ∈ resps -> aer_Term r <= entry_Term (pr_entry pr)) ->
  Propose_loop n pr resps acc =
  if pr_needed pr <=? pr_acks pr + acknowledgements resps then
    Ok (set_commit n (pr_newIndex pr) (pr_newIndex pr), None,
        acc ++ drop (Z.to_nat (lastApplied n)) (log n))
  else Ok (n, Some ErrReplicationFailed, acc).
Proof.
  revert pr acc. induction resps as [|r resps IH]; intros pr acc Hc Hla Hidx Ha Hr Hall; simpl.
  { unfold acknowledgements. simpl. simpl in Hr. rewrite (proj2 (Z.leb_gt _ _)) by lia.
    by rewrite (proj2 (Z.ltb_ge _ _)) by lia. }
  set (resp := match r with Some _ => _ | None => _ end).
  assert (Hterm : aer_Term resp <= entry_Term (pr_entry pr)).
  { subst resp. destruct r; simpl; [apply Hall; set_solver|lia]. }
  assert (Hg : bool_decide ((aer_Success <$> r) = Some true) = aer_Success resp).
  { subst resp. destruct r as [[t []]|]; done. }
  rewrite acknowledgements_cons, Hg. unfold Propose_recv.
  cbn [pr_entry pr_prevIndex pr_prevTerm pr_newIndex pr_acks pr_needed pr_responses].
  rewrite (proj2 (Z.ltb_ge _ _)) by lia.
  assert (Hgr : 0 <= acknowledgements resps) by (unfold acknowledgements; lia).
  assert (Hall' : forall r, Some r ∈ resps -> aer_Term r <= entry_Term (pr_entry pr)) by set_solver.
  simpl length in Hr.
  assert (Hnext : forall acks, acks < pr_needed pr ->
    (let! (n, out, es) := Ok (n,
       (if pr_responses pr + 1 <? Z.of_nat (length (peers n)) then
          ProposeWait (mkProposal (pr_entry pr) (pr_prevIndex pr) (pr_prevTerm pr) (pr_newIndex pr)
            acks (pr_needed pr) (pr_responses pr + 1))
        else ProposeReturn (Some ErrReplicationFailed)), []) in
     match out with
     | ProposeWait pr => Propose_loop n pr resps (acc ++ es)
     | ProposeReturn err => Ok (n, err, acc ++ es)
     end) = if pr_needed pr <=? acks + acknowledgements resps then
              Ok (set_commit n (pr_newIndex pr) (pr_newIndex pr), None,
                  acc ++ drop (Z.to_nat (lastApplied n)) (log n))
            else Ok (n, Some ErrReplicationFailed, acc)).
  { intros acks Hacks. simpl.
    destruct (Z.ltb_spec (pr_responses pr + 1) (Z.of_nat (length (peers n)))).
    - rewrite IH by first [done|simpl; lia]. simpl. by rewrite app_nil_r.
    - destruct resps; [|simpl in *; lia]. unfold acknowledgements. simpl.
      rewrite (proj2 (Z.leb_gt _ _)) by lia. by rewrite app_nil_r. }
  destruct (aer_Success resp).
  - rewrite Z.add_assoc. destruct (Z.leb_spec (pr_needed pr) (pr_acks pr + 1)) as [Hq|Hq].
    + rewrite (proj2 (Z.ltb_lt _ _)) by lia.
      destruct (collectCommittedLocked_spec (set_commit n (pr_newIndex pr) (lastApplied n)))
        as (n' & -> & ->); [simpl; lia..|].
      cbn [exec_bind]. rewrite (proj2 (Z.leb_le _ _)) by lia. simpl.
      rewrite Z.max_r by lia. do 3 f_equal.
      apply take_ge. rewrite length_drop. lia.
    + by apply Hnext.
  - rewrite Z.add_0_l. by apply Hnext.
Qed.

(** C26: proposals are decided by the acknowledgements.  On a leader with at least one
    peer, everything it committed applied and nothing beyond its log, when nothing else
    interrupts the call, every peer answers (or its RPC fails)
    and none is in a later term, [Propose] appends the command and returns
    success exactly if the leader and the acknowledging peers are a quorum;
    then everything up to the new entry is committed and the entries not yet
    applied, ending with the command, are handed to the state machine.
    Otherwise it fails with nothing committed, the entry staying in the log. *)
Theorem Propose_decides n command resps :
  state n = StateLeader -> peers n <> [] -> length resps = length (peers n) ->
  0 <= commitIndex n <= lastApplied n -> lastApplied n <= lastLogIndex n ->
  (forall r, Some r ∈ resps -> aer_Term r <= currentTerm n) ->
  let l := log n ++ [mkEntry (currentTerm n) command] in
  let idx := lastLogIndex n + 1 in
  Propose n command resps = Ok
    (if quorum n <=? 1 + acknowledgements resps then
       (set_commit (set_log n l) idx idx, None, drop (Z.to_nat (lastApplied n)) l)
     else (set_log n l, Some ErrReplicationFailed, [])).
Proof.
  intros Hst Hpe Hlen Hci Hla Hall l idx. unfold Propose, Propose_enter.
  rewrite bool_decide_eq_true_2 by done. cbn [negb].
  cbn [peers set_log]. rewrite take_ge by lia. fold l.
  destruct (quorum_pos n) as [_ Hq]. specialize (Hq Hpe). unfold lastLogIndex in *.
  set (pr := mkProposal _ _ _ _ _ _ _).
  assert (Hidx : pr_newIndex pr = Z.of_nat (length l)) by done.
  assert (Hl : Z.of_nat (length l) = idx).
  { subst l idx. rewrite length_app. simpl. lia. }
  rewrite Propose_loop_spec; try done; cbn [lastApplied commitIndex set_log]; try lia.
  - change (pr_needed pr) with (quorum n). change (pr_acks pr) with 1.
    rewrite Hidx, Hl. by destruct (quorum n <=? _).
  - change (1 < quorum n). lia.
  - simpl. lia.
Qed.

Lemma Propose_decides_witness :
  let n := set_role (demo_node "A" ["B"; "C"]) StateLeader "A" in
  Propose n "x" [None; Some (mkAppendResp 0 true)] =
  Ok (set_commit (set_log n [mkEntry 0 "x"]) 1 1, None, [mkEntry 0 "x"]).
Proof.
  intros n. by rewrite (Propose_decides n "x" [None; Some (mkAppendResp 0 true)]);
    [vm_compute|done|done|done|by vm_compute|by vm_compute
    |intros r Hr; assert (r = mkAppendResp 0 true) as -> by set_solver].
Defined.

(** ** Quorums *)

(** [quorum] is the smallest strict majority of the cluster, counting the
    node itself; so any two quorums share a member. *)
Theorem quorum_is_least_majority (M : gset string) i n :
  i ∈ M -> fresh_member M i n ->
  Z.of_nat (size M) < 2 * quorum n /\ 2 * (quorum n - 1) <= Z.of_nat (size M) /\
  forall Q Q' : gset string, Q ⊆ M -> Q' ⊆ M ->
  quorum n <= Z.of_nat (size Q) -> quorum n <= Z.of_nat (size Q') -> exists v, v ∈ Q /\ v ∈ Q'.
Proof.
  intros Hi (cfg & Hcfg & Hid & Hnd & Hpe).
  apply NewNode_fresh in Hcfg as (_ & _ & Hps & _).
  assert (Hsize : size M = S (length (cfg_Peers cfg))).
  { assert (M = {[i]} ∪ list_to_set (cfg_Peers cfg)) as ->.
    { apply set_eq. intros x. rewrite elem_of_union, elem_of_singleton, elem_of_list_to_set, Hpe.
      destruct (decide (x = i)); naive_solver. }
    rewrite size_union, size_singleton, size_list_to_set by
      (try done; intros x; rewrite elem_of_singleton, elem_of_list_to_set, Hpe; naive_solver).
    done. }
  unfold quorum. rewrite Hps, Hsize, Z.quot_div_nonneg by lia.
  pose proof (Z.div_mod (Z.of_nat (length (cfg_Peers cfg)) + 1) 2).
  pose proof (Z.mod_pos_bound (Z.of_nat (length (cfg_Peers cfg)) + 1) 2).
  split_and!; [lia..|]. intros Q Q' HQ HQ' Hq Hq'.
  apply (majority_intersect M); split; try done; rewrite Hsize; lia.
Qed.

Lemma quorum_is_least_majority_witness :
  Z.of_nat (size demo_members) < 2 * quorum (demo_node "A" ["B"; "C"]).
Proof.
  apply (quorum_is_least_majority demo_members "A"); [by unfold demo_members; set_solver|].
  apply demo_initial. by vm_compute.
Defined.

(** the election timeout.  For a validated configuration and a random
    source whose [Int63n d] is in [0, d), every timeout a node draws lies in the
    configured range, strictly below the maximum unless the range is a point. *)
Theorem election_timeout_in_range e cfg n :
  NewNode cfg = inr n -> cfg_ElectionTimeoutMax cfg < 2 ^ 63 ->
  (forall d, 0 < d -> 0 <= Int63n e d < d) ->
  cfg_ElectionTimeoutMin cfg <= nextElectionTimeout e n <= cfg_ElectionTimeoutMax cfg /\
  0 < nextElectionTimeout e n /\
  (cfg_ElectionTimeoutMin cfg < cfg_ElectionTimeoutMax cfg ->
   nextElectionTimeout e n < cfg_ElectionTimeoutMax cfg).
Proof.
  intros Hn Hmax Hrand. unfold NewNode in Hn. split_ifs_in Hn; simplify_eq.
  all: unfold nextElectionTimeout; simpl; (case_match; zbool; [lia|]).
  all: rewrite (i64_id (_ - _)) by lia.
  all: pose proof (Hrand (cfg_ElectionTimeoutMax cfg - cfg_ElectionTimeoutMin cfg)).
  all: rewrite i64_id by lia; lia.
Qed.

Lemma election_timeout_in_range_witness :
  let e := mkEnv 0 (fun d => d - 1) in
  150 <= nextElectionTimeout e (demo_node "A" ["B"]) <= 300.
Proof.
  by apply (election_timeout_in_range (mkEnv 0 (fun d => d - 1)) (demo_cfg "A" ["B"]));
    [|vm_compute|simpl; lia].
Defined.

(** ** The [Run] loop *)

Lemma startElection_loop_timer e resps n el :
  is_Some (electionTimer n) -> is_Some (electionTimer (startElection_loop e n el resps)).
Proof.
  revert n el. induction resps as [|r resps IH]; intros n el Hn; simpl; [done|].
  set (resp := match r with Some _ => _ | None => _ end).
  destruct (startElection_recv e n el resp) as [n' out] eqn:E.
  assert (Hn' : is_Some (electionTimer n')).
  { apply startElection_recv_cases in E as [(_ & -> & _)|(_ & -> & _)]; [by eexists|done]. }
  destruct out; auto. unfold becomeLeader, sendHeartbeats_enter. repeat case_match; simplify_eq; done.
Qed.

Lemma Run_loop_timer evs n :
  is_Some (electionTimer n) ->
  (RunDone ∈ evs -> snd (Run_loop n evs) = Some ErrContext /\ electionTimer (fst (Run_loop n evs)) = None) /\
  (RunDone ∉ evs -> snd (Run_loop n evs) = None /\ is_Some (electionTimer (fst (Run_loop n evs)))).
Proof.
  revert n. induction evs as [|ev evs IH]; intros n Hn; simpl; [split; [set_solver|done]|].
  assert (Hcons : forall n', is_Some (electionTimer n') -> ev <> RunDone ->
    (RunDone ∈ ev :: evs -> snd (Run_loop n' evs) = Some ErrContext /\
       electionTimer (fst (Run_loop n' evs)) = None) /\
    (RunDone ∉ ev :: evs -> snd (Run_loop n' evs) = None /\
       is_Some (electionTimer (fst (Run_loop n' evs))))).
  { intros n' Hn' Hev. destruct (IH n' Hn') as [IH1 IH2].
    split; intros Hin; [apply IH1|apply IH2]; set_solver. }
  destruct ev as [|e resps|e].
  - split; [done|set_solver].
  - unfold onElectionTimeout. case_bool_decide; apply Hcons; try done.
    by apply startElection_loop_timer.
  - apply Hcons; [|done]. unfold sendHeartbeats_enter. by case_match.
Qed.

(** the [Run] loop never loses its election timer.  Whatever the timer,
    the ticker and the peers do, each pass of the loop ends with the timer
    armed, so a node that hears no leader stands for election again; only the
    end of the context stops the timer and the loop, with the context's error. *)
Theorem Run_keeps_timer e n evs :
  (RunDone ∈ evs -> snd (Run e n evs) = Some ErrContext /\ electionTimer (fst (Run e n evs)) = None) /\
  (RunDone ∉ evs -> snd (Run e n evs) = None /\ is_Some (electionTimer (fst (Run e n evs)))).
Proof. apply Run_loop_timer. by eexists. Qed.

(** ** A cluster of one *)

(** a node without peers never becomes leader and can never commit.  Its
    quorum is its own vote, but the vote loop that checks the count runs once
    per peer response; in the same way a proposal is only counted when a peer
    answers. *)
Theorem single_node_never_leads e n resps command acks :
  peers n = [] ->
  quorum n = 1 /\ state (startElection e n resps) = StateCandidate /\
  (state n = StateLeader -> Propose n command acks =
     Ok (set_log n (log n ++ [mkEntry (currentTerm n) command]), Some ErrReplicationFailed, [])).
Proof.
  intros Hpe. split_and!.
  - unfold quorum. by rewrite Hpe.
  - unfold startElection, startElection_enter. simpl. by rewrite Hpe.
  - intros Hst. unfold Propose, Propose_enter. rewrite bool_decide_eq_true_2 by done. simpl.
    rewrite Hpe, take_0. simpl. by rewrite Hpe.
Qed.

Lemma single_node_never_leads_witness :
  state (startElection demo_env (demo_node "A" []) []) = StateCandidate.
Proof. by apply (single_node_never_leads demo_env (demo_node "A" []) [] "x" []). Defined.
