(* ===== verification/RaftApply.v ===== *)
(** * Applying entries

    What each node's state machine is given, across the whole cluster: every log
    position up to [lastApplied] once, and for each the entry its log had there
    when it was collected.  The calls are made after the lock is released, so the
    order is not the log's, and what is handed over need not agree between nodes:
    an execution shows that it does not.  The last theorem follows a node that
    missed one entry: it never gets another one. *)

From stdpp Require Import base gmap strings list relations.
From S2P Require Import Prelude RaftNode RaftSpec RaftSafety RaftCluster RaftNodeFacts.
From S2P Require Import RaftRefine RaftSim RaftScenario RaftTheorems.

#[local] Open Scope Z_scope.
#[local] Open Scope go_scope.

(** What the state machine of [i] was given, with the log positions. *)
Definition handed (c : Cluster) (i : string) : list (nat * LogEntry) := default [] (applied c !! i).
Definition applied_by (c : Cluster) (i : string) : list LogEntry := map snd (handed c i).

(** What the running [applyEntries] of [i] will still hand over. *)
Definition items (b : Batch) : list (nat * LogEntry) :=
  imap (fun k x => (b_start b + k, x)%nat) (b_entries b).
Fixpoint waiting (bs : list Batch) (i : string) : list (nat * LogEntry) :=
  match bs with
  | [] => []
  | b :: bs => (if decide (b_node b = i) then items b else []) ++ waiting bs i
  end.
Definition pending (c : Cluster) (i : string) : list (nat * LogEntry) := waiting (applying c) i.

Lemma items_cons i p x es : items (mkBatch i p (x :: es)) = (p, x) :: items (mkBatch i (S p) es).
Proof.
  unfold items. cbn. rewrite Nat.add_0_r. f_equal. apply imap_ext. intros k y _. cbn. f_equal. lia.
Qed.

Lemma items_fst b : map fst (items b) = seq (b_start b) (length (b_entries b)).
Proof.
  destruct b as [i p es]. revert p. induction es as [|x es IH]; intros p; [done|].
  rewrite items_cons. cbn [map fst]. rewrite IH. done.
Qed.

Lemma items_lookup i p es q x : (q, x) ∈ items (mkBatch i p es) -> exists k, q = (p + k)%nat /\ es !! k = Some x.
Proof. unfold items. intros (k & y & [= -> ->] & ?)%elem_of_lookup_imap. eauto. Qed.

Lemma waiting_app bs bs' i : waiting (bs ++ bs') i = waiting bs i ++ waiting bs' i.
Proof. induction bs as [|b bs IH]; [done|]. cbn. by rewrite IH, app_assoc. Qed.

Lemma waiting_insert bs b i p x es j : bs !! b = Some (mkBatch i p (x :: es)) ->
  waiting bs j ≡ₚ (if decide (i = j) then [(p, x)] else []) ++ waiting (<[b := mkBatch i (S p) es]> bs) j.
Proof.
  revert b. induction bs as [|b0 bs IH]; intros [|b] H; [done..| |]; cbn [waiting list_insert insert] in H |- *.
  - injection H as ->. cbn [b_node]. case_decide; [by rewrite items_cons|done].
  - rewrite (IH _ H). case_decide; solve_Permutation.
Qed.

Lemma pending_with_batch c i start es j : pending (with_batch c i start es) j =
  pending c j ++ if decide (i = j) then items (mkBatch i (Z.to_nat start) es) else [].
Proof.
  unfold pending, with_batch. cbn [applying]. rewrite waiting_app. f_equal.
  case_bool_decide as E; [subst; by case_decide|]. cbn. by rewrite app_nil_r.
Qed.

(** ** What the handlers hand over *)

(** [es] are the entries of the log of [n'] from the apply index of [n] to that of
    [n'], within what [n'] takes for committed. *)
Definition hands_over (n n' : Node) (es : list LogEntry) : Prop :=
  lastApplied n' = lastApplied n + Z.of_nat (length es) /\
  (forall k x, es !! k = Some x -> log n' !! (Z.to_nat (lastApplied n) + k)%nat = Some x) /\
  (es = [] \/ lastApplied n' <= commitIndex n').

Lemma hands_over_nil n n' : lastApplied n' = lastApplied n -> hands_over n n' [].
Proof. intros E. split_and!; [simpl; lia|done|by left]. Qed.

Lemma collect_loop_segment fuel n acc n' es : collect_loop fuel n acc = Ok (n', es) ->
  log n' = log n /\ commitIndex n' = commitIndex n /\ exists seg, es = acc ++ seg /\ hands_over n n' seg.
Proof.
  revert n acc. induction fuel as [|fuel IH]; intros n acc H; simpl in H;
    destruct (Z.ltb_spec (lastApplied n) (commitIndex n)) as [Hlt|_]; simplify_eq;
    try (split_and!; [done..|]; exists []; rewrite app_nil_r; split; [done|by apply hands_over_nil]).
  apply exec_bind_Ok in H as (x & [H0 Hx]%go_index_Ok & H).
  apply IH in H as (El & Ec & seg & -> & Hc & Hl & Hb).
  cbn [log commitIndex lastApplied set_commit] in El, Ec, Hc, Hl. split_and!; [done..|]. exists (x :: seg).
  split; [by rewrite <- app_assoc|]. split_and!; [rewrite Hc; simpl; lia| |].
  - intros [|k] y Hy; [simplify_eq/=; by rewrite Nat.add_0_r, El|].
    cbn in Hy. apply Hl in Hy. rewrite <- Hy. f_equal. lia.
  - right. destruct Hb as [->|Hb]; [|done]. rewrite Hc, Ec. simpl. lia.
Qed.

Lemma collectCommittedLocked_hands n n' es :
  collectCommittedLocked n = Ok (n', es) -> log n' = log n /\ hands_over n n' es.
Proof.
  unfold collectCommittedLocked. destruct (_ <=? _); intros HR.
  - simplify_eq. split; [done|]. by apply hands_over_nil.
  - by apply collect_loop_segment in HR as (? & _ & seg & -> & ?).
Qed.

(** The apply index a segment starts at may be read before the other updates. *)
Lemma hands_over_from m n n' n'' es : hands_over m n' es -> lastApplied m = lastApplied n ->
  lastApplied n'' = lastApplied n' -> commitIndex n'' = commitIndex n' -> log n'' = log n' -> hands_over n n'' es.
Proof. unfold hands_over. by intros H <- -> -> ->. Qed.

Lemma adopt_applied n t l : lastApplied (adopt n t l) = lastApplied n.
Proof. apply adopt_fields. Qed.

Lemma appendEntries_applied n p es n' : appendEntries n p es = Ok n' -> lastApplied n' = lastApplied n.
Proof. unfold appendEntries. intros (l & _ & [= <-])%exec_bind_Ok. done. Qed.

Lemma HandleAppendEntries_hands e n req n' resp es :
  HandleAppendEntries e n req = Ok (n', resp, es) -> hands_over n n' es.
Proof.
  intros HR. unfold HandleAppendEntries in HR. fold (adopt n (ae_Term req) (ae_LeaderID req)) in HR.
  case_match; [simplify_eq/=; by apply hands_over_nil|].
  apply exec_bind_Ok in HR as (ok & _ & HR).
  case_match; [simplify_eq/=; apply hands_over_nil; by rewrite adopt_applied|].
  apply exec_bind_Ok in HR as (n1 & Hn1 & HR).
  assert (E1 : lastApplied n1 = lastApplied n).
  { destruct (negb (bool_decide (ae_Entries req = [])));
      [apply appendEntries_applied in Hn1|simplify_eq]; by rewrite ?Hn1, ?adopt_applied. }
  apply exec_bind_Ok in HR as ([n2 es2] & [El Hc]%collectCommittedLocked_hands & HR).
  simplify_eq/=. eapply hands_over_from; [exact Hc|repeat case_match; exact E1|done..].
Qed.

Lemma Propose_recv_hands n pr resp n' out es :
  Propose_recv n pr resp = Ok (n', out, es) -> hands_over n n' es.
Proof.
  intros HR. unfold Propose_recv in HR. fold (adopt n (aer_Term resp) "") in HR.
  cbn [pr_entry pr_newIndex pr_acks pr_needed pr_responses] in HR.
  case_match; [simplify_eq/=; apply hands_over_nil; by rewrite adopt_applied|].
  case_match; [|simplify_eq/=; by apply hands_over_nil]. case_match; [|simplify_eq/=; by apply hands_over_nil].
  case_match; [|simplify_eq/=; by apply hands_over_nil].
  apply exec_bind_Ok in HR as ([n2 es2] & [El Hc]%collectCommittedLocked_hands & HR).
  simplify_eq/=. by eapply hands_over_from.
Qed.

(** A proposal that waits for more answers has changed and collected nothing. *)
Lemma Propose_recv_wait n pr resp n' out es :
  Propose_recv n pr resp = Ok (n', out, es) ->
  match out with
  | ProposeWait pr' => n' = n /\ es = [] /\ pr_responses pr' = pr_responses pr + 1 /\
                       pr_responses pr' < Z.of_nat (length (peers n))
  | ProposeReturn _ => True
  end.
Proof.
  intros HR. unfold Propose_recv in HR. cbn [pr_entry pr_newIndex pr_acks pr_needed pr_responses] in HR.
  destruct (_ <? aer_Term resp); [by simplify_eq|]. destruct (aer_Success resp).
  - destruct (_ <=? _); [|destruct (Z.ltb_spec (pr_responses pr + 1) (Z.of_nat (length (peers n)))); by simplify_eq/=].
    destruct (_ <? _); [|by simplify_eq]. apply exec_bind_Ok in HR as ([n2 es2] & _ & HR). by simplify_eq.
  - destruct (Z.ltb_spec (pr_responses pr + 1) (Z.of_nat (length (peers n)))); by simplify_eq/=.
Qed.

Lemma HandleRequestVote_applied e n req : lastApplied (fst (HandleRequestVote e n req)) = lastApplied n.
Proof.
  unfold HandleRequestVote. fold (adopt n (rv_Term req) "").
  repeat case_match; simpl; by rewrite ?adopt_applied.
Qed.

Lemma startElection_recv_applied e n el resp :
  lastApplied (fst (startElection_recv e n el resp)) = lastApplied n.
Proof.
  destruct (startElection_recv e n el resp) as [n' out] eqn:E.
  apply startElection_recv_cases in E as [(_ & -> & _)|(_ & -> & _)]; simpl; by rewrite ?adopt_applied.
Qed.

Lemma becomeLeader_applied n : lastApplied (fst (becomeLeader n)) = lastApplied n.
Proof. unfold becomeLeader. by repeat case_match. Qed.

Lemma sendHeartbeats_recv_applied e n term resp :
  lastApplied (sendHeartbeats_recv e n term resp) = lastApplied n.
Proof.
  unfold sendHeartbeats_recv. fold (adopt n (aer_Term resp) "").
  case_match; simpl; by rewrite ?adopt_applied.
Qed.

(** ** Nothing committed is left behind *)

Definition commit_ok (n : Node) : Prop := 0 <= commitIndex n <= lastApplied n.

Lemma collect_loop_commit fuel : forall n acc n' es, collect_loop fuel n acc = Ok (n', es) ->
  commitIndex n - lastApplied n <= Z.of_nat fuel -> commitIndex n' = commitIndex n /\ commitIndex n' <= lastApplied n'.
Proof.
  induction fuel as [|fuel IH]; intros n acc n' es HR Hf; simpl in HR;
    destruct (Z.ltb_spec (lastApplied n) (commitIndex n)); simplify_eq/=; try lia.
  apply exec_bind_Ok in HR as (x & _ & HR). apply IH in HR; [exact HR|cbn; lia].
Qed.

Lemma collectCommittedLocked_commit n n' es :
  collectCommittedLocked n = Ok (n', es) -> commitIndex n' = commitIndex n /\ commitIndex n' <= lastApplied n'.
Proof.
  unfold collectCommittedLocked. destruct (Z.leb_spec (commitIndex n) (lastApplied n)); intros HR; [by simplify_eq|].
  apply collect_loop_commit in HR; [exact HR|lia].
Qed.

Lemma adopt_commit n t l : commit_ok n -> commit_ok (adopt n t l).
Proof. unfold commit_ok. destruct (adopt_fields n t l) as (_ & _ & _ & -> & -> & _). done. Qed.

Lemma HandleAppendEntries_commit e n req n' resp es :
  HandleAppendEntries e n req = Ok (n', resp, es) -> commit_ok n -> commit_ok n'.
Proof.
  intros HR Hn. unfold HandleAppendEntries in HR. fold (adopt n (ae_Term req) (ae_LeaderID req)) in HR.
  case_match; [by simplify_eq|]. apply exec_bind_Ok in HR as (ok & _ & HR).
  case_match; [simplify_eq; by apply adopt_commit|]. apply exec_bind_Ok in HR as (n1 & Hn1 & HR).
  assert (H1 : 0 <= commitIndex n1).
  { pose proof (adopt_commit n (ae_Term req) (ae_LeaderID req) Hn) as [? _].
    destruct (negb (bool_decide (ae_Entries req = []))); [|by simplify_eq].
    unfold appendEntries in Hn1. apply exec_bind_Ok in Hn1 as (l & _ & [= <-]). done. }
  apply exec_bind_Ok in HR as ([n2 es2] & Hc & HR). apply collectCommittedLocked_commit in Hc as [Hc1 Hc2].
  simplify_eq/=. unfold commit_ok. cbn. split; [|exact Hc2]. rewrite Hc1. cbn. repeat case_match; cbn; zbool; unfold lastLogIndex; lia.
Qed.

Lemma Propose_recv_commit n pr resp n' out es :
  Propose_recv n pr resp = Ok (n', out, es) -> commit_ok n -> commit_ok n'.
Proof.
  intros HR Hn. unfold Propose_recv in HR. fold (adopt n (aer_Term resp) "") in HR.
  cbn [pr_entry pr_newIndex pr_acks pr_needed pr_responses] in HR.
  case_match; [simplify_eq; by apply adopt_commit|]. case_match; [|by simplify_eq]. case_match; [|by simplify_eq].
  destruct (Z.ltb_spec (commitIndex n) (pr_newIndex pr)); [|by simplify_eq].
  apply exec_bind_Ok in HR as ([n2 es2] & Hc & HR). apply collectCommittedLocked_commit in Hc as [Hc1 Hc2]. simplify_eq.
  unfold commit_ok in *. cbn in Hc1. lia.
Qed.

Lemma HandleRequestVote_commit e n req : commit_ok n -> commit_ok (fst (HandleRequestVote e n req)).
Proof.
  intros Hn. destruct (HandleRequestVote e n req) as [n' resp] eqn:E.
  apply HandleRequestVote_cases in E as [(_ & -> & _)|(_ & _ & [(_ & ->)|(_ & _ & _ & ->)])]; [done|by apply adopt_commit..].
Qed.

(** ** Every event *)

(** What an event does to one node: it leaves the log and the apply index alone, or
    is one of the three operations that do not; [es] is given to [applyEntries]. *)
Inductive node_effect (c : Cluster) (ev : Event) (i : string) (n n' : Node) (es : list LogEntry) : Prop :=
| effect_quiet : log n' = log n -> lastApplied n' = lastApplied n -> es = [] -> node_effect c ev i n n' es
| effect_append src call req e resp :
    ev = EvDeliverAppend src i call req e -> PAppendReq src i call req ∈ net c ->
    HandleAppendEntries e n req = Ok (n', resp, es) -> node_effect c ev i n n' es
| effect_commit pr resp out : log n' = log n ->
    Propose_recv n pr resp = Ok (n', out, es) -> node_effect c ev i n n' es
| effect_propose cmd pr :
    ev = EvPropose i cmd -> Propose_enter n cmd = inr (n', pr) -> es = [] -> node_effect c ev i n n' es.

Lemma node_effect_hands c ev i n n' es : node_effect c ev i n n' es -> hands_over n n' es.
Proof.
  intros [? ? ->|? ? ? ? ? _ _ H|? ? ? _ H|? ? _ H ->]; [by apply hands_over_nil| | |].
  - by apply HandleAppendEntries_hands in H.
  - by apply Propose_recv_hands in H.
  - apply hands_over_nil. unfold Propose_enter in H. case_match; by simplify_eq.
Qed.

(** What the event adds for node [i] to what was or will be handed over. *)
Definition adds (c c' : Cluster) (i : string) (new : list (nat * LogEntry)) : Prop :=
  handed c' i ++ pending c' i ≡ₚ handed c i ++ pending c i ++ new.

Lemma adds_same c c' i : applied c' = applied c -> applying c' = applying c -> adds c c' i [].
Proof. intros E1 E2. unfold adds, handed, pending. by rewrite E1, E2, app_nil_r. Qed.

Definition effect (ev : Event) (c c' : Cluster) : Prop :=
  dom (nodes c') = dom (nodes c) /\ forall i n, nodes c !! i = Some n -> exists n' es, nodes c' !! i = Some n' /\
  node_effect c ev i n n' es /\ adds c c' i (items (mkBatch i (Z.to_nat (lastApplied n)) es)).

(** Events that replace one node and collect nothing. *)
Lemma effect_local ev c c' i n n' : nodes c !! i = Some n -> nodes c' = <[i := n']> (nodes c) ->
  applied c' = applied c -> applying c' = applying c -> node_effect c ev i n n' [] -> effect ev c c'.
Proof.
  intros Hi Hn Ha Hb He. split; [by rewrite Hn, dom_insert_lookup_L|].
  intros j m Hj. rewrite Hn. destruct (decide (j = i)) as [->|Hne].
  - rewrite Hi in Hj. apply (inj Some) in Hj as ->. exists n', []. rewrite lookup_insert_eq.
    split_and!; [done..|by apply adds_same].
  - exists m, []. rewrite lookup_insert_ne by done. split_and!; [done| |by apply adds_same]. by apply effect_quiet.
Qed.

Lemma effect_same ev c c' : nodes c' = nodes c -> applied c' = applied c -> applying c' = applying c -> effect ev c c'.
Proof.
  intros Hn Ha Hb. split; [by rewrite Hn|]. intros j m Hj. exists m, []. rewrite Hn. split_and!; [done| |by apply adds_same]. by apply effect_quiet.
Qed.

(** Events that replace one node and start an [applyEntries]. *)
Lemma effect_batch ev c c1 c' i n n' es : nodes c !! i = Some n -> nodes c' = <[i := n']> (nodes c) ->
  applied c' = applied c -> applying c1 = applying c ->
  applying c' = applying (with_batch c1 i (lastApplied n) es) ->
  node_effect c ev i n n' es -> effect ev c c'.
Proof.
  intros Hi Hn Ha H1 Hb He. split; [by rewrite Hn, dom_insert_lookup_L|]. intros j m Hj. rewrite Hn.
  assert (Hp : pending c' j = pending c j ++ if decide (i = j)
    then items (mkBatch i (Z.to_nat (lastApplied n)) es) else []).
  { change (waiting (applying c') j = waiting (applying c) j ++ if decide (i = j)
      then items (mkBatch i (Z.to_nat (lastApplied n)) es) else []).
    rewrite Hb, <- H1. apply pending_with_batch. }
  destruct (decide (i = j)) as [<-|Hne].
  - rewrite Hi in Hj. apply (inj Some) in Hj as <-. exists n', es. rewrite lookup_insert_eq.
    split_and!; [done..|]. unfold adds, handed. by rewrite Hp, Ha.
  - exists m, []. rewrite lookup_insert_ne by done. split_and!; [done|by apply effect_quiet|].
    unfold adds, handed. by rewrite Hp, Ha.
Qed.

Lemma effect_apply c b c' : fire_apply c b = Some (Ok c') -> effect (EvApply b) c c'.
Proof.
  unfold fire_apply. destruct (applying c !! b) as [[i p [|x es]]|] eqn:Hb; [done| |done].
  destruct (nodes c !! i); [|done]. intros [= <-]. split; [done|]. intros j m Hj. exists m, [].
  split_and!; [done|by apply effect_quiet|]. unfold adds, handed, pending. cbn [applied applying]. rewrite (waiting_insert _ _ _ _ _ _ j Hb), app_nil_r.
  destruct (decide (i = j)) as [->|Hne]; [by rewrite lookup_insert_eq, (assoc_L (++))|by rewrite lookup_insert_ne].
Qed.

Lemma effect_deliver_append c src dst call req e c' :
  fire_deliver_append c src dst call req e = Some (Ok c') -> effect (EvDeliverAppend src dst call req e) c c'.
Proof.
  unfold fire_deliver_append. destruct (nodes c !! dst) as [n|] eqn:Hn; [|done].
  case_bool_decide as Hin; [|done]. intros [= HR].
  apply exec_bind_Ok in HR as ([[n' resp] es] & HH & [= <-]).
  eapply effect_batch; [exact Hn|done|done| |reflexivity|by eapply effect_append]. done.
Qed.

Lemma Propose_recv_log n pr resp n' out es : Propose_recv n pr resp = Ok (n', out, es) -> log n' = log n.
Proof.
  intros HR. unfold Propose_recv in HR. fold (adopt n (aer_Term resp) "") in HR.
  cbn [pr_entry pr_newIndex pr_acks pr_needed pr_responses] in HR.
  repeat case_match; simplify_eq/=; try done; [apply adopt_fields|].
  apply exec_bind_Ok in HR as ([n2 es2] & [El _]%collectCommittedLocked_hands & HR). by simplify_eq/=.
Qed.

Lemma effect_propose_recv c j p r c' :
  fire_propose_recv c j p r = Some (Ok c') -> effect (EvProposeRecv j p r) c c'.
Proof.
  unfold fire_propose_recv. destruct (proposals c !! j) as [run|]; [|done].
  destruct (nodes c !! prn_node run) as [n|] eqn:Hn; [|done].
  destruct (_ && _); [|done]. intros [= HR].
  apply exec_bind_Ok in HR as ([[n' out] es] & HH & [= <-]).
  eapply effect_batch; [exact Hn|by destruct r|by destruct r| |reflexivity|
    eapply effect_commit; [by eapply Propose_recv_log|exact HH]]. by destruct r.
Qed.

Lemma adopt_log n t l : log (adopt n t l) = log n.
Proof. apply adopt_fields. Qed.

Lemma HandleRequestVote_log e n req : log (fst (HandleRequestVote e n req)) = log n.
Proof. unfold HandleRequestVote. fold (adopt n (rv_Term req) ""). repeat case_match; simpl; by rewrite ?adopt_log. Qed.

Lemma effect_election_recv c i p r e c' :
  fire_election_recv c i p r e = Some (Ok c') -> effect (EvElectionRecv i p r e) c c'.
Proof.
  unfold fire_election_recv. destruct (nodes c !! i) as [n|] eqn:Hn; [|done].
  destruct (elections c !! i) as [er|]; [|done]. destruct (_ && _); [|done].
  set (resp := match r with Some _ => _ | None => _ end).
  destruct (startElection_recv e n (er_el er) resp) as [n' out] eqn:E. intros [= <-].
  eapply effect_local; [exact Hn|by destruct r|by destruct r|by destruct r|].
  apply startElection_recv_cases in E as [(_ & -> & _)|(_ & -> & _)]; apply effect_quiet; try done;
    cbn; by rewrite ?adopt_log, ?adopt_applied.
Qed.

Lemma fire_effect ev c c' : fire ev c = Some (Ok c') -> effect ev c c'.
Proof.
  destruct ev; simpl; eauto using effect_apply, effect_deliver_append, effect_propose_recv, effect_election_recv.
  - unfold fire_timeout, onElectionTimeout. destruct (nodes c !! i) as [n|] eqn:Hn; [|done].
    destruct (elections c !! i); [done|]. case_bool_decide; intros [= <-]; [|case_bool_decide];
      (eapply effect_local; [exact Hn|reflexivity|done..|by apply effect_quiet]).
  - unfold fire_vote_task. repeat case_match; intros [= <-]; by apply effect_same.
  - unfold fire_deliver_vote. destruct (nodes c !! dst) as [n|] eqn:Hn; [|done].
    pose proof (HandleRequestVote_applied e n req). pose proof (HandleRequestVote_log e n req).
    destruct (HandleRequestVote e n req). case_bool_decide; intros [= <-].
    eapply effect_local; [exact Hn|done..|by apply effect_quiet].
  - unfold fire_election_cancel. repeat case_match; intros [= <-]; by apply effect_same.
  - unfold fire_become_leader, becomeLeader. destruct (nodes c !! i) as [n|] eqn:Hn; [|done].
    destruct (elections c !! i) as [er|]; [|done]. destruct (er_promote er); [|done].
    repeat case_match; intros [= <-]; simplify_eq; (eapply effect_local; [exact Hn|done..|by apply effect_quiet]).
  - unfold fire_heartbeat, sendHeartbeats_enter. destruct (nodes c !! i) as [n|] eqn:Hn; [|done].
    destruct (negb _); intros [= <-]; (eapply effect_local; [exact Hn|done..|by apply effect_quiet]).
  - unfold fire_heartbeat_task. repeat case_match; intros [= <-]; by apply effect_same.
  - unfold fire_heartbeat_recv. destruct (nodes c !! i) as [n|] eqn:Hn; [|done].
    case_bool_decide; intros [= <-]. eapply effect_local; [exact Hn|done..|]. apply effect_quiet; [|apply sendHeartbeats_recv_applied|done].
    unfold sendHeartbeats_recv. fold (adopt n (aer_Term resp) ""). case_match; simpl; by rewrite ?adopt_log.
  - unfold fire_propose. destruct (nodes c !! i) as [n|] eqn:Hn; [|done].
    destruct (Propose_enter n command) as [|[n' pr]] eqn:E; intros [= <-]; [by apply effect_same|].
    eapply effect_local; [exact Hn|done..|by eapply effect_propose].
  - unfold fire_propose_task. repeat case_match; intros [= <-]; by apply effect_same.
  - unfold fire_propose_cancel. repeat case_match; intros [= <-]; by apply effect_same.
Qed.

Lemma effect_member ev c c' i : effect ev c c' -> is_Some (nodes c' !! i) <-> is_Some (nodes c !! i).
Proof. intros [Hd _]. by rewrite <- !elem_of_dom, Hd. Qed.

(** Induction along a run. *)
Lemma reachable_ind M (P : nat -> Cluster -> Prop) :
  (forall c, initial M c -> P O c) ->
  (forall k c ev c', reachable M k c -> P k c -> fire ev c = Some (Ok c') -> P (S k) c') ->
  forall k c, reachable M k c -> P k c.
Proof.
  intros H0 HS k. induction k as [|k IH]; intros c (c0 & Hi & Hs).
  - inversion Hs; subst. by apply H0.
  - apply nsteps_inv_r in Hs as (c1 & Hs & ev & Hev). eapply HS; [by exists c0|apply IH; by exists c0|done].
Qed.

Lemma reachable_step M k c ev c' : reachable M k c -> fire ev c = Some (Ok c') -> reachable M (S k) c'.
Proof. intros (c0 & Hi & Hs) Hev. exists c0. split; [done|]. eapply nsteps_r; [done|by exists ev]. Qed.

(** In every reachable state, positions from [0] on, each once. *)
Lemma positions_inv M k c : reachable M k c -> forall i n, nodes c !! i = Some n ->
  0 <= lastApplied n /\ map fst (handed c i ++ pending c i) ≡ₚ seq 0 (Z.to_nat (lastApplied n)).
Proof.
  revert k c. refine (reachable_ind M (fun k c => _) _ _).
  - intros c (_ & Hn & _ & _ & _ & _ & Hb & Ha) i n Hi. destruct (Hn _ _ Hi) as (cfg & Hcfg & _).
    apply NewNode_fresh in Hcfg as (_ & _ & _ & _ & _ & ->). unfold handed, pending. by rewrite Ha, Hb.
  - intros k c ev c' Hr IH Hev i n' Hi'. pose proof (fire_effect _ _ _ Hev) as He.
    destruct (proj1 (effect_member _ _ _ i He) (ex_intro _ _ Hi')) as [n Hi].
    destruct (proj2 He _ _ Hi) as (n1 & es & Hn1 & Hne & Had). rewrite Hi' in Hn1. apply (inj Some) in Hn1 as <-.
    destruct (IH _ _ Hi) as [H0 Hp]. apply node_effect_hands in Hne as (Hla & _).
    split; [lia|]. rewrite Had, !map_app, app_assoc, <- map_app, Hp, items_fst, Hla. cbn [b_start b_entries].
    by rewrite Z2Nat.inj_add, Nat2Z.id, seq_app by lia.
Qed.

(** Where an entry that was or will be handed over comes from. *)
Definition collected_from (M : gset string) (k : nat) (c : Cluster) (i : string) (p : nat) (x : LogEntry) : Prop :=
  exists k1 k2 c1 n1, k = (k1 + k2)%nat /\ reachable M k1 c1 /\ nsteps step k2 c1 c /\
  nodes c1 !! i = Some n1 /\ log n1 !! p = Some x /\ Z.of_nat p < commitIndex n1.

Lemma collected_inv M k c : reachable M k c -> forall i p x,
  (p, x) ∈ handed c i ++ pending c i -> is_Some (nodes c !! i) -> collected_from M k c i p x.
Proof.
  revert k c. refine (reachable_ind M (fun k c => _) _ _).
  - intros c (_ & _ & _ & _ & _ & _ & Hb & Ha) i p x. unfold handed, pending. rewrite Ha, Hb. set_solver.
  - intros k c ev c' Hr IH Hev i p x Hin Hs. pose proof (fire_effect _ _ _ Hev) as He.
    apply (effect_member _ _ _ i He) in Hs as [n Hi]. destruct (proj2 He _ _ Hi) as (n' & es & Hi' & Hne & Had). rewrite Had, app_assoc in Hin.
    apply elem_of_app in Hin as [Hin|(q & -> & Hq)%items_lookup].
    + destruct (IH _ _ _ Hin ltac:(eauto)) as (k1 & k2 & c1 & n1 & -> & ? & ? & ?).
      exists k1, (S k2), c1, n1. split_and!; [lia|done| |naive_solver..]. eapply nsteps_r; [done|by exists ev].
    + pose proof (proj1 (positions_inv _ _ _ Hr _ _ Hi)).
      apply node_effect_hands in Hne as (Hla & Hl & Hc). exists (S k), O, c', n'.
      split_and!; [lia|by eapply reachable_step|constructor|done|by apply Hl|].
      apply lookup_lt_Some in Hq. destruct Hc as [->|Hc]; [simpl in Hq; lia|lia].
Qed.

(** C18: every position is applied once.  In every reachable cluster the positions
    of the entries a node's state machine was given, together with those its
    running [applyEntries] calls still hold, are [0 .. lastApplied - 1], each once;
    and each entry given was, at an earlier point of the run, at that position of
    the node's log and below its commit index. *)
Theorem positions_applied_once M k c i n :
  reachable M k c -> nodes c !! i = Some n ->
  map fst (handed c i ++ pending c i) ≡ₚ seq 0 (Z.to_nat (lastApplied n)) /\
  forall p x, (p, x) ∈ handed c i ->
  exists k1 k2 c1 n1, k = (k1 + k2)%nat /\ reachable M k1 c1 /\ nsteps step k2 c1 c /\
  nodes c1 !! i = Some n1 /\ log n1 !! p = Some x /\ Z.of_nat p < commitIndex n1.
Proof.
  intros Hr Hi. split; [by apply (positions_inv M k)|]. intros p x Hin.
  apply (collected_inv M k c Hr i p x); [|by rewrite Hi]. apply elem_of_app. by left.
Qed.

Lemma positions_applied_once_witness :
  handed stale_final "B" = [(O, mkEntry 2 "y")] /\
  map fst (handed stale_final "B" ++ pending stale_final "B") ≡ₚ seq 0 1.
Proof.
  split; [by vm_compute|].
  apply (positions_applied_once _ _ _ "B" (node_of stale_final "B") stale_final_reachable). by vm_compute.
Defined.

(** C28: state machines can diverge.  There is a reachable three-node cluster in
    which a command was committed by its leader and applied at the first
    position, while another node applied a different command there: a heartbeat
    carries no entries, so the follower raises its commit index without
    comparing its log with the leader's. *)
Theorem heartbeat_commits_unmatched_entry :
  exists M k c run, reachable M k c /\ run ∈ proposals c /\ prn_done run = Some None /\
  pr_entry (prn_pr run) = mkEntry 2 "y" /\ pr_newIndex (prn_pr run) = 1 /\
  applied_by c "B" = [mkEntry 2 "y"] /\ applied_by c "A" = [mkEntry 1 "x"].
Proof.
  exists demo_members, (length stale_events), stale_final, (call_of stale_final 1).
  split; [exact stale_final_reachable|].
  split; [apply (list_elem_of_lookup_2 _ 1)|]; by vm_compute.
Qed.

(** ** A follower that missed an entry *)

(** The event hands call [j]'s append to node [i]. *)
Definition delivers_call (j : nat) (i : string) (ev : Event) : bool :=
  match ev with
  | EvDeliverAppend _ dst (Some j') _ _ => bool_decide (dst = i) && bool_decide (j' = j)
  | _ => false
  end.

(** Node [x] has an empty log, call [j] succeeded ([r0]), every other call has a
    previous entry, and so has every append with entries on its way to [x]. *)
Record left_behind (x : string) (j : nat) (r0 : ProposeRun) (c : Cluster) : Prop := {
  lb_log : exists n, nodes c !! x = Some n /\ log n = [];
  lb_call : proposals c !! j = Some r0;
  lb_prev : forall j' r, proposals c !! j' = Some r -> j' <> j -> 0 < pr_prevIndex (prn_pr r);
  lb_net : forall src call req, PAppendReq src x call req ∈ net c ->
    ae_Entries req = [] \/ call = Some j \/ 0 < ae_PrevLogIndex req }.

(** An append whose previous entry the log does not reach changes no log. *)
Lemma append_beyond_log e n req n' resp es :
  HandleAppendEntries e n req = Ok (n', resp, es) -> log n = [] ->
  ae_Entries req = [] \/ 0 < ae_PrevLogIndex req -> log n' = [].
Proof.
  intros HR Hl Hreq. unfold HandleAppendEntries in HR. fold (adopt n (ae_Term req) (ae_LeaderID req)) in HR.
  case_match; [by simplify_eq|].
  destruct (bool_decide_reflect (ae_Entries req = [])) as [He|He]; cbn [negb andb exec_bind] in HR.
  - apply exec_bind_Ok in HR as ([n2 es2] & [El _]%collectCommittedLocked_hands & HR). simplify_eq/=.
    rewrite El. repeat case_match; cbn; by rewrite adopt_log.
  - destruct Hreq as [|Hp]; [done|]. unfold matchPrevLog, lastLogIndex in HR.
    rewrite (proj2 (Z.eqb_neq _ _)), adopt_log, Hl in HR by lia. cbn [length] in HR.
    rewrite (proj2 (Z.ltb_lt _ _)) in HR by lia. simplify_eq/=. by rewrite adopt_log.
Qed.

(** What an event does to the [Propose] calls. *)
Inductive calls_change (c c' : Cluster) : Prop :=
| calls_same : proposals c' = proposals c -> calls_change c c'
| calls_new i cmd n n' pr ps d : nodes c !! i = Some n -> Propose_enter n cmd = inr (n', pr) ->
    proposals c' = proposals c ++ [mkProposeRun i pr ps d] -> calls_change c c'
| calls_set j r r' : proposals c !! j = Some r -> prn_done r = None ->
    pr_prevIndex (prn_pr r') = pr_prevIndex (prn_pr r) ->
    proposals c' = <[j := r']> (proposals c) -> calls_change c c'.

Lemma Propose_recv_prev n pr resp n' pr' es :
  Propose_recv n pr resp = Ok (n', ProposeWait pr', es) -> pr_prevIndex pr' = pr_prevIndex pr.
Proof.
  intros HR. unfold Propose_recv in HR. cbn [pr_entry pr_newIndex pr_acks pr_needed pr_responses] in HR.
  repeat case_match; simplify_eq/=; try done. by apply exec_bind_Ok in HR as ([? ?] & _ & [=]).
Qed.

Lemma fire_calls ev c c' : fire ev c = Some (Ok c') -> calls_change c c'.
Proof.
  destruct ev; simpl; intros H; try (apply calls_same; revert H;
    unfold fire_timeout, fire_vote_task, fire_deliver_vote, fire_election_recv, fire_election_cancel,
      fire_become_leader, fire_heartbeat, fire_heartbeat_task, fire_heartbeat_recv, fire_propose_task, fire_apply;
    repeat case_match; intros [= <-]; done).
  - apply calls_same. revert H. unfold fire_deliver_append. destruct (nodes c !! dst); [|done].
    case_bool_decide; [|done]. intros [= HR]. by apply exec_bind_Ok in HR as ([[n' ?] ?] & _ & [= <-]).
  - revert H. unfold fire_propose. destruct (nodes c !! i) as [n|] eqn:Hn; [|done].
    destruct (Propose_enter n command) as [|[n' pr]] eqn:E; intros [= <-]; [by apply calls_same|].
    by eapply calls_new.
  - revert H. unfold fire_propose_recv. destruct (proposals c !! j) as [r0|] eqn:Hj; [|done].
    destruct (nodes c !! prn_node r0) as [n|] eqn:Hn; [|done].
    case_bool_decide as Hd; [|done]. cbn [andb]. destruct (_ && _); [|done]. intros [= HR].
    apply exec_bind_Ok in HR as ([[n' out] es] & HH & [= <-]).
    eapply calls_set; [exact Hj|done| |by destruct r].
    destruct out; [by apply Propose_recv_prev in HH|done].
  - revert H. unfold fire_propose_cancel. destruct (proposals c !! j) as [r0|] eqn:Hj; [|done].
    case_bool_decide; intros [= <-]. eapply calls_set; [exact Hj|done| |reflexivity]. done.
Qed.

(** An append request on the wire was there, is a heartbeat, or is its call's. *)
Lemma fire_requests ev c c' src dst call req : fire ev c = Some (Ok c') ->
  PAppendReq src dst call req ∈ net c' ->
  PAppendReq src dst call req ∈ net c \/ ae_Entries req = [] \/
  exists j r, call = Some j /\ proposals c !! j = Some r /\ ae_PrevLogIndex req = pr_prevIndex (prn_pr r).
Proof.
  destruct ev; simpl; intros H Hin; try (left; revert H Hin;
    unfold fire_timeout, fire_vote_task, fire_deliver_vote, fire_election_recv, fire_election_cancel,
      fire_become_leader, fire_heartbeat, fire_heartbeat_recv, fire_propose, fire_propose_cancel, fire_apply;
    repeat case_match; intros [= <-]; simpl; intros Hin; try done;
    repeat (apply elem_of_cons in Hin as [?|Hin]; [done|]); by eauto using elem_of_remove1).
  all: revert H Hin.
  - unfold fire_heartbeat_task. repeat case_match; intros [= <-]. simpl.
    intros [[= -> -> -> ->]|?]%elem_of_cons; [by right; left|by left].
  - unfold fire_deliver_append. destruct (nodes c !! dst0); [|done]. case_bool_decide; [|done]. intros [= HR].
    apply exec_bind_Ok in HR as ([[n' ?] ?] & _ & [= <-]). simpl.
    intros [?|?%elem_of_remove1]%elem_of_cons; [done|by left].
  - unfold fire_propose_task. destruct (proposals c !! j) as [r|] eqn:Hj; [|done]. repeat case_match; intros [= <-]. simpl.
    intros [[= -> -> -> ->]|?]%elem_of_cons; [right; right; by exists j, r|by left].
  - unfold fire_propose_recv. destruct (proposals c !! j) as [r0|]; [|done].
    destruct (nodes c !! prn_node r0) as [n|]; [|done]. destruct (_ && _); [|done]. intros [= HR].
    apply exec_bind_Ok in HR as ([[n' out] es] & _ & [= <-]). simpl. left.
    destruct r; simpl in *; by eauto using elem_of_remove1.
Qed.

Lemma left_behind_step x j r0 c ev c' : left_behind x j r0 c -> prn_done r0 = Some None ->
  (forall i n, nodes c !! i = Some n -> state n = StateLeader -> log n <> []) ->
  fire ev c = Some (Ok c') -> delivers_call j x ev = false -> left_behind x j r0 c'.
Proof.
  intros [(n & Hn & Hl) Hj Hp Hw] Hd Hlead Hev Hdel. split.
  - destruct (proj2 (fire_effect _ _ _ Hev) _ _ Hn) as (n' & es & Hn' & He & _). exists n'. split; [done|].
    destruct He as [-> ? ?|src call req e resp -> Hin HR|? ? ? -> ?|cmd pr -> HP _]; [done| |done|].
    + eapply append_beyond_log; [done..|]. destruct (Hw _ _ _ Hin) as [?|[->|?]]; [by left| |by right].
      cbn in Hdel. by rewrite !bool_decide_eq_true_2 in Hdel.
    + unfold Propose_enter in HP. destruct (bool_decide_reflect (state n = StateLeader)) as [Hs|]; [|done].
      by destruct (Hlead _ _ Hn Hs).
  - destruct (fire_calls _ _ _ Hev) as [->|? ? ? ? ? ? ? _ _ ->|j' r r' Hj' Hdn _ ->]; [done| |].
    + by apply lookup_app_l_Some.
    + rewrite list_lookup_insert_ne; [done|]. intros ->. congruence.
  - intros j' r Hr Hne. destruct (fire_calls _ _ _ Hev) as [E|i cmd m m' pr ps d Hm HP E|j1 r1 r1' Hj1 _ Hpr E];
      rewrite E in Hr; [by eapply Hp| |].
    + apply lookup_app_Some in Hr as [Hr|[_ Hr]]; [by eapply Hp|].
      apply list_lookup_singleton_Some in Hr as [_ <-]. cbn.
      unfold Propose_enter in HP. destruct (bool_decide_reflect (state m = StateLeader)) as [Hs|]; [|done].
      pose proof (Hlead _ _ Hm Hs). simplify_eq/=. unfold lastLogIndex. destruct (log m); [done|simpl; lia].
    + apply list_lookup_insert_Some in Hr as [(-> & -> & _)|[_ Hr]]; [rewrite Hpr; by eapply Hp|by eapply Hp].
  - intros src call req Hin. apply (fire_requests _ _ _ _ _ _ _ Hev) in Hin as [Hin|[?|(j' & r & -> & Hr & ->)]];
      [by eapply Hw|by left|]. destruct (decide (j' = j)) as [->|Hne]; [by right; left|right; right; by eapply Hp].
Qed.

Lemma run_snoc evs ev c c1 c2 : run evs c = Some c1 -> fire ev c1 = Some (Ok c2) -> run (evs ++ [ev]) c = Some c2.
Proof.
  revert c. induction evs as [|e evs IH]; intros c; cbn.
  - intros [= ->] ->. done.
  - destruct (fire e c) as [[c'|]|]; [|done..]. apply IH.
Qed.

(** While call [j] never reaches [x], and no node is behind its term, this goes on. *)
Lemma left_behind_run M k c x j r0 evs c' :
  reachable M k c -> Z.of_nat (k + length evs) < 2 ^ 63 -> left_behind x j r0 c ->
  prn_done r0 = Some None -> pr_newIndex (prn_pr r0) = 1 ->
  (forall i n, nodes c !! i = Some n -> entry_Term (pr_entry (prn_pr r0)) <= currentTerm n) ->
  run evs c = Some c' -> Forall (fun ev => delivers_call j x ev = false) evs -> left_behind x j r0 c'.
Proof.
  intros Hr Hk Hlb Hd Hidx Ht Hrun Hf.
  assert (Hgen : forall pre rest c1, evs = pre ++ rest -> run pre c = Some c1 -> left_behind x j r0 c1 ->
    run rest c1 = Some c' -> left_behind x j r0 c'); [|by eapply (Hgen [] evs c)].
  clear Hlb Hrun. intros pre rest. revert pre. induction rest as [|ev rest IH]; intros pre c1 -> Hpre Hlb Hrest.
  - cbn in Hrest. by apply (inj Some) in Hrest as <-.
  - cbn in Hrest. destruct (fire ev c1) as [[c2|]|] eqn:Hev; [|done..].
    apply (IH (pre ++ [ev]) c2); [by rewrite <- app_assoc|by eapply run_snoc| |done].
    apply Forall_app in Hf as [_ [Hdel _]%Forall_cons].
    eapply left_behind_step; [done..| |done|done]. intros i n Hi Hs.
    apply run_nsteps in Hpre. rewrite length_app in Hk. cbn [length] in Hk.
    destruct (reachable_run_sim M _ _ _ _ Hr Hpre) as (s & s' & Ha & Ha' & _ & Hss & Hc & Hc'); [lia|].
    assert (HiM : i ∈ M) by (rewrite <- (ci_dom _ _ _ _ Hc'); by eapply elem_of_dom_2).
    destruct (ci_member _ _ _ _ _ Hc HiM) as [n0 Hn0].
    destruct (asteps_term M s s' i (core n0) Ha Hss (ci_lookup _ _ _ _ _ _ Hc Hn0)) as (a & Ha1 & Hle).
    rewrite (ci_lookup _ _ _ _ _ _ Hc' Hi) in Ha1. apply (inj Some) in Ha1 as <-. cbn in Hle.
    pose proof (Ht _ _ Hn0). pose proof (chosen_in_leader M _ _ _ r0 i n Hc' Ha'
      (list_elem_of_lookup_2 _ _ _ (lb_call _ _ _ _ Hlb)) Hd Hi Hs ltac:(lia)) as Hx.
    intros E. by rewrite E, lookup_nil in Hx.
Qed.

Lemma gap_terms i n : nodes gap_final !! i = Some n -> 1 <= currentTerm n.
Proof.
  intros Hi%elem_of_map_to_list.
  assert (H : Forall (fun p => 1 <= currentTerm (snd p)) (map_to_list (nodes gap_final))).
  { apply (bool_decide_unpack _). by vm_compute. }
  by apply (proj1 (Forall_forall _ _) H) in Hi.
Qed.

Lemma gap_left_behind : left_behind "C" 0 (call_of gap_final 0) gap_final.
Proof.
  split.
  - exists (node_of gap_final "C"). by vm_compute.
  - by vm_compute.
  - assert (E : proposals gap_final = [call_of gap_final 0; call_of gap_final 1]) by (by vm_compute).
    assert (H1 : 0 < pr_prevIndex (prn_pr (call_of gap_final 1))) by (by vm_compute).
    rewrite E. clear E. revert H1. generalize (call_of gap_final 0), (call_of gap_final 1). intros r0 r1 H1 [|[|j]] r Hr Hne;
      [done| |done]. by simplify_eq/=.
  - assert (E : net gap_final =
      [PAppendResp "C" "A" (Some 1%nat) 1 (mkAppendResp 1 false)]) by (by vm_compute).
    rewrite E. clear E. intros src call req Hin. by apply list_elem_of_singleton in Hin.
Qed.

(** C29: a follower that missed an entry is never repaired.  In a reachable cluster
    a command was committed at index 1, [C] missed its append and refused the next
    one.  In every continuation of the run, whatever is proposed, sent, lost and
    elected, as long as that first append never arrives, the log of [C] stays
    empty: no leader ever sends the missing entry again. *)
Theorem missed_entry_is_not_resent :
  exists M k c r0, reachable M k c /\
  (proposals c !! 0%nat = Some r0 /\ prn_done r0 = Some None /\ pr_newIndex (prn_pr r0) = 1) /\
  PAppendResp "C" "A" (Some 1%nat) 1 (mkAppendResp 1 false) ∈ net c /\
  forall evs c', run evs c = Some c' -> Z.of_nat (k + length evs) < 2 ^ 63 ->
  Forall (fun ev => delivers_call 0 "C" ev = false) evs ->
  exists n, nodes c' !! "C" = Some n /\ log n = [].
Proof.
  exists demo_members, (length gap_events), gap_final, (call_of gap_final 0).
  split; [exact gap_final_reachable|]. split; [by vm_compute|].
  split; [apply (list_elem_of_lookup_2 _ 0); by vm_compute|].
  intros evs c' Hrun Hk Hf. apply (lb_log "C" 0 (call_of gap_final 0)).
  eapply left_behind_run; [exact gap_final_reachable|done|exact gap_left_behind|by vm_compute..| |done|done].
  intros i n Hi. apply gap_terms in Hi. done.
Qed.

(** One such continuation: the next command's append reaches [C] and is refused. *)
Example gap_continues :
  (if run [EvPropose "A" "z"; EvProposeTask 2 "C";
           EvDeliverAppend "A" "C" (Some 2%nat) (mkAppendReq 1 "A" 2 1 [mkEntry 1 "z"] 1) demo_env;
           EvProposeRecv 2 "C" (Some (mkAppendResp 1 false))] gap_final
   is Some c then bool_decide (log (node_of c "C") = []) else false) = true.
Proof. by vm_compute. Qed.
