(* ===== verification/RaftTransport.v ===== *)
(** * The in-process Raft transport (src/pkg/raft/transport.go)

    [MemoryTransport] maps node IDs to pointers; the nodes themselves live in a
    heap that the transport's callers and the nodes share, so a routed RPC
    changes the node every holder of the pointer sees. *)

From stdpp Require Import base gmap strings list.
From S2P Require Import Prelude RaftNode RaftNodeFacts RaftSpec RaftScenario.

#[local] Open Scope Z_scope.
#[local] Open Scope go_scope.

Notation loc := positive.
Notation Heap := (gmap loc Node).

Record MemoryTransport : Type := mkTransport { mt_nodes : gmap string loc }.

Inductive TransportError : Type :=
| RegisterInvalid                       (* register node: ErrInvalidConfig *)
| UnknownTarget (targetID : string).

Definition NewMemoryTransport : MemoryTransport := mkTransport ∅.

(** [Register]; [None] is a nil pointer. *)
Definition Register (h : Heap) (t : MemoryTransport) (node : option loc)
  : TransportError + MemoryTransport :=
  match node with
  | None => inl RegisterInvalid
  | Some l =>
      match h !! l with
      | None => inl RegisterInvalid
      | Some n => if id n =?s "" then inl RegisterInvalid
                  else inr (mkTransport (<[id n := l]> (mt_nodes t)))
      end
  end.

Definition Unregister (t : MemoryTransport) (nodeID : string) : MemoryTransport :=
  mkTransport (delete nodeID (mt_nodes t)).

Definition lookup (t : MemoryTransport) (targetID : string) : TransportError + loc :=
  match mt_nodes t !! targetID with
  | Some l => inr l
  | None => inl (UnknownTarget targetID)
  end.

(** The RPCs: the heap after the call and the response or error. *)
Definition RequestVote (e : Env) (h : Heap) (t : MemoryTransport) (targetID : string)
    (req : RequestVoteRequest) : Heap * (TransportError + RequestVoteResponse) :=
  match lookup t targetID with
  | inl err => (h, inl err)
  | inr l =>
      match h !! l with
      | Some n => let '(n, resp) := HandleRequestVote e n req in (<[l := n]> h, inr resp)
      | None => (h, inl (UnknownTarget targetID))
      end
  end.

Definition AppendEntries (e : Env) (h : Heap) (t : MemoryTransport) (targetID : string)
    (req : AppendEntriesRequest) : exec (Heap * (TransportError + AppendEntriesResponse)) :=
  match lookup t targetID with
  | inl err => Ok (h, inl err)
  | inr l =>
      match h !! l with
      | Some n => let! (n, resp, _) := HandleAppendEntries e n req in Ok (<[l := n]> h, inr resp)
      | None => Ok (h, inl (UnknownTarget targetID))
      end
  end.

(** Every pointer of the table is to a live node of that ID. *)
Definition transport_inv (h : Heap) (t : MemoryTransport) : Prop :=
  forall i l, mt_nodes t !! i = Some l -> exists n, h !! l = Some n /\ id n = i /\ i <> "".

Lemma HandleRequestVote_id e n req : id (fst (HandleRequestVote e n req)) = id n.
Proof. unfold HandleRequestVote, stepDownLocked. by repeat case_match. Qed.

Lemma transport_inv_update h t l n n' :
  transport_inv h t -> h !! l = Some n -> id n' = id n -> transport_inv (<[l := n']> h) t.
Proof.
  intros Hinv Hl Hid i l' Hi. destruct (Hinv _ _ Hi) as (m & Hm & Hmi & Hne).
  destruct (decide (l = l')) as [->|].
  - exists n'. rewrite lookup_insert_eq. simplify_eq. by rewrite Hid.
  - exists m. by rewrite lookup_insert_ne.
Qed.

(** the transport routes by ID.  The table stays consistent under every
    operation; a registered node is the one its RPCs reach, with exactly the
    handler's effect on that node and none on any other; after [Unregister], and
    for any unknown ID, an RPC is an error that changes nothing. *)
Theorem MemoryTransport_routes e h t l n req :
  transport_inv h t -> h !! l = Some n -> id n <> "" ->
  exists t', Register h t (Some l) = inr t' /\ transport_inv h t' /\
  RequestVote e h t' (id n) req =
    (<[l := fst (HandleRequestVote e n req)]> h, inr (snd (HandleRequestVote e n req))) /\
  transport_inv (fst (RequestVote e h t' (id n) req)) t' /\
  transport_inv h (Unregister t' (id n)) /\
  RequestVote e h (Unregister t' (id n)) (id n) req = (h, inl (UnknownTarget (id n))) /\
  (forall j, j <> id n -> lookup (Unregister t' (id n)) j = lookup t j).
Proof.
  intros Hinv Hl Hne. unfold Register. rewrite Hl, bool_decide_eq_false_2 by done.
  eexists. split; [done|].
  assert (Hinv' : transport_inv h (mkTransport (<[id n:=l]> (mt_nodes t)))).
  { intros i l' Hi. simpl in Hi. apply lookup_insert_Some in Hi as [[<- <-]|[_ Hi]]; eauto. }
  assert (HR : RequestVote e h (mkTransport (<[id n:=l]> (mt_nodes t))) (id n) req =
    (<[l := fst (HandleRequestVote e n req)]> h, inr (snd (HandleRequestVote e n req)))).
  { unfold RequestVote, lookup. simpl. rewrite lookup_insert_eq, Hl.
    by destruct (HandleRequestVote e n req). }
  split_and!; try done.
  - rewrite HR. eapply transport_inv_update; [done|done|]. apply HandleRequestVote_id.
  - intros i l' Hi. simpl in Hi. apply lookup_delete_Some in Hi as [_ Hi]. by apply Hinv'.
  - unfold RequestVote, lookup. simpl. by rewrite lookup_delete_eq.
  - intros j Hj. unfold lookup. simpl. by rewrite lookup_delete_ne, lookup_insert_ne.
Qed.

Lemma MemoryTransport_routes_witness :
  let h : Heap := {[ 1%positive := demo_node "B" ["A"] ]} in
  exists t', Register h NewMemoryTransport (Some 1%positive) = inr t' /\
  snd (RequestVote demo_env h t' "B" (mkVoteReq 1 "A" 0 0)) = inr (mkVoteResp 1 true).
Proof.
  intros h.
  destruct (MemoryTransport_routes demo_env h NewMemoryTransport 1 (demo_node "B" ["A"])
    (mkVoteReq 1 "A" 0 0)) as (t' & Ht & _ & HR & _); [done|done|done|].
  exists t'. split; [done|]. change "B" with (id (demo_node "B" ["A"])). by rewrite HR.
Defined.
