(* ===== verification/RaftTimer.v ===== *)
(** * The election timer (src/pkg/raft/node.go)

    [RaftNode] keeps the duration the timer is armed with.  Here is what the code
    does: a [time.Timer] with its channel, which may hold a tick nobody received, and
    the stop-drain-reset sequence of [resetTimer].  A timer that expires is off before
    its tick is sent.  As long as no reset or stop comes between the two, the timer
    behaves as the field of [RaftNode] says and no tick of an earlier arming is
    received; a reset in between is followed by the old tick, which the last example
    shows.  The cluster model lets the timeout fire at any time, so its theorems do
    not depend on this. *)

From stdpp Require Import base strings list.
From S2P Require Import Prelude RaftNode.

#[local] Open Scope Z_scope.

(** [time.Timer]: what it is armed with, how many expiries have not sent their tick
    yet, and whether its channel (of one element) holds a tick. *)
Record Timer : Type := mkTimer { armed : option Z; sending : nat; tick : bool }.

Definition NewTimer (d : Z) : Timer := mkTimer (Some d) 0 false.

(** [Stop] says whether it stopped the timer; it does not empty the channel. *)
Definition Stop (t : Timer) : Timer * bool :=
  (mkTimer None (sending t) (tick t), match armed t with Some _ => true | None => false end).

Definition Reset (t : Timer) (d : Z) : Timer := mkTimer (Some d) (sending t) (tick t).

(** [select { case <-timer.C: default: }]. *)
Definition drain (t : Timer) : Timer := mkTimer (armed t) (sending t) false.

(** The time has come: the runtime takes the timer out of its heap, so that [Stop]
    answers false, and then calls [sendTime], which drops the tick if the channel is
    full. *)
Definition expire (t : Timer) : Timer :=
  match armed t with Some _ => mkTimer None (S (sending t)) (tick t) | None => t end.
Definition sendTime (t : Timer) : Timer :=
  match sending t with S k => mkTimer (armed t) k true | O => t end.

Definition resetTimer (t : Timer) (d : Z) : Timer :=
  let '(t, stopped) := Stop t in
  let t := if stopped then t else drain t in
  Reset t d.

(** The methods, on the pointer in the node. *)
Definition resetElectionTimer_ptr (next : Z) (p : option Timer) : option Timer :=
  Some (match p with None => NewTimer next | Some t => resetTimer t next end).

Definition stopElectionTimer_ptr (p : option Timer) : option Timer :=
  t ← p; let '(t, stopped) := Stop t in Some (if stopped then t else drain t).

(** [case <-n.electionTimer.C]: [None] if nothing can be received. *)
Definition receive (p : option Timer) : option (option Timer) :=
  t ← p; if tick t then Some (Some (drain t)) else None.

(** ** What the timer is meant to be *)

Inductive TimerSpec : Type := TimerOff | TimerRunning (d : Z) | TimerExpired | TimerFired.

(** The field of [RaftNode]. *)
Definition spec_field (s : TimerSpec) : option Z := match s with TimerRunning d => Some d | _ => None end.

Inductive TimerOp : Type := OpReset (next : Z) | OpStop | OpExpire | OpSend | OpReceive.

(** An operation of the code, and the same operation of the specification; a receive
    may be impossible. *)
Definition timer_op (o : TimerOp) (p : option Timer) : option (option Timer) :=
  match o with
  | OpReset d => Some (resetElectionTimer_ptr d p)
  | OpStop => Some (stopElectionTimer_ptr p)
  | OpExpire => Some (expire <$> p)
  | OpSend => Some (sendTime <$> p)
  | OpReceive => receive p
  end.

Definition spec_op (o : TimerOp) (s : TimerSpec) : option TimerSpec :=
  match o with
  | OpReset d => Some (TimerRunning d)
  | OpStop => Some TimerOff
  | OpExpire => Some (match s with TimerRunning _ => TimerExpired | _ => s end)
  | OpSend => Some (match s with TimerExpired => TimerFired | _ => s end)
  | OpReceive => match s with TimerFired => Some TimerOff | _ => None end
  end.

Fixpoint timer_run (os : list TimerOp) (p : option Timer) : option (option Timer) :=
  match os with [] => Some p | o :: os => p ← timer_op o p; timer_run os p end.
Fixpoint spec_run (os : list TimerOp) (s : TimerSpec) : option TimerSpec :=
  match os with [] => Some s | o :: os => s ← spec_op o s; spec_run os s end.

(** No tick is on its way when the timer is reset or stopped. *)
Definition settled (p : option Timer) : bool :=
  match p with Some t => bool_decide (sending t = 0%nat) | None => true end.
Definition op_settled (o : TimerOp) (p : option Timer) : bool :=
  match o with OpReset _ | OpStop => settled p | _ => true end.
Fixpoint run_settled (os : list TimerOp) (p : option Timer) : bool :=
  match os with
  | [] => true
  | o :: os => op_settled o p && match timer_op o p with Some p => run_settled os p | None => true end
  end.

(** The timer of the code in a state of the specification. *)
Definition timer_refines (p : option Timer) (s : TimerSpec) : Prop :=
  match s with
  | TimerOff => p = None \/ p = Some (mkTimer None 0 false)
  | TimerRunning d => p = Some (mkTimer (Some d) 0 false)
  | TimerExpired => p = Some (mkTimer None 1 false)
  | TimerFired => p = Some (mkTimer None 0 true)
  end.

Lemma timer_op_refines o p s : timer_refines p s -> op_settled o p = true ->
  match timer_op o p, spec_op o s with
  | Some p', Some s' => timer_refines p' s'
  | None, None => True
  | _, _ => False
  end.
Proof.
  intros Hr. destruct s as [|d| |], o as [d'| | | |]; cbn in Hr; try destruct Hr as [Hr|Hr]; subst p; cbn; by auto.
Qed.

Lemma receive_fired p s : timer_refines p s -> is_Some (receive p) <-> s = TimerFired.
Proof.
  intros Hr. pose proof (timer_op_refines OpReceive p s Hr eq_refl) as Ho. cbn [timer_op] in Ho.
  destruct (receive p) as [p'|], s; cbn in Ho; by split; [try (by intros [? ?])|eauto].
Qed.

Lemma timer_run_refines os : forall p s, timer_refines p s -> run_settled os p = true ->
  match timer_run os p, spec_run os s with
  | Some p', Some s' => timer_refines p' s'
  | None, None => True
  | _, _ => False
  end.
Proof.
  induction os as [|o os IH]; intros p s Hr; cbn [timer_run spec_run run_settled]; [done|].
  intros [H1 H2]%andb_prop. pose proof (timer_op_refines o p s Hr H1) as Ho.
  destruct (timer_op o p) as [p'|], (spec_op o s) as [s'|]; try done. by apply IH.
Qed.

(** C27: the election timer does what the model assumes.  Take any sequence of resets,
    stops, expiries, sends of the expired timer's tick and receives in which no reset
    or stop falls between an expiry and its send.  It is possible for the timer of
    the code exactly if it is for the specification, and leaves it in the
    corresponding state; the tick can be received exactly after the send that follows
    an expiry of the last arming, so none of an earlier arming is taken for a timeout;
    and a reset or stop that then finds no send under way leaves the timer armed with
    the drawn timeout, or off, with nothing to receive, as the field of the node model
    says. *)
Theorem election_timer_refines os e n :
  run_settled os None = true ->
  match timer_run os None, spec_run os TimerOff with
  | Some p, Some s =>
      timer_refines p s /\ (is_Some (receive p) <-> s = TimerFired) /\
      (settled p = true ->
       receive (resetElectionTimer_ptr (nextElectionTimeout e n) p) = None /\
       timer_refines (resetElectionTimer_ptr (nextElectionTimeout e n) p) (TimerRunning (nextElectionTimeout e n)) /\
       electionTimer (resetElectionTimer e n) = spec_field (TimerRunning (nextElectionTimeout e n)) /\
       timer_refines (stopElectionTimer_ptr p) TimerOff /\ electionTimer (stopElectionTimer n) = spec_field TimerOff)
  | None, None => True
  | _, _ => False
  end.
Proof.
  intros Hs. pose proof (timer_run_refines os None TimerOff (or_introl eq_refl) Hs) as H.
  destruct (timer_run os None) as [p|], (spec_run os TimerOff) as [s|]; try done.
  split; [exact H|]. split; [by apply receive_fired|]. intros Hp.
  pose proof (timer_op_refines (OpReset (nextElectionTimeout e n)) p s H Hp) as H1.
  pose proof (timer_op_refines OpStop p s H Hp) as H2. cbn [timer_op spec_op] in H1, H2.
  split; [|done]. cbn [timer_refines] in H1. by rewrite H1.
Qed.

(** A reset, an expiry whose tick nobody received, another reset: the tick is gone. *)
Lemma election_timer_refines_witness :
  run_settled [OpReset 5; OpExpire; OpSend; OpReset 7] None = true /\
  exists p, timer_run [OpReset 5; OpExpire; OpSend; OpReset 7] None = Some p /\
  timer_refines p (TimerRunning 7) /\ (is_Some (receive p) <-> TimerRunning 7 = TimerFired).
Proof.
  split; [reflexivity|]. eexists. split; [reflexivity|].
  pose proof (election_timer_refines [OpReset 5; OpExpire; OpSend; OpReset 7] (mkEnv 0 (fun _ => 0))
    (mkNode "A" [] 0 "" "" StateFollower [] 0 0 0 150 300 50 defaultRPCTimeout None) eq_refl) as (H1 & H2 & _).
  by split.
Defined.

(** Draining matters: a timer that has expired and is reset without it still holds
    the old tick. *)
Example reset_without_drain : receive (Some (Reset (sendTime (expire (NewTimer 5))) 7)) <> None /\
  receive (Some (resetTimer (sendTime (expire (NewTimer 5))) 7)) = None.
Proof. done. Qed.

(** And it is not enough when the reset comes between the expiry and its send: the
    timer is freshly armed, and a tick of its earlier arming is received. *)
Example reset_before_send :
  timer_run [OpReset 5; OpExpire; OpReset 7; OpSend] None = Some (Some (mkTimer (Some 7) 0 true)) /\
  timer_run [OpReset 5; OpExpire; OpReset 7; OpSend; OpReceive] None = Some (Some (mkTimer (Some 7) 0 false)).
Proof. done. Qed.
