(* ===== verification/GoBytes.v ===== *)
(** * Go strings, bytes and the library functions the program calls on them

    A Go string is a sequence of bytes: [string] here, a list of bytes [0..255]
    when a function works on bytes.  The definitions are the parts of
    [strings], [encoding/hex], [encoding/binary] and [crypto/sha256] that the
    program uses, executable. *)

From Stdlib Require Import Ascii String.
From stdpp Require Import base strings list.
From S2P Require Import Prelude.

#[local] Open Scope Z_scope.
#[local] Open Scope go_scope.

Definition is_byte (b : Z) : Prop := 0 <= b < 256.
#[export] Instance is_byte_dec b : Decision (is_byte b).
Proof. unfold is_byte. apply _. Defined.

Definition byte_of_ascii (a : ascii) : Z := Z.of_N (N_of_ascii a).
Definition ascii_of_byte (b : Z) : ascii := ascii_of_N (Z.to_N b).

(** [[]byte(s)] and [string(b)]. *)
Definition bytes_of (s : string) : list Z := map byte_of_ascii (list_ascii_of_string s).
Definition string_of (l : list Z) : string := string_of_list_ascii (map ascii_of_byte l).

Lemma byte_of_ascii_range a : is_byte (byte_of_ascii a).
Proof.
  unfold is_byte, byte_of_ascii. pose proof (N_ascii_bounded a). lia.
Qed.

Lemma ascii_byte a : ascii_of_byte (byte_of_ascii a) = a.
Proof. unfold ascii_of_byte, byte_of_ascii. by rewrite N2Z.id, ascii_N_embedding. Qed.

Lemma byte_ascii b : is_byte b -> byte_of_ascii (ascii_of_byte b) = b.
Proof.
  unfold is_byte, ascii_of_byte, byte_of_ascii. intros Hb. rewrite N_ascii_embedding; lia.
Qed.

Lemma bytes_of_range s : Forall is_byte (bytes_of s).
Proof. unfold bytes_of. apply Forall_map, Forall_forall. intros a _. apply byte_of_ascii_range. Qed.

Lemma string_bytes s : string_of (bytes_of s) = s.
Proof.
  unfold string_of, bytes_of. rewrite map_map.
  rewrite <- (string_of_list_ascii_of_string s) at 2. f_equal.
  rewrite <- map_id. apply map_ext. intros a. apply ascii_byte.
Qed.

Lemma bytes_string l : Forall is_byte l -> bytes_of (string_of l) = l.
Proof.
  intros Hl. unfold string_of, bytes_of. rewrite list_ascii_of_string_of_list_ascii, map_map.
  induction Hl as [|b l Hb Hl IH]; simpl; [done|]. by rewrite byte_ascii, IH.
Qed.

Lemma string_of_inj l l' : Forall is_byte l -> Forall is_byte l' ->
  string_of l = string_of l' -> l = l'.
Proof. intros H H' E. rewrite <- (bytes_string l), <- (bytes_string l') by done. by rewrite E. Qed.

(** [len(s)]. *)
Definition go_len (s : string) : Z := Z.of_nat (length (bytes_of s)).

(** ** [strings.TrimSpace] and [strings.TrimPrefix] *)

(** The UTF-8 encodings of the Unicode white space characters.  No encoding is
    a proper prefix or suffix of another character's, so comparing bytes at the
    ends of the string decides what [utf8.DecodeRune] and [DecodeLastRune] do. *)
Definition space_encodings : list (list Z) :=
  [[9]; [10]; [11]; [12]; [13]; [32]; [194; 133]; [194; 160]; [225; 154; 128]] ++
  map (fun x => [226; 128; x]) [128; 129; 130; 131; 132; 133; 134; 135; 136; 137; 138; 168; 169; 175] ++
  [[226; 129; 159]; [227; 128; 128]].

Fixpoint strip_prefix (p l : list Z) : option (list Z) :=
  match p, l with
  | [], _ => Some l
  | x :: p, y :: l => if x =? y then strip_prefix p l else None
  | _ :: _, [] => None
  end.

(** Drop one of the encodings from the front. *)
Fixpoint strip_any (ps : list (list Z)) (l : list Z) : option (list Z) :=
  match ps with
  | [] => None
  | p :: ps => match strip_prefix p l with Some l' => Some l' | None => strip_any ps l end
  end.

(** One byte goes per round at least, so the length is enough fuel. *)
Fixpoint trim_front (ps : list (list Z)) (fuel : nat) (l : list Z) : list Z :=
  match fuel with
  | O => l
  | S fuel => match strip_any ps l with Some l' => trim_front ps fuel l' | None => l end
  end.

Definition TrimSpace (s : string) : string :=
  let l := trim_front space_encodings (length (bytes_of s)) (bytes_of s) in
  string_of (reverse (trim_front (map reverse space_encodings) (length l) (reverse l))).

Definition TrimPrefix (s prefix : string) : string :=
  match strip_prefix (bytes_of prefix) (bytes_of s) with
  | Some l => string_of l
  | None => s
  end.

(** A visible ASCII character starts and ends no white space encoding. *)
Definition visible (b : Z) : Prop := 33 <= b < 127.

Lemma strip_any_visible ps b l :
  visible b -> Forall (fun p => exists x q, p = x :: q /\ ~ visible x) ps -> strip_any ps (b :: l) = None.
Proof.
  intros Hb. induction 1 as [|p ps (x & q & -> & Hx) Hps IH]; simpl; [done|].
  destruct (Z.eqb_spec x b); [congruence|done].
Qed.

Lemma trim_front_visible ps fuel l :
  Forall (fun p => exists x q, p = x :: q /\ ~ visible x) ps ->
  match l with [] => True | b :: _ => visible b end -> trim_front ps fuel l = l.
Proof.
  intros Hps Hl. destruct fuel; [done|]. simpl. destruct l as [|b l].
  - assert (strip_any ps [] = None) as ->; [|done].
    induction Hps as [|p ps (x & q & -> & Hx) Hps IH]; done.
  - by rewrite strip_any_visible.
Qed.

Lemma spaces_invisible : Forall (fun p => exists x q, p = x :: q /\ ~ visible x) space_encodings.
Proof. unfold space_encodings, visible. repeat constructor; do 2 eexists; (split; [done|lia]). Qed.

Lemma spaces_invisible_rev :
  Forall (fun p => exists x q, p = x :: q /\ ~ visible x) (map reverse space_encodings).
Proof. unfold space_encodings, visible. repeat constructor; do 2 eexists; (split; [done|lia]). Qed.

(** A string of visible characters is not changed. *)
Lemma TrimSpace_visible s : Forall visible (bytes_of s) -> TrimSpace s = s.
Proof.
  intros Hs. unfold TrimSpace.
  rewrite (trim_front_visible space_encodings);
    [|apply spaces_invisible|destruct Hs; done].
  rewrite trim_front_visible; [by rewrite reverse_involutive, string_bytes
    |apply spaces_invisible_rev|].
  apply Forall_reverse in Hs. destruct Hs; done.
Qed.

(** ** [encoding/hex] *)

Definition hextable (d : Z) : Z := if d <? 10 then 48 + d else 87 + d.

Definition EncodeToString (src : list Z) : string :=
  string_of (mjoin (map (fun b => [hextable (b / 16); hextable (b mod 16)]) src)).

(** [fromHexChar]. *)
Definition fromHexChar (c : Z) : option Z :=
  if (48 <=? c) && (c <=? 57) then Some (c - 48)
  else if (97 <=? c) && (c <=? 102) then Some (c - 97 + 10)
  else if (65 <=? c) && (c <=? 70) then Some (c - 65 + 10)
  else None.

Fixpoint hex_decode (l : list Z) : option (list Z) :=
  match l with
  | [] => Some []
  | a :: b :: l =>
      match fromHexChar a, fromHexChar b with
      | Some x, Some y => (fun r => Z.lor (Z.shiftl x 4) y :: r) <$> hex_decode l
      | _, _ => None
      end
  | [_] => None
  end.

(** [None] is any of the function's errors. *)
Definition DecodeString (s : string) : option (list Z) := hex_decode (bytes_of s).

Lemma hextable_visible d : 0 <= d < 16 -> visible (hextable d) /\ is_byte (hextable d).
Proof. unfold hextable, visible, is_byte. intros. destruct (Z.ltb_spec d 10); lia. Qed.

Lemma fromHexChar_hextable d : 0 <= d < 16 -> fromHexChar (hextable d) = Some d.
Proof.
  intros Hd. unfold fromHexChar, hextable.
  destruct (Z.ltb_spec d 10).
  - rewrite (proj2 (Z.leb_le _ _)), (proj2 (Z.leb_le _ _)) by lia. simpl. f_equal. lia.
  - rewrite (proj2 (Z.leb_le 48 _)), (proj2 (Z.leb_gt _ 57)) by lia. simpl.
    rewrite (proj2 (Z.leb_le _ _)), (proj2 (Z.leb_le _ _)) by lia. simpl. f_equal. lia.
Qed.

Lemma nibbles b : is_byte b -> 0 <= b / 16 < 16 /\ 0 <= b mod 16 < 16 /\
  Z.lor (Z.shiftl (b / 16) 4) (b mod 16) = b.
Proof.
  intros Hb. unfold is_byte in Hb. split_and!; try (apply Z.mod_pos_bound; lia).
  - apply Z.div_pos; lia.
  - apply Z.div_lt_upper_bound; lia.
  - change 16 with (2 ^ 4). rewrite <- Z.shiftr_div_pow2, <- Z.land_ones by lia.
    apply Z.bits_inj'. intros n Hn. rewrite Z.lor_spec, Z.shiftl_spec, Z.land_spec by lia.
    destruct (Z.ltb_spec n 4).
    + rewrite (Z.testbit_neg_r _ (n - 4)) by lia. rewrite Z.ones_spec_low by lia. simpl. by rewrite andb_true_r.
    + rewrite Z.shiftr_spec, Z.ones_spec_high by lia. rewrite andb_false_r, orb_false_r. f_equal. lia.
Qed.

Lemma hex_bytes l : Forall is_byte l -> bytes_of (EncodeToString l) =
  mjoin (map (fun b => [hextable (b / 16); hextable (b mod 16)]) l) /\
  Forall visible (bytes_of (EncodeToString l)).
Proof.
  intros Hl. unfold EncodeToString.
  assert (H : Forall (fun b => is_byte b /\ visible b)
    (mjoin (map (fun b => [hextable (b / 16); hextable (b mod 16)]) l))).
  { induction Hl as [|b l Hb Hl IH]; simpl; [done|].
    destruct (nibbles b Hb) as (H1 & H2 & _).
    destruct (hextable_visible _ H1), (hextable_visible _ H2). do 2 (constructor; [by split|]). done. }
  apply Forall_and in H as [H1 H2]. by rewrite bytes_string.
Qed.

(** Hexadecimal text has no character above [f]. *)
Lemma hex_below l : Forall is_byte l -> Forall (fun c => c <= 102) (bytes_of (EncodeToString l)).
Proof.
  intros Hl. rewrite (proj1 (hex_bytes l Hl)). induction Hl as [|b l Hb Hl IH]; simpl; [done|].
  destruct (nibbles b Hb) as (H1 & H2 & _). unfold hextable.
  do 2 (constructor; [case_match; lia|]). done.
Qed.

(** Decoding what was encoded. *)
Lemma hex_roundtrip l : Forall is_byte l -> DecodeString (EncodeToString l) = Some l.
Proof.
  intros Hl. unfold DecodeString. rewrite (proj1 (hex_bytes l Hl)).
  induction Hl as [|b l Hb Hl IH]; simpl; [done|].
  destruct (nibbles b Hb) as (H1 & H2 & E).
  by rewrite !fromHexChar_hextable, IH, E by done.
Qed.

Lemma fromHexChar_range c d : fromHexChar c = Some d -> 0 <= d < 16.
Proof. unfold fromHexChar. intros H. repeat case_match; simplify_eq; zbool; lia. Qed.

Lemma hex_decode_bytes : forall l bs, hex_decode l = Some bs ->
  Forall is_byte bs /\ length l = (2 * length bs)%nat.
Proof.
  fix IH 1. intros [|a [|b l]] bs; simpl; [by intros [= <-]|done|].
  destruct (fromHexChar a) as [x|] eqn:Hx; [|done].
  destruct (fromHexChar b) as [y|] eqn:Hy; [|done].
  destruct (hex_decode l) as [r|] eqn:Hr; [|done]. intros [= <-].
  destruct (IH _ _ Hr) as [H1 H2]. split; [|simpl; lia]. constructor; [|done].
  apply fromHexChar_range in Hx, Hy. unfold is_byte. split.
  - apply Z.lor_nonneg. rewrite Z.shiftl_nonneg. lia.
  - change 256 with (2 ^ 8). destruct (Z.eq_dec (Z.lor (Z.shiftl x 4) y) 0) as [->|Hne]; [lia|].
    apply Z.log2_lt_pow2; [|].
    { assert (0 <= Z.lor (Z.shiftl x 4) y) by (apply Z.lor_nonneg; rewrite Z.shiftl_nonneg; lia). lia. }
    rewrite Z.log2_lor by (rewrite ?Z.shiftl_nonneg; lia).
    rewrite Z.shiftl_mul_pow2 by lia.
    assert (Z.log2 (x * 2 ^ 4) <= Z.log2 255) by (apply Z.log2_le_mono; lia).
    assert (Z.log2 y <= Z.log2 255) by (apply Z.log2_le_mono; lia).
    change (Z.log2 255) with 7 in *. lia.
Qed.
