(* ===== verification/Sha256.v ===== *)
(** * SHA-256 ([crypto/sha256.Sum256])

    The hash the program derives DHT identifiers and node names from, as an
    executable function on byte lists, after FIPS 180-4. *)

From stdpp Require Import base strings list.
From S2P Require Import Prelude GoBytes.

#[local] Open Scope Z_scope.

Definition rotr (n x : Z) : Z := u32 (Z.lor (Z.shiftr x n) (Z.shiftl x (32 - n))).

Definition Ch (x y z : Z) : Z := Z.lxor (Z.land x y) (Z.land (Z.lxor x (2 ^ 32 - 1)) z).
Definition Maj (x y z : Z) : Z := Z.lxor (Z.lxor (Z.land x y) (Z.land x z)) (Z.land y z).
Definition Sigma0 (x : Z) : Z := Z.lxor (Z.lxor (rotr 2 x) (rotr 13 x)) (rotr 22 x).
Definition Sigma1 (x : Z) : Z := Z.lxor (Z.lxor (rotr 6 x) (rotr 11 x)) (rotr 25 x).
Definition sigma0 (x : Z) : Z := Z.lxor (Z.lxor (rotr 7 x) (rotr 18 x)) (Z.shiftr x 3).
Definition sigma1 (x : Z) : Z := Z.lxor (Z.lxor (rotr 17 x) (rotr 19 x)) (Z.shiftr x 10).

(** The first 32 bits of the fractional parts of the square roots of the first
    8 primes and of the cube roots of the first 64. *)
Definition H0 : list Z :=
  [1779033703; 3144134277; 1013904242; 2773480762; 1359893119; 2600822924; 528734635;
    1541459225].

Definition K : list Z :=
  [1116352408; 1899447441; 3049323471; 3921009573; 961987163; 1508970993; 2453635748;
    2870763221; 3624381080; 310598401; 607225278; 1426881987; 1925078388; 2162078206;
    2614888103; 3248222580; 3835390401; 4022224774; 264347078; 604807628; 770255983;
    1249150122; 1555081692; 1996064986; 2554220882; 2821834349; 2952996808; 3210313671;
    3336571891; 3584528711; 113926993; 338241895; 666307205; 773529912; 1294757372; 1396182291;
    1695183700; 1986661051; 2177026350; 2456956037; 2730485921; 2820302411; 3259730800;
    3345764771; 3516065817; 3600352804; 4094571909; 275423344; 430227734; 506948616; 659060556;
    883997877; 958139571; 1322822218; 1537002063; 1747873779; 1955562222; 2024104815;
    2227730452; 2361852424; 2428436474; 2756734187; 3204031479; 3329325298].

(** Big-endian words. *)
Definition be_bytes (width : nat) (x : Z) : list Z :=
  map (fun i => Z.shiftr x (8 * (Z.of_nat width - 1 - Z.of_nat i)) mod 256) (seq 0 width).

Definition be_value (l : list Z) : Z := fold_left (fun acc b => acc * 256 + b) l 0.

(** The message, a 1 bit, zeros and the bit length in 64 bits. *)
Definition pad (msg : list Z) : list Z :=
  let len := Z.of_nat (length msg) in
  let zeros := Z.to_nat ((55 - len) mod 64) in
  msg ++ [128] ++ replicate zeros 0 ++ be_bytes 8 (len * 8).

Fixpoint chunks {A} (n fuel : nat) (l : list A) : list (list A) :=
  match fuel with
  | O => []
  | S fuel => match l with [] => [] | _ => take n l :: chunks n fuel (drop n l) end
  end.

(** The schedule, newest word first while it is extended. *)
Fixpoint schedule (rounds : nat) (w : list Z) : list Z :=
  match rounds with
  | O => w
  | S rounds =>
      let x i := nth i w 0 in
      schedule rounds (u32 (sigma1 (x 1%nat) + x 6%nat + sigma0 (x 14%nat) + x 15%nat) :: w)
  end.

Definition round (st : list Z) (kw : Z * Z) : list Z :=
  match st with
  | [a; b; c; d; e; f; g; h] =>
      let t1 := h + Sigma1 e + Ch e f g + kw.1 + kw.2 in
      let t2 := Sigma0 a + Maj a b c in
      [u32 (t1 + t2); a; b; c; u32 (d + t1); e; f; g]
  | _ => st
  end.

Definition block (h : list Z) (m : list Z) : list Z :=
  let w := reverse (schedule 48 (reverse (map be_value (chunks 4 16 m)))) in
  zip_with (fun x y => u32 (x + y)) h (fold_left round (zip K w) h).

Definition Sum256 (msg : list Z) : list Z :=
  let p := pad msg in
  mjoin (map (be_bytes 4) (fold_left block (chunks 64 (length p) p) H0)).

(** ** The result is 32 bytes *)

Lemma round_length st kw : length (round st kw) = length st.
Proof. unfold round. by repeat case_match. Qed.

Lemma block_length h m : length h = 8%nat -> length (block h m) = 8%nat.
Proof.
  intros Hh. unfold block. rewrite length_zip_with.
  assert (forall l st, length (fold_left round l st) = length st) as ->.
  { induction l as [|x l IH]; intros st; simpl; [done|]. by rewrite IH, round_length. }
  rewrite Hh. done.
Qed.

Lemma Sum256_spec msg : length (Sum256 msg) = 32%nat /\ Forall is_byte (Sum256 msg).
Proof.
  unfold Sum256. set (bs := chunks 64 _ _).
  assert (H : forall l h, length h = 8%nat -> length (fold_left block l h) = 8%nat).
  { induction l as [|x l IH]; intros h Hh; simpl; [done|]. by apply IH, block_length. }
  specialize (H bs H0 eq_refl). destruct (fold_left block bs H0) as [|x0 [|x1 [|x2 [|x3 [|x4
    [|x5 [|x6 [|x7 [|]]]]]]]]]; try done.
  split; [done|]. simpl. repeat (constructor; [apply Z.mod_pos_bound; lia|]). done.
Qed.

(** The test vectors of the standard. *)
Example Sum256_abc : EncodeToString (Sum256 (bytes_of "abc")) =
  "ba7816bf8f01cfea414140de5dae2223b00361a396177a9cb410ff61f20015ad".
Proof. by vm_compute. Qed.

Example Sum256_empty : EncodeToString (Sum256 []) =
  "e3b0c44298fc1c149afbf4c8996fb92427ae41e4649b934ca495991b7852b855".
Proof. by vm_compute. Qed.

Example Sum256_two_blocks :
  EncodeToString (Sum256 (bytes_of "abcdbcdecdefdefgefghfghighijhijkijkljklmklmnlmnomnopnopq")) =
  "248d6a61d20638b8e5c026930c3e6039a33ce45964ff2167f6ecedd419db06c1".
Proof. by vm_compute. Qed.
