(* ===== verification/DhtId.v ===== *)
(** * DHT identifiers and the XOR metric (src/pkg/dht/dht.go, key.go, routing.go)

    [NodeID] is an array of 20 bytes; its hex notation, the hash that makes
    keys into identifiers, the distance and the bucket a distance falls into. *)

From Stdlib Require Import Ascii String.
From stdpp Require Import base strings list.
From S2P Require Import Prelude GoBytes Sha256.

#[local] Open Scope Z_scope.
#[local] Open Scope go_scope.

Definition NodeIDLength : nat := 20.

(** [[20]byte]: [wf_id] is what the type guarantees. *)
Definition NodeID : Type := list Z.
Definition wf_id (a : NodeID) : Prop := length a = NodeIDLength /\ Forall is_byte a.
#[export] Instance NodeID_eq_dec : EqDecision NodeID := _.
#[export] Instance NodeID_countable : countable.Countable NodeID := _.

(** The zero value [NodeID{}]. *)
Definition zeroID : NodeID := replicate NodeIDLength 0.

(** [Peer]; [LastSeen] in nanoseconds. *)
Record Peer : Type := mkPeer { ID : NodeID; Addr : string; LastSeen : Z }.

#[export] Instance Peer_eq_dec : EqDecision Peer.
Proof. solve_decision. Defined.

(** ** Hex notation *)

Inductive HexError : Type := ErrHexLength | ErrHexChar.

Definition NodeIDFromHex (value : string) : HexError + NodeID :=
  let clean := TrimPrefix (TrimSpace value) "0x" in
  if negb (go_len clean =? 40) then inl ErrHexLength
  else match DecodeString clean with
       | None => inl ErrHexChar
       | Some decoded => inr (take NodeIDLength decoded ++ drop (length decoded) zeroID)
       end.

Definition NodeID_String (a : NodeID) : string := EncodeToString a.

Definition KeyToID (key : string) : NodeID := take NodeIDLength (Sum256 (bytes_of key)).

(** ** The metric *)

(** [new(big.Int).SetBytes(buf)] of the bytewise XOR. *)
Definition xorDistance (a b : NodeID) : Z := be_value (zip_with Z.lxor a b).

(** [bits.LeadingZeros8]. *)
Definition LeadingZeros8 (x : Z) : Z := if x =? 0 then 8 else 7 - Z.log2 x.

(** The loop of [bucketIndex] from byte [i] on. *)
Fixpoint bucketIndex_loop (i : Z) (a b : NodeID) : Z :=
  match a, b with
  | x :: a, y :: b =>
      let xorByte := Z.lxor x y in
      if xorByte =? 0 then bucketIndex_loop (i + 1) a b
      else
        let bitPos := 7 - LeadingZeros8 xorByte in
        i * 8 + bitPos
  | _, _ => Z.of_nat NodeIDLength * 8 - 1
  end.

Definition bucketIndex (localID peerID : NodeID) : Z := bucketIndex_loop 0 localID peerID.

(** ** Big-endian values *)

Lemma be_value_acc l acc : fold_left (fun acc b => acc * 256 + b) l acc =
  acc * 256 ^ Z.of_nat (length l) + be_value l.
Proof.
  revert acc. induction l as [|x l IH]; intros acc; simpl; [unfold be_value; simpl; lia|].
  change (be_value (x :: l)) with (fold_left (fun acc b => acc * 256 + b) l (0 * 256 + x)).
  rewrite IH, (IH (0 * 256 + x)), Nat2Z.inj_succ, Z.pow_succ_r by lia. lia.
Qed.

Lemma be_value_cons x l : be_value (x :: l) = x * 256 ^ Z.of_nat (length l) + be_value l.
Proof.
  change (be_value (x :: l)) with (fold_left (fun acc b => acc * 256 + b) l (0 * 256 + x)).
  by rewrite be_value_acc.
Qed.

Lemma be_value_range l : Forall is_byte l -> 0 <= be_value l < 256 ^ Z.of_nat (length l).
Proof.
  induction 1 as [|x l Hx Hl IH]; [done|]. rewrite be_value_cons. simpl length.
  rewrite Nat2Z.inj_succ, Z.pow_succ_r by lia. unfold is_byte in Hx. nia.
Qed.

Lemma be_value_inj l l' : Forall is_byte l -> Forall is_byte l' -> length l = length l' ->
  be_value l = be_value l' -> l = l'.
Proof.
  intros Hl. revert l'. induction Hl as [|x l Hx Hl IH]; intros l' Hl' Hlen E;
    destruct l' as [|y l']; try done.
  inversion Hl'; subst. simpl in Hlen. injection Hlen as Hlen.
  rewrite !be_value_cons, Hlen in E.
  pose proof (be_value_range l Hl). pose proof (be_value_range l' ltac:(done)). rewrite Hlen in *.
  assert (x = y) as -> by nia. f_equal. apply IH; [done|done|lia].
Qed.

Lemma lxor_byte x y : is_byte x -> is_byte y -> is_byte (Z.lxor x y).
Proof.
  unfold is_byte. intros Hx Hy.
  assert (0 <= Z.lxor x y) by (apply Z.lxor_nonneg; lia). split; [done|].
  destruct (decide (Z.lxor x y = 0)) as [->|]; [lia|]. change 256 with (2 ^ 8).
  apply Z.log2_lt_pow2; [lia|].
  eapply Z.le_lt_trans; [apply Z.log2_lxor; lia|].
  pose proof (Z.log2_le_mono x 255). pose proof (Z.log2_le_mono y 255).
  change (Z.log2 255) with 7 in *. lia.
Qed.

Lemma shift_lxor a b x y : is_byte x -> is_byte y ->
  Z.lxor (a * 256 + x) (b * 256 + y) = Z.lxor a b * 256 + Z.lxor x y.
Proof.
  intros Hx Hy. pose proof (lxor_byte _ _ Hx Hy) as Hxy.
  assert (Hno : forall a x, is_byte x -> a * 256 + x = Z.lxor (Z.shiftl a 8) x).
  { clear. intros a x Hx. change 256 with (2 ^ 8). rewrite <- Z.shiftl_mul_pow2 by lia.
    apply Z.add_nocarry_lxor. apply Z.bits_inj'. intros n Hn.
    rewrite Z.land_spec, Z.shiftl_spec, Z.bits_0 by lia. destruct (Z.ltb_spec n 8).
    - by rewrite Z.testbit_neg_r by lia.
    - rewrite (Z.bits_above_log2 x n); [by rewrite andb_false_r|unfold is_byte in Hx; lia|].
      pose proof (Z.log2_le_mono x 255). change (Z.log2 255) with 7 in *.
      unfold is_byte in Hx. lia. }
  rewrite !Hno by done. rewrite Z.shiftl_lxor.
  rewrite !Z.lxor_assoc. f_equal. rewrite <- !Z.lxor_assoc. f_equal. apply Z.lxor_comm.
Qed.

Lemma be_value_lxor a b : Forall is_byte a -> Forall is_byte b -> length a = length b ->
  be_value (zip_with Z.lxor a b) = Z.lxor (be_value a) (be_value b).
Proof.
  intros Ha Hb Hlen. unfold be_value. rewrite <- (Z.lxor_0_l 0) at 1.
  generalize 0 at 1 3. generalize 0. revert b Hb Hlen.
  induction Ha as [|x a Hx Ha IH]; intros [|y b] Hb Hlen acc acc'; try done. simpl.
  inversion Hb; subst. rewrite <- IH by (done || simpl in Hlen; congruence).
  f_equal. symmetry. by apply shift_lxor.
Qed.

(** The distance is the XOR of the identifiers read as numbers. *)
Lemma xorDistance_lxor a b : wf_id a -> wf_id b ->
  xorDistance a b = Z.lxor (be_value a) (be_value b).
Proof. intros [Ha Ha'] [Hb Hb']. apply be_value_lxor; congruence. Qed.

Lemma zip_lxor_bytes a b : Forall is_byte a -> Forall is_byte b ->
  Forall is_byte (zip_with Z.lxor a b).
Proof.
  intros Ha. revert b. induction Ha as [|x a Hx Ha IH]; intros [|y b] Hb; simpl; try done.
  inversion Hb; subst. constructor; [by apply lxor_byte|auto].
Qed.

Lemma xorDistance_range a b : wf_id a -> wf_id b -> 0 <= xorDistance a b < 2 ^ 160.
Proof.
  intros [Ha Ha'] [Hb Hb']. pose proof (be_value_range (zip_with Z.lxor a b)) as H.
  rewrite length_zip_with, Ha, Hb in H. apply H. by apply zip_lxor_bytes.
Qed.

Lemma lxor_cancel a x y : Z.lxor a x = Z.lxor a y -> x = y.
Proof.
  intros H. apply (f_equal (Z.lxor a)) in H. by rewrite <- !Z.lxor_assoc, !Z.lxor_nilpotent, !Z.lxor_0_l in H.
Qed.

Lemma xorDistance_inj t a b : wf_id t -> wf_id a -> wf_id b ->
  xorDistance t a = xorDistance t b -> a = b.
Proof.
  intros Ht Ha Hb. rewrite !xorDistance_lxor by done. intros E%lxor_cancel.
  destruct Ha, Hb. apply be_value_inj; congruence.
Qed.

(** the XOR metric.  On well-formed identifiers the distance is a 160-bit
    number, symmetric, zero exactly for equal identifiers, satisfies the triangle
    inequality, and no two identifiers are at the same distance of a third. *)
Theorem xorDistance_metric a b c : wf_id a -> wf_id b -> wf_id c ->
  0 <= xorDistance a b < 2 ^ 160 /\ xorDistance a b = xorDistance b a /\
  (xorDistance a b = 0 <-> a = b) /\
  xorDistance a c <= xorDistance a b + xorDistance b c /\
  (xorDistance a b = xorDistance a c -> b = c).
Proof.
  intros Ha Hb Hc. split; [by apply xorDistance_range|]. split_and!.
  - rewrite !xorDistance_lxor by done. apply Z.lxor_comm.
  - split; [|intros ->; rewrite xorDistance_lxor by done; apply Z.lxor_nilpotent].
    intros E. apply (xorDistance_inj a); try done.
    rewrite E, xorDistance_lxor by done. apply Z.lxor_nilpotent.
  - rewrite !xorDistance_lxor by done.
    set (x := be_value a). set (y := be_value b). set (z := be_value c).
    replace (Z.lxor x z) with (Z.lxor (Z.lxor x y) (Z.lxor y z)).
    + rewrite <- (Z.add_lxor_2land (Z.lxor x y) (Z.lxor y z)).
      assert (0 <= Z.land (Z.lxor x y) (Z.lxor y z)); [|lia].
      apply Z.land_nonneg. left. apply Z.lxor_nonneg.
      pose proof (be_value_range a (proj2 Ha)). pose proof (be_value_range b (proj2 Hb)). lia.
    + rewrite Z.lxor_assoc, <- (Z.lxor_assoc y), Z.lxor_nilpotent, Z.lxor_0_l. done.
  - by apply xorDistance_inj.
Qed.

Lemma xorDistance_metric_witness :
  let a := KeyToID "a" in let b := KeyToID "b" in let c := KeyToID "c" in
  xorDistance a c <= xorDistance a b + xorDistance b c.
Proof.
  apply (xorDistance_metric (KeyToID "a") (KeyToID "b") (KeyToID "c"));
    (split; [by vm_compute|]); vm_compute; repeat constructor; lia || done.
Defined.

(** ** Hex round trip *)

Lemma KeyToID_wf key : wf_id (KeyToID key).
Proof.
  destruct (Sum256_spec (bytes_of key)) as [Hl Hb]. unfold KeyToID. split.
  - rewrite length_take, Hl. done.
  - by apply Forall_take.
Qed.

Lemma hex_length a : Forall is_byte a -> length (bytes_of (EncodeToString a)) = (2 * length a)%nat.
Proof.
  intros Hb. rewrite (proj1 (hex_bytes a Hb)). clear Hb.
  induction a as [|x a IH]; simpl; [done|]. rewrite IH. lia.
Qed.

Lemma bytes_of_app s t : bytes_of (String.append s t) = bytes_of s ++ bytes_of t.
Proof. unfold bytes_of. induction s as [|c s IH]; simpl; [done|]. by rewrite IH. Qed.

(** No printed identifier starts with [0x]. *)
Lemma hex_no_prefix a : Forall is_byte a -> TrimPrefix (EncodeToString a) "0x" = EncodeToString a.
Proof.
  intros Hb. unfold TrimPrefix. rewrite (proj1 (hex_bytes a Hb)).
  change (bytes_of "0x") with [48; 120].
  destruct Hb as [|x a Hx Ha]; [done|]. cbn [map mjoin list_join app strip_prefix].
  destruct (48 =? hextable (x / 16)); [|done].
  destruct (nibbles x Hx) as (_ & H & _).
  assert (hextable (x mod 16) <> 120).
  { unfold hextable. destruct (Z.ltb_spec (x mod 16) 10); lia. }
  destruct (Z.eqb_spec 120 (hextable (x mod 16))) as [E|]; [congruence|done].
Qed.

Lemma NodeIDFromHex_clean a s : wf_id a ->
  TrimPrefix (TrimSpace s) "0x" = EncodeToString a -> NodeIDFromHex s = inr a.
Proof.
  intros [Hl Hb] E. unfold NodeIDFromHex. rewrite E. unfold go_len.
  rewrite hex_length, Hl by done. simpl. rewrite hex_roundtrip by done.
  rewrite Hl, take_ge by (rewrite Hl; done). simpl. by rewrite app_nil_r.
Qed.

(** hex round trip.  Parsing the printed form of an identifier, bare or
    after [0x], gives the identifier back; and whatever parses is a well-formed
    identifier. *)
Theorem NodeIDFromHex_String a s : wf_id a ->
  NodeIDFromHex (NodeID_String a) = inr a /\
  NodeIDFromHex (String.append "0x" (NodeID_String a)) = inr a /\
  (forall b, NodeIDFromHex s = inr b -> wf_id b).
Proof.
  intros Ha. pose proof Ha as [Hl Hb]. pose proof (proj2 (hex_bytes a Hb)) as Hv.
  unfold NodeID_String. split_and!.
  - apply NodeIDFromHex_clean; [done|]. rewrite TrimSpace_visible by done. by apply hex_no_prefix.
  - apply NodeIDFromHex_clean; [done|]. rewrite TrimSpace_visible.
    + unfold TrimPrefix. rewrite bytes_of_app. simpl. by rewrite string_bytes.
    + rewrite bytes_of_app. apply Forall_app. split; [|done].
      by repeat constructor.
  - intros b. unfold NodeIDFromHex, go_len. set (clean := TrimPrefix _ _).
    destruct (Z.eqb_spec (Z.of_nat (length (bytes_of clean))) 40) as [E|]; [|done]. simpl.
    unfold DecodeString. destruct (hex_decode (bytes_of clean)) as [d|] eqn:Hd; [|done].
    apply hex_decode_bytes in Hd as [Hdb Hdl]. assert (length d = 20%nat) as Hd20 by lia.
    intros [= <-]. rewrite Hd20, take_ge by (rewrite Hd20; done). simpl. rewrite app_nil_r. done.
Qed.

Lemma NodeIDFromHex_String_witness :
  NodeIDFromHex (NodeID_String (KeyToID "sensor:a:latest")) = inr (KeyToID "sensor:a:latest").
Proof.
  apply (NodeIDFromHex_String (KeyToID "sensor:a:latest") "").
  split; [by vm_compute|]. vm_compute. repeat constructor; done.
Defined.

(** ** Buckets *)

Lemma log2_shift x l : 0 < x -> Forall is_byte l ->
  Z.log2 (x * 256 ^ Z.of_nat (length l) + be_value l) = Z.log2 x + 8 * Z.of_nat (length l).
Proof.
  intros Hx Hl. pose proof (be_value_range l Hl) as Hr.
  assert (Hp : 256 ^ Z.of_nat (length l) = 2 ^ (8 * Z.of_nat (length l))).
  { change 256 with (2 ^ 8). by rewrite <- Z.pow_mul_r by lia. }
  rewrite Hp in *. apply Z.log2_unique.
  - pose proof (Z.log2_nonneg x). lia.
  - pose proof (Z.log2_spec x Hx) as [H1 H2].
    replace (Z.succ (Z.log2 x + 8 * Z.of_nat (length l)))
      with (Z.succ (Z.log2 x) + 8 * Z.of_nat (length l)) by lia.
    pose proof (Z.log2_nonneg x). rewrite !Z.pow_add_r by lia. nia.
Qed.

Lemma bucketIndex_loop_spec a b i : Forall is_byte a -> Forall is_byte b ->
  length a = length b -> a <> b ->
  let L := Z.log2 (be_value (zip_with Z.lxor a b)) in
  0 <= L < 8 * Z.of_nat (length a) /\
  bucketIndex_loop i a b = (i + (Z.of_nat (length a) - 1 - L / 8)) * 8 + L mod 8.
Proof.
  intros Ha. revert b i. induction Ha as [|x a Hx Ha IH]; intros [|y b] i Hb Hlen Hne; try done.
  inversion Hb; subst. simpl in Hlen. injection Hlen as Hlen.
  cbn [zip_with bucketIndex_loop]. rewrite be_value_cons.
  assert (Hz : length (zip_with Z.lxor a b) = length a) by (rewrite length_zip_with; lia).
  assert (Hzb : Forall is_byte (zip_with Z.lxor a b)) by (by apply zip_lxor_bytes).
  destruct (Z.eqb_spec (Z.lxor x y) 0) as [E|E].
  - apply Z.lxor_eq in E as ->. rewrite Z.lxor_nilpotent, Z.mul_0_l, Z.add_0_l.
    destruct (IH b (i + 1)) as [HL HI]; [done|done|congruence|].
    simpl length. split; [lia|]. rewrite HI. lia.
  - pose proof (lxor_byte x y Hx ltac:(done)) as Hxy. unfold is_byte in Hxy.
    rewrite log2_shift by (done || lia). rewrite Hz.
    assert (0 <= Z.log2 (Z.lxor x y) <= 7).
    { split; [apply Z.log2_nonneg|]. change 7 with (Z.log2 255). apply Z.log2_le_mono. lia. }
    simpl length. split; [lia|]. unfold LeadingZeros8. rewrite (proj2 (Z.eqb_neq _ _)) by done.
    rewrite (Z.mul_comm 8), Z.div_add, Z.mod_add, Z.div_small, Z.mod_small by lia. lia.
Qed.

(** buckets group peers by the length of the shared prefix.  For a peer
    other than the node itself the bucket index is within the table, and two
    peers share a bucket exactly when the highest bits in which their
    identifiers differ from the local one are the same. *)
Theorem bucketIndex_groups l p q : wf_id l -> wf_id p -> wf_id q -> p <> l -> q <> l ->
  0 <= bucketIndex l p < 160 /\
  (bucketIndex l p = bucketIndex l q <->
   Z.log2 (xorDistance l p) = Z.log2 (xorDistance l q)).
Proof.
  intros [Hl Hlb] [Hp Hpb] [Hq Hqb] Hne Hne'. unfold bucketIndex, xorDistance.
  destruct (bucketIndex_loop_spec l p 0) as [HLp ->]; try done; [congruence|].
  destruct (bucketIndex_loop_spec l q 0) as [HLq ->]; try done; [congruence|].
  set (x := Z.log2 (be_value (zip_with Z.lxor l p))) in *.
  set (y := Z.log2 (be_value (zip_with Z.lxor l q))) in *. clearbody x y.
  rewrite Hl in *. unfold NodeIDLength in *.
  pose proof (Z.div_mod x 8). pose proof (Z.mod_pos_bound x 8).
  pose proof (Z.div_mod y 8). pose proof (Z.mod_pos_bound y 8). lia.
Qed.

Lemma bucketIndex_groups_witness :
  0 <= bucketIndex (KeyToID "a") (KeyToID "b") < 160.
Proof.
  apply (bucketIndex_groups (KeyToID "a") (KeyToID "b") (KeyToID "c")); try (by vm_compute);
    (split; [by vm_compute|]); vm_compute; repeat constructor; done.
Defined.
