(* ===== verification/GoFloat.v ===== *)
(** * Go's [float64]

    IEEE 754 binary64 as Go specifies it: each operation is the exact result
    rounded to the nearest representable number, ties to even.  A finite number is
    the integer [k] standing for [k * 2^-1074], so comparisons and sums are those
    of [Z].  The two zeros are one number here; the programs never divide by a
    zero nor look at its sign.  Every operation rounds on its own, as compilers do
    that fuse none.  The library: rounding is monotone and exact on representable
    numbers, so bounds on exact results carry over. *)

From Stdlib Require Import ZArith Lia.
From stdpp Require Import base tactics numbers.
From S2P Require Import Prelude.

#[local] Open Scope Z_scope.

(** ** Rounding *)

(** The integer nearest to [n / d], ties to even. *)
Definition rne (n d : Z) : Z :=
  let q := n / d in
  let r := n mod d in
  if 2 * r <? d then q else if d <? 2 * r then q + 1 else if Z.even q then q else q + 1.

(** Bits to drop so that 53 are left; none below the smallest exponent. *)
Definition excess (n d : Z) : Z := Z.max 0 (Z.log2 (n / d) - 52).

Definition round_pos (n d : Z) : Z := let s := excess n d in rne n (d * 2 ^ s) * 2 ^ s.

Definition round_Z (n d : Z) : Z := if n <? 0 then - round_pos (- n) d else round_pos n d.

(** ** Numbers and operations *)

Inductive float64 : Type := NaN | Inf (neg : bool) | Fin (k : Z).

#[export] Instance float64_eq_dec : EqDecision float64.
Proof. solve_decision. Defined.

(** The number 1 in units of the last place. *)
Definition unit : Z := 2 ^ 1074.
Definition overflow : Z := 2 ^ 2098.

Definition round (n d : Z) : float64 :=
  let k := round_Z n d in if overflow <=? Z.abs k then Inf (k <? 0) else Fin k.

(** A constant [p / q], and the conversion of an integer. *)
Definition f_const (p q : Z) : float64 := round (p * unit) q.
Definition f_of_int (z : Z) : float64 := f_const z 1.

Definition f_neg (x : float64) : float64 :=
  match x with NaN => NaN | Inf s => Inf (negb s) | Fin k => Fin (- k) end.

Definition f_add (x y : float64) : float64 :=
  match x, y with
  | NaN, _ | _, NaN => NaN
  | Inf s, Inf t => if bool_decide (s = t) then Inf s else NaN
  | Inf s, _ => Inf s
  | _, Inf t => Inf t
  | Fin a, Fin b => round (a + b) 1
  end.

Definition f_sub (x y : float64) : float64 := f_add x (f_neg y).

Definition f_mul (x y : float64) : float64 :=
  match x, y with
  | NaN, _ | _, NaN => NaN
  | Inf s, Inf t => Inf (xorb s t)
  | Inf s, Fin k | Fin k, Inf s => if k =? 0 then NaN else Inf (xorb s (k <? 0))
  | Fin a, Fin b => round (a * b) unit
  end.

Definition f_div (x y : float64) : float64 :=
  match x, y with
  | NaN, _ | _, NaN => NaN
  | Inf _, Inf _ => NaN
  | Inf s, Fin k => Inf (xorb s (k <? 0))
  | Fin _, Inf _ => Fin 0
  | Fin a, Fin b => if b =? 0 then if a =? 0 then NaN else Inf (a <? 0)
                    else round (Z.sgn b * (a * unit)) (Z.abs b)
  end.

Definition f_lt (x y : float64) : bool :=
  match x, y with
  | NaN, _ | _, NaN => false
  | Inf s, Inf t => s && negb t
  | Inf s, Fin _ => s
  | Fin _, Inf t => negb t
  | Fin a, Fin b => a <? b
  end.

Definition f_le (x y : float64) : bool :=
  match x, y with
  | NaN, _ | _, NaN => false
  | Inf s, Inf t => s || negb t
  | Inf s, Fin _ => s
  | Fin _, Inf t => negb t
  | Fin a, Fin b => a <=? b
  end.

(** [math.Ceil], and [int(x)], which truncates; out of range it is
    implementation-specific. *)
Definition f_ceil (x : float64) : float64 :=
  match x with Fin k => Fin (- (- k / unit) * unit) | _ => x end.

Definition f_int (x : float64) : option Z :=
  match x with
  | Fin k => let z := Z.quot k unit in
             if (- 2 ^ 63 <=? z) && (z <? 2 ^ 63) then Some z else None
  | _ => None
  end.

(** [math.Sqrt]: [sqrt (k * 2^-1074)] is [sqrt (k * unit)] units; [w] is twice
    the root of the kept bits, rounded down, and a root is never half way between
    two numbers of 53 bits. *)
Definition f_sqrt (x : float64) : float64 :=
  match x with
  | NaN => NaN
  | Inf s => if s then NaN else Inf false
  | Fin k =>
      if k <? 0 then NaN
      else
        let n := k * unit in
        let s := excess (Z.sqrt n) 1 in
        let w := Z.sqrt (4 * n / 4 ^ s) in
        Fin ((w + 1) / 2 * 2 ^ s)
  end.

(** ** Rounding to the nearest integer *)

Lemma rne_spec n d : 0 < d ->
  (2 * rne n d - 1) * d <= 2 * n <= (2 * rne n d + 1) * d /\
  ((2 * rne n d - 1) * d = 2 * n \/ 2 * n = (2 * rne n d + 1) * d -> Z.even (rne n d) = true).
Proof.
  intros Hd. unfold rne. pose proof (Z.div_mod n d). pose proof (Z.mod_pos_bound n d Hd).
  set (q := n / d) in *. set (r := n mod d) in *. clearbody q r.
  destruct (Z.ltb_spec (2 * r) d); [split; [nia|intros [?|?]; nia]|].
  destruct (Z.ltb_spec d (2 * r)); [split; [nia|intros [?|?]; nia]|].
  destruct (Z.even q) eqn:Eq; (split; [nia|]); [done|]. intros _.
  by rewrite Z.even_add, Eq.
Qed.

Lemma rne_le n1 d1 n2 d2 : 0 < d1 -> 0 < d2 -> n1 * d2 <= n2 * d1 -> rne n1 d1 <= rne n2 d2.
Proof.
  intros H1 H2 Hle. destruct (rne_spec n1 d1 H1) as [[L1 _] T1].
  destruct (rne_spec n2 d2 H2) as [[_ U2] T2].
  destruct (Z.le_gt_cases (rne n1 d1) (rne n2 d2)) as [|Hgt]; [done|exfalso].
  set (a := rne n1 d1) in *. set (b := rne n2 d2) in *. clearbody a b.
  pose proof (Z.mul_le_mono_nonneg_r _ _ d2 (Z.lt_le_incl _ _ H2) L1) as M1.
  pose proof (Z.mul_le_mono_nonneg_r _ _ d1 (Z.lt_le_incl _ _ H1) U2) as M2.
  assert (Hd : 0 < d1 * d2) by (by apply Z.mul_pos_pos).
  assert (Hab : a = b + 1).
  { assert ((2 * a - 1) * (d1 * d2) <= (2 * b + 1) * (d1 * d2)) as H%Z.mul_le_mono_pos_r by lia; lia. }
  subst a.
  assert (E1 : (2 * (b + 1) - 1) * d1 = 2 * n1).
  { apply (Z.mul_reg_r _ _ d2); lia. }
  assert (E2 : 2 * n2 = (2 * b + 1) * d2).
  { apply (Z.mul_reg_r _ _ d1); lia. }
  specialize (T1 (or_introl E1)). specialize (T2 (or_intror E2)).
  by rewrite Z.even_add, T2 in T1.
Qed.

Lemma rne_exact q d : 0 < d -> rne (q * d) d = q.
Proof.
  intros Hd. unfold rne. rewrite Z.div_mul, Z.mod_mul by lia. by rewrite (proj2 (Z.ltb_lt _ _)) by lia.
Qed.

(** ** Rounding to 53 bits *)

Lemma excess_nonneg n d : 0 <= excess n d.
Proof. unfold excess. lia. Qed.

(** What is rounded fits into 53 bits, and fills them unless it is tiny. *)
Lemma excess_spec n d : 0 <= n -> 0 < d ->
  n < d * 2 ^ (53 + excess n d) /\ (0 < excess n d -> d * 2 ^ (52 + excess n d) <= n).
Proof.
  intros Hn Hd. pose proof (Z.div_pos n d Hn Hd) as Hq. pose proof (Z.div_mod n d) as Hdm.
  pose proof (Z.mod_pos_bound n d Hd) as Hr. set (q := n / d) in *. set (r := n mod d) in *.
  assert (Hup : q < 2 ^ (53 + excess n d)).
  { destruct (Z.eq_dec q 0) as [->|]; [apply Z.pow_pos_nonneg; [lia|pose proof (excess_nonneg n d); lia]|].
    eapply Z.lt_le_trans; [apply (Z.log2_spec q); lia|]. apply Z.pow_le_mono_r; [lia|].
    unfold excess. fold q. lia. }
  split; [nia|]. intros Hs. unfold excess in *. fold q in Hs |- *.
  replace (52 + Z.max 0 (Z.log2 q - 52)) with (Z.log2 q) by lia.
  destruct (Z.eq_dec q 0) as [E|]; [rewrite E in Hs; simpl in Hs; lia|].
  pose proof (Z.log2_spec q). nia.
Qed.

Lemma excess_le n1 d1 n2 d2 : 0 <= n1 -> 0 < d1 -> 0 < d2 -> n1 * d2 <= n2 * d1 ->
  excess n1 d1 <= excess n2 d2.
Proof.
  intros H0 H1 H2 Hle. unfold excess.
  assert (n1 / d1 <= n2 / d2); [|pose proof (Z.log2_le_mono (n1 / d1) (n2 / d2)); lia].
  apply Z.div_le_lower_bound; [done|]. apply (Z.mul_le_mono_pos_r _ _ d1 H1).
  pose proof (Z.mul_div_le n1 d1 H1). nia.
Qed.

Lemma pow2_pos s : 0 <= s -> 0 < 2 ^ s.
Proof. intros. by apply Z.pow_pos_nonneg. Qed.

Lemma round_pos_upper n d : 0 <= n -> 0 < d -> round_pos n d <= 2 ^ (53 + excess n d).
Proof.
  intros Hn Hd. destruct (excess_spec n d Hn Hd) as [Hup _]. unfold round_pos.
  pose proof (excess_nonneg n d) as Hs. set (s := excess n d) in *. clearbody s.
  pose proof (pow2_pos s Hs). rewrite Z.pow_add_r in * by lia.
  apply Z.mul_le_mono_nonneg_r; [lia|]. rewrite <- (rne_exact (2 ^ 53) (d * 2 ^ s)) by nia.
  apply rne_le; [nia..|]. nia.
Qed.

Lemma round_pos_lower n d : 0 <= n -> 0 < d -> 0 < excess n d -> 2 ^ (52 + excess n d) <= round_pos n d.
Proof.
  intros Hn Hd Hpos. destruct (excess_spec n d Hn Hd) as [_ Hlo]. specialize (Hlo Hpos). unfold round_pos.
  set (s := excess n d) in *. clearbody s. pose proof (pow2_pos s). rewrite Z.pow_add_r in * by lia.
  apply Z.mul_le_mono_nonneg_r; [lia|]. rewrite <- (rne_exact (2 ^ 52) (d * 2 ^ s)) by nia.
  apply rne_le; [nia..|]. nia.
Qed.

Lemma round_pos_le n1 d1 n2 d2 : 0 <= n1 -> 0 <= n2 -> 0 < d1 -> 0 < d2 -> n1 * d2 <= n2 * d1 ->
  round_pos n1 d1 <= round_pos n2 d2.
Proof.
  intros Hn1 Hn2 H1 H2 Hle. pose proof (excess_le n1 d1 n2 d2 Hn1 H1 H2 Hle) as Hex.
  destruct (Z.eq_dec (excess n1 d1) (excess n2 d2)) as [E|Hne].
  - unfold round_pos. rewrite E. pose proof (pow2_pos _ (excess_nonneg n2 d2)).
    set (p := 2 ^ excess n2 d2) in *. clearbody p. apply Z.mul_le_mono_nonneg_r; [lia|].
    apply rne_le; [nia..|]. nia.
  - pose proof (excess_nonneg n1 d1).
    etrans; [by apply round_pos_upper|]. etrans; [|apply round_pos_lower; [done..|lia]].
    apply Z.pow_le_mono_r; lia.
Qed.

Lemma round_pos_nonneg n d : 0 <= n -> 0 < d -> 0 <= round_pos n d.
Proof.
  intros Hn Hd. change 0 with (round_pos 0 1). apply round_pos_le; lia.
Qed.

(** Rounding is monotone. *)
Lemma round_Z_le n1 d1 n2 d2 : 0 < d1 -> 0 < d2 -> n1 * d2 <= n2 * d1 ->
  round_Z n1 d1 <= round_Z n2 d2.
Proof.
  intros H1 H2 Hle. unfold round_Z.
  destruct (Z.ltb_spec n1 0), (Z.ltb_spec n2 0).
  - pose proof (round_pos_le (- n2) d2 (- n1) d1). lia.
  - pose proof (round_pos_nonneg (- n1) d1). pose proof (round_pos_nonneg n2 d2). lia.
  - nia.
  - by apply round_pos_le.
Qed.

(** ** Representable numbers *)

Definition exact (k : Z) : Prop := round_Z k 1 = k.
#[export] Instance exact_dec k : Decision (exact k).
Proof. unfold exact. apply _. Defined.

Lemma exact_opp k : exact k -> exact (- k).
Proof.
  unfold exact, round_Z. destruct (Z.ltb_spec k 0), (Z.ltb_spec (- k) 0); rewrite ?Z.opp_involutive; try lia.
  by replace k with 0 by lia.
Qed.

Lemma exact_pos m s : 0 <= s -> 0 <= m < 2 ^ 53 -> exact (m * 2 ^ s).
Proof.
  intros Hs Hm. pose proof (pow2_pos s Hs). unfold exact, round_Z.
  destruct (Z.ltb_spec (m * 2 ^ s) 0); [nia|]. unfold round_pos.
  assert (He : excess (m * 2 ^ s) 1 <= s).
  { unfold excess. rewrite Z.div_1_r. destruct (Z.eq_dec m 0) as [->|]; [simpl; lia|].
    assert (Z.log2 (m * 2 ^ s) < 53 + s); [|lia]. apply Z.log2_lt_pow2; [nia|].
    rewrite Z.pow_add_r by lia. nia. }
  pose proof (excess_nonneg (m * 2 ^ s) 1). set (e := excess _ _) in *. clearbody e.
  pose proof (pow2_pos e). rewrite Z.mul_1_l. replace s with ((s - e) + e) by lia.
  rewrite Z.pow_add_r, Z.mul_assoc by lia. by rewrite rne_exact by lia.
Qed.

Lemma exact_intro m s : 0 <= s -> Z.abs m <= 2 ^ 53 -> exact (m * 2 ^ s).
Proof.
  intros Hs Hm. assert (H : exact (Z.abs m * 2 ^ s)).
  { destruct (Z.eq_dec (Z.abs m) (2 ^ 53)) as [->|]; [|apply exact_pos; lia].
    replace (2 ^ 53 * 2 ^ s) with (2 ^ 52 * 2 ^ (s + 1)).
    - apply exact_pos; lia.
    - rewrite Z.pow_add_r by lia. change (2 ^ 53) with (2 ^ 52 * 2). lia. }
  destruct (Z.abs_eq_or_opp m) as [E|E]; rewrite E in H; [done|].
  apply exact_opp in H. by replace (- (- m * 2 ^ s)) with (m * 2 ^ s) in H by lia.
Qed.

Lemma round_Z_exact n d : 0 < d -> exact (round_Z n d).
Proof.
  intros Hd. assert (Hp : forall n, 0 <= n -> exact (round_pos n d)).
  { clear n. intros n Hn. pose proof (round_pos_upper n d Hn Hd). pose proof (round_pos_nonneg n d Hn Hd).
    unfold round_pos in *. pose proof (excess_nonneg n d). pose proof (pow2_pos (excess n d)).
    rewrite Z.pow_add_r in * by lia. apply exact_intro; nia. }
  unfold round_Z. destruct (Z.ltb_spec n 0); [apply exact_opp|]; apply Hp; lia.
Qed.

Lemma round_Z_between lo hi n d : 0 < d -> exact lo -> exact hi -> lo * d <= n <= hi * d ->
  lo <= round_Z n d <= hi.
Proof.
  unfold exact. intros Hd Hlo Hhi Hn. rewrite <- Hlo at 1. rewrite <- Hhi at 1. split; apply round_Z_le; lia.
Qed.

(** ** Bounds on results *)

(** A finite number of a closed interval. *)
Definition within (lo hi : Z) (x : float64) : Prop := exists k, x = Fin k /\ lo <= k <= hi.

(** End points that rounding leaves alone. *)
Definition bound (k : Z) : Prop := exact k /\ Z.abs k < overflow.
#[export] Instance bound_dec k : Decision (bound k).
Proof. unfold bound. apply _. Defined.

Lemma within_round lo hi n d : 0 < d -> bound lo -> bound hi -> lo * d <= n <= hi * d ->
  within lo hi (round n d).
Proof.
  intros Hd [Hlo Hol] [Hhi Hoh] Hn. pose proof (round_Z_between lo hi n d Hd Hlo Hhi Hn) as H.
  exists (round_Z n d). split; [|done]. unfold round. rewrite (proj2 (Z.leb_gt _ _)); [done|lia].
Qed.

Lemma within_weaken lo hi lo' hi' x : within lo hi x -> lo' <= lo -> hi <= hi' -> within lo' hi' x.
Proof. intros (k & -> & Hk) ? ?. exists k. split; [done|lia]. Qed.

Lemma within_add a b c d x y : within a b x -> within c d y -> bound (a + c) -> bound (b + d) ->
  within (a + c) (b + d) (f_add x y).
Proof. intros (k & -> & Hk) (l & -> & Hl) H1 H2. simpl. apply within_round; [lia|done..|lia]. Qed.

(** A product of a fraction and a number at least zero. *)
Lemma within_scale hi x y : within 0 unit x -> within 0 hi y -> bound hi -> within 0 hi (f_mul x y).
Proof.
  intros (k & -> & Hk) (l & -> & Hl) Hb. simpl. assert (0 < unit) by (by apply pow2_pos).
  apply within_round; [done|by vm_compute|done|]. nia.
Qed.

Lemma within_div lo hi x b : within (lo * b) (hi * b) x -> 0 < b -> bound lo -> bound hi ->
  within lo hi (f_div x (Fin (b * unit))).
Proof.
  intros (k & -> & Hk) Hb H1 H2. assert (0 < unit) by (by apply pow2_pos). simpl.
  rewrite (proj2 (Z.eqb_neq _ _)) by nia. rewrite Z.sgn_pos, Z.abs_eq by nia.
  apply within_round; [nia|done..|]. nia.
Qed.

Lemma f_of_int_exact z : Z.abs z <= 2 ^ 53 -> f_of_int z = Fin (z * unit).
Proof.
  intros Hz. unfold f_of_int, f_const, round.
  assert (E : exact (z * unit)) by (apply exact_intro; [lia|done]). unfold exact in E. rewrite E.
  rewrite (proj2 (Z.leb_gt _ _)); [done|]. unfold overflow, unit.
  replace (2 ^ 2098) with (2 ^ 1024 * 2 ^ 1074) by (by rewrite <- Z.pow_add_r by lia).
  rewrite Z.abs_mul, (Z.abs_eq (2 ^ 1074)) by (apply Z.pow_nonneg; lia).
  apply Z.mul_lt_mono_pos_r; [by apply pow2_pos|]. eapply Z.le_lt_trans; [exact Hz|]. by apply Z.pow_lt_mono_r.
Qed.

(** ** Comparisons *)

Lemma f_le_refl x : x <> NaN -> f_le x x = true.
Proof. destruct x as [|[]|k]; try done. intros _. apply Z.leb_refl. Qed.

Lemma f_lt_le x y : x <> NaN -> y <> NaN -> f_lt x y = false -> f_le y x = true.
Proof.
  destruct x as [|[]|k], y as [|[]|l]; try done. simpl. intros _ _ H%Z.ltb_ge. by apply Z.leb_le.
Qed.

Lemma f_le_within lo hi x : f_le (Fin lo) x = true -> f_le x (Fin hi) = true -> within lo hi x.
Proof.
  destruct x as [|[]|k]; simpl; try done. intros ?%Z.leb_le ?%Z.leb_le. by exists k.
Qed.

Example f_tenths : f_add (f_const 1 10) (f_const 2 10) <> f_const 3 10.
Proof. vm_compute. discriminate. Qed.

Example f_sqrt_two : f_sqrt (f_of_int 2) = f_const 6369051672525773 (2 ^ 52).
Proof. vm_compute. reflexivity. Qed.

(** ** More on results *)

Lemma finite_round n d : round n d <> NaN.
Proof. unfold round. by destruct (_ <=? _). Qed.

Lemma mul_not_nan k y : y <> NaN -> (forall s, y <> Inf s) -> f_mul y (Fin k) <> NaN.
Proof. destruct y as [|s|l]; intros H1 H2; [done|by destruct (H2 s)|apply finite_round]. Qed.

Lemma add_not_nan k y : y <> NaN -> f_add (Fin k) y <> NaN.
Proof. destruct y as [|s|l]; [done|done|]. intros _. apply finite_round. Qed.

Lemma within_finite lo hi x : within lo hi x -> x <> NaN /\ forall s, x <> Inf s.
Proof. by intros (k & -> & _). Qed.

Lemma round_bound k : bound k -> round k 1 = Fin k.
Proof.
  intros [He Ho]. unfold round. unfold exact in He. rewrite He.
  by rewrite (proj2 (Z.leb_gt _ _)) by done.
Qed.

Lemma within_fin k : within k k (Fin k).
Proof. exists k. split; [done|lia]. Qed.

(** The values of the type. *)
Definition wf_float (x : float64) : Prop := match x with Fin k => bound k | _ => True end.
#[export] Instance wf_float_dec x : Decision (wf_float x).
Proof. destruct x; simpl; apply _. Defined.

(** [int(math.Ceil(x))] of a number between 0 and [n]. *)
Lemma ceil_int k n : 0 < k <= n * unit -> n < 2 ^ 63 ->
  exists c, f_int (f_ceil (Fin k)) = Some c /\ 1 <= c <= n.
Proof.
  intros Hk Hn. assert (Hu : 0 < unit) by (by apply pow2_pos). unfold f_ceil, f_int.
  set (c := - (- k / unit)).
  assert (Hc : 1 <= c <= n).
  { subst c. pose proof (Z.div_mod (- k) unit). pose proof (Z.mod_pos_bound (- k) unit Hu).
    set (q := - k / unit) in *. set (m := - k mod unit) in *. clearbody q m. nia. }
  exists c. rewrite Z.quot_mul by lia.
  by rewrite (proj2 (Z.leb_le _ _)), (proj2 (Z.ltb_lt _ _)) by lia.
Qed.

(** A product of a positive integer and a positive fraction. *)
Lemma within_fraction n k : 1 <= n <= 2 ^ 53 -> 0 < k <= unit -> bound k ->
  within k (n * unit) (f_mul (f_of_int n) (Fin k)).
Proof.
  intros Hn Hk Hb. assert (Hu : 0 < unit) by (by apply pow2_pos). rewrite f_of_int_exact by lia. simpl.
  apply within_round; [done|done| |nia]. pose proof (f_of_int_exact n) as E.
  unfold f_of_int, f_const, round in E. split; [apply exact_intro; lia|].
  destruct (Z.leb_spec overflow (Z.abs (round_Z (n * unit) 1))); [discriminate E; lia|].
  injection (E ltac:(lia)) as E'. by rewrite E' in *.
Qed.

Lemma wf_round n d : 0 < d -> wf_float (round n d).
Proof.
  intros Hd. unfold round. destruct (Z.leb_spec overflow (Z.abs (round_Z n d))); [done|].
  split; [by apply round_Z_exact|done].
Qed.
