(* ===== verification/DhtBucket.v ===== *)
(** * k-buckets (src/pkg/dht/bucket.go)

    The bucket as the code keeps it, a slice edited in place, and its contract:
    a bounded list of peers with distinct IDs in order of recency. *)

From stdpp Require Import base strings list sets gmap.
From S2P Require Import Prelude DhtId.

#[local] Open Scope Z_scope.
#[local] Open Scope go_scope.

Record Bucket : Type := mkBucket { bk_peers : list Peer; maxSize : Z }.

Definition NewBucket (maxSize : Z) : Bucket :=
  mkBucket [] (if maxSize <=? 0 then 20 else maxSize).

(** [copy(dst[i:], src)]. *)
Definition copy_at {A} (dst : list A) (i : nat) (src : list A) : list A :=
  let n := Nat.min (length src) (length dst - i) in
  take i dst ++ take n src ++ drop (i + n) dst.

(** The loop of [indexOf] from position [i] on. *)
Fixpoint indexOf_loop (i : Z) (l : list Peer) (peerID : NodeID) : Z :=
  match l with
  | [] => -1
  | peer :: l => if decide (ID peer = peerID) then i else indexOf_loop (i + 1) l peerID
  end.

Definition indexOf (b : Bucket) (peerID : NodeID) : Z := indexOf_loop 0 (bk_peers b) peerID.

Definition moveToEnd (l : list Peer) (index : Z) : exec (list Peer) :=
  if (index <? 0) || (Z.of_nat (length l) <=? index) then Ok l
  else
    let! peer := go_index l index in
    let i := Z.to_nat index in
    let l := copy_at l i (drop (i + 1) l) in
    Ok (<[(length l - 1)%nat := peer]> l).

(** [Add]; the second component is the evicted peer. *)
Definition Add (b : Bucket) (peer : Peer) : exec (Bucket * option Peer) :=
  let index := indexOf b (ID peer) in
  if 0 <=? index then
    let! l := moveToEnd (<[Z.to_nat index := peer]> (bk_peers b)) index in
    Ok (mkBucket l (maxSize b), None)
  else if maxSize b <=? Z.of_nat (length (bk_peers b)) then
    let! oldest := go_index (bk_peers b) 0 in
    Ok (mkBucket (drop 1 (bk_peers b) ++ [peer]) (maxSize b), Some oldest)
  else Ok (mkBucket (bk_peers b ++ [peer]) (maxSize b), None).

Definition Remove (b : Bucket) (peerID : NodeID) : Bucket * bool :=
  let index := indexOf b peerID in
  if index <? 0 then (b, false)
  else
    let i := Z.to_nat index in
    let l := copy_at (bk_peers b) i (drop (i + 1) (bk_peers b)) in
    (mkBucket (take (length l - 1) l) (maxSize b), true).

Definition List (b : Bucket) : list Peer := bk_peers b.
Definition Len (b : Bucket) : Z := Z.of_nat (length (bk_peers b)).

(** ** The contract: a bounded recency list *)

Definition ids (l : list Peer) : list NodeID := map ID l.

Definition without (x : NodeID) (l : list Peer) : list Peer := filter (fun p => ID p <> x) l.

(** What adding a peer does to the recency list: a known peer moves to the
    most recent end with its new contact data; an unknown one is added there,
    the least recent making room when the list is full. *)
Definition lru_add (size : Z) (l : list Peer) (p : Peer) : list Peer * option Peer :=
  if decide (ID p ∈ ids l) then (without (ID p) l ++ [p], None)
  else if decide (size <= Z.of_nat (length l)) then (tail l ++ [p], head l)
  else (l ++ [p], None).

Definition bucket_inv (b : Bucket) : Prop :=
  NoDup (ids (bk_peers b)) /\ 1 <= maxSize b /\ Len b <= maxSize b.

Lemma NewBucket_inv n : bucket_inv (NewBucket n).
Proof.
  unfold bucket_inv, NewBucket, Len. simpl. split; [constructor|].
  destruct (Z.leb_spec n 0); lia.
Qed.

Lemma ids_app l l' : ids (l ++ l') = ids l ++ ids l'.
Proof. apply map_app. Qed.

Lemma elem_of_ids x l : x ∈ ids l <-> exists p, p ∈ l /\ ID p = x.
Proof. unfold ids. rewrite list_elem_of_fmap. naive_solver. Qed.

Lemma without_notin x l : x ∉ ids l -> without x l = l.
Proof.
  unfold without. induction l as [|p l IH]; [done|]. simpl. rewrite not_elem_of_cons.
  intros [Hp Hl]. rewrite filter_cons_True by done. by rewrite IH.
Qed.

Lemma elem_of_without x y l : y ∈ ids (without x l) <-> y ∈ ids l /\ y <> x.
Proof.
  rewrite !elem_of_ids. unfold without. setoid_rewrite list_elem_of_filter. naive_solver.
Qed.

Lemma NoDup_without x l : NoDup (ids l) -> NoDup (ids (without x l)).
Proof.
  unfold without. induction l as [|p l IH]; [done|]. simpl. intros Hnd. inversion Hnd; subst.
  rewrite filter_cons. case_decide; [|auto]. simpl. constructor; [|auto].
  intros [? _]%elem_of_without. done.
Qed.

(** ** Positions *)

Lemma indexOf_loop_spec i l x : 0 <= i ->
  (x ∉ ids l /\ indexOf_loop i l x = -1) \/
  exists k p, l !! k = Some p /\ ID p = x /\ x ∉ ids (take k l) /\
    indexOf_loop i l x = i + Z.of_nat k.
Proof.
  revert i. induction l as [|q l IH]; intros i Hi; simpl.
  { left. split; [set_solver|done]. }
  destruct (decide (ID q = x)) as [E|Hne].
  - right. exists 0%nat, q. split_and!; try done; [set_solver|lia].
  - destruct (IH (i + 1)) as [[Hx ->]|(k & p & Hk & Hp & Hx & ->)]; [lia| |].
    + left. split; [set_solver|done].
    + right. exists (S k), p. split_and!; try done; [set_solver|lia].
Qed.

(** Taking out the peer at a position. *)
Lemma without_at l k p : NoDup (ids l) -> l !! k = Some p ->
  without (ID p) l = take k l ++ drop (S k) l.
Proof.
  intros Hnd Hk. rewrite <- (take_drop_middle l k p Hk) in Hnd |- *.
  rewrite ids_app in Hnd. apply NoDup_app in Hnd as (H1 & H2 & H3). simpl in H2, H3.
  apply NoDup_cons in H3 as [H3 H4]. pose proof (lookup_lt_Some _ _ _ Hk).
  rewrite take_app_length' by (rewrite length_take; lia).
  rewrite drop_app_ge by (rewrite length_take; lia).
  rewrite length_take, Nat.min_l by lia. replace (S k - k)%nat with 1%nat by lia. simpl.
  unfold without. rewrite filter_app, filter_cons_False by naive_solver. f_equal.
  - apply without_notin. intros Hin. apply (H2 _ Hin). set_solver.
  - by apply without_notin.
Qed.

Lemma copy_down {A} (l : list A) k : (k < length l)%nat ->
  copy_at l k (drop (k + 1) l) = take k l ++ drop (S k) l ++ drop (length l - 1) l /\
  length (copy_at l k (drop (k + 1) l)) = length l.
Proof.
  intros Hk. unfold copy_at. rewrite length_drop.
  replace (length l - (k + 1))%nat with (length l - S k)%nat by lia.
  rewrite Nat.min_l by lia.
  replace (k + (length l - S k))%nat with (length l - 1)%nat by lia.
  replace (k + 1)%nat with (S k) by lia.
  rewrite (take_ge (drop (S k) l)) by (rewrite length_drop; lia).
  split; [done|]. rewrite !length_app, length_take, !length_drop. lia.
Qed.

Lemma moveToEnd_spec l k p : l !! k = Some p ->
  moveToEnd l (Z.of_nat k) = Ok (take k l ++ drop (S k) l ++ [p]).
Proof.
  intros Hk. pose proof (lookup_lt_Some _ _ _ Hk) as Hlt. unfold moveToEnd.
  rewrite (proj2 (Z.ltb_ge _ _)), (proj2 (Z.leb_gt _ _)) by lia. simpl.
  destruct (go_index_lt l (Z.of_nat k)) as (x & -> & Hx); [lia|]. simpl. rewrite Nat2Z.id in *.
  simplify_eq. destruct (copy_down l k Hlt) as [E ->]. rewrite E. f_equal.
  assert (Hlast : length (take k l ++ drop (S k) l) = (length l - 1)%nat).
  { rewrite length_app, length_take, length_drop. lia. }
  rewrite app_assoc. rewrite insert_app_r_alt by lia. rewrite Hlast, Nat.sub_diag.
  rewrite <- app_assoc. f_equal. f_equal.
  destruct (drop (length l - 1) l) as [|y [|z r]] eqn:E2; [|done|].
  - apply (f_equal length) in E2. rewrite length_drop in E2. simpl in E2. lia.
  - apply (f_equal length) in E2. rewrite length_drop in E2. simpl in E2. lia.
Qed.

(** ** The bucket implements the recency list *)

Lemma Add_lru b p : bucket_inv b ->
  exists b' ev, Add b p = Ok (b', ev) /\ (bk_peers b', ev) = lru_add (maxSize b) (bk_peers b) p /\
  maxSize b' = maxSize b.
Proof.
  intros (Hnd & Hmax & Hlen). unfold Add, lru_add, indexOf, Len in *.
  destruct (indexOf_loop_spec 0 (bk_peers b) (ID p)) as [[Hx ->]|(k & q & Hk & Hq & Hx & ->)]; [lia| |].
  - simpl. rewrite decide_False by done. destruct (Z.leb_spec (maxSize b) (Z.of_nat (length (bk_peers b)))).
    + rewrite decide_True by done. destruct (bk_peers b) as [|o l]; [simpl in *; lia|].
      simpl. by do 2 eexists.
    + rewrite decide_False by lia. by do 2 eexists.
  - rewrite Z.add_0_l. pose proof (lookup_lt_Some _ _ _ Hk) as Hlt.
    rewrite (proj2 (Z.leb_le _ _)), Nat2Z.id by lia.
    rewrite (moveToEnd_spec _ _ p) by (by apply list_lookup_insert_eq). simpl.
    rewrite decide_True by (apply elem_of_ids; eauto using list_elem_of_lookup_2).
    do 2 eexists. split; [done|]. simpl. split; [|done]. f_equal.
    rewrite take_insert_ge, drop_insert_lt by lia.
    rewrite <- Hq, (without_at _ k q) by done. by rewrite app_assoc.
Qed.

Lemma lru_add_inv size l p : 1 <= size -> NoDup (ids l) -> Z.of_nat (length l) <= size ->
  NoDup (ids (lru_add size l p).1) /\ Z.of_nat (length (lru_add size l p).1) <= size.
Proof.
  intros Hs Hnd Hlen. unfold lru_add. case_decide as Hin; [|case_decide as Hfull]; simpl.
  - rewrite ids_app, length_app. split.
    + apply NoDup_app. split_and!; [by apply NoDup_without| |apply NoDup_singleton].
      intros x [_ ?]%elem_of_without. simpl. set_solver.
    + apply elem_of_ids in Hin as (q & Hq & Hid). apply list_elem_of_lookup in Hq as [k Hk].
      rewrite <- Hid, (without_at _ k q), length_app, length_take, length_drop by done.
      apply lookup_lt_Some in Hk. simpl. lia.
  - destruct l as [|o l]; [simpl in *; lia|]. simpl in *. rewrite ids_app, length_app. simpl.
    split; [|lia]. apply NoDup_cons in Hnd as [_ Hnd]. apply NoDup_app.
    split_and!; [done| |apply NoDup_singleton]. intros x Hx. set_solver.
  - rewrite ids_app, length_app. simpl. split; [|lia].
    apply NoDup_app. split_and!; [done| |apply NoDup_singleton]. intros x Hx. set_solver.
Qed.

Lemma Add_inv b p b' ev : bucket_inv b -> Add b p = Ok (b', ev) -> bucket_inv b'.
Proof.
  intros Hb H. destruct (Add_lru b p Hb) as (b2 & ev2 & E & Hl & Hm). rewrite H in E. simplify_eq.
  destruct Hb as (Hnd & Hmax & Hlen). destruct (lru_add_inv (maxSize b) (bk_peers b) p) as [H1 H2];
    try done. rewrite <- Hl in *. simpl in *. unfold bucket_inv, Len. by rewrite Hm.
Qed.

Lemma Remove_without b x : bucket_inv b ->
  bucket_inv (Remove b x).1 /\ maxSize (Remove b x).1 = maxSize b /\
  List (Remove b x).1 = without x (List b) /\ (Remove b x).2 = bool_decide (x ∈ ids (List b)).
Proof.
  intros Hb. pose proof Hb as (Hnd & Hmax & Hlen). unfold Remove, indexOf, List.
  destruct (indexOf_loop_spec 0 (bk_peers b) x) as [[Hx ->]|(k & q & Hk & Hq & Hx & ->)]; [lia| |].
  + simpl. rewrite without_notin by done. by rewrite bool_decide_eq_false_2.
  + rewrite Z.add_0_l, (proj2 (Z.ltb_ge _ _)), Nat2Z.id by lia.
    pose proof (lookup_lt_Some _ _ _ Hk) as Hlt.
    destruct (copy_down (bk_peers b) k Hlt) as [E Hl]. simpl. rewrite Hl, E.
    rewrite app_assoc, take_app_le by (rewrite length_app, length_take, length_drop; lia).
    rewrite take_ge by (rewrite length_app, length_take, length_drop; lia).
    rewrite <- Hq, <- (without_at _ k q) by done.
    rewrite bool_decide_eq_true_2 by (apply elem_of_ids; eauto using list_elem_of_lookup_2).
    split_and!; try done. split_and!; [by apply NoDup_without|done|].
    unfold Len in *. simpl. rewrite (without_at _ k q) by done.
    rewrite length_app, length_take, length_drop. lia.
Qed.

(** C32: the bucket is a bounded LRU list.  [Add] never panics and is exactly
    the contract's [lru_add]; [Remove] takes out the peer with the ID and says
    whether it was there; both keep the IDs distinct and the size bounded. *)
Theorem Bucket_implements_lru b p x :
  bucket_inv b ->
  (exists b' ev, Add b p = Ok (b', ev) /\ bucket_inv b' /\ maxSize b' = maxSize b /\
     (List b', ev) = lru_add (maxSize b) (List b) p) /\
  (let '(b', found) := Remove b x in
   bucket_inv b' /\ maxSize b' = maxSize b /\ List b' = without x (List b) /\
   found = bool_decide (x ∈ ids (List b))).
Proof.
  intros Hb. split.
  - destruct (Add_lru b p Hb) as (b' & ev & E & Hl & Hm). exists b', ev.
    split_and!; try done. by eapply Add_inv.
  - pose proof (Remove_without b x Hb) as HR. by destruct (Remove b x).
Qed.

(** The example of the documentation, [k = 3]: [A C B], then [D]. *)
Lemma Bucket_implements_lru_witness :
  let p i := mkPeer (replicate NodeIDLength i) "" 0 in
  let b := mkBucket [p 65; p 67; p 66] 3 in
  exists b' ev, Add b (p 68) = Ok (b', ev) /\ List b' = [p 67; p 66; p 68] /\ ev = Some (p 65).
Proof.
  intros p b. destruct (Bucket_implements_lru b (p 68) zeroID) as [(b' & ev & E & _ & _ & Hl) _].
  - split_and!; [apply (bool_decide_eq_true_1 _); vm_compute; reflexivity|done|done].
  - exists b', ev. split; [exact E|]. vm_compute in E. injection E as <- <-. by split.
Defined.
