(* ===== verification/DhtRouting.v ===== *)
(** * The routing table (src/pkg/dht/routing.go)

    160 buckets indexed by the highest bit in which a peer differs from the
    local node, and the selection of the peers closest to a target. *)

From stdpp Require Import base strings list sorting sets gmap.
From S2P Require Import Prelude GoBytes Sha256 DhtId DhtBucket.

#[local] Open Scope Z_scope.
#[local] Open Scope go_scope.

Inductive DhtError : Type :=
| ErrInvalidPeer | ErrSelfPeer | ErrNilTable | ErrNilRequester | ErrNoClosePeers
| ErrCanceled | ErrRemote | ErrValueNotFound.

(** ** Sorting by distance (routing.go, lookup.go) *)

(** [peerDistance]. *)
Definition peerDistance : Type := Peer * Z.

Definition distance_le (x y : peerDistance) : Prop := x.2 <= y.2.
#[export] Instance distance_le_dec x y : Decision (distance_le x y).
Proof. unfold distance_le. apply _. Defined.
#[export] Instance distance_le_total : Total distance_le.
Proof. intros x y. unfold distance_le. destruct (Z.le_ge_cases x.2 y.2); auto. Qed.
#[export] Instance distance_le_trans : Transitive distance_le.
Proof. intros x y z. unfold distance_le. lia. Qed.

(** [sort.Slice] by distance.  Its order of equal elements is unspecified;
    [sort_unique] shows that with distinct IDs there is only one result. *)
Definition sortSlice (items : list peerDistance) : list peerDistance :=
  merge_sort distance_le items.

Definition sortPeersByDistance (target : NodeID) (peers : list Peer) : list Peer :=
  map fst (sortSlice (map (fun p => (p, xorDistance target (ID p))) peers)).

Definition dist (t : NodeID) (p : Peer) : Z := xorDistance t (ID p).

(** Peers with well-formed, distinct IDs. *)
Definition wf_peers (l : list Peer) : Prop := Forall (fun p => wf_id (ID p)) l /\ NoDup (ids l).

Lemma sort_perm t l : sortPeersByDistance t l ≡ₚ l.
Proof.
  unfold sortPeersByDistance, sortSlice. rewrite merge_sort_Permutation, map_map. simpl.
  by rewrite map_id.
Qed.

Lemma sort_sorted t l : StronglySorted (fun x y => dist t x <= dist t y) (sortPeersByDistance t l).
Proof.
  unfold sortPeersByDistance. set (items := map _ l).
  assert (Hitems : Forall (fun x => x.2 = dist t x.1) (sortSlice items)).
  { unfold sortSlice. rewrite merge_sort_Permutation. by apply Forall_map, Forall_true. }
  pose proof (StronglySorted_merge_sort distance_le items) as Hs.
  fold (sortSlice items) in Hs. revert Hitems Hs. generalize (sortSlice items) as s.
  induction s as [|x s IH]; intros Hit Hs; simpl; [constructor|].
  inversion Hit; subst. inversion Hs; subst. constructor; [auto|].
  apply Forall_map, Forall_forall. intros y Hy.
  rewrite Forall_forall in *. unfold distance_le in *.
  repeat match goal with H : forall z, z ∈ s -> _ |- _ => specialize (H y Hy) end.
  simpl in *. lia.
Qed.

Lemma wf_peers_inj t l p q : wf_id t -> wf_peers l -> p ∈ l -> q ∈ l -> dist t p = dist t q -> p = q.
Proof.
  intros Ht [Hwf Hnd] Hp Hq E. rewrite Forall_forall in Hwf.
  apply (xorDistance_inj t) in E; auto.
  apply list_elem_of_lookup in Hp as [i Hi], Hq as [j Hj].
  assert (i = j) as ->; [|by simplify_eq]. unfold ids in Hnd.
  eapply (NoDup_lookup (map ID l)); [done|..].
  - change (map ID l) with (ID <$> l). by rewrite list_lookup_fmap, Hi.
  - change (map ID l) with (ID <$> l). rewrite list_lookup_fmap, Hj. simpl. by rewrite E.
Qed.

Lemma wf_peers_perm l l' : l ≡ₚ l' -> wf_peers l -> wf_peers l'.
Proof.
  intros Hp [H1 H2]. split; [by rewrite <- Hp|].
  unfold ids in *. by rewrite <- (Permutation_map ID Hp).
Qed.

Lemma wf_peers_app_l l l' : wf_peers (l ++ l') -> wf_peers l.
Proof.
  intros [H1 H2]. apply Forall_app in H1 as [H1 _]. rewrite ids_app in H2.
  by apply NoDup_app in H2 as [H2 _].
Qed.

(** Any ordering of distinct peers by distance is the one computed. *)
Lemma sort_unique t l r : wf_id t -> wf_peers l -> r ≡ₚ l ->
  StronglySorted (fun x y => dist t x <= dist t y) r -> r = sortPeersByDistance t l.
Proof.
  intros Ht Hl Hr Hs. eapply StronglySorted_unique_strong; [|done|apply sort_sorted|].
  - intros x y Hx Hy H1 H2. rewrite Hr in Hx. rewrite sort_perm in Hy.
    apply (wf_peers_inj t l); try done. simpl in H1, H2. lia.
  - by rewrite sort_perm.
Qed.

Lemma sort_proper t l l' : wf_id t -> wf_peers l -> l ≡ₚ l' ->
  sortPeersByDistance t l = sortPeersByDistance t l'.
Proof.
  intros Ht Hl Hp. apply sort_unique; [done|by eapply wf_peers_perm| |apply sort_sorted].
  by rewrite sort_perm.
Qed.

(** The first [k]: everyone left out is farther than everyone kept. *)
Lemma take_sorted_closest t k l : wf_id t -> wf_peers l ->
  let r := take k (sortPeersByDistance t l) in
  (forall p, p ∈ r -> p ∈ l) /\ wf_peers r /\
  (forall p, p ∈ l -> p ∉ r -> length r = k /\ forall q, q ∈ r -> dist t q < dist t p).
Proof.
  intros Ht Hl. simpl. set (s := sortPeersByDistance t l).
  assert (Hs : s ≡ₚ l) by apply sort_perm. pose proof (sort_sorted t l) as Hss. fold s in Hss.
  rewrite <- (take_drop k s) in Hs, Hss.
  assert (Hwf : wf_peers (take k s ++ drop k s)) by (by eapply wf_peers_perm).
  split_and!.
  - intros p Hp. rewrite <- Hs. apply elem_of_app. by left.
  - by eapply wf_peers_app_l.
  - intros p Hp Hnot. rewrite <- Hs in Hp. apply elem_of_app in Hp as [|Hp]; [done|]. split.
    + rewrite length_take. assert (drop k s <> []) as Hd by (intros E; rewrite E in Hp; set_solver).
      destruct (decide (length s <= k)%nat) as [Hle|]; [|lia].
      by rewrite drop_ge in Hd.
    + intros q Hq. pose proof (StronglySorted_app_1_elem_of _ _ _ _ _ Hss Hq Hp) as Hle. simpl in Hle.
      destruct (decide (dist t q = dist t p)) as [E|]; [|lia]. exfalso. apply Hnot.
      assert (q = p) as <-; [|done]. apply (wf_peers_inj t (take k s ++ drop k s)); try done;
        apply elem_of_app; auto.
Qed.

(** ** The table *)

Record RoutingTable : Type := mkRoutingTable {
  localID : NodeID; bucketSize : Z; buckets : list Bucket }.

Definition NewRoutingTable (localID : NodeID) (bucketSize : Z) : RoutingTable :=
  let bucketSize := if bucketSize <=? 0 then 20 else bucketSize in
  mkRoutingTable localID bucketSize (replicate (NodeIDLength * 8) (NewBucket bucketSize)).

Definition set_bucket (rt : RoutingTable) (i : Z) (b : Bucket) : RoutingTable :=
  mkRoutingTable (localID rt) (bucketSize rt) (<[Z.to_nat i := b]> (buckets rt)).

(** [AddPeer] at time [now]. *)
Definition AddPeer (now : Z) (rt : RoutingTable) (peer : Peer)
  : exec (RoutingTable * option DhtError) :=
  if Addr peer =?s "" then Ok (rt, Some ErrInvalidPeer)
  else if bool_decide (ID peer = zeroID) then Ok (rt, Some ErrInvalidPeer)
  else if bool_decide (ID peer = localID rt) then Ok (rt, Some ErrSelfPeer)
  else
    let peer := mkPeer (ID peer) (Addr peer) now in
    let index := bucketIndex (localID rt) (ID peer) in
    let! bucket := go_index (buckets rt) index in
    let! (bucket, _) := Add bucket peer in
    Ok (set_bucket rt index bucket, None).

Definition RemovePeer (rt : RoutingTable) (peerID : NodeID) : exec (RoutingTable * bool) :=
  let index := bucketIndex (localID rt) peerID in
  let! bucket := go_index (buckets rt) index in
  let '(bucket, found) := Remove bucket peerID in
  Ok (set_bucket rt index bucket, found).

Definition allPeers (rt : RoutingTable) : list Peer := mjoin (map List (buckets rt)).

Definition GetClosestPeers (rt : RoutingTable) (target : NodeID) (k : Z) : list Peer :=
  if k <=? 0 then []
  else if bool_decide (allPeers rt = []) then []
  else
    let sorted := sortSlice (map (fun p => (p, xorDistance target (ID p))) (allPeers rt)) in
    let limit := if Z.of_nat (length sorted) <? k then Z.of_nat (length sorted) else k in
    map fst (take (Z.to_nat limit) sorted).

(** ** Invariant *)

(** A peer that [AddPeer] lets into bucket [i]. *)
Definition peer_ok (l : NodeID) (i : nat) (p : Peer) : Prop :=
  wf_id (ID p) /\ ID p <> l /\ ID p <> zeroID /\ Addr p <> "" /\
  bucketIndex l (ID p) = Z.of_nat i.

Definition rt_inv (rt : RoutingTable) : Prop :=
  wf_id (localID rt) /\ length (buckets rt) = (NodeIDLength * 8)%nat /\
  forall i b, buckets rt !! i = Some b ->
    bucket_inv b /\ Forall (peer_ok (localID rt) i) (bk_peers b).

Lemma NewRoutingTable_inv l n : wf_id l -> rt_inv (NewRoutingTable l n).
Proof.
  intros Hl. unfold NewRoutingTable. split_and!; [done|done|].
  cbn [buckets localID]. intros i b Hb. apply lookup_replicate in Hb as [-> _]. split; [apply NewBucket_inv|].
  constructor.
Qed.

Lemma bucketIndex_range l p : wf_id l -> wf_id p -> p <> l -> 0 <= bucketIndex l p < 160.
Proof.
  intros [Hl Hlb] [Hp Hpb] Hne. unfold bucketIndex.
  destruct (bucketIndex_loop_spec l p 0) as [HL ->]; try done; [congruence|].
  rewrite Hl in *. unfold NodeIDLength in *.
  set (x := Z.log2 _) in *. clearbody x.
  pose proof (Z.div_mod x 8). pose proof (Z.mod_pos_bound x 8). lia.
Qed.

Lemma elem_of_allPeers rt p : p ∈ allPeers rt <-> exists i b, buckets rt !! i = Some b /\ p ∈ bk_peers b.
Proof.
  unfold allPeers. rewrite list_elem_of_join. split.
  - intros (l & Hp & Hl). apply list_elem_of_fmap in Hl as (b & -> & Hb).
    apply list_elem_of_lookup in Hb as [i Hi]. eauto.
  - intros (i & b & Hb & Hp). exists (List b). split; [done|]. apply list_elem_of_fmap.
    eauto using list_elem_of_lookup_2.
Qed.

Lemma rt_NoDup l bs : forall k,
  (forall i b, bs !! i = Some b -> NoDup (ids (bk_peers b)) /\
     Forall (fun p => bucketIndex l (ID p) = Z.of_nat (k + i)) (bk_peers b)) ->
  NoDup (ids (mjoin (map List bs))) /\
  Forall (fun p => Z.of_nat k <= bucketIndex l (ID p)) (mjoin (map List bs)).
Proof.
  induction bs as [|b bs IH]; intros k H; simpl; [by split; constructor|].
  destruct (H 0%nat b eq_refl) as [Hnd Hb]. destruct (IH (S k)) as [IH1 IH2].
  { intros i b' Hi. replace (S k + i)%nat with (k + S i)%nat by lia. by apply H. }
  rewrite ids_app, Forall_app. rewrite Forall_forall in Hb, IH2. split_and!.
  - apply NoDup_app. split_and!; [done| |done].
    intros x (p & Hp & <-)%elem_of_ids (q & Hq & E)%elem_of_ids.
    specialize (Hb _ Hp). specialize (IH2 _ Hq). rewrite E in IH2. lia.
  - apply Forall_forall. intros p Hp. rewrite (Hb _ Hp). lia.
  - apply Forall_forall. intros p Hp. specialize (IH2 _ Hp). lia.
Qed.

(** The peers of a table have well-formed, distinct IDs. *)
Lemma allPeers_wf rt : rt_inv rt -> wf_peers (allPeers rt).
Proof.
  intros (Hl & Hlen & Hb). split.
  - apply Forall_forall. intros p (i & b & Hi & Hp)%elem_of_allPeers.
    destruct (Hb _ _ Hi) as [_ H]. rewrite Forall_forall in H. by apply H.
  - apply (rt_NoDup (localID rt) (buckets rt) 0). intros i b Hi. destruct (Hb _ _ Hi) as [(H & _) H'].
    split; [done|]. eapply Forall_impl; [done|]. intros p Hp. apply Hp.
Qed.

(** ** Operations *)

Lemma set_bucket_inv rt i b : rt_inv rt -> bucket_inv b ->
  Forall (peer_ok (localID rt) (Z.to_nat i)) (bk_peers b) -> rt_inv (set_bucket rt i b).
Proof.
  intros (Hl & Hlen & Hb) Hbi Hp. split_and!; [done|simpl; by rewrite length_insert|].
  intros j b' Hj. simpl in Hj. apply list_lookup_insert_Some in Hj as [(<- & <- & _)|[_ Hj]]; [done|].
  by apply Hb.
Qed.

Lemma lru_add_elem size l p q : q ∈ (lru_add size l p).1 -> q = p \/ q ∈ l.
Proof.
  unfold lru_add, without. repeat case_decide; simpl; rewrite elem_of_app, list_elem_of_singleton.
  - rewrite list_elem_of_filter. naive_solver.
  - destruct l; simpl; set_solver.
  - naive_solver.
Qed.

Lemma lru_add_mem size l p : p ∈ (lru_add size l p).1.
Proof.
  unfold lru_add. repeat case_decide; simpl; rewrite elem_of_app, list_elem_of_singleton; auto.
Qed.

(** A peer that passes the checks. *)
Lemma AddPeer_accept now rt p : rt_inv rt -> wf_id (ID p) ->
  Addr p <> "" -> ID p <> zeroID -> ID p <> localID rt ->
  let p' := mkPeer (ID p) (Addr p) now in
  let i := Z.to_nat (bucketIndex (localID rt) (ID p)) in
  exists rt', AddPeer now rt p = Ok (rt', None) /\ rt_inv rt' /\ localID rt' = localID rt /\
  p' ∈ allPeers rt' /\
  (exists b b', buckets rt !! i = Some b /\ buckets rt' !! i = Some b' /\
     List b' = (lru_add (maxSize b) (List b) p').1 /\ maxSize b' = maxSize b) /\
  forall j, j <> i -> buckets rt' !! j = buckets rt !! j.
Proof.
  intros Hrt Hp Ha Hz Hs p'. pose proof Hrt as (Hl & Hlen & Hb). unfold AddPeer.
  rewrite !bool_decide_eq_false_2 by assumption. cbn [ID]. fold p'.
  pose proof (bucketIndex_range _ _ Hl Hp Hs) as Hi. set (i := bucketIndex _ _) in *.
  assert (H160 : Z.of_nat (length (buckets rt)) = 160) by (by rewrite Hlen).
  destruct (go_index_lt (buckets rt) i) as (b & -> & Hbi); [lia|]. simpl.
  destruct (Hb _ _ Hbi) as [Hinv Hok].
  destruct (Add_lru b p' Hinv) as (b' & ev & E & Hlru & Hm). rewrite E. simpl.
  assert (Hb' : bk_peers b' = (lru_add (maxSize b) (bk_peers b) p').1) by (by rewrite <- Hlru).
  assert (Hlook : (Z.to_nat i < length (buckets rt))%nat) by lia.
  eexists. split; [reflexivity|]. split_and!; [|reflexivity|..].
  - apply set_bucket_inv; [done|by eapply Add_inv|]. apply Forall_forall. intros q Hq.
    rewrite Hb' in Hq. apply lru_add_elem in Hq as [->|Hq].
    + split_and!; [exact Hp|exact Hs|exact Hz|exact Ha|]. change (i = Z.of_nat (Z.to_nat i)). lia.
    + rewrite Forall_forall in Hok. auto.
  - apply elem_of_allPeers. exists (Z.to_nat i), b'. simpl. split; [by apply list_lookup_insert_eq|].
    rewrite Hb'. apply lru_add_mem.
  - exists b, b'. split_and!; [exact Hbi|by apply list_lookup_insert_eq|exact Hb'|exact Hm].
  - intros j Hj. by apply list_lookup_insert_ne.
Qed.

(** [AddPeer].  It never panics and keeps the table's invariant (distinct
    IDs, each peer in its bucket, buckets bounded, never the node itself).  It
    refuses a peer without address or with the zero ID as invalid and the local
    ID as self, changing nothing; otherwise the peer, stamped with the time, is
    the most recent of its bucket, and every other bucket is untouched. *)
Theorem AddPeer_spec now rt p : rt_inv rt -> wf_id (ID p) ->
  exists rt' err, AddPeer now rt p = Ok (rt', err) /\ rt_inv rt' /\ localID rt' = localID rt /\
  (err = Some ErrInvalidPeer <-> Addr p = "" \/ ID p = zeroID) /\
  (err = Some ErrSelfPeer <-> Addr p <> "" /\ ID p <> zeroID /\ ID p = localID rt) /\
  match err with
  | Some _ => rt' = rt
  | None =>
      let p' := mkPeer (ID p) (Addr p) now in
      let i := Z.to_nat (bucketIndex (localID rt) (ID p)) in
      p' ∈ allPeers rt' /\
      (exists b b', buckets rt !! i = Some b /\ buckets rt' !! i = Some b' /\
         List b' = (lru_add (maxSize b) (List b) p').1 /\ maxSize b' = maxSize b) /\
      forall j, j <> i -> buckets rt' !! j = buckets rt !! j
  end.
Proof.
  intros Hrt Hp.
  destruct (decide (Addr p = "")) as [Ha|Ha].
  { exists rt, (Some ErrInvalidPeer). unfold AddPeer. rewrite bool_decide_eq_true_2 by assumption.
    split_and!; [reflexivity|exact Hrt|reflexivity| | |reflexivity].
    - split; intros _; [left; exact Ha|reflexivity].
    - split; [discriminate|intros (? & _); contradiction]. }
  destruct (decide (ID p = zeroID)) as [Hz|Hz].
  { exists rt, (Some ErrInvalidPeer). unfold AddPeer.
    rewrite bool_decide_eq_false_2, bool_decide_eq_true_2 by assumption.
    split_and!; [reflexivity|exact Hrt|reflexivity| | |reflexivity].
    - split; intros _; [right; exact Hz|reflexivity].
    - split; [discriminate|intros (_ & ? & _); contradiction]. }
  assert (Hvalid : ~ (Addr p = "" \/ ID p = zeroID)) by (intros [?|?]; contradiction).
  destruct (decide (ID p = localID rt)) as [Hs|Hs].
  { exists rt, (Some ErrSelfPeer). unfold AddPeer.
    rewrite !(bool_decide_eq_false_2 _), bool_decide_eq_true_2 by assumption.
    split_and!; [reflexivity|exact Hrt|reflexivity| | |reflexivity].
    - split; [discriminate|intros ?; contradiction].
    - split; intros _; [split_and!; assumption|reflexivity]. }
  destruct (AddPeer_accept now rt p Hrt Hp Ha Hz Hs) as (rt' & E & Hinv & Hloc & Hrest).
  exists rt', None. split_and!; [exact E|exact Hinv|exact Hloc| | |exact Hrest].
  - split; [discriminate|intros ?; contradiction].
  - split; [discriminate|intros (_ & _ & ?); contradiction].
Qed.

(** ** A small table *)

Definition demo_id (x : Z) : NodeID := replicate 19 0 ++ [x].
Definition demo_peer (x : Z) : Peer := mkPeer (demo_id x) "addr" 0.

Lemma demo_id_wf x : is_byte x -> wf_id (demo_id x).
Proof. intros Hx. split; [done|]. unfold demo_id. simpl. repeat (constructor; [done|]). done. Qed.

Lemma AddPeer_spec_witness :
  exists rt', AddPeer 7 (NewRoutingTable (demo_id 1) 2) (demo_peer 2) = Ok (rt', None) /\
  mkPeer (demo_id 2) "addr" 7 ∈ allPeers rt'.
Proof.
  destruct (AddPeer_spec 7 (NewRoutingTable (demo_id 1) 2) (demo_peer 2))
    as (rt' & err & E & _ & _ & _ & _ & H).
  - apply NewRoutingTable_inv, demo_id_wf. unfold is_byte. lia.
  - apply demo_id_wf. unfold is_byte. lia.
  - destruct err; [|exists rt'; split; [exact E|apply H]].
    apply (f_equal (fun r => match r with Ok (_, e) => e | _ => None end)) in E.
    vm_compute in E. discriminate.
Defined.

(** [RemovePeer].  It never panics, keeps the invariant, takes out exactly
    the peer with the ID and reports whether it was known. *)
Theorem RemovePeer_spec rt x : rt_inv rt -> wf_id x -> x <> localID rt ->
  exists rt' found, RemovePeer rt x = Ok (rt', found) /\ rt_inv rt' /\ localID rt' = localID rt /\
  found = bool_decide (x ∈ ids (allPeers rt)) /\
  forall p, p ∈ allPeers rt' <-> p ∈ allPeers rt /\ ID p <> x.
Proof.
  intros Hrt Hx Hne. pose proof Hrt as (Hl & Hlen & Hb). unfold RemovePeer.
  pose proof (bucketIndex_range _ _ Hl Hx Hne) as Hi. set (i := bucketIndex _ _) in *.
  assert (H160 : Z.of_nat (length (buckets rt)) = 160) by (by rewrite Hlen).
  destruct (go_index_lt (buckets rt) i) as (b & -> & Hbi); [lia|]. cbn [exec_bind].
  destruct (Hb _ _ Hbi) as [Hinv Hok]. rewrite Forall_forall in Hok.
  destruct (Remove_without b x Hinv) as (Hinv' & Hm & Hw & Hf). unfold List in Hw, Hf.
  destruct (Remove b x) as [b' found]. cbn [fst snd] in *.
  assert (Hhome : forall j bj p, buckets rt !! j = Some bj -> p ∈ bk_peers bj -> ID p = x ->
    j = Z.to_nat i).
  { intros j bj p Hj Hp Hpx. destruct (Hb _ _ Hj) as [_ Hbj]. rewrite Forall_forall in Hbj.
    destruct (Hbj _ Hp) as (_ & _ & _ & _ & Hidx). rewrite Hpx in Hidx. subst i. lia. }
  exists (set_bucket rt i b'), found. split_and!; [reflexivity| |reflexivity| |].
  - apply set_bucket_inv; [done|done|]. apply Forall_forall. intros p Hp. apply Hok.
    rewrite Hw in Hp. by apply list_elem_of_filter in Hp as [_ Hp].
  - rewrite Hf. apply bool_decide_ext. rewrite !elem_of_ids. split.
    + intros (p & Hp & Hpx). exists p. split; [|done]. apply elem_of_allPeers. eauto.
    + intros (p & Hp & Hpx). exists p. split; [|done].
      apply elem_of_allPeers in Hp as (j & bj & Hj & Hp).
      pose proof (Hhome _ _ _ Hj Hp Hpx). by simplify_eq.
  - intros p. rewrite !elem_of_allPeers. cbn [set_bucket buckets]. split.
    + intros (j & bj & Hj & Hp). apply list_lookup_insert_Some in Hj as [(<- & <- & _)|[Hji Hj]].
      * rewrite Hw in Hp. apply list_elem_of_filter in Hp as [? Hp]. eauto.
      * split; [eauto|]. intros Hpx. by apply Hji, eq_sym, (Hhome _ _ _ Hj Hp).
    + intros [(j & bj & Hj & Hp) Hpx]. destruct (decide (j = Z.to_nat i)) as [->|Hji].
      * exists (Z.to_nat i), b'. split; [apply list_lookup_insert_eq; lia|]. simplify_eq.
        rewrite Hw. by apply list_elem_of_filter.
      * exists j, bj. by rewrite list_lookup_insert_ne.
Qed.

Lemma RemovePeer_spec_witness :
  exists rt', RemovePeer (NewRoutingTable (demo_id 1) 2) (demo_id 2) = Ok (rt', false).
Proof.
  destruct (RemovePeer_spec (NewRoutingTable (demo_id 1) 2) (demo_id 2))
    as (rt' & found & E & _ & _ & Hf & _).
  - apply NewRoutingTable_inv, demo_id_wf. unfold is_byte. lia.
  - apply demo_id_wf. unfold is_byte. lia.
  - discriminate.
  - exists rt'. rewrite E, Hf. by vm_compute.
Defined.

(** ** The closest peers *)

Lemma GetClosestPeers_take rt target k :
  GetClosestPeers rt target k = take (Z.to_nat k) (sortPeersByDistance target (allPeers rt)).
Proof.
  unfold GetClosestPeers, sortPeersByDistance. destruct (Z.leb_spec k 0).
  { by rewrite Z2Nat.nonpos by lia. }
  case_bool_decide as E; [rewrite E; by destruct (Z.to_nat k)|].
  set (s := sortSlice _). change (map fst) with (fmap (M := list) (@fst Peer Z)).
  rewrite <- fmap_take. f_equal. destruct (Z.ltb_spec (Z.of_nat (length s)) k); [|done].
  rewrite Nat2Z.id, !take_ge; unfold peerDistance in *; [done|lia|lia].
Qed.

(** the closest peers.  [GetClosestPeers] returns peers of the table with
    distinct IDs in order of distance to the target, [k] of them or all there
    are, and every peer it leaves out is strictly farther than every one it
    returns. *)
Theorem GetClosestPeers_spec rt target k : rt_inv rt -> wf_id target ->
  let r := GetClosestPeers rt target k in
  (forall p, p ∈ r -> p ∈ allPeers rt) /\ wf_peers r /\
  StronglySorted (fun x y => dist target x <= dist target y) r /\
  length r = Nat.min (Z.to_nat k) (length (allPeers rt)) /\
  (forall p q, p ∈ allPeers rt -> p ∉ r -> q ∈ r -> dist target q < dist target p).
Proof.
  intros Hrt Ht. simpl. rewrite GetClosestPeers_take.
  destruct (take_sorted_closest target (Z.to_nat k) (allPeers rt) Ht (allPeers_wf _ Hrt))
    as (H1 & H2 & H3).
  split_and!; try done.
  - pose proof (sort_sorted target (allPeers rt)) as Hs.
    rewrite <- (take_drop (Z.to_nat k)) in Hs. by apply StronglySorted_app_1_l in Hs.
  - rewrite length_take. by rewrite sort_perm.
  - intros p q Hp Hnot Hq. by apply H3.
Qed.

(** ** What lookups need of a table

    The iterative lookups only ask a table for the closest peers; this is the
    interface they are verified against. *)
Class PeerSource (T : Type) := {
  closest : T -> NodeID -> Z -> list Peer;
  source_ok : T -> Prop;
  closest_wf t target k : source_ok t -> wf_id target -> wf_peers (closest t target k);
  closest_sorted t target k : source_ok t -> wf_id target ->
    StronglySorted (fun x y => dist target x <= dist target y) (closest t target k);
  closest_length t target k : (length (closest t target k) <= Z.to_nat k)%nat }.

#[export] Instance RoutingTable_source : PeerSource RoutingTable.
Proof.
  refine {| closest := GetClosestPeers; source_ok := rt_inv |}.
  - intros t target k Ht Hw. rewrite GetClosestPeers_take.
    by apply take_sorted_closest, allPeers_wf.
  - intros t target k Ht Hw. rewrite GetClosestPeers_take.
    pose proof (sort_sorted target (allPeers t)) as Hs.
    rewrite <- (take_drop (Z.to_nat k)) in Hs. by apply StronglySorted_app_1_l in Hs.
  - intros t target k. rewrite GetClosestPeers_take, length_take. lia.
Defined.

(** A table of local ID 1 that knows the peers 2 and 3. *)
Definition add_or_keep (rt : RoutingTable) (p : Peer) : RoutingTable :=
  match AddPeer 7 rt p with Ok (rt, _) => rt | Panic => rt end.

Definition demo_table : RoutingTable :=
  add_or_keep (add_or_keep (NewRoutingTable (demo_id 1) 2) (demo_peer 2)) (demo_peer 3).

Lemma add_or_keep_inv rt p : rt_inv rt -> wf_id (ID p) ->
  rt_inv (add_or_keep rt p) /\ localID (add_or_keep rt p) = localID rt.
Proof.
  intros Hrt Hp. unfold add_or_keep.
  destruct (decide (Addr p = "")) as [Ha|Ha].
  { unfold AddPeer. by rewrite bool_decide_eq_true_2. }
  destruct (decide (ID p = zeroID)) as [Hz|Hz].
  { unfold AddPeer. by rewrite bool_decide_eq_false_2, bool_decide_eq_true_2 by assumption. }
  destruct (decide (ID p = localID rt)) as [Hs|Hs].
  { unfold AddPeer. rewrite !(bool_decide_eq_false_2 _), bool_decide_eq_true_2 by assumption. done. }
  by destruct (AddPeer_accept 7 rt p Hrt Hp Ha Hz Hs) as (rt' & -> & ? & ? & _).
Qed.

Lemma demo_table_inv : rt_inv demo_table.
Proof.
  apply add_or_keep_inv; [apply add_or_keep_inv|]; [apply NewRoutingTable_inv| |];
    apply demo_id_wf; unfold is_byte; lia.
Qed.

Lemma GetClosestPeers_spec_witness :
  length (GetClosestPeers demo_table (demo_id 9) 3) = 2%nat.
Proof.
  destruct (GetClosestPeers_spec demo_table (demo_id 9) 3 demo_table_inv) as (_ & _ & _ & H & _).
  - apply demo_id_wf. unfold is_byte. lia.
  - rewrite H. by vm_compute.
Defined.
