(* ===== verification/DhtLookup.v ===== *)
(** * Iterative lookups (src/pkg/dht/lookup.go, and the loop of store.go)

    The Kademlia lookup: keep a shortlist of the closest known peers, ask the
    closest ones not asked yet, merge what they answer.  [IterativeFindNode] and
    [IterativeFindValue] run the same loop; the second may stop early with a
    value.  The remote peers, the context and the order in which Go ranges over
    a map are parameters. *)

From stdpp Require Import base strings list sorting sets gmap.
From S2P Require Import Prelude GoBytes Sha256 DhtId DhtBucket DhtRouting.

#[local] Open Scope Z_scope.
#[local] Open Scope go_scope.

Record FindNodeOptions : Type := mkOptions { K : Z; Alpha : Z; MaxRounds : Z }.

Definition normalizeFindNodeOptions (opts : FindNodeOptions) : Z * Z * Z :=
  let k := if K opts <=? 0 then 20 else K opts in
  let alpha := if Alpha opts <=? 0 then 3 else Alpha opts in
  let maxRounds := if MaxRounds opts <=? 0 then Z.of_nat NodeIDLength * 8 else MaxRounds opts in
  (k, alpha, maxRounds).

(** The loop of [nextUnqueried], with the batch so far; [queried] is the set of
    the keys mapped to true. *)
Fixpoint nextUnqueried_loop (shortlist : list Peer) (queried : gset NodeID) (alpha : Z)
    (batch : list Peer) : list Peer :=
  match shortlist with
  | [] => batch
  | peer :: rest =>
      if bool_decide (ID peer ∈ queried) then nextUnqueried_loop rest queried alpha batch
      else
        let batch := batch ++ [peer] in
        if alpha <=? Z.of_nat (length batch) then batch
        else nextUnqueried_loop rest queried alpha batch
  end.

Definition nextUnqueried (shortlist : list Peer) (queried : gset NodeID) (alpha : Z) : list Peer :=
  nextUnqueried_loop shortlist queried alpha [].

Definition trimPeers (peers : list Peer) (k : Z) : list Peer :=
  if (k <=? 0) || (Z.of_nat (length peers) <=? k) then peers else take (Z.to_nat k) peers.

Definition candidateLimit (k alpha : Z) : Z :=
  let limit := i64 (k * 4) in
  let minLimit := i64 (alpha * 2) in
  let limit := if limit <? minLimit then minLimit else limit in
  if limit <? k then k else limit.

(** The map [seen] of [mergePeers]. *)
Definition mergeSeen (existing incoming : list Peer) : gmap NodeID Peer :=
  let seen := fold_left (fun m p => <[ID p := p]> m) existing ∅ in
  fold_left (fun m p => if bool_decide (ID p = zeroID) then m else <[ID p := p]> m) incoming seen.

(** What a remote peer answers: an error, a value, or peers closer to the key. *)
Inductive Answer (V : Type) : Type :=
| Failed
| Found (v : V)
| Closer (ps : list Peer).
Arguments Failed {V}.
Arguments Found {V} v.
Arguments Closer {V} ps.

(** The variables of the loop, with a trace of the peers asked (in order) and
    of the peers heard of. *)
Record Lookup : Type := mkLookup {
  shortlist : list Peer; queried : gset NodeID; asked : list Peer; heard : list Peer }.

Section Lookup.
Context {V : Type}.
(** The order in which [range] visits a map. *)
Context (rangeMap : gmap NodeID Peer -> list Peer).
(** The remote peers; an answer may depend on everything asked before. *)
Context (requester : list Peer -> Peer -> Answer V).
(** Whether the context is done at the start of a round. *)
Context (ctxDone : nat -> bool).

Definition mergePeers (existing incoming : list Peer) : list Peer :=
  if bool_decide (incoming = []) then existing
  else rangeMap (mergeSeen existing incoming).

(** The loop over a batch: a value ends the lookup. *)
Fixpoint lookup_batch (batch : list Peer) (st : Lookup) : Lookup * option V :=
  match batch with
  | [] => (st, None)
  | peer :: batch =>
      let queried := {[ID peer]} ∪ queried st in
      let asked' := asked st ++ [peer] in
      match requester (asked st) peer with
      | Failed => lookup_batch batch (mkLookup (shortlist st) queried asked' (heard st))
      | Found v => (mkLookup (shortlist st) queried asked' (heard st), Some v)
      | Closer response =>
          lookup_batch batch (mkLookup (mergePeers (shortlist st) response) queried asked'
                                (heard st ++ response))
      end
  end.

Inductive LookupEnd : Type :=
| Canceled          (* the context was done *)
| GotValue (v : V)
| Exhausted.        (* no one left to ask, or [maxRounds] rounds *)

(** The loop over rounds; [rounds] are left of [maxRounds]. *)
Fixpoint lookup_loop (target : NodeID) (k alpha : Z) (rounds : nat) (round : nat) (st : Lookup)
  : Lookup * LookupEnd :=
  match rounds with
  | O => (st, Exhausted)
  | S rounds =>
      if ctxDone round then (st, Canceled)
      else
        let batch := nextUnqueried (shortlist st) (queried st) alpha in
        if bool_decide (batch = []) then (st, Exhausted)
        else
          match lookup_batch batch st with
          | (st, Some v) => (st, GotValue v)
          | (st, None) =>
              let s := sortPeersByDistance target (shortlist st) in
              let s := trimPeers s (candidateLimit k alpha) in
              lookup_loop target k alpha rounds (S round)
                (mkLookup s (queried st) (asked st) (heard st))
          end
  end.

(** The part the two lookups share: from the routing table to the end of the
    loop. *)
Definition lookup_run {T} `{PeerSource T} (rt : T) (target : NodeID) (opts : FindNodeOptions)
  : DhtError + (Lookup * LookupEnd) :=
  let '(k, alpha, maxRounds) := normalizeFindNodeOptions opts in
  let start := closest rt target k in
  if bool_decide (start = []) then inl ErrNoClosePeers
  else
    let start := sortPeersByDistance target start in
    inr (lookup_loop target k alpha (Z.to_nat maxRounds) 0 (mkLookup start ∅ [] start)).
End Lookup.

(** [IterativeFindNode]; nil arguments are [None], an RPC error is [None]. *)
Definition IterativeFindNode {T} `{PeerSource T} (rangeMap : gmap NodeID Peer -> list Peer)
    (ctxDone : nat -> bool) (rt : option T)
    (requester : option (list Peer -> Peer -> NodeID -> option (list Peer)))
    (target : NodeID) (opts : FindNodeOptions) : DhtError + list Peer :=
  match rt, requester with
  | None, _ => inl ErrNilTable
  | _, None => inl ErrNilRequester
  | Some rt, Some requester =>
      let ask hist p : Answer Empty_set :=
        match requester hist p target with Some ps => Closer ps | None => Failed end in
      match lookup_run rangeMap ask ctxDone rt target opts with
      | inl err => inl err
      | inr (st, Canceled) => inl ErrCanceled
      | inr (st, GotValue v) => match v with end
      | inr (st, Exhausted) => inr (trimPeers (shortlist st) (fst (fst (normalizeFindNodeOptions opts))))
      end
  end.

(** ** The helpers *)

Lemma normalize_pos opts k alpha maxRounds :
  normalizeFindNodeOptions opts = (k, alpha, maxRounds) -> 1 <= k /\ 1 <= alpha /\ 1 <= maxRounds.
Proof.
  unfold normalizeFindNodeOptions. intros [= <- <- <-].
  split_and!; case_match; zbool; unfold NodeIDLength; lia.
Qed.

Lemma candidateLimit_ge k alpha : k <= candidateLimit k alpha.
Proof. unfold candidateLimit. repeat case_match; zbool; lia. Qed.

Lemma trimPeers_take l k : 1 <= k -> trimPeers l k = take (Z.to_nat k) l.
Proof.
  intros Hk. unfold trimPeers. destruct (Z.leb_spec k 0); [lia|]. simpl.
  destruct (Z.leb_spec (Z.of_nat (length l)) k); [|done]. by rewrite take_ge by lia.
Qed.

Lemma nextUnqueried_loop_spec l q alpha batch : 1 <= alpha ->
  Z.of_nat (length batch) < alpha ->
  exists more, nextUnqueried_loop l q alpha batch = batch ++ more /\ more `sublist_of` l /\
  Forall (fun p => ID p ∉ q) more /\ Z.of_nat (length (batch ++ more)) <= alpha /\
  (Z.of_nat (length (batch ++ more)) < alpha ->
   more = filter (fun p => ID p ∉ q) l).
Proof.
  intros Ha. revert batch. induction l as [|p l IH]; intros batch Hb; simpl.
  - exists []. rewrite app_nil_r. split_and!; try done; try constructor. lia.
  - case_bool_decide as Hin.
    + destruct (IH batch Hb) as (more & -> & Hs & Hf & Hlen & Hall). exists more.
      split_and!; try done; [by constructor|]. intros Hlt.
      rewrite filter_cons_False by naive_solver. auto.
    + destruct (Z.leb_spec alpha (Z.of_nat (length (batch ++ [p])))) as [Hge|Hlt].
      * exists [p]. rewrite length_app in *. simpl in *. split_and!; try done; try lia.
        -- apply sublist_skip, sublist_nil_l.
        -- by constructor.
      * destruct (IH (batch ++ [p]) Hlt) as (more & E & Hs & Hf & Hlen & Hall).
        exists (p :: more). rewrite E. rewrite <- app_assoc in *. simpl in *.
        split_and!; try done; [by constructor|by constructor|].
        intros Hl. rewrite filter_cons_True by done. f_equal. auto.
Qed.

Lemma nextUnqueried_spec l q alpha : 1 <= alpha ->
  let batch := nextUnqueried l q alpha in
  batch `sublist_of` l /\ Forall (fun p => ID p ∉ q) batch /\
  Z.of_nat (length batch) <= alpha /\
  (batch = [] -> Forall (fun p => ID p ∈ q) l).
Proof.
  intros Ha. unfold nextUnqueried.
  destruct (nextUnqueried_loop_spec l q alpha []) as (more & -> & Hs & Hf & Hlen & Hall); [done|simpl; lia|].
  simpl in *. split_and!; try done. intros ->. specialize (Hall ltac:(simpl; lia)).
  apply Forall_forall. intros p Hp. destruct (decide (ID p ∈ q)) as [|Hn]; [done|].
  assert (p ∈ filter (fun p => ID p ∉ q) l) as Hin by (by apply list_elem_of_filter).
  rewrite <- Hall in Hin. set_solver.
Qed.

(** ** Merging *)

Definition keyed (m : gmap NodeID Peer) : Prop := forall x p, m !! x = Some p -> ID p = x.

Lemma keyed_insert m p : keyed m -> keyed (<[ID p := p]> m).
Proof. intros Hm x q Hq. apply lookup_insert_Some in Hq as [[<- <-]|[_ Hq]]; auto. Qed.

Lemma seen_existing l m : keyed m ->
  let m' := fold_left (fun m p => <[ID p := p]> m) l m in
  keyed m' /\ (forall x, is_Some (m' !! x) <-> is_Some (m !! x) \/ x ∈ ids l) /\
  (forall x p, m' !! x = Some p -> m !! x = Some p \/ p ∈ l).
Proof.
  revert m. induction l as [|p l IH]; intros m Hm; simpl.
  - split_and!; [done|set_solver|auto].
  - destruct (IH _ (keyed_insert m p Hm)) as (H1 & H2 & H3). split_and!; [done| |].
    + intros x. rewrite H2, lookup_insert_is_Some, elem_of_cons. destruct (decide (x = ID p)); naive_solver.
    + intros x q Hq. destruct (H3 _ _ Hq) as [Hi|]; [|set_solver].
      apply lookup_insert_Some in Hi as [[_ <-]|[_ ?]]; [right; set_solver|auto].
Qed.

Lemma seen_incoming l m : keyed m ->
  let m' := fold_left (fun m p => if bool_decide (ID p = zeroID) then m else <[ID p := p]> m) l m in
  keyed m' /\ (forall x, is_Some (m' !! x) <-> is_Some (m !! x) \/ (x ∈ ids l /\ x <> zeroID)) /\
  (forall x p, m' !! x = Some p -> m !! x = Some p \/ p ∈ l).
Proof.
  revert m. induction l as [|p l IH]; intros m Hm; simpl.
  - split_and!; [done|set_solver|auto].
  - case_bool_decide as Hz.
    + destruct (IH _ Hm) as (H1 & H2 & H3). split_and!; [done| |].
      * intros x. rewrite H2, elem_of_cons. naive_solver.
      * intros x q Hq. destruct (H3 _ _ Hq); [auto|right; set_solver].
    + destruct (IH _ (keyed_insert m p Hm)) as (H1 & H2 & H3). split_and!; [done| |].
      * intros x. rewrite H2, lookup_insert_is_Some, elem_of_cons.
        destruct (decide (x = ID p)); naive_solver.
      * intros x q Hq. destruct (H3 _ _ Hq) as [Hi|]; [|right; set_solver].
        apply lookup_insert_Some in Hi as [[_ <-]|[_ ?]]; [right; set_solver|auto].
Qed.

Lemma mergeSeen_spec ex inc :
  keyed (mergeSeen ex inc) /\
  (forall x, is_Some (mergeSeen ex inc !! x) <-> x ∈ ids ex \/ (x ∈ ids inc /\ x <> zeroID)) /\
  (forall x p, mergeSeen ex inc !! x = Some p -> p ∈ ex \/ p ∈ inc).
Proof.
  unfold mergeSeen. destruct (seen_existing ex ∅) as (H1 & H2 & H3).
  { intros x p. by rewrite lookup_empty. }
  destruct (seen_incoming inc _ H1) as (H4 & H5 & H6). split_and!; [done| |].
  - intros x. rewrite H5, H2, lookup_empty. split; [|naive_solver].
    intros [[[? ?]|?]|?]; naive_solver.
  - intros x p Hp. destruct (H6 _ _ Hp) as [Hq|]; [|auto].
    destruct (H3 _ _ Hq) as [He|]; [by rewrite lookup_empty in He|auto].
Qed.

Lemma ids_fst (l : list (NodeID * Peer)) : (forall x p, (x, p) ∈ l -> ID p = x) -> ids l.*2 = l.*1.
Proof.
  induction l as [|[x p] l IH]; intros H; simpl; [done|]. f_equal; [apply H; set_solver|].
  apply IH. intros y q Hin. apply H. set_solver.
Qed.

Section Facts.
Context {V : Type} (rangeMap : gmap NodeID Peer -> list Peer)
  (requester : list Peer -> Peer -> Answer V) (ctxDone : nat -> bool) (target : NodeID).
(** [range] visits every entry once. *)
Hypothesis Hrange : forall m, rangeMap m ≡ₚ (map_to_list m).*2.
(** Identifiers on the wire are 20 bytes. *)
Hypothesis Hreq : forall h p ps q, requester h p = Closer ps -> q ∈ ps -> wf_id (ID q).
Hypothesis Ht : wf_id target.

Lemma mergePeers_spec ex inc : wf_peers ex -> Forall (fun p => wf_id (ID p)) inc ->
  let r := mergePeers rangeMap ex inc in
  wf_peers r /\ (forall x, x ∈ ids r <-> x ∈ ids ex \/ (x ∈ ids inc /\ x <> zeroID)).
Proof.
  intros [Hex Hnd] Hinc. unfold mergePeers. case_bool_decide as E.
  { subst inc. split; [done|]. set_solver. }
  destruct (mergeSeen_spec ex inc) as (Hk & Hdom & Hval). set (m := mergeSeen ex inc) in *.
  assert (Hids : ids (rangeMap m) ≡ₚ (map_to_list m).*1).
  { unfold ids. rewrite (Permutation_map ID (Hrange m)). fold (ids (map_to_list m).*2).
    rewrite ids_fst; [done|]. intros x p Hin. apply Hk. by apply elem_of_map_to_list. }
  split; [split|].
  - rewrite Hrange. apply Forall_forall. intros p Hp. apply list_elem_of_fmap in Hp as ([x q] & -> & Hin).
    apply elem_of_map_to_list in Hin. rewrite Forall_forall in Hex, Hinc.
    destruct (Hval _ _ Hin); simpl; auto.
  - rewrite Hids. apply NoDup_fst_map_to_list.
  - intros x. rewrite Hids, <- Hdom, list_elem_of_fmap. split.
    + intros ([y p] & -> & Hin). apply elem_of_map_to_list in Hin. eauto.
    + intros [p Hp]. exists (x, p). split; [done|]. by apply elem_of_map_to_list.
Qed.

(** ** Who is covered *)

(** The members of a list closer to the target than [d]. *)
Definition closerThan (d : Z) (l : list Peer) : list NodeID :=
  filter (fun x => xorDistance target x < d) (ids l).

(** A peer ID the shortlist accounts for: listed, or beaten by [k] members. *)
Definition covered (k : nat) (l : list Peer) (x : NodeID) : Prop :=
  x ∈ ids l \/ (k <= length (closerThan (xorDistance target x) l))%nat.

Lemma closerThan_mono d l l' : NoDup (ids l) ->
  (forall x, x ∈ ids l -> xorDistance target x < d -> x ∈ ids l') ->
  (length (closerThan d l) <= length (closerThan d l'))%nat.
Proof.
  intros Hnd Hsub. apply submseteq_length, NoDup_submseteq; [by apply NoDup_filter|].
  intros x. unfold closerThan. rewrite !list_elem_of_filter. naive_solver.
Qed.

Lemma closerThan_all d l : (forall q, q ∈ l -> dist target q < d) -> closerThan d l = ids l.
Proof.
  unfold closerThan. induction l as [|p l IH]; intros H; simpl; [done|].
  rewrite filter_cons_True by (apply (H p); set_solver). f_equal. apply IH. set_solver.
Qed.

Lemma covered_mono k l l' x : NoDup (ids l) -> (forall y, y ∈ ids l -> y ∈ ids l') ->
  covered k l x -> covered k l' x.
Proof.
  intros Hnd Hsub [Hin|Hk]; [left; auto|right]. etrans; [exact Hk|]. apply closerThan_mono; auto.
Qed.

Lemma covered_trim k n l x : wf_peers l -> (k <= n)%nat -> covered k l x ->
  covered k (take n (sortPeersByDistance target l)) x.
Proof.
  intros Hl Hn Hc. destruct (take_sorted_closest target n l Ht Hl) as (Hsub & Hr & Hout).
  set (r := take n _) in *.
  assert (Hfull : forall p, p ∈ l -> p ∉ r -> dist target p <= xorDistance target x -> covered k r x).
  { intros p Hp Hnot Hle. destruct (Hout p Hp Hnot) as [Hlen Hlt]. right.
    rewrite closerThan_all; [unfold ids; rewrite length_map; lia|].
    intros q Hq. specialize (Hlt q Hq). lia. }
  destruct Hc as [Hin|Hk].
  - apply elem_of_ids in Hin as (p & Hp & <-). destruct (decide (p ∈ r)) as [Hpr|Hnot].
    + left. apply elem_of_ids. eauto.
    + by apply (Hfull p).
  - destruct (decide (Forall (fun p => dist target p < xorDistance target x -> p ∈ r) l)) as [Hall|Hex].
    + right. etrans; [exact Hk|]. apply closerThan_mono; [apply Hl|].
      intros y (p & Hp & <-)%elem_of_ids Hd. rewrite Forall_forall in Hall.
      apply elem_of_ids. exists p. split; [|done]. by apply Hall.
    + apply not_Forall_Exists in Hex; [|apply _]. apply Exists_exists in Hex as (p & Hp & Hnot).
      destruct (decide (dist target p < xorDistance target x)) as [Hd|Hd]; [|exfalso; apply Hnot; intros ?; lia].
      apply (Hfull p); [done| |lia]. intros Hin. apply Hnot. auto.
Qed.

(** ** The invariant of the loop *)

Record lookup_inv (k : nat) (st : Lookup) : Prop := {
  li_wf : wf_peers (shortlist st);
  li_cover x : x ∈ ids (heard st) -> x <> zeroID -> covered k (shortlist st) x;
  li_sound x : x ∈ ids (shortlist st) -> x ∈ ids (heard st);
  li_queried : queried st = list_to_set (ids (asked st));
  li_once : NoDup (ids (asked st)) }.

Lemma lookup_batch_inv k batch st st' v :
  lookup_inv k st -> NoDup (ids batch) -> (forall p, p ∈ batch -> ID p ∉ queried st) ->
  lookup_batch rangeMap requester batch st = (st', v) ->
  lookup_inv k st' /\
  (exists more, asked st' = asked st ++ more /\ more `prefix_of` batch /\ (v = None -> more = batch)).
Proof.
  revert st. induction batch as [|p batch IH]; intros st Hinv Hnd Hq Hb; simpl in Hb.
  { simplify_eq. split; [done|]. exists []. by rewrite app_nil_r. }
  apply NoDup_cons in Hnd as [Hp Hnd]. pose proof Hinv as [Hwf Hcov Hsound Hqs Honce].
  assert (Hpq : ID p ∉ queried st) by (apply Hq; set_solver).
  assert (Hq' : {[ID p]} ∪ queried st = list_to_set (ids (asked st ++ [p]))).
  { rewrite ids_app, list_to_set_app_L, Hqs. simpl. set_solver. }
  assert (Ho' : NoDup (ids (asked st ++ [p]))).
  { rewrite ids_app. apply NoDup_app. split_and!; [done| |apply NoDup_singleton].
    intros x Hx Hx'. simpl in Hx'. apply list_elem_of_singleton in Hx'. subst x.
    apply Hpq. rewrite Hqs. by apply elem_of_list_to_set. }
  assert (Hrest : forall q, q ∈ batch -> ID q ∉ {[ID p]} ∪ queried st).
  { intros q Hin. rewrite not_elem_of_union, not_elem_of_singleton. split; [|apply Hq; set_solver].
    intros E. apply Hp. rewrite <- E. apply elem_of_ids. eauto. }
  assert (Hnext : forall st1, lookup_inv k st1 -> asked st1 = asked st ++ [p] ->
    queried st1 = {[ID p]} ∪ queried st -> lookup_batch rangeMap requester batch st1 = (st', v) ->
    lookup_inv k st' /\
    exists more, asked st' = asked st ++ more /\ more `prefix_of` p :: batch /\
                 (v = None -> more = p :: batch)).
  { intros st1 H1 Ha1 Hq1 Hb1. destruct (IH st1 H1 Hnd) as (H' & more & Ha & Hpre & Hn); [by rewrite Hq1|done|].
    split; [done|]. exists (p :: more). rewrite Ha, Ha1, <- app_assoc. split; [done|].
    split; [by apply prefix_cons|]. intros Hv. f_equal. auto. }
  destruct (requester (asked st) p) as [|v0|resp] eqn:Hr.
  - eapply (Hnext (mkLookup _ _ _ _)); [|reflexivity|reflexivity|exact Hb]. by split.
  - simplify_eq. split; [by split|]. exists [p]. split_and!; try done.
    apply prefix_cons, prefix_nil.
  - assert (Hresp : Forall (fun q => wf_id (ID q)) resp) by (apply Forall_forall; eauto).
    destruct (mergePeers_spec (shortlist st) resp Hwf Hresp) as [Hm Hids].
    eapply (Hnext (mkLookup _ _ _ _)); [|reflexivity|reflexivity|exact Hb].
    split; simpl; try done.
    + intros x Hx Hz. rewrite ids_app, elem_of_app in Hx. destruct Hx as [Hx|Hx].
      * eapply covered_mono; [apply Hwf| |by apply Hcov]. intros y Hy. apply Hids. auto.
      * left. apply Hids. auto.
    + intros x Hx. rewrite ids_app, elem_of_app. apply Hids in Hx as [Hx|[Hx _]]; auto.
Qed.

Lemma trim_inv k n st : (k <= n)%nat -> lookup_inv k st ->
  lookup_inv k (mkLookup (take n (sortPeersByDistance target (shortlist st)))
    (queried st) (asked st) (heard st)).
Proof.
  intros Hn [Hwf Hcov Hsound Hqs Honce].
  destruct (take_sorted_closest target n (shortlist st) Ht Hwf) as (Hsub & Hr & _).
  split; simpl; try done.
  - intros x Hx Hz. apply covered_trim; auto.
  - intros x (p & Hp & <-)%elem_of_ids. apply Hsound, elem_of_ids. eauto.
Qed.

Definition sorted_by_distance (l : list Peer) : Prop :=
  StronglySorted (fun x y => dist target x <= dist target y) l.

Lemma take_sort_sorted n l : sorted_by_distance (take n (sortPeersByDistance target l)).
Proof.
  pose proof (sort_sorted target l) as Hs. rewrite <- (take_drop n) in Hs.
  by apply StronglySorted_app_1_l in Hs.
Qed.

Lemma lookup_loop_inv k alpha rounds round st st' e :
  1 <= k -> 1 <= alpha -> lookup_inv (Z.to_nat k) st -> sorted_by_distance (shortlist st) ->
  lookup_loop rangeMap requester ctxDone target k alpha rounds round st = (st', e) ->
  lookup_inv (Z.to_nat k) st' /\
  (e = Exhausted -> sorted_by_distance (shortlist st') /\
     (length (asked st') < length (asked st) + rounds ->
      Forall (fun p => ID p ∈ ids (asked st')) (shortlist st'))%nat) /\
  Z.of_nat (length (asked st')) <= Z.of_nat (length (asked st)) + Z.of_nat rounds * alpha.
Proof.
  intros Hk Ha. revert round st. induction rounds as [|rounds IH]; intros round st Hinv Hs Hl; simpl in Hl.
  { simplify_eq. split_and!; [done| |lia]. intros _. split; [done|lia]. }
  assert (Hra : 0 <= Z.of_nat rounds * alpha) by nia.
  assert (HSra : Z.of_nat (S rounds) * alpha = alpha + Z.of_nat rounds * alpha) by lia.
  destruct (ctxDone round); [simplify_eq; split_and!; [done|done|lia]|].
  destruct (nextUnqueried_spec (shortlist st) (queried st) alpha Ha) as (Hsub & Hfresh & Hlen & Hempty).
  set (batch := nextUnqueried _ _ _) in *.
  case_bool_decide as Hb.
  { simplify_eq. split_and!; [done| |lia]. intros _. split; [done|]. intros _.
    eapply Forall_impl; [by apply Hempty|]. intros p Hp. rewrite (li_queried _ _ Hinv) in Hp.
    by apply elem_of_list_to_set in Hp. }
  destruct (lookup_batch rangeMap requester batch st) as [st1 v] eqn:Hlb.
  assert (Hnd : NoDup (ids batch)).
  { eapply sublist_NoDup; [|by apply fmap_sublist]. apply (li_wf _ _ Hinv). }
  rewrite Forall_forall in Hfresh.
  destruct (lookup_batch_inv _ _ _ _ _ Hinv Hnd Hfresh Hlb) as (Hinv1 & more & Ha1 & Hpre & Hmore).
  apply prefix_length in Hpre.
  assert (Hl1 : length (asked st1) = (length (asked st) + length more)%nat) by (by rewrite Ha1, length_app).
  destruct v as [v|]; [simplify_eq; split_and!; [done|done|lia]|].
  specialize (Hmore eq_refl) as ->.
  assert (Hb1 : (1 <= length batch)%nat) by (destruct batch; [done|simpl; lia]).
  pose proof (candidateLimit_ge k alpha).
  rewrite trimPeers_take in Hl by lia.
  destruct (IH _ _ (trim_inv (Z.to_nat k) (Z.to_nat (candidateLimit k alpha)) _ ltac:(lia) Hinv1)
    (take_sort_sorted _ _) Hl) as (H1 & H2 & H3). simpl in H2, H3.
  split_and!; [done| |lia]. intros He. destruct (H2 He) as [H4 H5]. split; [done|].
  intros Hlt. apply H5. lia.
Qed.

(** The whole run: what the shortlist says at the end. *)
Lemma lookup_run_inv {T} `{PeerSource T} (rt : T) opts k alpha maxRounds st e :
  source_ok rt -> normalizeFindNodeOptions opts = (k, alpha, maxRounds) ->
  lookup_run rangeMap requester ctxDone rt target opts = inr (st, e) ->
  lookup_inv (Z.to_nat k) st /\
  (e = Exhausted -> sorted_by_distance (shortlist st) /\
     (Z.of_nat (length (asked st)) < maxRounds ->
      Forall (fun p => ID p ∈ ids (asked st)) (shortlist st))) /\
  Z.of_nat (length (asked st)) <= maxRounds * alpha.
Proof.
  intros Hrt Hopts Hrun. unfold lookup_run in Hrun. rewrite Hopts in Hrun.
  destruct (normalize_pos _ _ _ _ Hopts) as (Hk & Ha & Hm).
  case_bool_decide; [done|]. injection Hrun as Hrun.
  set (start := sortPeersByDistance target (closest rt target k)) in *.
  assert (Hwf : wf_peers start).
  { eapply wf_peers_perm; [symmetry; apply sort_perm|]. by apply closest_wf. }
  assert (Hinv : lookup_inv (Z.to_nat k) (mkLookup start ∅ [] start)).
  { split; simpl; try done; [by left|constructor]. }
  destruct (lookup_loop_inv _ _ _ _ _ _ _ Hk Ha Hinv (sort_sorted _ _) Hrun) as (H1 & H2 & H3).
  simpl in H2, H3. split_and!; [done| |lia].
  intros He. destruct (H2 He) as [H4 H5]. split; [done|]. intros Hlt. apply H5. lia.
Qed.
End Facts.

(** ** The order of map iteration does not matter *)

Section Order.
Context {V : Type} (range1 range2 : gmap NodeID Peer -> list Peer)
  (requester : list Peer -> Peer -> Answer V) (ctxDone : nat -> bool) (target : NodeID).
Hypothesis Hrange1 : forall m, range1 m ≡ₚ (map_to_list m).*2.
Hypothesis Hrange2 : forall m, range2 m ≡ₚ (map_to_list m).*2.
Hypothesis Hreq : forall h p ps q, requester h p = Closer ps -> q ∈ ps -> wf_id (ID q).
Hypothesis Ht : wf_id target.

(** States that differ only in the order of the shortlist. *)
Definition same_upto_order (st1 st2 : Lookup) : Prop :=
  shortlist st1 ≡ₚ shortlist st2 /\ queried st1 = queried st2 /\
  asked st1 = asked st2 /\ heard st1 = heard st2.

Lemma keyed_fold_perm l l' m : l ≡ₚ l' -> NoDup (ids l) ->
  fold_left (fun (m : gmap NodeID Peer) p => <[ID p := p]> m) l m =
  fold_left (fun (m : gmap NodeID Peer) p => <[ID p := p]> m) l' m.
Proof.
  intros Hp. revert m. induction Hp as [|p l l' Hp IH|p q l|l l' l'' H1 IH1 H2 IH2]; intros m Hnd; simpl in *.
  - done.
  - apply NoDup_cons in Hnd as [_ Hnd]. auto.
  - apply NoDup_cons in Hnd as [Hq _]. rewrite insert_insert_ne; [done|]. set_solver.
  - rewrite IH1 by done. apply IH2. unfold ids in *. by rewrite <- (Permutation_map ID H1).
Qed.

Lemma mergePeers_order ex1 ex2 inc : ex1 ≡ₚ ex2 -> wf_peers ex1 ->
  mergePeers range1 ex1 inc ≡ₚ mergePeers range2 ex2 inc.
Proof.
  intros Hp [_ Hnd]. unfold mergePeers. case_bool_decide; [done|].
  rewrite Hrange1, Hrange2. unfold mergeSeen. by rewrite (keyed_fold_perm ex1 ex2).
Qed.

Lemma lookup_batch_order batch st1 st2 : same_upto_order st1 st2 -> wf_peers (shortlist st1) ->
  let r1 := lookup_batch range1 requester batch st1 in
  let r2 := lookup_batch range2 requester batch st2 in
  same_upto_order r1.1 r2.1 /\ r1.2 = r2.2 /\ wf_peers (shortlist r1.1).
Proof.
  revert st1 st2. induction batch as [|p batch IH]; intros st1 st2 (Hs & Hq & Ha & Hh) Hwf; simpl.
  { done. }
  rewrite <- Ha, <- Hq, <- Hh. destruct (requester (asked st1) p) as [|v|resp] eqn:Hr.
  - by apply IH.
  - by split_and!.
  - apply IH; simpl.
    + split_and!; [by apply mergePeers_order|done..].
    + destruct (mergePeers_spec range1 requester target Hrange1 Hreq Ht (shortlist st1) resp Hwf) as [? _]; [|done].
      apply Forall_forall. eauto.
Qed.

Lemma lookup_loop_order k alpha rounds round st :
  1 <= candidateLimit k alpha -> wf_peers (shortlist st) ->
  same_upto_order
    (lookup_loop range1 requester ctxDone target k alpha rounds round st).1
    (lookup_loop range2 requester ctxDone target k alpha rounds round st).1 /\
  (lookup_loop range1 requester ctxDone target k alpha rounds round st).2 =
  (lookup_loop range2 requester ctxDone target k alpha rounds round st).2 /\
  ((lookup_loop range1 requester ctxDone target k alpha rounds round st).2 = Exhausted ->
   shortlist (lookup_loop range1 requester ctxDone target k alpha rounds round st).1 =
   shortlist (lookup_loop range2 requester ctxDone target k alpha rounds round st).1).
Proof.
  intros Hk. revert round st. induction rounds as [|rounds IH]; intros round st Hwf; simpl; [done|].
  destruct (ctxDone round); [done|]. case_bool_decide; [done|].
  set (batch := nextUnqueried _ _ _).
  destruct (lookup_batch_order batch st st) as ((Hs & Hq & Ha & Hh) & Hv & Hwf1); [done|done|].
  destruct (lookup_batch range1 requester batch st) as [st1 v1].
  destruct (lookup_batch range2 requester batch st) as [st2 v2]. simpl in *. subst v2.
  destruct v1 as [v|]; simpl; [by split_and!|].
  rewrite <- Hq, <- Ha, <- Hh, <- (sort_proper target _ _ Ht Hwf1 Hs). apply IH. simpl.
  rewrite trimPeers_take by lia.
  by destruct (take_sorted_closest target (Z.to_nat (candidateLimit k alpha)) _ Ht Hwf1) as (_ & ? & _).
Qed.
End Order.

(** ** The guarantees *)

Lemma filter_length_all {A} (P : A -> Prop) `{forall x, Decision (P x)} l :
  (length l <= length (filter P l))%nat -> Forall P l.
Proof.
  induction l as [|x l IH]; [done|]. rewrite filter_cons. case_decide; simpl; intros Hl.
  - constructor; [done|]. apply IH. lia.
  - pose proof (length_filter P l). lia.
Qed.

Lemma closerThan_length target d l : (length (closerThan target d l) <= length l)%nat.
Proof.
  unfold closerThan. etrans; [apply length_filter|]. unfold ids. by rewrite length_map.
Qed.

Section Result.
Context {T : Type} `{PeerSource T} (rangeMap : gmap NodeID Peer -> list Peer)
  (ctxDone : nat -> bool) (rt : T) (requester : list Peer -> Peer -> NodeID -> option (list Peer))
  (target : NodeID) (opts : FindNodeOptions).

Definition ask_node (hist : list Peer) (p : Peer) : Answer Empty_set :=
  match requester hist p target with Some ps => Closer ps | None => Failed end.

Lemma IterativeFindNode_run r :
  IterativeFindNode rangeMap ctxDone (Some rt) (Some requester) target opts = inr r ->
  exists st, lookup_run rangeMap ask_node ctxDone rt target opts = inr (st, Exhausted) /\
  r = trimPeers (shortlist st) (fst (fst (normalizeFindNodeOptions opts))).
Proof.
  unfold IterativeFindNode. fold ask_node.
  destruct (lookup_run rangeMap ask_node ctxDone rt target opts) as [|[st [|[]|]]]; try done.
  intros [= <-]. eauto.
Qed.
End Result.

Section FindNode.
Context {T : Type} `{PeerSource T} (rangeMap : gmap NodeID Peer -> list Peer)
  (ctxDone : nat -> bool) (rt : T) (requester : list Peer -> Peer -> NodeID -> option (list Peer))
  (target : NodeID).
Hypothesis Hrange : forall m, rangeMap m ≡ₚ (map_to_list m).*2.
Hypothesis Hreq : forall h p ps q, requester h p target = Some ps -> q ∈ ps -> wf_id (ID q).
Hypothesis Ht : wf_id target.
Hypothesis Hrt : source_ok rt.

Lemma ask_node_wf h p ps q : ask_node requester target h p = Closer ps -> q ∈ ps -> wf_id (ID q).
Proof. unfold ask_node. destruct (requester h p target) eqn:E; [|done]. intros [= <-]. eauto. Qed.

(** What the end of the loop says about the first [k] of the shortlist. *)
Lemma final_closest k st : 1 <= k -> lookup_inv target (Z.to_nat k) st ->
  sorted_by_distance target (shortlist st) ->
  let r := trimPeers (shortlist st) k in
  wf_peers r /\ sorted_by_distance target r /\ Z.of_nat (length r) <= k /\
  (forall x, x ∈ ids r -> x ∈ ids (heard st)) /\
  (forall x, x ∈ ids (heard st) -> x <> zeroID -> x ∉ ids r ->
     Z.of_nat (length r) = k /\ forall q, q ∈ r -> dist target q < xorDistance target x).
Proof.
  intros Hk [Hwf Hcov Hsound _ _] Hs. simpl. rewrite trimPeers_take by done.
  assert (Hsort : shortlist st = sortPeersByDistance target (shortlist st))
    by (by apply sort_unique).
  rewrite Hsort. destruct (take_sorted_closest target (Z.to_nat k) (shortlist st) Ht Hwf) as (Hsub & Hr & _).
  split_and!; [done|apply take_sort_sorted|rewrite length_take; lia| |].
  - intros x (p & Hp & <-)%elem_of_ids. apply Hsound, elem_of_ids. eauto.
  - intros x Hx Hz Hnot.
    destruct (covered_trim rangeMap (ask_node requester target) target Hrange ask_node_wf Ht
      _ (Z.to_nat k) _ _ Hwf (Nat.le_refl _) (Hcov x Hx Hz)) as [|Hc]; [done|].
    set (r := take _ _) in *.
    assert (Hlen : (length r <= Z.to_nat k)%nat) by (subst r; rewrite length_take; lia).
    assert (Hids : length (ids r) = length r) by apply length_map.
    assert (Hall : Forall (fun y => xorDistance target y < xorDistance target x) (ids r))
      by (apply (filter_length_all (fun y => xorDistance target y < xorDistance target x));
          fold (closerThan target (xorDistance target x) r); lia).
    split; [|intros q Hq; rewrite Forall_forall in Hall; apply Hall, elem_of_ids; eauto].
    pose proof (closerThan_length target (xorDistance target x) r). lia.
Qed.

(** C7: a lookup returns the closest peers it heard of.  When
    [IterativeFindNode] succeeds, its result is at most [k] peers with distinct
    IDs in order of distance to the target, all of them from the routing table or
    from an answer; and every other peer in the table's selection or in any
    answer is farther than all of them, the result then being full.  Trimming the
    shortlist between rounds never loses a result. *)
Theorem IterativeFindNode_closest opts r :
  IterativeFindNode rangeMap ctxDone (Some rt) (Some requester) target opts = inr r ->
  let k := fst (fst (normalizeFindNodeOptions opts)) in
  exists st, lookup_run rangeMap (ask_node requester target) ctxDone rt target opts =
               inr (st, Exhausted) /\
  wf_peers r /\ sorted_by_distance target r /\ Z.of_nat (length r) <= k /\
  (forall x, x ∈ ids r -> x ∈ ids (heard st)) /\
  (forall x, x ∈ ids (heard st) -> x <> zeroID -> x ∉ ids r ->
     Z.of_nat (length r) = k /\ forall q, q ∈ r -> dist target q < xorDistance target x).
Proof.
  intros (st & Hrun & ->)%IterativeFindNode_run.
  destruct (normalizeFindNodeOptions opts) as [[k alpha] maxRounds] eqn:Ho. simpl.
  destruct (normalize_pos _ _ _ _ Ho) as (Hk & _).
  destruct (lookup_run_inv _ _ _ _ Hrange ask_node_wf Ht rt opts _ _ _ _ _ Hrt Ho Hrun)
    as (Hinv & Hex & _). destruct (Hex eq_refl) as [Hs _].
  exists st. split; [done|]. by apply final_closest.
Qed.

(** C31: a lookup asks each peer at most once and stops.  It asks at most
    [alpha] peers in each of at most [maxRounds] rounds, never one twice; and
    unless it used up its rounds, every peer it returns has been asked. *)
Theorem IterativeFindNode_asks_once opts st e :
  lookup_run rangeMap (ask_node requester target) ctxDone rt target opts = inr (st, e) ->
  let '(k, alpha, maxRounds) := normalizeFindNodeOptions opts in
  NoDup (ids (asked st)) /\ Z.of_nat (length (asked st)) <= maxRounds * alpha /\
  (e = Exhausted -> Z.of_nat (length (asked st)) < maxRounds ->
   forall p, p ∈ trimPeers (shortlist st) k -> ID p ∈ ids (asked st)).
Proof.
  intros Hrun. destruct (normalizeFindNodeOptions opts) as [[k alpha] maxRounds] eqn:Ho.
  destruct (normalize_pos _ _ _ _ Ho) as (Hk & _).
  destruct (lookup_run_inv _ _ _ _ Hrange ask_node_wf Ht rt opts _ _ _ _ _ Hrt Ho Hrun)
    as (Hinv & Hex & Hlen).
  split_and!; [apply Hinv|done|]. intros He Hlt p Hp. destruct (Hex He) as [_ Hall].
  specialize (Hall Hlt). rewrite Forall_forall in Hall. apply Hall.
  rewrite trimPeers_take in Hp by done.
  rewrite <- (take_drop (Z.to_nat k) (shortlist st)). apply elem_of_app. by left.
Qed.

(** C21: the result of a lookup does not depend on the order in which Go visits
    the map that merges answers, although that order is different in every run. *)
Theorem IterativeFindNode_deterministic rangeMap' opts :
  (forall m, rangeMap' m ≡ₚ (map_to_list m).*2) ->
  IterativeFindNode rangeMap ctxDone (Some rt) (Some requester) target opts =
  IterativeFindNode rangeMap' ctxDone (Some rt) (Some requester) target opts.
Proof.
  intros Hrange'. unfold IterativeFindNode, lookup_run. fold (ask_node requester target).
  destruct (normalizeFindNodeOptions opts) as [[k alpha] maxRounds] eqn:Ho.
  destruct (normalize_pos _ _ _ _ Ho) as (Hk & _).
  case_bool_decide; [done|]. set (start := sortPeersByDistance target _).
  pose proof (candidateLimit_ge k alpha).
  destruct (lookup_loop_order rangeMap rangeMap' (ask_node requester target) ctxDone target
    Hrange Hrange' ask_node_wf Ht k alpha (Z.to_nat maxRounds) 0 (mkLookup start ∅ [] start))
    as (_ & He & Hs); [lia| |].
  { simpl. eapply wf_peers_perm; [symmetry; apply sort_perm|]. by apply closest_wf. }
  destruct (lookup_loop rangeMap _ _ _ _ _ _ _ _) as [st1 e1].
  destruct (lookup_loop rangeMap' _ _ _ _ _ _ _ _) as [st2 e2]. simpl in *. subst e2.
  destruct e1 as [|[]|]; [done|]. by rewrite (Hs eq_refl).
Qed.
End FindNode.

(** ** A concrete lookup

    Peer 2 knows peer 8, peer 3 does not answer, the others know no one; the
    target is 9. *)

Definition range_keys (m : gmap NodeID Peer) : list Peer := (map_to_list m).*2.

Definition demo_requester (h : list Peer) (p : Peer) (target : NodeID) : option (list Peer) :=
  if bool_decide (ID p = demo_id 2) then Some [demo_peer 8]
  else if bool_decide (ID p = demo_id 3) then None else Some [].

Lemma demo_requester_wf h p target ps q : demo_requester h p target = Some ps -> q ∈ ps -> wf_id (ID q).
Proof.
  unfold demo_requester. repeat case_bool_decide; intros [= <-] Hq; [|set_solver].
  apply list_elem_of_singleton in Hq as ->. apply demo_id_wf. unfold is_byte. lia.
Qed.

Definition demo_options : FindNodeOptions := mkOptions 2 1 0.

Lemma demo_target_wf : wf_id (demo_id 9).
Proof. apply demo_id_wf. unfold is_byte. lia. Qed.

(** The same IDs and addresses as [demo_peer], but stamped by the table. *)
Lemma IterativeFindNode_closest_witness :
  exists r, IterativeFindNode range_keys (fun _ => false) (Some demo_table)
    (Some demo_requester) (demo_id 9) demo_options = inr r /\
  sorted_by_distance (demo_id 9) r /\ ids r = [demo_id 8; demo_id 3].
Proof.
  eexists. split; [vm_compute; reflexivity|].
  match goal with |- sorted_by_distance _ ?r /\ _ =>
    destruct (@IterativeFindNode_closest RoutingTable RoutingTable_source range_keys (fun _ => false) demo_table demo_requester
      (demo_id 9) (fun m => reflexivity _) (fun h p => demo_requester_wf h p (demo_id 9))
      demo_target_wf demo_table_inv demo_options r) as (st & _ & _ & Hs & _)
  end; [vm_compute; reflexivity|]. split; [exact Hs|reflexivity].
Defined.

Lemma IterativeFindNode_asks_once_witness :
  exists st e, lookup_run range_keys (ask_node demo_requester (demo_id 9)) (fun _ => false)
    demo_table (demo_id 9) demo_options = inr (st, e) /\ NoDup (ids (asked st)) /\
  length (asked st) = 3%nat.
Proof.
  do 2 eexists. split; [vm_compute; reflexivity|].
  match goal with |- NoDup (ids (asked ?st)) /\ _ =>
    destruct (@IterativeFindNode_asks_once RoutingTable RoutingTable_source range_keys (fun _ => false) demo_table demo_requester
      (demo_id 9) (fun m => reflexivity _) (fun h p => demo_requester_wf h p (demo_id 9))
      demo_target_wf demo_table_inv demo_options st Exhausted) as (Hs & _)
  end; [vm_compute; reflexivity|]. split; [exact Hs|reflexivity].
Defined.

Lemma IterativeFindNode_deterministic_witness :
  IterativeFindNode range_keys (fun _ => false) (Some demo_table) (Some demo_requester)
    (demo_id 9) demo_options =
  IterativeFindNode (fun m => reverse (range_keys m)) (fun _ => false) (Some demo_table)
    (Some demo_requester) (demo_id 9) demo_options.
Proof.
  apply (@IterativeFindNode_deterministic RoutingTable RoutingTable_source range_keys (fun _ => false) demo_table demo_requester
    (demo_id 9) (fun m => reflexivity _) (fun h p => demo_requester_wf h p (demo_id 9))
    demo_target_wf demo_table_inv).
  intros m. rewrite reverse_Permutation. reflexivity.
Defined.
