(* ===== verification/DhtStore.v ===== *)
(** * Storing and finding values (src/pkg/dht/store.go, src/cmd/dhtsim/main.go)

    The DHT node with its local store and RPC handlers, the iterative store and
    value lookup, and the in-process network of the simulator, in which a value
    that was stored is found again. *)

From stdpp Require Import base strings list sorting sets gmap.
From S2P Require Import Prelude GoBytes Sha256 DhtId DhtBucket DhtRouting.
From S2P Require Import DhtLookup.

#[local] Open Scope Z_scope.
#[local] Open Scope go_scope.

(** ** The node *)

Record Node : Type := mkDhtNode {
  peer : Peer; rt : RoutingTable; store : gmap string (list Z) }.

Definition NewNode (nid : NodeID) (addr : string) (bucketSize : Z) : Node :=
  mkDhtNode (mkPeer nid addr 0) (NewRoutingTable nid bucketSize) ∅.

(** The value is copied in and out, so it is the bytes that are stored. *)
Definition StoreLocal (n : Node) (key : string) (value : list Z) : Node :=
  mkDhtNode (peer n) (rt n) (<[key := value]> (store n)).

Definition FindValueLocal (n : Node) (key : string) : option (list Z) := store n !! key.

(** Handlers; [done] is whether the caller's context is done. *)
Definition HandleFindNode (done : bool) (n : Node) (target : NodeID) (k : Z) : option (list Peer) :=
  if done then None else Some (GetClosestPeers (rt n) target k).

Definition HandleStore (done : bool) (n : Node) (key : string) (value : list Z)
  : Node * option DhtError :=
  if done then (n, Some ErrCanceled) else (StoreLocal n key value, None).

Definition HandleFindValue (done : bool) (n : Node) (key : string) (k : Z) : Answer (list Z) :=
  if done then Failed
  else match FindValueLocal n key with
       | Some value => Found value
       | None => Closer (GetClosestPeers (rt n) (KeyToID key) k)
       end.

(** ** Iterative operations *)

(** [IterativeFindValue]: a value, or the closest peers with [ErrValueNotFound]. *)
Definition IterativeFindValue {T} `{PeerSource T} (rangeMap : gmap NodeID Peer -> list Peer)
    (ctxDone : nat -> bool) (rt : option T)
    (requester : option (list Peer -> Peer -> string -> Answer (list Z)))
    (key : string) (opts : FindNodeOptions)
  : option (list Z) * list Peer * option DhtError :=
  match rt, requester with
  | None, _ => (None, [], Some ErrNilTable)
  | _, None => (None, [], Some ErrNilRequester)
  | Some rt, Some requester =>
      let target := KeyToID key in
      match lookup_run rangeMap (fun hist p => requester hist p key) ctxDone rt target opts with
      | inl err => (None, [], Some err)
      | inr (_, Canceled) => (None, [], Some ErrCanceled)
      | inr (_, GotValue value) => (Some value, [], None)
      | inr (st, Exhausted) =>
          (None, trimPeers (shortlist st) (fst (fst (normalizeFindNodeOptions opts))),
           Some ErrValueNotFound)
      end
  end.

(** The loop of [IterativeStore] over the closest peers; [S] is the state of
    the remote peers, which a store changes. *)
Fixpoint storeAll {S} (storeReq : S -> Peer -> string -> list Z -> S * option DhtError)
    (s : S) (key : string) (value : list Z) (peers : list Peer) : S * option DhtError :=
  match peers with
  | [] => (s, None)
  | p :: peers =>
      match storeReq s p key value with
      | (s, Some err) => (s, Some err)
      | (s, None) => storeAll storeReq s key value peers
      end
  end.

Definition IterativeStore {T S} `{PeerSource T} (rangeMap : gmap NodeID Peer -> list Peer)
    (ctxDone : nat -> bool) (rt : option T)
    (find : option (list Peer -> Peer -> NodeID -> option (list Peer)))
    (storeReq : option (S -> Peer -> string -> list Z -> S * option DhtError))
    (s : S) (key : string) (value : list Z) (opts : FindNodeOptions)
  : S * list Peer * option DhtError :=
  match rt, find, storeReq with
  | None, _, _ => (s, [], Some ErrNilTable)
  | _, None, _ => (s, [], Some ErrNilRequester)
  | _, _, None => (s, [], Some ErrNilRequester)
  | Some rt, Some find, Some storeReq =>
      let target := KeyToID key in
      match IterativeFindNode rangeMap ctxDone (Some rt) (Some find) target opts with
      | inl err => (s, [], Some err)
      | inr closest =>
          let '(s, err) := storeAll storeReq s key value closest in (s, closest, err)
      end
  end.

(** ** The simulator's network (cmd/dhtsim/main.go) *)

Definition bucketK : Z := 20.

(** [simNetwork]. *)
Notation simNetwork := (gmap NodeID Node).

Definition findNode (net : simNetwork) (hist : list Peer) (p : Peer) (target : NodeID)
  : option (list Peer) :=
  match net !! ID p with
  | None => None
  | Some remote => HandleFindNode false remote target bucketK
  end.

Definition storeValue (net : simNetwork) (p : Peer) (key : string) (value : list Z)
  : simNetwork * option DhtError :=
  match net !! ID p with
  | None => (net, Some ErrRemote)
  | Some remote =>
      let '(remote, err) := HandleStore false remote key value in
      (<[ID p := remote]> net, err)
  end.

Definition findValue (net : simNetwork) (hist : list Peer) (p : Peer) (key : string)
  : Answer (list Z) :=
  match net !! ID p with
  | None => Failed
  | Some remote => HandleFindValue false remote key bucketK
  end.

(** [sensorKey]. *)
Definition sensorKey (nodeID : string) : string :=
  String.append "sensor:" (String.append nodeID ":latest").

(** ** Local store *)

Lemma FindValueLocal_StoreLocal n key value key' :
  FindValueLocal (StoreLocal n key value) key' =
  if decide (key = key') then Some value else FindValueLocal n key'.
Proof.
  unfold FindValueLocal, StoreLocal. simpl. case_decide; [subst; by rewrite lookup_insert_eq|].
  by rewrite lookup_insert_ne.
Qed.

(** ** Two lookups in step

    A value lookup asks the same peers as a node lookup until it asks a holder
    of the value. *)
Section Lockstep.
Context {V1 V2 : Type} (rangeMap : gmap NodeID Peer -> list Peer) (ctxDone : nat -> bool)
  (ask1 : list Peer -> Peer -> Answer V1) (ask2 : list Peer -> Peer -> Answer V2)
  (holder : Peer -> Prop) `{forall p, Decision (holder p)} (v : V2).
Hypothesis Hnofound : forall h p x, ask1 h p <> Found x.
Hypothesis Hstep : forall h p, ask2 h p =
  if decide (holder p) then Found v
  else match ask1 h p with Closer ps => Closer ps | _ => Failed end.

Lemma batch_lockstep batch st :
  (lookup_batch rangeMap ask1 batch st).2 = None /\
  if decide (Exists holder batch) then (lookup_batch rangeMap ask2 batch st).2 = Some v
  else lookup_batch rangeMap ask2 batch st = ((lookup_batch rangeMap ask1 batch st).1, None).
Proof.
  revert st. induction batch as [|p batch IH]; intros st; cbn [lookup_batch].
  { split; [done|]. rewrite decide_False; [done|]. by intros ?%Exists_nil. }
  rewrite Hstep. destruct (decide (holder p)) as [Hp|Hp].
  - rewrite decide_True by (by left). split; [|done].
    destruct (ask1 (asked st) p) eqn:E; [apply IH|by apply Hnofound in E|apply IH].
  - assert (Hiff : Exists holder (p :: batch) <-> Exists holder batch) by (rewrite Exists_cons; tauto).
    destruct (ask1 (asked st) p) eqn:E; [|by apply Hnofound in E|];
      (match goal with |- context [lookup_batch rangeMap ask1 batch ?s] => destruct (IH s) as [I1 I2] end);
      (split; [done|]); destruct (decide (Exists holder (p :: batch))), (decide (Exists holder batch));
      tauto.
Qed.

Lemma batch_asked batch st : asked (lookup_batch rangeMap ask1 batch st).1 = asked st ++ batch.
Proof.
  revert st. induction batch as [|p batch IH]; intros st; simpl; [by rewrite app_nil_r|].
  destruct (ask1 (asked st) p) eqn:E; [|by apply Hnofound in E|];
    rewrite IH; simpl; by rewrite <- app_assoc.
Qed.

Lemma loop_lockstep target k alpha rounds round st :
  let r1 := lookup_loop rangeMap ask1 ctxDone target k alpha rounds round st in
  Exists holder (asked r1.1) -> ~ Exists holder (asked st) ->
  (lookup_loop rangeMap ask2 ctxDone target k alpha rounds round st).2 = GotValue v.
Proof.
  revert round st. induction rounds as [|rounds IH]; intros round st; simpl; [done|].
  destruct (ctxDone round); [done|]. case_bool_decide; [done|].
  set (batch := nextUnqueried _ _ _).
  destruct (batch_lockstep batch st) as [Hn1 Hb]. pose proof (batch_asked batch st) as Ha.
  destruct (lookup_batch rangeMap ask1 batch st) as [st1 v1]. simpl in *. subst v1.
  case_decide as Hex.
  - intros _ _. destruct (lookup_batch rangeMap ask2 batch st) as [st2 v2]. simpl in Hb. by subst v2.
  - rewrite Hb. intros Hh Hnot. apply IH; [done|]. simpl. rewrite Ha, Exists_app. tauto.
Qed.

Lemma run_lockstep {T} `{PeerSource T} (t : T) target opts st e :
  lookup_run rangeMap ask1 ctxDone t target opts = inr (st, e) ->
  Exists holder (asked st) ->
  exists st', lookup_run rangeMap ask2 ctxDone t target opts = inr (st', GotValue v).
Proof.
  unfold lookup_run. destruct (normalizeFindNodeOptions opts) as [[k alpha] maxRounds].
  case_bool_decide; [done|]. intros [= Hr] Hex. set (s := mkLookup _ _ _ _) in *.
  pose proof (loop_lockstep target k alpha (Z.to_nat maxRounds) 0 s) as HL. rewrite Hr in HL.
  specialize (HL Hex). destruct (lookup_loop rangeMap ask2 _ _ _ _ _ _ s) as [st' e'].
  exists st'. do 2 f_equal. apply HL. subst s. simpl. by intros ?%Exists_nil.
Qed.
End Lockstep.

(** ** Storing in the network *)

(** A network whose nodes have sound tables. *)
Definition net_inv (net : simNetwork) : Prop :=
  forall x n, net !! x = Some n -> rt_inv (rt n).

(** Storing at a list of peers changes the stores of those nodes only. *)
Lemma storeAll_spec net key value peers net' err :
  storeAll storeValue net key value peers = (net', err) ->
  (forall x n', net' !! x = Some n' ->
     exists n, net !! x = Some n /\ rt n' = rt n /\ peer n' = peer n /\
     (n' = n \/ (x ∈ ids peers /\ store n' = <[key := value]> (store n)))) /\
  (forall x, is_Some (net !! x) <-> is_Some (net' !! x)) /\
  (err = None -> forall p, p ∈ peers -> exists n', net' !! ID p = Some n' /\ store n' !! key = Some value).
Proof.
  revert net. induction peers as [|p peers IH]; intros net Hs; simpl in Hs.
  { simplify_eq. split_and!; [eauto 7|done|set_solver]. }
  destruct (storeValue net p key value) as [net1 [err1|]] eqn:Hp.
  { simplify_eq. unfold storeValue in Hp. destruct (net !! ID p); simplify_eq.
    split_and!; [eauto 7|done|done]. }
  unfold storeValue in Hp. destruct (net !! ID p) as [n|] eqn:Hn; simplify_eq/=.
  destruct (IH _ Hs) as (H1 & H2 & H3). split_and!.
  - intros x n' Hx. destruct (H1 _ _ Hx) as (n1 & Hn1 & Hr & Hpe & Hor).
    apply lookup_insert_Some in Hn1 as [[<- <-]|[Hne Hn1]].
    + exists n. split_and!; [done|done|done|]. right. split; [set_solver|].
      destruct Hor as [->|[_ ->]]; [done|]. simpl. by rewrite insert_insert_eq.
    + exists n1. split_and!; try done. destruct Hor as [?|[? ?]]; [by left|right]. set_solver.
  - intros x. rewrite <- H2. destruct (decide (x = ID p)) as [->|Hne].
    + rewrite lookup_insert_eq, Hn. naive_solver.
    + by rewrite lookup_insert_ne.
  - intros -> q [->|Hq]%elem_of_cons; [|by apply H3].
    destruct (proj1 (H2 (ID p))) as [n' Hn']; [by rewrite lookup_insert_eq|].
    destruct (H1 _ _ Hn') as (n1 & Hn1 & _ & _ & Hor). rewrite lookup_insert_eq in Hn1. simplify_eq.
    exists n'. split; [done|]. destruct Hor as [->|[_ ->]]; simpl; by rewrite lookup_insert_eq.
Qed.

Lemma findNode_wf net h p target ps q : net_inv net -> wf_id target ->
  findNode net h p target = Some ps -> q ∈ ps -> wf_id (ID q).
Proof.
  intros Hnet Ht. unfold findNode. destruct (net !! ID p) as [n|] eqn:Hn; [|done]. simpl.
  intros [= <-] Hq. rewrite GetClosestPeers_take in Hq.
  pose proof (allPeers_wf _ (Hnet _ _ Hn)) as Hwf.
  destruct (take_sorted_closest target (Z.to_nat bucketK) _ Ht Hwf) as (_ & [Hw _] & _).
  rewrite Forall_forall in Hw. auto.
Qed.

(** A lookup over a routing table hears of someone. *)
Lemma batch_heard {V} rangeMap (ask : list Peer -> Peer -> Answer V) batch st p :
  p ∈ heard st -> p ∈ heard (lookup_batch rangeMap ask batch st).1.
Proof.
  revert st. induction batch as [|q batch IH]; intros st Hp; simpl; [done|].
  destruct (ask (asked st) q); simpl; [by apply IH|done|]. apply IH. simpl. set_solver.
Qed.

Lemma loop_heard {V} rangeMap (ask : list Peer -> Peer -> Answer V) ctxDone target k alpha rounds round st p :
  p ∈ heard st -> p ∈ heard (lookup_loop rangeMap ask ctxDone target k alpha rounds round st).1.
Proof.
  revert round st. induction rounds as [|rounds IH]; intros round st Hp; simpl; [done|].
  destruct (ctxDone round); [done|]. case_bool_decide; [done|].
  set (batch := nextUnqueried _ _ _). pose proof (batch_heard rangeMap ask batch st p Hp) as Hb.
  destruct (lookup_batch rangeMap ask batch st) as [st1 [v|]]; simpl in *; [done|]. by apply IH.
Qed.

Lemma run_heard {V} rangeMap (ask : list Peer -> Peer -> Answer V) ctxDone (t : RoutingTable) target opts st e :
  rt_inv t -> lookup_run rangeMap ask ctxDone t target opts = inr (st, e) ->
  exists x, x ∈ ids (heard st) /\ x <> zeroID.
Proof.
  intros Ht. unfold lookup_run. destruct (normalizeFindNodeOptions opts) as [[k alpha] maxRounds].
  case_bool_decide as Hne; [done|]. intros [= Hr].
  destruct (closest t target k) as [|p l] eqn:Ec; [done|].
  assert (Hp : p ∈ GetClosestPeers t target k) by (change (p ∈ closest t target k); rewrite Ec; set_solver).
  assert (Hall : p ∈ allPeers t).
  { pose proof Hp as Hp'. rewrite GetClosestPeers_take in Hp'.
    rewrite <- (sort_perm target), <- (take_drop (Z.to_nat k)). apply elem_of_app. by left. }
  apply elem_of_allPeers in Hall as (i & b & Hb & Hin). destruct Ht as (_ & _ & Hbk).
  destruct (Hbk _ _ Hb) as [_ Hok]. rewrite Forall_forall in Hok.
  destruct (Hok _ Hin) as (_ & _ & Hz & _). exists (ID p). split; [|done].
  apply elem_of_ids. exists p. split; [|done].
  set (start := sortPeersByDistance target (GetClosestPeers t target k)) in *.
  pose proof (loop_heard rangeMap ask ctxDone target k alpha (Z.to_nat maxRounds) 0
    (mkLookup start ∅ [] start) p) as HL. rewrite Hr in HL. apply HL. simpl. subst start.
  by rewrite sort_perm.
Qed.

Section RoundTrip.
Context (rangeMap : gmap NodeID Peer -> list Peer) (net net' : simNetwork)
  (key : string) (value : list Z) (closest : list Peer).
Hypothesis Hfresh : forall x n, net !! x = Some n -> store n !! key = None.
Hypothesis Hstore : storeAll storeValue net key value closest = (net', None).

(** After the store, a value lookup and a node lookup differ at the holders. *)
Lemma findValue_step h p : findValue net' h p key =
  if decide (ID p ∈ ids closest) then Found value
  else match ask_node (findNode net) (KeyToID key) h p with Closer ps => Closer ps | _ => Failed end.
Proof.
  destruct (storeAll_spec _ _ _ _ _ _ Hstore) as (H1 & H2 & H3). specialize (H3 eq_refl).
  unfold findValue, ask_node, findNode. case_decide as Hin.
  - apply elem_of_ids in Hin as (q & Hq & Hid). destruct (H3 _ Hq) as (n' & Hn' & Hv).
    rewrite <- Hid, Hn'. simpl. unfold HandleFindValue, FindValueLocal. by rewrite Hv.
  - destruct (net' !! ID p) as [n'|] eqn:Hn'.
    + destruct (H1 _ _ Hn') as (n & Hn & Hrt & _ & [->|[Hc _]]); [|done]. rewrite Hn. simpl.
      unfold HandleFindValue, FindValueLocal. by rewrite (Hfresh _ _ Hn).
    + destruct (net !! ID p) eqn:Hn; [|done]. destruct (proj1 (H2 (ID p))); [by rewrite Hn|]. congruence.
Qed.

(** Any reader whose lookup reaches one of the peers that stored the value. *)
Lemma reader_finds (reader : RoutingTable) ctxDone opts st e :
  lookup_run rangeMap (ask_node (findNode net) (KeyToID key)) ctxDone reader (KeyToID key) opts =
    inr (st, e) ->
  Exists (fun p => ID p ∈ ids closest) (asked st) ->
  IterativeFindValue rangeMap ctxDone (Some reader) (Some (findValue net')) key opts =
    (Some value, [], None).
Proof.
  intros Hrun Hex. unfold IterativeFindValue.
  assert (exists st', lookup_run rangeMap (fun h p => findValue net' h p key) ctxDone reader
    (KeyToID key) opts = inr (st', GotValue value)) as [st' ->]; [|done].
  eapply (run_lockstep rangeMap ctxDone (ask_node (findNode net) (KeyToID key))
    (fun h p => findValue net' h p key) (fun p => ID p ∈ ids closest)); [| |exact Hrun|exact Hex].
  - intros h p x. unfold ask_node. by destruct (findNode net h p (KeyToID key)).
  - intros h p. apply findValue_step.
Qed.
End RoundTrip.

(** The condition on which the loop of a lookup breaks: it has no peer left to ask. *)
Definition converged (opts : FindNodeOptions) (st : Lookup) : Prop :=
  nextUnqueried (shortlist st) (queried st) (snd (fst (normalizeFindNodeOptions opts))) = [].

Lemma converged_asked k opts st : lookup_inv (KeyToID k) (Z.to_nat (fst (fst (normalizeFindNodeOptions opts)))) st ->
  converged opts st -> Forall (fun p => ID p ∈ ids (asked st)) (shortlist st).
Proof.
  unfold converged. destruct (normalizeFindNodeOptions opts) as [[n alpha] maxRounds] eqn:Ho. cbn [fst snd]. intros Hinv Hc.
  destruct (normalize_pos _ _ _ _ Ho) as (_ & Ha & _).
  destruct (nextUnqueried_spec (shortlist st) (queried st) alpha Ha) as (_ & _ & _ & Hempty).
  eapply Forall_impl; [by apply Hempty|]. intros p Hp. rewrite (li_queried _ _ _ Hinv) in Hp.
  by apply elem_of_list_to_set in Hp.
Qed.

(** C10: store, then find.  In a network whose tables are sound and in which no node
    has a value for the key yet, let a node store a value, and let the lookup behind the
    store have converged: its loop broke because every peer on the shortlist had been
    asked, not because its rounds ran out.  Then that node's value lookup returns the
    value, and so does the lookup of any other reader that asks one of the peers the
    value was stored at. *)
Theorem store_then_find rangeMap net net' key value (writer : RoutingTable) opts closest :
  (forall m, rangeMap m ≡ₚ (map_to_list m).*2) ->
  net_inv net -> rt_inv writer ->
  (forall x n, net !! x = Some n -> store n !! key = None) ->
  IterativeStore rangeMap (fun _ => false) (Some writer) (Some (findNode net)) (Some storeValue)
    net key value opts = (net', closest, None) ->
  (forall st e, lookup_run rangeMap (ask_node (findNode net) (KeyToID key)) (fun _ => false)
     writer (KeyToID key) opts = inr (st, e) -> converged opts st) ->
  IterativeFindValue rangeMap (fun _ => false) (Some writer) (Some (findValue net')) key opts =
    (Some value, [], None) /\
  (forall (reader : RoutingTable) ctxDone st e,
     lookup_run rangeMap (ask_node (findNode net) (KeyToID key)) ctxDone reader (KeyToID key) opts =
       inr (st, e) ->
     Exists (fun p => ID p ∈ ids closest) (asked st) ->
     IterativeFindValue rangeMap ctxDone (Some reader) (Some (findValue net')) key opts =
       (Some value, [], None)).
Proof.
  intros Hrange Hnet Hw Hfresh Hstore Hconv.
  pose proof (KeyToID_wf key) as Ht. unfold IterativeStore in Hstore.
  destruct (IterativeFindNode rangeMap _ (Some writer) (Some (findNode net)) (KeyToID key) opts)
    as [err|r] eqn:Hfind; [done|].
  destruct (storeAll storeValue net key value r) as [s err] eqn:Hall. simplify_eq.
  apply IterativeFindNode_run in Hfind as (st & Hrun & Hr).
  split; [|intros; by eapply (reader_finds rangeMap net)].
  eapply (reader_finds rangeMap net); [done|done|exact Hrun|].
  specialize (Hconv _ _ Hrun). pose proof (converged_asked key opts st) as Hasked.
  destruct (normalizeFindNodeOptions opts) as [[k alpha] maxRounds] eqn:Ho. simpl in *.
  destruct (normalize_pos _ _ _ _ Ho) as (Hk & _).
  destruct (lookup_run_inv (H := RoutingTable_source) rangeMap (ask_node (findNode net) (KeyToID key)) _ _ Hrange
    (fun h p => ask_node_wf (findNode net) (KeyToID key)
       (fun h p ps q => findNode_wf net h p (KeyToID key) ps q Hnet Ht) h p) Ht
    writer opts _ _ _ _ _ Hw Ho Hrun) as (Hinv & _). specialize (Hasked Hinv Hconv).
  assert (Hne : shortlist st <> []).
  { intros E. destruct (run_heard _ _ _ writer _ _ _ _ Hw Hrun) as (x & Hx & Hz). destruct (li_cover _ _ _ Hinv x Hx Hz) as [Hc|Hc];
      rewrite E in Hc; simpl in Hc; [set_solver|lia]. }
  destruct (shortlist st) as [|p l] eqn:Es; [done|]. subst closest.
  inversion Hasked as [|? ? Hp _]; subst. apply elem_of_ids in Hp as (q & Hq & Hid).
  apply Exists_exists. exists q. split; [done|]. rewrite Hid, trimPeers_take by done.
  replace (Z.to_nat k) with (S (Z.to_nat (k - 1))) by lia. simpl. set_solver.
Qed.

(** ** Answers are genuine *)

Section Sound.
Context {V : Type} (rangeMap : gmap NodeID Peer -> list Peer)
  (ask : list Peer -> Peer -> Answer V) (ctxDone : nat -> bool).

(** Every peer asked failed or named other peers, in the order asked. *)
Definition no_value (l : list Peer) : Prop :=
  forall h p rest v, l = h ++ p :: rest -> ask h p <> Found v.

Lemma no_value_snoc l p : no_value l -> (forall v, ask l p <> Found v) -> no_value (l ++ [p]).
Proof.
  intros Hl Hp h q rest v E. destruct (decide (rest = [])) as [->|Hne].
  - apply app_inj_tail in E as [-> ->]. apply Hp.
  - apply exists_last in Hne as (rest' & z & ->).
    replace (h ++ q :: rest' ++ [z]) with ((h ++ q :: rest') ++ [z]) in E by (by rewrite <- app_assoc).
    apply app_inj_tail in E as [-> _]. by eapply Hl.
Qed.

Lemma batch_value batch st st' o : no_value (asked st) ->
  lookup_batch rangeMap ask batch st = (st', o) ->
  match o with
  | None => no_value (asked st')
  | Some v => exists h p, asked st' = h ++ [p] /\ no_value h /\ ask h p = Found v
  end.
Proof.
  revert st. induction batch as [|p batch IH]; intros st Hn Hb; simpl in Hb; [by simplify_eq|].
  destruct (ask (asked st) p) as [|v|ps] eqn:E.
  - eapply IH; [|done]. simpl. apply no_value_snoc; [done|]. by rewrite E.
  - simplify_eq. simpl. eauto.
  - eapply IH; [|done]. simpl. apply no_value_snoc; [done|]. by rewrite E.
Qed.

Lemma loop_value target k alpha rounds round st st' e : no_value (asked st) ->
  lookup_loop rangeMap ask ctxDone target k alpha rounds round st = (st', e) ->
  match e with
  | GotValue v => exists h p, asked st' = h ++ [p] /\ no_value h /\ ask h p = Found v
  | _ => no_value (asked st')
  end.
Proof.
  revert round st. induction rounds as [|rounds IH]; intros round st Hn Hl; simpl in Hl; [by simplify_eq|].
  destruct (ctxDone round); [by simplify_eq|]. case_bool_decide; [by simplify_eq|].
  destruct (lookup_batch rangeMap ask (nextUnqueried (shortlist st) (queried st) alpha) st)
    as [st1 [v|]] eqn:Hb; [simplify_eq; by apply batch_value in Hb|].
  eapply IH; [|done]. by apply batch_value in Hb.
Qed.
End Sound.

(** a value lookup reports what the peers said.  If it returns a value, the
    last peer it asked gave that value and no peer asked before it had one; if
    it reports that the value was not found, none of the peers it asked had one. *)
Theorem IterativeFindValue_genuine {T} `{PeerSource T} rangeMap ctxDone (t : T) requester key opts st e :
  lookup_run rangeMap (fun hist p => requester hist p key) ctxDone t (KeyToID key) opts = inr (st, e) ->
  match IterativeFindValue rangeMap ctxDone (Some t) (Some requester) key opts with
  | (Some value, ps, err) => err = None /\ ps = [] /\ exists h p, asked st = h ++ [p] /\
      requester h p key = Found value /\ no_value (fun hist p => requester hist p key) h
  | (None, ps, err) => err <> None /\ no_value (fun hist p => requester hist p key) (asked st)
  end.
Proof.
  intros Hrun. unfold IterativeFindValue. rewrite Hrun.
  unfold lookup_run in Hrun. destruct (normalizeFindNodeOptions opts) as [[k alpha] maxRounds].
  case_bool_decide; [done|]. injection Hrun as Hrun. apply loop_value in Hrun.
  - destruct e; [done| |done]. destruct Hrun as (h & p & Ha & Hn & Hf). eauto 10.
  - intros h p rest v E. simpl in E. by destruct h.
Qed.

(** ** A concrete network *)

Definition demo_net : simNetwork :=
  let node x ys := mkDhtNode (demo_peer x)
    (fold_left add_or_keep (map demo_peer ys) (NewRoutingTable (demo_id x) bucketK)) ∅ in
  <[demo_id 1 := node 1 [2; 3]]> (<[demo_id 2 := node 2 [1; 3]]> {[demo_id 3 := node 3 [1; 2]]}).

Definition demo_writer : RoutingTable :=
  fold_left add_or_keep (map demo_peer [2; 3]) (NewRoutingTable (demo_id 1) bucketK).

Lemma fold_add_inv ps t : Forall (fun p => wf_id (ID p)) ps -> rt_inv t ->
  rt_inv (fold_left add_or_keep ps t).
Proof.
  intros Hps. revert t. induction Hps as [|p ps Hp Hps IH]; intros t Ht; simpl; [done|].
  apply IH. by apply add_or_keep_inv.
Qed.

Lemma demo_table_of_inv x ys : is_byte x -> Forall is_byte ys ->
  rt_inv (fold_left add_or_keep (map demo_peer ys) (NewRoutingTable (demo_id x) bucketK)).
Proof.
  intros Hx Hys. apply fold_add_inv; [|by apply NewRoutingTable_inv, demo_id_wf].
  apply Forall_map. eapply Forall_impl; [exact Hys|]. intros y Hy. by apply demo_id_wf.
Qed.

Lemma demo_net_inv : net_inv demo_net.
Proof.
  intros x n Hx. unfold demo_net in Hx.
  apply lookup_insert_Some in Hx as [[_ <-]|[_ Hx]];
    [|apply lookup_insert_Some in Hx as [[_ <-]|[_ Hx]];
      [|apply lookup_singleton_Some in Hx as [_ <-]]];
    (apply demo_table_of_inv; [|repeat constructor]; unfold is_byte; lia).
Qed.

Lemma demo_net_fresh key x n : demo_net !! x = Some n -> store n !! key = None.
Proof.
  intros Hx. unfold demo_net in Hx.
  apply lookup_insert_Some in Hx as [[_ <-]|[_ Hx]];
    [|apply lookup_insert_Some in Hx as [[_ <-]|[_ Hx]];
      [|apply lookup_singleton_Some in Hx as [_ <-]]]; apply lookup_empty.
Qed.

Definition demo_stored : simNetwork * list Peer * option DhtError :=
  IterativeStore range_keys (fun _ => false) (Some demo_writer) (Some (findNode demo_net))
    (Some storeValue) demo_net "k" [1; 2; 3] demo_options.

Lemma store_then_find_witness :
  snd demo_stored = None /\
  IterativeFindValue range_keys (fun _ => false) (Some demo_writer)
    (Some (findValue (fst (fst demo_stored)))) "k" demo_options = (Some [1; 2; 3], [], None).
Proof.
  split; [vm_compute; reflexivity|].
  apply (store_then_find range_keys demo_net (fst (fst demo_stored)) "k" [1; 2; 3] demo_writer
    demo_options (snd (fst demo_stored))).
  - intros m. reflexivity.
  - exact demo_net_inv.
  - apply demo_table_of_inv; [|repeat constructor]; unfold is_byte; lia.
  - apply demo_net_fresh.
  - vm_compute. reflexivity.
  - intros st e Hrun. vm_compute in Hrun. injection Hrun as <- <-. vm_compute. reflexivity.
Defined.

Lemma IterativeFindValue_genuine_witness :
  let net := fst (fst demo_stored) in
  exists st v, lookup_run range_keys (fun hist p => findValue net hist p "k") (fun _ => false)
    demo_writer (KeyToID "k") demo_options = inr (st, GotValue v) /\
  exists h p, asked st = h ++ [p] /\ findValue net h p "k" = Found [1; 2; 3].
Proof.
  intros net. do 2 eexists. split; [vm_compute; reflexivity|].
  match goal with |- exists h p, asked ?st = _ /\ _ =>
    pose proof (IterativeFindValue_genuine range_keys (fun _ => false) demo_writer (findValue net)
      "k" demo_options st (GotValue [1; 2; 3])) as H
  end.
  match type of H with ?A -> _ => assert (E : A) by (vm_compute; reflexivity) end.
  specialize (H E).
  replace (IterativeFindValue range_keys (fun _ => false) (Some demo_writer) (Some (findValue net)) "k"
    demo_options) with (Some [1; 2; 3], @nil Peer, @None DhtError) in H by (vm_compute; reflexivity).
  destruct H as (_ & _ & h & p & Ha & Hf & _). eauto.
Defined.
