(* ===== verification/GoText.v ===== *)
(** * Go text functions: [strings.Split], [Join], [ToUpper], [strconv.Atoi]

    The rest of the string library the wire protocols and the configuration use,
    with the round trips the protocols rely on. *)

From Stdlib Require Import Ascii String.
From stdpp Require Import base strings list.
From S2P Require Import Prelude GoBytes.

#[local] Open Scope Z_scope.
#[local] Open Scope go_scope.

(** ** Splitting and joining on a one-byte separator *)

Fixpoint split_bytes (sep : Z) (l acc : list Z) : list (list Z) :=
  match l with
  | [] => [acc]
  | b :: l => if b =? sep then acc :: split_bytes sep l [] else split_bytes sep l (acc ++ [b])
  end.

Definition Split (s : string) (sep : Z) : list string := map string_of (split_bytes sep (bytes_of s) []).

(** [strings.SplitN(s, sep, 2)]: at most one split. *)
Fixpoint split_first (sep : Z) (l acc : list Z) : list (list Z) :=
  match l with
  | [] => [acc]
  | b :: l => if b =? sep then [acc; l] else split_first sep l (acc ++ [b])
  end.

Definition SplitN2 (s : string) (sep : Z) : list string := map string_of (split_first sep (bytes_of s) []).

Fixpoint join_bytes (sep : Z) (ls : list (list Z)) : list Z :=
  match ls with
  | [] => []
  | [l] => l
  | l :: ls => l ++ sep :: join_bytes sep ls
  end.

Definition Join (elems : list string) (sep : Z) : string := string_of (join_bytes sep (map bytes_of elems)).

Lemma split_bytes_app sep l acc rest : sep ∉ l ->
  split_bytes sep (l ++ sep :: rest) acc = (acc ++ l) :: split_bytes sep rest [].
Proof.
  revert acc. induction l as [|b l IH]; intros acc Hl; simpl.
  - by rewrite Z.eqb_refl, app_nil_r.
  - apply not_elem_of_cons in Hl as [Hb Hl]. rewrite (proj2 (Z.eqb_neq _ _)) by done.
    rewrite IH by done. by rewrite <- app_assoc.
Qed.

Lemma split_bytes_last sep l acc : sep ∉ l -> split_bytes sep l acc = [acc ++ l].
Proof.
  revert acc. induction l as [|b l IH]; intros acc Hl; simpl; [by rewrite app_nil_r|].
  apply not_elem_of_cons in Hl as [Hb Hl]. rewrite (proj2 (Z.eqb_neq _ _)) by done.
  rewrite IH by done. by rewrite <- app_assoc.
Qed.

Lemma split_join_bytes sep ls : ls <> [] -> Forall (fun l => sep ∉ l) ls ->
  split_bytes sep (join_bytes sep ls) [] = ls.
Proof.
  intros Hne. induction 1 as [|l ls Hl Hls IH]; [done|]. destruct ls as [|l' ls].
  - by apply split_bytes_last.
  - simpl join_bytes. rewrite split_bytes_app by done. f_equal. by apply IH.
Qed.

(** Splitting undoes joining when no element contains the separator. *)
Lemma Split_Join elems sep : is_byte sep -> elems <> [] ->
  Forall (fun s => sep ∉ bytes_of s) elems -> Split (Join elems sep) sep = elems.
Proof.
  intros Hsep Hne Hall. unfold Split, Join. rewrite bytes_string.
  - rewrite split_join_bytes; [|by destruct elems|by apply Forall_map].
    rewrite map_map. rewrite <- (map_id elems) at 2. apply map_ext. apply string_bytes.
  - clear Hne Hall. induction elems as [|s elems IH]; simpl; [constructor|].
    destruct elems as [|s' elems]; [apply bytes_of_range|]. simpl in *.
    apply Forall_app. split; [apply bytes_of_range|by constructor].
Qed.

(** Splitting never gives an empty list. *)
Lemma split_bytes_ne sep l acc : split_bytes sep l acc <> [].
Proof. revert acc. induction l as [|b l IH]; intros acc; simpl; [done|]. by destruct (b =? sep). Qed.

Lemma Split_ne s sep : Split s sep <> [].
Proof.
  unfold Split. pose proof (split_bytes_ne sep (bytes_of s) []).
  by destruct (split_bytes sep (bytes_of s) []).
Qed.

(** ** [strings.ToUpper]

    ASCII letters are mapped; the two non-ASCII letters whose upper case is an
    ASCII letter (U+0131 and U+017F) give [I] and [S]; other non-ASCII bytes are
    kept.  Go maps those too, but never to ASCII, and the program only compares
    the result with ASCII words. *)
Fixpoint upper_bytes (l : list Z) : list Z :=
  match l with
  | 196 :: ((177 :: rest) as tl) => 73 :: upper_bytes rest
  | 197 :: ((191 :: rest) as tl) => 83 :: upper_bytes rest
  | b :: rest => (if (97 <=? b) && (b <=? 122) then b - 32 else b) :: upper_bytes rest
  | [] => []
  end.

Definition ToUpper (s : string) : string := string_of (upper_bytes (bytes_of s)).

(** ** Decimal numbers *)

Fixpoint digits_value (acc : Z) (l : list Z) : option Z :=
  match l with
  | [] => Some acc
  | c :: l => if (48 <=? c) && (c <=? 57) then digits_value (acc * 10 + (c - 48)) l else None
  end.

(** [strconv.Atoi]: an optional sign, then digits, in the range of [int]. *)
Definition Atoi (s : string) : option Z :=
  let '(neg, l) := match bytes_of s with
                   | 45 :: l => (true, l)
                   | 43 :: l => (false, l)
                   | l => (false, l)
                   end in
  if bool_decide (l = []) then None
  else match digits_value 0 l with
       | None => None
       | Some n =>
           let z := if neg : bool then - n else n in
           if (- 2 ^ 63 <=? z) && (z <? 2 ^ 63) then Some z else None
       end.

(** The decimal digits of a natural number; 20 digits hold any [uint64]. *)
Fixpoint dec_digits (fuel : nat) (n : Z) (acc : list Z) : list Z :=
  match fuel with
  | O => acc
  | S fuel => if n <? 10 then (48 + n) :: acc
              else dec_digits fuel (n / 10) ((48 + n mod 10) :: acc)
  end.

(** [%d]. *)
Definition Itoa (z : Z) : string :=
  string_of (if z <? 0 then 45 :: dec_digits 20 (- z) [] else dec_digits 20 z []).

Lemma digits_value_app l acc acc' rest : digits_value acc l = Some acc' ->
  digits_value acc (l ++ rest) = digits_value acc' rest.
Proof.
  revert acc. induction l as [|c l IH]; intros acc; simpl; [by intros [= ->]|].
  destruct (_ && _); [apply IH|done].
Qed.

Lemma dec_digits_app fuel n acc : dec_digits fuel n acc = dec_digits fuel n [] ++ acc.
Proof.
  revert n acc. induction fuel as [|fuel IH]; intros n acc; simpl; [done|].
  destruct (n <? 10); [done|]. rewrite IH, (IH _ [_]), <- app_assoc. done.
Qed.

Definition digit_byte (c : Z) : Prop := 48 <= c <= 57.

Lemma dec_digits_spec fuel n : 0 <= n < 10 ^ Z.of_nat fuel -> (1 <= fuel)%nat ->
  digits_value 0 (dec_digits fuel n []) = Some n /\ dec_digits fuel n [] <> [] /\
  Forall digit_byte (dec_digits fuel n []).
Proof.
  revert n. induction fuel as [|fuel IH]; intros n Hn Hf; [lia|]. simpl.
  destruct (Z.ltb_spec n 10) as [Hlt|Hge].
  - unfold digits_value, digit_byte. rewrite (proj2 (Z.leb_le _ _)), (proj2 (Z.leb_le _ _)) by lia.
    simpl. split_and!; [f_equal; lia|done|]. constructor; [lia|done].
  - rewrite Nat2Z.inj_succ, Z.pow_succ_r in Hn by lia.
    pose proof (Z.mod_pos_bound n 10). pose proof (Z.div_mod n 10).
    destruct (decide (fuel = 0%nat)) as [->|Hf0]; [simpl in Hn; lia|].
    destruct (IH (n / 10)) as (IH1 & IH2 & IH3);
      [split; [apply Z.div_pos; lia|apply Z.div_lt_upper_bound; lia]|lia|].
    rewrite dec_digits_app. split_and!.
    + rewrite (digits_value_app _ _ _ _ IH1). simpl.
      rewrite (proj2 (Z.leb_le _ _)), (proj2 (Z.leb_le _ _)) by lia. simpl. f_equal. lia.
    + intros E. by apply app_eq_nil in E as [? _].
    + apply Forall_app. split; [done|]. constructor; [unfold digit_byte; lia|done].
Qed.

Lemma dec_digits_length fuel n : (length (dec_digits fuel n []) <= fuel)%nat.
Proof.
  revert n. induction fuel as [|fuel IH]; intros n; simpl; [lia|]. destruct (n <? 10); simpl; [lia|].
  rewrite dec_digits_app, length_app. specialize (IH (n / 10)). simpl. lia.
Qed.

(** No leading zero. *)
Lemma dec_digits_head fuel n : 0 < n < 10 ^ Z.of_nat fuel ->
  exists c l, dec_digits fuel n [] = c :: l /\ 49 <= c <= 57.
Proof.
  revert n. induction fuel as [|fuel IH]; intros n Hn; [simpl in Hn; lia|]. simpl. destruct (Z.ltb_spec n 10).
  - exists (48 + n), []. split; [done|lia].
  - rewrite Nat2Z.inj_succ, Z.pow_succ_r in Hn by lia. pose proof (Z.div_mod n 10). pose proof (Z.mod_pos_bound n 10).
    destruct (IH (n / 10)) as (c & l & E & Hc); [split; [nia|apply Z.div_lt_upper_bound; lia]|].
    rewrite dec_digits_app, E. by exists c, (l ++ [48 + n mod 10]).
Qed.

Lemma Itoa_bytes z : - 2 ^ 63 <= z < 2 ^ 63 ->
  bytes_of (Itoa z) = (if z <? 0 then 45 :: dec_digits 20 (- z) [] else dec_digits 20 z []) /\
  Forall visible (bytes_of (Itoa z)) /\ (forall b, 58 <= b -> b ∉ bytes_of (Itoa z)).
Proof.
  intros Hz. unfold Itoa.
  assert (H : Forall (fun c => c = 45 \/ digit_byte c)
    (if z <? 0 then 45 :: dec_digits 20 (- z) [] else dec_digits 20 z [])).
  { destruct (Z.ltb_spec z 0).
    - constructor; [by left|]. destruct (dec_digits_spec 20 (- z)) as (_ & _ & HD); [lia|lia|].
      eapply Forall_impl; [exact HD|]. by right.
    - destruct (dec_digits_spec 20 z) as (_ & _ & HD); [lia|lia|].
      eapply Forall_impl; [exact HD|]. by right. }
  rewrite bytes_string by (eapply Forall_impl; [exact H|]; unfold is_byte, digit_byte; lia).
  split_and!; [done| |].
  - eapply Forall_impl; [exact H|]. unfold visible, digit_byte. lia.
  - intros b Hb Hin. rewrite Forall_forall in H. destruct (H _ Hin) as [?|?]; unfold digit_byte in *; lia.
Qed.

(** Parsing what was printed, for every [int]. *)
Lemma Atoi_Itoa z : - 2 ^ 63 <= z < 2 ^ 63 -> Atoi (Itoa z) = Some z.
Proof.
  intros Hz. unfold Atoi. rewrite (proj1 (Itoa_bytes z Hz)). destruct (Z.ltb_spec z 0).
  - destruct (dec_digits_spec 20 (- z)) as (H1 & H2 & _); [lia|lia|].
    rewrite bool_decide_eq_false_2 by done. rewrite H1.
    rewrite (proj2 (Z.leb_le _ _)), (proj2 (Z.ltb_lt _ _)) by lia. simpl. f_equal. lia.
  - destruct (dec_digits_spec 20 z) as (H1 & H2 & H3); [lia|lia|].
    destruct (dec_digits 20 z []) as [|c l]; [done|]. inversion H3 as [|? ? Hc _]; subst.
    unfold digit_byte in Hc.
    assert (Hm : match c :: l with 45 :: l => (true, l) | 43 :: l => (false, l) | l => (false, l) end =
      (false, c :: l)).
    { assert (exists k, c = 48 + Z.of_nat k /\ (k < 10)%nat) as (k & -> & Hk)
        by (exists (Z.to_nat (c - 48)); lia).
      do 10 (destruct k as [|k]; [done|]). lia. }
    rewrite Hm. rewrite bool_decide_eq_false_2 by done. rewrite H1.
    rewrite (proj2 (Z.leb_le _ _)), (proj2 (Z.ltb_lt _ _)) by lia. done.
Qed.
