(* ===== verification/GoParse.v ===== *)
(** * [strconv.ParseFloat]

    The syntax of readFloat and special in Go's strconv/atof.go: decimal and
    hexadecimal numbers, exponents, digit separators, infinities and NaN.  The value
    is the exact rational, correctly rounded; an error (syntax, or a number too large)
    is [None]. *)

From Stdlib Require Import Ascii String.
From stdpp Require Import base strings list.
From S2P Require Import Prelude GoBytes GoText GoFloat.

#[local] Open Scope Z_scope.
#[local] Open Scope go_scope.

(** [c | ('x' - 'X')]. *)
Definition lower (c : Z) : Z := Z.lor c 32.

Definition is_digit (c : Z) : bool := (48 <=? c) && (c <=? 57).
Definition is_hex_letter (c : Z) : bool := (97 <=? lower c) && (lower c <=? 102).

(** Bytes of "infinity", "inf" and "nan", compared without case. *)
Definition same_letters (l : list Z) (w : string) : bool := bool_decide (map lower l = bytes_of w).

Definition special (l : list Z) : option float64 :=
  match l with
  | 43 :: l => if same_letters l "inf" || same_letters l "infinity" then Some (Inf false) else None
  | 45 :: l => if same_letters l "inf" || same_letters l "infinity" then Some (Inf true) else None
  | _ => if same_letters l "inf" || same_letters l "infinity" then Some (Inf false)
         else if same_letters l "nan" then Some NaN else None
  end.

(** The digits of the mantissa, up to the first byte that is not part of it. *)
Record Mantissa : Type := mkMantissa {
  mant : Z; fraction : Z; sawdot : bool; sawdigits : bool; underscores : bool }.

Fixpoint scan_mantissa (hex : bool) (l : list Z) (m : Mantissa) : Mantissa * list Z :=
  let base := if hex then 16 else 10 in
  let put d := mkMantissa (mant m * base + d) (fraction m + (if sawdot m then 1 else 0))
                 (sawdot m) true (underscores m) in
  match l with
  | [] => (m, [])
  | c :: rest =>
      if c =? 95 then
        scan_mantissa hex rest (mkMantissa (mant m) (fraction m) (sawdot m) (sawdigits m) true)
      else if c =? 46 then
        if sawdot m then (m, l)
        else scan_mantissa hex rest (mkMantissa (mant m) (fraction m) true (sawdigits m) (underscores m))
      else if is_digit c then scan_mantissa hex rest (put (c - 48))
      else if hex && is_hex_letter c then scan_mantissa hex rest (put (lower c - 87))
      else (m, l)
  end.

(** The digits of the exponent; it stops growing at five digits. *)
Fixpoint scan_exponent (l : list Z) (e : Z) (us : bool) : Z * bool * list Z :=
  match l with
  | [] => (e, us, [])
  | c :: rest =>
      if c =? 95 then scan_exponent rest e true
      else if is_digit c then scan_exponent rest (if e <? 10000 then e * 10 + (c - 48) else e) us
      else (e, us, l)
  end.

Definition take_sign (l : list Z) : Z * list Z :=
  match l with 43 :: l => (1, l) | 45 :: l => (-1, l) | _ => (1, l) end.

(** The optional exponent: [None] is a syntax error. *)
Definition read_exponent (hex : bool) (l : list Z) : option (Z * bool * list Z) :=
  match l with
  | c :: rest =>
      if lower c =? (if hex then 112 else 101) then
        let '(sign, rest) := take_sign rest in
        match rest with
        | d :: _ => if is_digit d then let '(e, us, rest) := scan_exponent rest 0 false in
                                       Some (sign * e, us, rest)
                    else None
        | [] => None
        end
      else if hex then None else Some (0, false, l)
  | [] => if hex then None else Some (0, false, [])
  end.

(** [underscoreOK]: separators only between digits, or after a base prefix. *)
Inductive Saw : Type := SawStart | SawDigit | SawUnderscore | SawOther.

Fixpoint underscore_loop (hex : bool) (l : list Z) (saw : Saw) : bool :=
  match l with
  | [] => match saw with SawUnderscore => false | _ => true end
  | c :: l =>
      if is_digit c || (hex && is_hex_letter c) then underscore_loop hex l SawDigit
      else if c =? 95 then match saw with SawDigit => underscore_loop hex l SawUnderscore | _ => false end
      else match saw with SawUnderscore => false | _ => underscore_loop hex l SawOther end
  end.

Definition underscoreOK (l : list Z) : bool :=
  let l := match l with 43 :: l | 45 :: l => l | l => l end in
  match l with
  | 48 :: c :: rest =>
      if (lower c =? 98) || (lower c =? 111) || (lower c =? 120)
      then underscore_loop (lower c =? 120) rest SawDigit
      else underscore_loop false l SawStart
  | _ => underscore_loop false l SawStart
  end.

(** [p / q] or the range error. *)
Definition in_range (x : float64) : option float64 :=
  match x with Inf _ => None | _ => Some x end.

(** The prefix [0x], with something after it. *)
Definition take_base (l : list Z) : bool * list Z :=
  match l with
  | 48 :: c :: d :: rest => if lower c =? 120 then (true, d :: rest) else (false, l)
  | _ => (false, l)
  end.

Definition read_number (l : list Z) : option float64 :=
  let '(sign, digits) := take_sign l in
  let '(hex, digits) := take_base digits in
  let '(m, rest) := scan_mantissa hex digits (mkMantissa 0 0 false false false) in
  if negb (sawdigits m) then None
  else
    match read_exponent hex rest with
    | None => None
    | Some (e, us, rest) =>
        if negb (bool_decide (rest = [])) then None
        else if (underscores m || us) && negb (underscoreOK l) then None
        else
          let scale := if hex then e - 4 * fraction m else e - fraction m in
          let base := if hex then 2 else 10 in
          in_range (f_const (sign * mant m * base ^ Z.max 0 scale) (base ^ Z.max 0 (- scale)))
    end.

Definition ParseFloat (s : string) : option float64 :=
  let l := bytes_of s in
  match special l with
  | Some x => Some x
  | None => read_number l
  end.

Example parse_examples :
  ParseFloat "1.5" = Some (f_const 3 2) /\ ParseFloat "-2e3" = Some (f_of_int (-2000)) /\
  ParseFloat "0x1p-2" = Some (f_const 1 4) /\ ParseFloat "1_00.5_0e+1" = Some (f_of_int 1005) /\
  ParseFloat "+Infinity" = Some (Inf false) /\ ParseFloat "nan" = Some NaN /\
  ParseFloat "1e400" = None /\ ParseFloat "_1" = None /\ ParseFloat "1.2.3" = None.
Proof. vm_compute. repeat split; reflexivity. Qed.

(** ** Decimal integers *)

Lemma scan_digits l m v : sawdot m = false -> digits_value (mant m) l = Some v ->
  scan_mantissa false l m =
    (mkMantissa v (fraction m) false (sawdigits m || negb (bool_decide (l = []))) (underscores m), []).
Proof.
  revert m. induction l as [|c l IH]; intros m Hd Hv; simpl in Hv.
  { injection Hv as <-. simpl. destruct m; simpl in *. subst. by rewrite orb_false_r. }
  destruct ((48 <=? c) && (c <=? 57)) eqn:E; [|done].
  pose proof E as [Hc1%Z.leb_le Hc2%Z.leb_le]%andb_prop. simpl.
  rewrite (proj2 (Z.eqb_neq c 95)), (proj2 (Z.eqb_neq c 46)) by lia.
  unfold is_digit. rewrite E, IH; [|done|done]. simpl. rewrite Hd, Z.add_0_r.
  by rewrite orb_true_r.
Qed.

Lemma lower_digit c : 48 <= c <= 57 -> lower c = c.
Proof.
  intros Hc. assert (exists k, c = 48 + Z.of_nat k /\ (k < 10)%nat) as (k & -> & Hk)
    by (exists (Z.to_nat (c - 48)); lia).
  do 10 (destruct k as [|k]; [reflexivity|]). lia.
Qed.

Lemma not_letters c l w x rest : 48 <= c <= 57 -> bytes_of w = x :: rest -> 97 <= x ->
  same_letters (c :: l) w = false.
Proof.
  intros Hc Hw Hx. unfold same_letters. apply bool_decide_eq_false_2. rewrite Hw. simpl.
  rewrite lower_digit by done. intros [= ? _]. lia.
Qed.

Lemma not_special c l : 48 <= c <= 57 ->
  (same_letters (c :: l) "inf" || same_letters (c :: l) "infinity") = false /\
  same_letters (c :: l) "nan" = false.
Proof.
  intros Hc. rewrite !(not_letters c l "inf" 105 [110; 102]), !(not_letters c l "infinity" 105
    [110; 102; 105; 110; 105; 116; 121]), !(not_letters c l "nan" 110 [97; 110]) by (done || lia). done.
Qed.

Lemma take_base_digits l : Forall digit_byte l -> take_base l = (false, l).
Proof.
  intros Hl. destruct Hl as [|c l Hc Hl]; [done|]. destruct Hl as [|d l Hd Hl]; [by simpl; repeat case_match|].
  destruct Hl as [|e l He Hl]; [by simpl; repeat case_match|].
  assert (E : (lower d =? 120) = false) by (unfold digit_byte in Hd; rewrite lower_digit by done; apply Z.eqb_neq; lia).
  unfold take_base. rewrite E. by repeat case_match.
Qed.

Lemma digit_cases {A} (c : Z) (x y z : A) : 48 <= c <= 57 ->
  match c with 43 => x | 45 => y | _ => z end = z.
Proof.
  intros Hc. assert (exists k, c = 48 + Z.of_nat k /\ (k < 10)%nat) as (k & -> & Hk)
    by (exists (Z.to_nat (c - 48)); lia).
  do 10 (destruct k as [|k]; [reflexivity|]). lia.
Qed.

Lemma read_integer sign l digits v : take_sign l = (sign, digits) -> digits <> [] -> Forall digit_byte digits ->
  digits_value 0 digits = Some v -> read_number l = in_range (f_of_int (sign * v)).
Proof.
  intros Hs Hne Hd Hv. unfold read_number. rewrite Hs, take_base_digits by done.
  rewrite (scan_digits digits _ v) by done. simpl sawdigits. rewrite bool_decide_eq_false_2 by done. simpl.
  unfold f_of_int. by rewrite Z.mul_1_r.
Qed.

(** Parsing a printed integer. *)
Lemma ParseFloat_Itoa z : Z.abs z <= 2 ^ 53 -> ParseFloat (Itoa z) = Some (f_of_int z).
Proof.
  intros Hz. unfold ParseFloat. rewrite (proj1 (Itoa_bytes z ltac:(lia))).
  assert (Hr : in_range (f_of_int z) = Some (f_of_int z)) by (by rewrite f_of_int_exact).
  destruct (Z.ltb_spec z 0).
  - destruct (dec_digits_spec 20 (- z)) as (H1 & H2 & H3); [lia|lia|].
    destruct (dec_digits 20 (- z) []) as [|c l] eqn:E; [done|]. inversion H3 as [|? ? Hc _]; subst.
    destruct (not_special c l Hc) as [Hs1 _]. unfold special. rewrite Hs1.
    rewrite (read_integer (-1) _ (c :: l) (- z)) by done. by replace (-1 * - z) with z by lia.
  - destruct (dec_digits_spec 20 z) as (H1 & H2 & H3); [lia|lia|].
    destruct (dec_digits 20 z []) as [|c l] eqn:E; [done|]. inversion H3 as [|? ? Hc _]; subst.
    destruct (not_special c l Hc) as [Hs1 Hs2].
    assert (Hsp : special (c :: l) = None).
    { unfold special. rewrite digit_cases by done. by rewrite Hs1, Hs2. }
    rewrite Hsp, (read_integer 1 _ (c :: l) z); [by rewrite Z.mul_1_l| |done..].
    unfold take_sign. by rewrite digit_cases by done.
Qed.
