(* ===== verification/GoUtf8.v ===== *)
(** * UTF-8 as Go decodes and encodes it ([unicode/utf8])

    A string of bytes read as runes: an ill-formed sequence gives one error per
    byte, as [utf8.DecodeRune] does.  The recursion is over the bytes, with a count
    of those the rune at hand has still to skip, so no fuel is needed. *)

From Stdlib Require Import Ascii String.
From stdpp Require Import base strings list.
From S2P Require Import Prelude GoBytes.

#[local] Open Scope Z_scope.

Definition in_byte_range (lo hi b : Z) : bool := (lo <=? b) && (b <=? hi).

(** A continuation byte, [locb..hicb]. *)
Definition cont (b : Z) : bool := in_byte_range 128 191 b.

(** The range of the second byte after a first byte ([acceptRanges]). *)
Definition second_ok (b0 b1 : Z) : bool :=
  if b0 =? 224 then in_byte_range 160 191 b1
  else if b0 =? 237 then in_byte_range 128 159 b1
  else if b0 =? 240 then in_byte_range 144 191 b1
  else if b0 =? 244 then in_byte_range 128 143 b1
  else cont b1.

(** What [utf8.DecodeRune] finds: a rune, or [RuneError] of width one. *)
Inductive rune_item : Type := Rune (r : Z) | BadByte.

#[export] Instance rune_item_eq_dec : EqDecision rune_item.
Proof. solve_decision. Defined.

(** [utf8.DecodeRune] on a string that is not empty, with the width of the rune. *)
Definition DecodeRune (l : list Z) : rune_item * nat :=
  match l with
  | [] => (BadByte, 1%nat)
  | b0 :: l =>
      if b0 <? 128 then (Rune b0, 1%nat)
      else if in_byte_range 194 223 b0 then
        match l with
        | b1 :: _ => if cont b1 then (Rune ((b0 - 192) * 64 + (b1 - 128)), 2%nat) else (BadByte, 1%nat)
        | _ => (BadByte, 1%nat)
        end
      else if in_byte_range 224 239 b0 then
        match l with
        | b1 :: b2 :: _ =>
            if second_ok b0 b1 && cont b2
            then (Rune ((b0 - 224) * 4096 + (b1 - 128) * 64 + (b2 - 128)), 3%nat) else (BadByte, 1%nat)
        | _ => (BadByte, 1%nat)
        end
      else if in_byte_range 240 244 b0 then
        match l with
        | b1 :: b2 :: b3 :: _ =>
            if second_ok b0 b1 && cont b2 && cont b3
            then (Rune ((b0 - 240) * 262144 + (b1 - 128) * 4096 + (b2 - 128) * 64 + (b3 - 128)), 4%nat)
            else (BadByte, 1%nat)
        | _ => (BadByte, 1%nat)
        end
      else (BadByte, 1%nat)
  end.

(** [unicode.ReplacementChar] and its encoding. *)
Definition ReplacementChar : Z := 65533.

Definition surrogate (r : Z) : bool := (55296 <=? r) && (r <? 57344).

(** A Unicode scalar value. *)
Definition scalar (r : Z) : Prop := 0 <= r < 1114112 /\ surrogate r = false.
#[export] Instance scalar_dec r : Decision (scalar r).
Proof. unfold scalar. apply _. Defined.

Definition encode_scalar (r : Z) : list Z :=
  if r <? 128 then [r]
  else if r <? 2048 then [192 + r / 64; 128 + r mod 64]
  else if r <? 65536 then [224 + r / 4096; 128 + r / 64 mod 64; 128 + r mod 64]
  else [240 + r / 262144; 128 + r / 4096 mod 64; 128 + r / 64 mod 64; 128 + r mod 64].

(** [utf8.EncodeRune]: what is not a scalar value becomes the replacement. *)
Definition EncodeRune (r : Z) : list Z :=
  encode_scalar (if (r <? 0) || surrogate r || (1114111 <? r) then ReplacementChar else r).

(** The runes of a string; the first [skip] bytes belong to the rune before. *)
Fixpoint runes_from (skip : nat) (l : list Z) : list rune_item :=
  match l with
  | [] => []
  | b :: rest =>
      match skip with
      | S skip => runes_from skip rest
      | O => let '(it, w) := DecodeRune l in it :: runes_from (pred w) rest
      end
  end.
Definition runes (l : list Z) : list rune_item := runes_from 0 l.

(** The bytes of a rune; an error is written as the replacement. *)
Definition item_bytes (it : rune_item) : list Z :=
  match it with Rune r => EncodeRune r | BadByte => EncodeRune ReplacementChar end.

(** A string with every ill-formed byte replaced. *)
Definition coerce (l : list Z) : list Z := concat (map item_bytes (runes l)).

(** [utf8.Valid]. *)
Definition Valid (l : list Z) : bool := forallb (fun it => bool_decide (it <> BadByte)) (runes l).

(** [utf8.ValidString]. *)
Definition ValidString (s : string) : bool := Valid (bytes_of s).

(** ** Encoding and decoding *)

Lemma EncodeRune_scalar r : scalar r -> EncodeRune r = encode_scalar r.
Proof.
  intros [Hr Hs]. unfold EncodeRune. rewrite Hs, (proj2 (Z.ltb_ge r 0)), (proj2 (Z.ltb_ge 1114111 r)) by lia. done.
Qed.

Lemma DecodeRune_pos l : (1 <= (DecodeRune l).2)%nat.
Proof. unfold DecodeRune. repeat case_match; simpl; lia. Qed.

#[local] Ltac Zify.zify_post_hook ::= Z.to_euclidean_division_equations.

Lemma in_byte_range_true lo hi b : in_byte_range lo hi b = true <-> lo <= b <= hi.
Proof. unfold in_byte_range. rewrite andb_true_iff, !Z.leb_le. done. Qed.

Lemma in_byte_range_false lo hi b : b < lo \/ hi < b -> in_byte_range lo hi b = false.
Proof. intros Hb. apply not_true_is_false. rewrite in_byte_range_true. lia. Qed.

Lemma second_ok_spec b0 b1 : second_ok b0 b1 = true -> 128 <= b1 <= 191 /\
  (b0 = 224 -> 160 <= b1) /\ (b0 = 237 -> b1 <= 159) /\ (b0 = 240 -> 144 <= b1) /\ (b0 = 244 -> b1 <= 143).
Proof. unfold second_ok, cont. split_ifs; rewrite in_byte_range_true; lia. Qed.

Lemma second_ok_intro b0 b1 : 128 <= b1 <= 191 -> (b0 = 224 -> 160 <= b1) -> (b0 = 237 -> b1 <= 159) ->
  (b0 = 240 -> 144 <= b1) -> (b0 = 244 -> b1 <= 143) -> second_ok b0 b1 = true.
Proof. intros. unfold second_ok, cont. split_ifs; apply in_byte_range_true; lia. Qed.

Lemma scalar_intro r : 0 <= r < 55296 \/ 57344 <= r < 1114112 -> scalar r.
Proof.
  intros Hr. split; [lia|]. unfold surrogate. destruct (Z.leb_spec 55296 r), (Z.ltb_spec r 57344); simpl; lia.
Qed.

Lemma scalar_range r : scalar r -> 0 <= r < 55296 \/ 57344 <= r < 1114112.
Proof.
  intros [Hr Hs]. unfold surrogate in Hs. destruct (Z.leb_spec 55296 r), (Z.ltb_spec r 57344); simpl in Hs; lia || done.
Qed.

(** The encodings by the number of bytes. *)
Lemma encode_scalar_cases r : 0 <= r ->
  r < 128 /\ encode_scalar r = [r] \/
  128 <= r < 2048 /\ encode_scalar r = [192 + r / 64; 128 + r mod 64] \/
  2048 <= r < 65536 /\ encode_scalar r = [224 + r / 4096; 128 + r / 64 mod 64; 128 + r mod 64] \/
  65536 <= r /\ encode_scalar r = [240 + r / 262144; 128 + r / 4096 mod 64; 128 + r / 64 mod 64; 128 + r mod 64].
Proof.
  intros Hr. unfold encode_scalar. destruct (Z.ltb_spec r 128), (Z.ltb_spec r 2048), (Z.ltb_spec r 65536); try lia; auto 6.
Qed.

Lemma encode_scalar_byte r : scalar r -> Forall is_byte (encode_scalar r).
Proof.
  intros Hr%scalar_range. unfold is_byte.
  destruct (encode_scalar_cases r) as [[H ->]|[[H ->]|[[H ->]|[H ->]]]]; [lia|..]; repeat constructor; lia.
Qed.

(** The bytes of a scalar value decode to it. *)
Lemma DecodeRune_encode r rest : scalar r -> DecodeRune (encode_scalar r ++ rest) = (Rune r, length (encode_scalar r)).
Proof.
  intros Hr%scalar_range. unfold DecodeRune.
  destruct (encode_scalar_cases r) as [[H ->]|[[H ->]|[[H ->]|[H ->]]]]; [lia|..]; cbn [app length].
  - by rewrite (proj2 (Z.ltb_lt _ _)) by lia.
  - rewrite (proj2 (Z.ltb_ge _ _)) by lia. rewrite (proj2 (in_byte_range_true 194 223 _)) by lia.
    unfold cont. rewrite (proj2 (in_byte_range_true 128 191 _)) by lia. do 2 f_equal. lia.
  - rewrite (proj2 (Z.ltb_ge _ _)) by lia.
    rewrite (in_byte_range_false 194 223) by lia.
    rewrite (proj2 (in_byte_range_true 224 239 _)) by lia.
    rewrite second_ok_intro by lia. unfold cont. rewrite (proj2 (in_byte_range_true 128 191 _)) by lia.
    simpl andb. cbv iota. do 2 f_equal. lia.
  - rewrite (proj2 (Z.ltb_ge _ _)) by lia.
    rewrite (in_byte_range_false 194 223) by lia.
    rewrite (in_byte_range_false 224 239) by lia.
    rewrite (proj2 (in_byte_range_true 240 244 _)) by lia.
    rewrite second_ok_intro by lia. unfold cont. rewrite !(proj2 (in_byte_range_true 128 191 _)) by lia.
    simpl andb. cbv iota. do 2 f_equal. lia.
Qed.

(** A rune that decodes is a scalar value, and its bytes are at the front. *)
Lemma DecodeRune_spec l r w : DecodeRune l = (Rune r, w) -> Forall is_byte l ->
  scalar r /\ exists rest, l = encode_scalar r ++ rest /\ w = length (encode_scalar r).
Proof.
  unfold DecodeRune, cont. destruct l as [|b0 l]; [done|]. intros H Hb. apply Forall_cons in Hb as [Hb0 Hb].
  unfold is_byte in Hb0. split_ifs_in H; simplify_eq.
  { split; [apply scalar_intro; lia|]. exists l. unfold encode_scalar. by rewrite (proj2 (Z.ltb_lt _ _)). }
  all: repeat match type of H with match ?l with [] => _ | _ :: _ => _ end = _ => destruct l as [|? ?]; try done end;
    split_ifs_in H; simplify_eq;
    repeat match goal with E : second_ok _ _ = true |- _ => apply second_ok_spec in E end;
    repeat match goal with E : in_byte_range _ _ _ = true |- _ => apply in_byte_range_true in E end;
    (split; [apply scalar_intro; lia|]); eexists;
    match goal with |- context [encode_scalar ?x] => set (v := x) end;
    (destruct (encode_scalar_cases v) as [[? ->]|[[? ->]|[[? ->]|[? ->]]]]; [lia| | | |]; try lia);
    (split; [|reflexivity]); cbn [app]; repeat f_equal; lia.
Qed.

Lemma DecodeRune_bad l w : DecodeRune l = (BadByte, w) -> w = 1%nat.
Proof. unfold DecodeRune. intros H. repeat case_match; simplify_eq; done. Qed.

(** ** Strings as runes *)

Lemma runes_skip x rest : runes_from (length x) (x ++ rest) = runes rest.
Proof. induction x as [|b x IH]; [done|]. exact IH. Qed.

Lemma runes_rune r rest : scalar r -> runes (encode_scalar r ++ rest) = Rune r :: runes rest.
Proof.
  intros Hr. pose proof (DecodeRune_encode r rest Hr) as Hd. unfold runes.
  destruct (encode_scalar r) as [|b x] eqn:E; [by unfold encode_scalar in E; repeat case_match|].
  cbn [app runes_from] in *. rewrite Hd. cbn [length pred]. by rewrite runes_skip.
Qed.

(** A string is empty, starts with a rune, or with a byte that starts none. *)
Lemma runes_cases l : Forall is_byte l ->
  l = [] \/
  (exists r rest, scalar r /\ l = encode_scalar r ++ rest /\ runes l = Rune r :: runes rest) \/
  (exists b rest, l = b :: rest /\ runes l = BadByte :: runes rest).
Proof.
  intros Hl. destruct l as [|b l]; [by left|right]. destruct (DecodeRune (b :: l)) as [[r|] w] eqn:E.
  - destruct (DecodeRune_spec _ _ _ E Hl) as (Hr & rest & El & _). left. exists r, rest.
    split_and!; [done..|]. rewrite El. by apply runes_rune.
  - right. exists b, l. split; [done|]. unfold runes. cbn [runes_from]. rewrite E.
    by rewrite (DecodeRune_bad _ _ E).
Qed.

(** Induction on the runes of a string. *)
Lemma runes_ind (P : list Z -> Prop) : P [] ->
  (forall r rest, scalar r -> Forall is_byte rest -> runes (encode_scalar r ++ rest) = Rune r :: runes rest ->
     P rest -> P (encode_scalar r ++ rest)) ->
  (forall b rest, Forall is_byte rest -> runes (b :: rest) = BadByte :: runes rest -> P rest -> P (b :: rest)) ->
  forall l, Forall is_byte l -> P l.
Proof.
  intros H0 H1 H2. assert (Hn : forall n l, (length l <= n)%nat -> Forall is_byte l -> P l); [|eauto].
  induction n as [|n IH]; intros l Hlen Hl; [by destruct l; simpl in Hlen; [|lia]|].
  destruct (runes_cases l Hl) as [->|[(r & rest & Hr & -> & E)|(b & rest & -> & E)]]; [done| |].
  - apply Forall_app in Hl as [_ Hl]. apply H1; try done. apply IH; [|done]. rewrite length_app in Hlen.
    assert (length (encode_scalar r) <> 0%nat); [|lia]. unfold encode_scalar. by repeat case_match.
  - apply Forall_cons in Hl as [_ Hl]. apply H2; try done. apply IH; [simpl in Hlen; lia|done].
Qed.

Definition item_ok (it : rune_item) : Prop := match it with Rune r => scalar r | BadByte => True end.

Lemma runes_ok l : Forall is_byte l -> Forall item_ok (runes l).
Proof.
  revert l. apply runes_ind; [constructor|intros r rest Hr _ -> IH|intros b rest _ -> IH]; by constructor.
Qed.

Lemma scalar_replacement : scalar ReplacementChar.
Proof. apply scalar_intro. unfold ReplacementChar. lia. Qed.

Lemma item_bytes_ok it : item_ok it -> Forall is_byte (item_bytes it).
Proof.
  destruct it as [r|]; cbn [item_ok item_bytes]; intros H; (rewrite EncodeRune_scalar; [apply encode_scalar_byte|]);
    first [exact H|exact scalar_replacement].
Qed.

(** A well-formed string is its runes, and nothing is replaced. *)
Lemma coerce_valid l : Forall is_byte l -> Valid l = true -> coerce l = l.
Proof.
  unfold Valid, coerce. revert l. apply (runes_ind (fun l => _ -> _ = l)); [done| |].
  - intros r rest Hr _ -> IH. cbn. intros H. rewrite EncodeRune_scalar by done. f_equal. by apply IH.
  - intros b rest _ -> _. done.
Qed.

Lemma coerce_range l : Forall is_byte l -> Forall is_byte (coerce l).
Proof.
  intros Hl. unfold coerce. apply runes_ok in Hl. induction Hl as [|it its Hit _ IH]; [constructor|].
  cbn. apply Forall_app. split; [by apply item_bytes_ok|done].
Qed.

(** Replacing makes a string well-formed. *)
Lemma runes_coerce l : Forall is_byte l ->
  runes (coerce l) = map (fun it => match it with Rune r => Rune r | BadByte => Rune ReplacementChar end) (runes l).
Proof.
  intros Hl. unfold coerce. apply runes_ok in Hl. induction Hl as [|it its Hit _ IH]; [done|]. cbn [map concat].
  destruct it as [r|]; cbn [item_bytes]; rewrite EncodeRune_scalar by (done || apply scalar_replacement);
    (rewrite runes_rune by (done || apply scalar_replacement)); by rewrite IH.
Qed.

(** ASCII is its own encoding. *)
Definition ascii_byte_ok (b : Z) : Prop := 0 <= b < 128.

Lemma runes_ascii l : Forall ascii_byte_ok l -> runes l = map Rune l.
Proof.
  induction 1 as [|b l Hb _ IH]; [done|]. unfold ascii_byte_ok in Hb. cbn [map].
  assert (E : encode_scalar b = [b]) by (unfold encode_scalar; by rewrite (proj2 (Z.ltb_lt b 128)) by lia).
  change (b :: l) with ([b] ++ l). rewrite <- E, runes_rune by (apply scalar_intro; lia). by rewrite IH.
Qed.

Lemma Valid_ascii l : Forall ascii_byte_ok l -> Valid l = true.
Proof.
  intros Hl. unfold Valid. rewrite runes_ascii by done. clear Hl. induction l as [|b l IH]; [done|exact IH].
Qed.

Example utf8_examples :
  runes [226; 130; 172; 255; 237; 160; 128; 240; 159; 146; 153] = [Rune 8364; BadByte; BadByte; BadByte; BadByte; Rune 128153] /\
  coerce [104; 192; 105] = [104; 239; 191; 189; 105] /\ Valid [206; 187] = true.
Proof. vm_compute. repeat split. Qed.
