(* ===== verification/GoJson.v ===== *)
(** * JSON as [encoding/json] reads and writes it

    The scanner of Go 1.21's scanner.go as a machine over bytes with a stack of open
    arrays and objects; it accepts what [json.Unmarshal] accepts, the limit on nesting
    included, and builds the value, with strings and numbers as they are written.
    Strings are quoted and unquoted as by [appendString] and [unquoteBytes].  Printing
    a value and scanning it gives it back. *)

From Stdlib Require Import Ascii String.
From stdpp Require Import base strings list.
From S2P Require Import Prelude GoBytes GoText GoUtf8.

#[local] Open Scope Z_scope.
#[local] Open Scope go_scope.

(** ** Values *)

Inductive json : Type :=
| JNull
| JBool (b : bool)
| JNum (text : list Z)
| JStr (raw : list Z)
| JArr (elems : list json)
| JObj (members : list (list Z * json)).

(** Induction that reaches the values inside. *)
Lemma json_nested_ind (P : json -> Prop) :
  P JNull -> (forall b, P (JBool b)) -> (forall t, P (JNum t)) -> (forall r, P (JStr r)) ->
  (forall l, Forall P l -> P (JArr l)) -> (forall l, Forall (fun m => P m.2) l -> P (JObj l)) ->
  forall v, P v.
Proof.
  intros H1 H2 H3 H4 H5 H6. fix IH 1. intros [|b|t|r|l|l]; [done|apply H2|apply H3|apply H4|..].
  - apply H5. induction l as [|v l IHl]; constructor; [apply IH|apply IHl].
  - apply H6. induction l as [|[k v] l IHl]; constructor; [apply IH|apply IHl].
Qed.

(** ** The scanner *)

(** [isSpace]. *)
Definition is_space (c : Z) : bool := (c =? 32) || (c =? 9) || (c =? 13) || (c =? 10).

Definition is_dec (c : Z) : bool := (48 <=? c) && (c <=? 57).

Definition hex_value (c : Z) : option Z :=
  if is_dec c then Some (c - 48)
  else if (97 <=? c) && (c <=? 102) then Some (c - 87)
  else if (65 <=? c) && (c <=? 70) then Some (c - 55) else None.

(** Inside a string: [stateInString], [stateInStringEsc], [stateInStringEscU...]. *)
Inductive strstate : Type := SIn | SEsc | SHex (left : nat).

#[export] Instance strstate_eq_dec : EqDecision strstate.
Proof. solve_decision. Defined.

Definition escapable (c : Z) : bool := bool_decide (c ∈ [98; 102; 110; 114; 116; 92; 47; 34]).

(** One byte of a string, the closing quote apart. *)
Definition str_step (st : strstate) (c : Z) : option strstate :=
  match st with
  | SIn => if c =? 92 then Some SEsc else if c <? 32 then None else Some SIn
  | SEsc => if escapable c then Some SIn else if c =? 117 then Some (SHex 3) else None
  | SHex n => match hex_value c with
              | None => None
              | Some _ => Some (match n with O => SIn | S n => SHex n end)
              end
  end.

(** Inside a number: [stateNeg], [state0], [state1], [stateDot], [stateDot0],
    [stateE], [stateESign], [stateE0]. *)
Inductive numstate : Type := NNeg | N0 | N1 | NDot | NDot0 | NE | NESign | NE0.

(** The next byte of a number; [None] if it is not part of it. *)
Definition num_step (st : numstate) (c : Z) : option numstate :=
  let exponent := if (c =? 101) || (c =? 69) then Some NE else None in
  match st with
  | NNeg => if c =? 48 then Some N0 else if is_dec c then Some N1 else None
  | N1 => if is_dec c then Some N1 else if c =? 46 then Some NDot else exponent
  | N0 => if c =? 46 then Some NDot else exponent
  | NDot => if is_dec c then Some NDot0 else None
  | NDot0 => if is_dec c then Some NDot0 else exponent
  | NE => if (c =? 43) || (c =? 45) then Some NESign else if is_dec c then Some NE0 else None
  | NESign | NE0 => if is_dec c then Some NE0 else None
  end.

(** A number may end here. *)
Definition num_final (st : numstate) : bool :=
  match st with N0 | N1 | NDot0 | NE0 => true | _ => false end.

Definition num_start (c : Z) : option numstate :=
  if c =? 45 then Some NNeg else if c =? 48 then Some N0 else if is_dec c then Some N1 else None.

(** The open arrays and objects, and where the scanner is in the innermost. *)
Inductive frame : Type :=
| FArr (rev : list json)
| FObj (rev : list (list Z * json)) (key : list Z).

Inductive lex : Type :=
| LValue
| LValueOrEnd
| LKey
| LKeyOrEnd
| LColon
| LStr (key : bool) (st : strstate) (rev : list Z)
| LNum (st : numstate) (rev : list Z)
| LLit (rest : list Z) (v : json)
| LEnd
| LDone (v : json).

Notation scanner := (list frame * lex)%type.

Definition maxNestingDepth : nat := 10000.

(** A value is complete. *)
Definition deliver (v : json) (fs : list frame) : scanner :=
  match fs with
  | [] => ([], LDone v)
  | FArr rev :: fs => (FArr (v :: rev) :: fs, LEnd)
  | FObj rev k :: fs => (FObj ((k, v) :: rev) k :: fs, LEnd)
  end.

Definition push (f : frame) (fs : list frame) (lx : lex) : option scanner :=
  if bool_decide (length fs < maxNestingDepth)%nat then Some (f :: fs, lx) else None.

(** [stateBeginValue] at a byte that is not white space. *)
Definition value_step (fs : list frame) (c : Z) : option scanner :=
  if c =? 123 then push (FObj [] []) fs LKeyOrEnd
  else if c =? 91 then push (FArr []) fs LValueOrEnd
  else if c =? 34 then Some (fs, LStr false SIn [])
  else if c =? 116 then Some (fs, LLit (bytes_of "rue") (JBool true))
  else if c =? 102 then Some (fs, LLit (bytes_of "alse") (JBool false))
  else if c =? 110 then Some (fs, LLit (bytes_of "ull") JNull)
  else match num_start c with Some st => Some (fs, LNum st [c]) | None => None end.

(** [stateEndValue] and [stateEndTop]. *)
Definition end_step (s : scanner) (c : Z) : option scanner :=
  if is_space c then Some s
  else
    match s with
    | (FArr rev :: fs, LEnd) =>
        if c =? 44 then Some (FArr rev :: fs, LValue)
        else if c =? 93 then Some (deliver (JArr (reverse rev)) fs) else None
    | (FObj rev k :: fs, LEnd) =>
        if c =? 44 then Some (FObj rev k :: fs, LKey)
        else if c =? 125 then Some (deliver (JObj (reverse rev)) fs) else None
    | _ => None
    end.

Definition set_key (k : list Z) (fs : list frame) : list frame :=
  match fs with FObj rev _ :: fs => FObj rev k :: fs | _ => fs end.

Definition step (s : scanner) (c : Z) : option scanner :=
  let '(fs, lx) := s in
  match lx with
  | LValue => if is_space c then Some s else value_step fs c
  | LValueOrEnd =>
      if is_space c then Some s
      else if c =? 93 then match fs with FArr rev :: fs => Some (deliver (JArr (reverse rev)) fs) | _ => None end
      else value_step fs c
  | LKey => if is_space c then Some s else if c =? 34 then Some (fs, LStr true SIn []) else None
  | LKeyOrEnd =>
      if is_space c then Some s
      else if c =? 125 then match fs with FObj rev _ :: fs => Some (deliver (JObj (reverse rev)) fs) | _ => None end
      else if c =? 34 then Some (fs, LStr true SIn []) else None
  | LColon => if is_space c then Some s else if c =? 58 then Some (fs, LValue) else None
  | LStr key st rev =>
      if bool_decide (st = SIn) && (c =? 34)
      then Some (if key : bool then (set_key (reverse rev) fs, LColon) else deliver (JStr (reverse rev)) fs)
      else match str_step st c with Some st => Some (fs, LStr key st (c :: rev)) | None => None end
  | LNum st rev =>
      match num_step st c with
      | Some st => Some (fs, LNum st (c :: rev))
      | None => if num_final st then end_step (deliver (JNum (reverse rev)) fs) c else None
      end
  | LLit rest v =>
      match rest with
      | r :: rest => if c =? r then Some (match rest with [] => deliver v fs | _ => (fs, LLit rest v) end) else None
      | [] => None
      end
  | LEnd | LDone _ => end_step s c
  end.

Fixpoint run (s : scanner) (l : list Z) : option scanner :=
  match l with [] => Some s | c :: l => s ← step s c; run s l end.

(** [checkValid] and the value; [eof] steps the scanner over a space. *)
Definition finish (s : scanner) : option json :=
  match step s 32 with Some ([], LDone v) => Some v | _ => None end.

Definition parse_json (l : list Z) : option json := s ← run ([], LValue) l; finish s.

(** ** Printing *)

Fixpoint print_json (v : json) : list Z :=
  match v with
  | JNull => bytes_of "null"
  | JBool b => bytes_of (if b then "true" else "false")
  | JNum t => t
  | JStr raw => 34 :: raw ++ [34]
  | JArr l => 91 :: join_bytes 44 (map print_json l) ++ [93]
  | JObj l => 123 :: join_bytes 44 (map (fun '(k, v) => 34 :: k ++ 34 :: 58 :: print_json v) l) ++ [125]
  end.

(** Texts that are one number, or the inside of one string. *)
Fixpoint num_scan (st : numstate) (l : list Z) : bool :=
  match l with
  | [] => num_final st
  | c :: l => match num_step st c with Some st => num_scan st l | None => false end
  end.
Definition num_ok (l : list Z) : bool :=
  match l with
  | c :: l => match num_start c with Some st => num_scan st l | None => false end
  | [] => false
  end.

Fixpoint str_scan (st : strstate) (l : list Z) : bool :=
  match l with
  | [] => bool_decide (st = SIn)
  | c :: l => if bool_decide (st = SIn) && (c =? 34) then false
              else match str_step st c with Some st => str_scan st l | None => false end
  end.
Definition str_ok (l : list Z) : bool := str_scan SIn l && bool_decide (Forall is_byte l).

Fixpoint printable (v : json) : bool :=
  match v with
  | JNull | JBool _ => true
  | JNum t => num_ok t
  | JStr raw => str_ok raw
  | JArr l => forallb printable l
  | JObj l => forallb (fun '(k, v) => str_ok k && printable v) l
  end.

Definition maximum (l : list nat) : nat := foldr Nat.max 0%nat l.

Fixpoint nesting (v : json) : nat :=
  match v with
  | JArr l => S (maximum (map nesting l))
  | JObj l => S (maximum (map (fun '(_, v) => nesting v) l))
  | _ => 0%nat
  end.

Example parse_examples_json :
  parse_json (bytes_of " { }") = Some (JObj []) /\ parse_json (bytes_of "[1,-0.5e+3 , null]") =
    Some (JArr [JNum (bytes_of "1"); JNum (bytes_of "-0.5e+3"); JNull]) /\
  parse_json (bytes_of "01") = None /\ parse_json (bytes_of "[1,]") = None /\ parse_json [] = None /\
  parse_json (bytes_of "1 2") = None /\ parse_json (bytes_of "truex") = None.
Proof. vm_compute. repeat split; reflexivity. Qed.

(** ** Scanning what was printed *)

Lemma run_app s l l' : run s (l ++ l') = s' ← run s l; run s' l'.
Proof.
  revert s. induction l as [|c l IH]; intros s; [done|]. cbn [app run]. destruct (step s c) as [s'|]; [apply IH|done].
Qed.

(** The bytes that can follow a value. *)
Definition delimiter (c : Z) : Prop := c ∈ [32; 44; 93; 125].

(** The scanner is done with the value [v]: on a delimiter it does what it does
    after the value was delivered.  (A number ends only there.) *)
Definition settled (v : json) (fs : list frame) (s : scanner) : Prop :=
  forall c, delimiter c -> step s c = step (deliver v fs) c.

Lemma settled_deliver v fs : settled v fs (deliver v fs).
Proof. done. Qed.

Lemma num_step_delimiter st c : delimiter c -> num_step st c = None.
Proof. unfold delimiter. rewrite !elem_of_cons, elem_of_nil. intros [->|[->|[->|[->|[]]]]]; by destruct st. Qed.

Lemma step_deliver v fs c : step (deliver v fs) c = end_step (deliver v fs) c.
Proof. by destruct fs as [|[] fs]. Qed.

Lemma run_num fs st rev l : num_scan st l = true ->
  exists s, run (fs, LNum st rev) l = Some s /\ settled (JNum (reverse rev ++ l)) fs s.
Proof.
  revert st rev. induction l as [|c l IH]; intros st rev H; simpl in H.
  - eexists. split; [done|]. intros c Hc. cbn [step]. rewrite num_step_delimiter, H by done.
    by rewrite app_nil_r, step_deliver.
  - cbn [run step]. destruct (num_step st c) as [st'|]; [|done]. destruct (IH st' (c :: rev) H) as (s & Hs & Hv).
    exists s. split; [exact Hs|]. by rewrite reverse_cons, <- app_assoc in Hv.
Qed.

Lemma run_str fs key st rev l : str_scan st l = true ->
  run (fs, LStr key st rev) (l ++ [34]) =
    Some (if key : bool then (set_key (reverse rev ++ l) fs, LColon) else deliver (JStr (reverse rev ++ l)) fs).
Proof.
  revert st rev. induction l as [|c l IH]; intros st rev H; cbn [app run step].
  - simpl in H. rewrite H, Z.eqb_refl. simpl. by rewrite app_nil_r.
  - simpl in H. destruct (bool_decide (st = SIn) && (c =? 34)); [done|]. destruct (str_step st c) as [st'|]; [|done].
    cbn. rewrite IH by done. by rewrite reverse_cons, <- app_assoc.
Qed.

(** How the printed form of a value starts. *)
Lemma print_head v : printable v = true ->
  exists c l, print_json v = c :: l /\ is_space c = false /\ c <> 93.
Proof.
  assert (Hn : forall c st, num_start c = Some st -> is_space c = false /\ c <> 93).
  { intros c st. unfold num_start, is_dec, is_space. intros H. split_ifs_in H; try done; split; try lia;
      apply orb_false_iff; rewrite ?orb_false_iff, !Z.eqb_neq; lia. }
  destruct v as [|[]|t|r|l|l]; intros H; try (eexists _, _; split; [reflexivity|split; [reflexivity|discriminate]]).
  destruct t as [|c t]; [done|]. simpl in H. destruct (num_start c) as [st|] eqn:E; [|done].
  exists c, t. split; [done|]. by eapply Hn.
Qed.

Lemma run_value_or_end fs v l : printable v = true ->
  run (fs, LValueOrEnd) (print_json v ++ l) = run (fs, LValue) (print_json v ++ l).
Proof.
  intros H. destruct (print_head v H) as (c & t & -> & Hs & Hc). cbn [app run step].
  by rewrite Hs, (proj2 (Z.eqb_neq _ _)).
Qed.

(** A value that scans alone scans in an array and after a key. *)
Definition scans (v : json) : Prop := forall fs, (length fs + nesting v <= maxNestingDepth)%nat ->
  exists s, run (fs, LValue) (print_json v) = Some s /\ settled v fs s.

Lemma scans_then v fs l c : scans v -> (length fs + nesting v <= maxNestingDepth)%nat -> delimiter c ->
  run (fs, LValue) (print_json v ++ c :: l) = s ← step (deliver v fs) c; run s l.
Proof.
  intros Hv Hd Hc. destruct (Hv fs Hd) as (s & Hs & Hset). rewrite run_app, Hs. simpl. by rewrite Hset.
Qed.

Lemma maximum_le l n : (maximum l <= n)%nat <-> Forall (fun x => (x <= n)%nat) l.
Proof.
  induction l as [|x l IH]; simpl; [split; [constructor|lia]|]. rewrite Forall_cons, <- IH. lia.
Qed.

(** Separators and closing brackets after a value. *)
Lemma after_elem v rev fs :
  step (deliver v (FArr rev :: fs)) 44 = Some (FArr (v :: rev) :: fs, LValue) /\
  step (deliver v (FArr rev :: fs)) 93 = Some (deliver (JArr (reverse rev ++ [v])) fs).
Proof. split; [done|]. rewrite <- reverse_cons. done. Qed.

Lemma after_member v rev k fs :
  step (deliver v (FObj rev k :: fs)) 44 = Some (FObj ((k, v) :: rev) k :: fs, LKey) /\
  step (deliver v (FObj rev k :: fs)) 125 = Some (deliver (JObj (reverse rev ++ [(k, v)])) fs).
Proof. split; [done|]. rewrite <- reverse_cons. done. Qed.

Lemma run_elems fs rev v l : Forall scans (v :: l) ->
  Forall (fun v => (S (length fs) + nesting v <= maxNestingDepth)%nat) (v :: l) ->
  run (FArr rev :: fs, LValue) (join_bytes 44 (map print_json (v :: l)) ++ [93]) =
    Some (deliver (JArr (reverse rev ++ v :: l)) fs).
Proof.
  revert rev v. induction l as [|w l IH]; intros rev v Hs Hd; inversion Hs; inversion Hd; subst.
  - cbn [map join_bytes]. rewrite scans_then; [|done|done|by repeat constructor]. by rewrite (proj2 (after_elem _ _ _)).
  - change (join_bytes 44 (map print_json (v :: w :: l))) with
      (print_json v ++ 44 :: join_bytes 44 (map print_json (w :: l))).
    rewrite <- app_assoc. cbn [app]. rewrite scans_then; [|done|done|by repeat constructor].
    rewrite (proj1 (after_elem _ _ _)). cbn [mbind option_bind]. rewrite IH by done.
    by rewrite reverse_cons, <- app_assoc.
Qed.

Definition print_member (m : list Z * json) : list Z := 34 :: m.1 ++ 34 :: 58 :: print_json m.2.

Lemma print_obj l : print_json (JObj l) = 123 :: join_bytes 44 (map print_member l) ++ [125].
Proof.
  cbn [print_json]. do 3 f_equal. apply map_ext. by intros [k v].
Qed.

(** A key and its colon. *)
Lemma run_key fs rev k0 k l : str_ok k = true ->
  run (FObj rev k0 :: fs, LStr true SIn []) (k ++ 34 :: 58 :: l) = run (FObj rev k :: fs, LValue) l.
Proof.
  intros [Hk _]%andb_prop. change (34 :: 58 :: l) with ([34] ++ 58 :: l). rewrite app_assoc, run_app, run_str by done. done.
Qed.

Lemma run_members fs rev k0 m l : Forall (fun m => str_ok m.1 = true /\ scans m.2) (m :: l) ->
  Forall (fun m => (S (length fs) + nesting m.2 <= maxNestingDepth)%nat) (m :: l) ->
  run (FObj rev k0 :: fs, LKey) (join_bytes 44 (map print_member (m :: l)) ++ [125]) =
    Some (deliver (JObj (reverse rev ++ m :: l)) fs).
Proof.
  revert rev k0 m. induction l as [|w l IH]; intros rev k0 [k v] Hs Hd; inversion Hs as [|? ? [Hk Hv]]; inversion Hd; subst;
    cbn [fst snd] in *.
  - change (join_bytes 44 (map print_member [(k, v)]) ++ [125]) with
      (34 :: (k ++ 34 :: 58 :: print_json v) ++ [125]).
    rewrite <- app_assoc. cbn [app run step]. change (is_space 34) with false. cbn [Z.eqb Pos.eqb mbind option_bind].
    rewrite run_key, scans_then; [|done|done|by repeat constructor|done]. by rewrite (proj2 (after_member _ _ _ _)).
  - change (join_bytes 44 (map print_member ((k, v) :: w :: l)) ++ [125]) with
      (34 :: ((k ++ 34 :: 58 :: print_json v) ++ 44 :: join_bytes 44 (map print_member (w :: l))) ++ [125]).
    rewrite <- !app_assoc. cbn [app run step]. change (is_space 34) with false. cbn [Z.eqb Pos.eqb mbind option_bind].
    rewrite run_key, scans_then; [|done|done|by repeat constructor|done].
    rewrite (proj1 (after_member _ _ _ _)). cbn [mbind option_bind]. rewrite IH by done.
    by rewrite reverse_cons, <- app_assoc.
Qed.

Lemma forallb_Forall {A} (f : A -> bool) l : forallb f l = true <-> Forall (fun x => f x = true) l.
Proof. induction l as [|x l IH]; simpl; [by split|]. by rewrite andb_true_iff, Forall_cons, IH. Qed.

(** Room for a value leaves room for its parts. *)
Lemma room_inside {A} (f : A -> nat) l k n : (k + S (maximum (map f l)) <= n)%nat ->
  Forall (fun x => (S k + f x <= n)%nat) l.
Proof.
  intros H. assert (Hm : (maximum (map f l) <= n - S k)%nat) by lia. apply maximum_le, Forall_map in Hm.
  eapply Forall_impl; [exact Hm|]. intros x Hx. cbn beta in Hx. lia.
Qed.

Lemma printable_scans v : printable v = true -> scans v.
Proof.
  induction v as [|b|t|r|l IH|l IH] using json_nested_ind; intros Hp fs Hd.
  - eexists. split; [reflexivity|apply settled_deliver].
  - destruct b; (eexists; split; [reflexivity|apply settled_deliver]).
  - cbn [printable print_json] in *. destruct t as [|c t]; [done|]. cbn [num_ok] in Hp.
    destruct (print_head (JNum (c :: t)) Hp) as (? & ? & [= <- <-] & Hs & _).
    destruct (num_start c) as [st|] eqn:E; [|done]. cbn [run step]. rewrite Hs.
    assert (Hv : value_step fs c = Some (fs, LNum st [c])).
    { unfold value_step. rewrite E. unfold num_start, is_dec in E. split_ifs_in E; simplify_eq;
        rewrite !(proj2 (Z.eqb_neq _ _)) by lia; done. }
    rewrite Hv. cbn [mbind option_bind]. apply (run_num fs st [c] t Hp).
  - cbn [printable print_json] in *. eexists. split; [|apply settled_deliver].
    change (34 :: r ++ [34]) with ([34] ++ (r ++ [34])). rewrite run_app. cbn [run step].
    apply andb_prop in Hp as [Hp _]. by apply (run_str fs false SIn []).
  - cbn [printable nesting] in *. rewrite forallb_Forall in Hp.
    assert (Hall : Forall scans l) by (eapply Forall_impl; [apply Forall_and; split; [exact IH|exact Hp]|]; naive_solver).
    pose proof (room_inside nesting l (length fs) maxNestingDepth Hd) as Hmax.
    eexists. split; [|apply settled_deliver]. cbn [print_json run step]. change (is_space 91) with false.
    cbn [value_step Z.eqb Pos.eqb]. unfold push. rewrite bool_decide_eq_true_2 by lia. cbn [mbind option_bind].
    destruct l as [|v l]; [done|]. pose proof (run_elems fs [] v l Hall Hmax) as H. cbn [reverse rev_append app] in H.
    rewrite <- H. apply Forall_cons in Hp as [Hv _]. cbn [map join_bytes].
    destruct l as [|w l]; cbn [map join_bytes]; rewrite <- ?app_assoc; by apply run_value_or_end.
  - cbn [printable nesting] in *. rewrite forallb_Forall in Hp.
    assert (Hall : Forall (fun m => str_ok m.1 = true /\ scans m.2) l).
    { eapply Forall_impl; [apply Forall_and; split; [exact IH|exact Hp]|]. intros [k v]. simpl.
      rewrite andb_true_iff. naive_solver. }
    assert (Hmax : Forall (fun m => (S (length fs) + nesting m.2 <= maxNestingDepth)%nat) l).
    { eapply Forall_impl; [exact (room_inside _ l (length fs) maxNestingDepth Hd)|]. by intros [k v]. }
    eexists. split; [|apply settled_deliver]. rewrite print_obj. cbn [run step]. change (is_space 123) with false.
    cbn [value_step Z.eqb Pos.eqb]. unfold push. rewrite bool_decide_eq_true_2 by lia. cbn [mbind option_bind].
    destruct l as [|m l]; [done|]. pose proof (run_members fs [] [] m l Hall Hmax) as H. cbn [reverse rev_append app] in H.
    rewrite <- H. cbn [map join_bytes]. by destruct l.
Qed.

(** Scanning undoes printing. *)
Lemma parse_print v : printable v = true -> (nesting v <= maxNestingDepth)%nat -> parse_json (print_json v) = Some v.
Proof.
  intros Hp Hd. destruct (printable_scans v Hp [] Hd) as (s & Hs & Hset). unfold parse_json, finish. rewrite Hs.
  cbn [mbind option_bind]. rewrite Hset by (by left). done.
Qed.

(** ** Strings *)

(** [appendString] with HTML escaping, the quotes apart. *)
Definition hex_escape (b : Z) : list Z := [92; 117; 48; 48; hextable (b / 16); hextable (b mod 16)].

(** [htmlSafeSet]. *)
Definition html_safe (b : Z) : bool := (32 <=? b) && negb (bool_decide (b ∈ [34; 38; 60; 62; 92])).

Definition quote_item (it : rune_item) : list Z :=
  match it with
  | BadByte => bytes_of "\ufffd"
  | Rune r =>
      if r <? 128 then
        if html_safe r then [r]
        else if (r =? 92) || (r =? 34) then [92; r]
        else if r =? 10 then [92; 110] else if r =? 13 then [92; 114] else if r =? 9 then [92; 116]
        else hex_escape r
      else if (r =? 8232) || (r =? 8233) then bytes_of "\u202" ++ [hextable (r mod 16)]
      else encode_scalar r
  end.

Definition quote (s : string) : list Z := concat (map quote_item (runes (bytes_of s))).

(** [getu4]: the code of a [\uXXXX] at the front. *)
Definition getu4 (l : list Z) : option Z :=
  match l with
  | b :: u :: l =>
      if (b =? 92) && (u =? 117) then
        match l with
        | h3 :: h2 :: h1 :: h0 :: _ =>
            a ← hex_value h3; b ← hex_value h2; c ← hex_value h1; d ← hex_value h0;
            Some (((a * 16 + b) * 16 + c) * 16 + d)
        | _ => None
        end
      else None
  | _ => None
  end.

(** [utf16.DecodeRune]; [None] is the replacement character. *)
Definition utf16_pair (r1 r2 : Z) : option Z :=
  if (55296 <=? r1) && (r1 <? 56320) && (56320 <=? r2) && (r2 <? 57344)
  then Some ((r1 - 55296) * 1024 + (r2 - 56320) + 65536) else None.

Definition unescape (c : Z) : option Z :=
  if bool_decide (c ∈ [34; 92; 47; 39]) then Some c
  else if c =? 98 then Some 8 else if c =? 102 then Some 12 else if c =? 110 then Some 10
  else if c =? 114 then Some 13 else if c =? 116 then Some 9 else None.

(** One step of the loop of [unquoteBytes]: bytes written and bytes read. *)
Definition unquote_item (l : list Z) : option (list Z * nat) :=
  match l with
  | [] => None
  | c :: rest =>
      if c =? 92 then
        match rest with
        | [] => None
        | d :: _ =>
            if d =? 117 then
              rr ← getu4 l;
              if surrogate rr then
                match getu4 (drop 6 l) ≫= utf16_pair rr with
                | Some dec => Some (EncodeRune dec, 12%nat)
                | None => Some (EncodeRune ReplacementChar, 6%nat)
                end
              else Some (EncodeRune rr, 6%nat)
            else b ← unescape d; Some ([b], 2%nat)
        end
      else if (c =? 34) || (c <? 32) then None
      else if c <? 128 then Some ([c], 1%nat)
      else let '(it, w) := DecodeRune l in Some (item_bytes it, w)
  end.

Fixpoint unquote_from (skip : nat) (l : list Z) : option (list Z) :=
  match l with
  | [] => Some []
  | _ :: rest =>
      match skip with
      | S skip => unquote_from skip rest
      | O => '(bs, w) ← unquote_item l; out ← unquote_from (pred w) rest; Some (bs ++ out)
      end
  end.

(** [unquote]: a string literal without its quotes. *)
Definition unquote (raw : list Z) : option string := string_of <$> unquote_from 0 raw.

Example quote_examples :
  quote (string_of [34; 60; 9; 8; 127; 226; 128; 168; 206; 187; 255]) =
    bytes_of "\" ++ [34] ++ bytes_of "\u003c\t\u0008" ++ [127] ++ bytes_of "\u2028" ++ [206; 187] ++ bytes_of "\ufffd" /\
  unquote (bytes_of "\ud83d\udc99\ud800x\/") = Some (string_of [240; 159; 146; 153; 239; 191; 189; 120; 47]).
Proof. vm_compute. split; reflexivity. Qed.

Lemma unquote_skip x rest : unquote_from (length x) (x ++ rest) = unquote_from 0 rest.
Proof. induction x as [|b x IH]; [done|exact IH]. Qed.

Lemma unquote_step x rest bs : x <> [] -> unquote_item (x ++ rest) = Some (bs, length x) ->
  unquote_from 0 (x ++ rest) = out ← unquote_from 0 rest; Some (bs ++ out).
Proof.
  destruct x as [|c x]; [done|]. intros _ H. cbn [app unquote_from] in *. rewrite H.
  cbn [mbind option_bind length pred]. by rewrite unquote_skip.
Qed.

(** The ASCII characters, one by one. *)
Lemma ascii_cases (P : Z -> Prop) : Forall P (map Z.of_nat (seq 0 128)) -> forall b, 0 <= b < 128 -> P b.
Proof.
  intros H b Hb. rewrite Forall_forall in H. apply H, list_elem_of_fmap. exists (Z.to_nat b).
  split; [lia|]. apply elem_of_seq. lia.
Qed.

Lemma unquote_ascii r rest : 0 <= r < 128 ->
  unquote_item (quote_item (Rune r) ++ rest) = Some ([r], length (quote_item (Rune r))).
Proof.
  revert r. apply ascii_cases. cbn [map seq]. repeat (constructor; [reflexivity|]). constructor.
Qed.

(** Unquoting undoes quoting, rune by rune. *)
Lemma unquote_quote_item it rest : item_ok it ->
  unquote_from 0 (quote_item it ++ rest) = out ← unquote_from 0 rest; Some (item_bytes it ++ out).
Proof.
  intros Hit. destruct it as [r|]; [|by apply (unquote_step (bytes_of "\ufffd"))]. cbn [item_ok item_bytes] in *.
  pose proof (scalar_range r Hit) as Hr. rewrite EncodeRune_scalar by done.
  destruct (Z.ltb_spec r 128) as [Hs|Hs].
  - assert (E : encode_scalar r = [r]) by (unfold encode_scalar; by rewrite (proj2 (Z.ltb_lt r 128)) by lia).
    rewrite E. apply unquote_step; [|by apply unquote_ascii; lia]. unfold quote_item, hex_escape.
    rewrite (proj2 (Z.ltb_lt r 128)) by lia. by repeat case_match.
  - unfold quote_item. rewrite (proj2 (Z.ltb_ge _ _)) by lia.
    destruct ((r =? 8232) || (r =? 8233)) eqn:E.
    { apply orb_true_iff in E as [->%Z.eqb_eq| ->%Z.eqb_eq]; by apply (unquote_step (_ ++ _)). }
    pose proof (DecodeRune_encode r rest Hit) as Hd. apply unquote_step; [unfold encode_scalar; by repeat case_match|].
    destruct (encode_scalar r) as [|b x] eqn:Eb; [by unfold encode_scalar in Eb; repeat case_match|].
    assert (Hb : 128 <= b).
    { destruct (encode_scalar_cases r) as [[? Hc]|[[? Hc]|[[? Hc]|[? Hc]]]]; [lia|lia|..]; rewrite Hc in Eb;
        injection Eb as <- _; pose proof (Z.div_pos r 64); pose proof (Z.div_pos r 4096); pose proof (Z.div_pos r 262144); lia. }
    cbn [app unquote_item] in *. rewrite (proj2 (Z.eqb_neq b 92)), (proj2 (Z.eqb_neq b 34)) by lia.
    rewrite (proj2 (Z.ltb_ge b 32)), (proj2 (Z.ltb_ge b 128)) by lia. cbn [orb]. rewrite Hd.
    cbn [item_bytes]. by rewrite EncodeRune_scalar, Eb.
Qed.

Lemma unquote_quote s : unquote (quote s) = Some (string_of (coerce (bytes_of s))).
Proof.
  unfold unquote, quote, coerce. pose proof (runes_ok _ (bytes_of_range s)) as Hok.
  assert (H : unquote_from 0 (concat (map quote_item (runes (bytes_of s)))) =
    Some (concat (map item_bytes (runes (bytes_of s))))); [|by rewrite H].
  induction Hok as [|it its Hit _ IH]; [done|]. cbn [map concat]. rewrite unquote_quote_item by done. by rewrite IH.
Qed.

(** A well-formed string survives. *)
Lemma unquote_quote_valid s : ValidString s = true -> unquote (quote s) = Some s.
Proof. intros H. rewrite unquote_quote, coerce_valid by (done || apply bytes_of_range). by rewrite string_bytes. Qed.

(** ** What printing and quoting write *)

Lemma str_scan_app st x rest : str_scan st x = true -> str_scan st (x ++ rest) = str_scan SIn rest.
Proof.
  revert st. induction x as [|c x IH]; intros st; cbn [app str_scan].
  - by intros ->%bool_decide_eq_true.
  - destruct (bool_decide (st = SIn) && (c =? 34)); [done|]. destruct (str_step st c); [apply IH|done].
Qed.

Lemma str_scan_plain x : Forall (fun c => 128 <= c) x -> str_scan SIn x = true.
Proof.
  induction 1 as [|c x Hc _ IH]; [done|]. cbn [str_scan str_step].
  rewrite (proj2 (Z.eqb_neq c 34)), (proj2 (Z.eqb_neq c 92)), (proj2 (Z.ltb_ge c 32)) by lia. exact IH.
Qed.

Lemma quote_item_ok it : item_ok it -> str_scan SIn (quote_item it) = true /\ Forall is_byte (quote_item it).
Proof.
  destruct it as [r|]; intros Hit; [|split; [reflexivity|apply bytes_of_range]]. cbn [item_ok] in Hit.
  pose proof (scalar_range r Hit) as Hr. destruct (Z.ltb_spec r 128) as [Hs|Hs].
  - assert (H : forall r, 0 <= r < 128 -> str_scan SIn (quote_item (Rune r)) = true /\ bool_decide (Forall is_byte (quote_item (Rune r))) = true).
    { apply ascii_cases. cbn [map seq]. repeat (constructor; [split; vm_compute; reflexivity|]). constructor. }
    destruct (H r) as [H1 H2]; [lia|]. split; [done|by apply bool_decide_eq_true in H2].
  - unfold quote_item. rewrite (proj2 (Z.ltb_ge _ _)) by lia. destruct ((r =? 8232) || (r =? 8233)) eqn:E.
    { apply orb_true_iff in E as [->%Z.eqb_eq| ->%Z.eqb_eq]; (split; [reflexivity|]);
        apply (bool_decide_eq_true_1 _); vm_compute; reflexivity. }
    split; [|by apply encode_scalar_byte]. apply str_scan_plain.
    destruct (encode_scalar_cases r) as [[? ->]|[[? ->]|[[? ->]|[? ->]]]]; [lia|lia|..]; repeat constructor;
      pose proof (Z.div_pos r 64); pose proof (Z.div_pos r 4096); pose proof (Z.div_pos r 262144);
      pose proof (Z.mod_pos_bound r 64); pose proof (Z.mod_pos_bound (r / 64) 64); pose proof (Z.mod_pos_bound (r / 4096) 64); lia.
Qed.

Lemma quote_ok s : str_ok (quote s) = true.
Proof.
  unfold quote. pose proof (runes_ok _ (bytes_of_range s)) as Hok.
  assert (H : str_scan SIn (concat (map quote_item (runes (bytes_of s)))) = true /\
    Forall is_byte (concat (map quote_item (runes (bytes_of s))))).
  { induction Hok as [|it its Hit _ [IH1 IH2]]; [split; [done|constructor]|]. cbn [map concat].
    destruct (quote_item_ok it Hit) as [H1 H2]. rewrite str_scan_app by done. split; [done|by apply Forall_app]. }
  destruct H as [H1 H2]. unfold str_ok. by rewrite H1, bool_decide_eq_true_2.
Qed.

Lemma num_bytes st c st' : num_step st c = Some st' -> is_byte c.
Proof.
  unfold num_step, is_dec, is_byte. destruct st; intros H; split_ifs_in H; try done; try lia;
    match goal with E : _ || _ = true |- _ => apply orb_true_iff in E as [?%Z.eqb_eq|?%Z.eqb_eq] end; lia.
Qed.

Lemma num_ok_bytes t : num_ok t = true -> Forall is_byte t.
Proof.
  assert (Hscan : forall l st, num_scan st l = true -> Forall is_byte l).
  { induction l as [|c l IH]; intros st H; [constructor|]. simpl in H. destruct (num_step st c) as [st'|] eqn:E; [|done].
    constructor; [by eapply num_bytes|by eapply IH]. }
  destruct t as [|c t]; [done|]. simpl. destruct (num_start c) as [st|] eqn:E; [|done]. intros H.
  constructor; [|by eapply Hscan]. unfold num_start, is_dec in E. unfold is_byte. split_ifs_in E; simplify_eq; lia.
Qed.

Lemma join_bytes_Forall P sep ls : P sep -> Forall (Forall P) ls -> Forall P (join_bytes sep ls).
Proof.
  intros Hs. induction 1 as [|l ls Hl Hls IH]; [constructor|]. destruct ls as [|l' ls]; [done|].
  cbn [join_bytes] in *. apply Forall_app. split; [done|]. by constructor.
Qed.

Lemma print_bytes v : printable v = true -> Forall is_byte (print_json v).
Proof.
  assert (Hb : forall b : Z, 0 <= b < 256 -> is_byte b) by done.
  induction v as [|b|t|r|l IH|l IH] using json_nested_ind; intros Hp.
  - apply bytes_of_range.
  - apply bytes_of_range.
  - by apply num_ok_bytes.
  - apply andb_prop in Hp as [_ Hp%bool_decide_eq_true]. cbn [print_json]. constructor; [by apply Hb|].
    apply Forall_app. split; [done|]. constructor; [by apply Hb|constructor].
  - cbn [printable print_json] in *. rewrite forallb_Forall in Hp. constructor; [by apply Hb|]. apply Forall_app.
    split; [|constructor; [by apply Hb|constructor]]. apply join_bytes_Forall; [by apply Hb|]. apply Forall_map.
    eapply Forall_impl; [apply Forall_and; split; [exact IH|exact Hp]|]. naive_solver.
  - rewrite print_obj. cbn [printable] in *. rewrite forallb_Forall in Hp. constructor; [by apply Hb|]. apply Forall_app.
    split; [|constructor; [by apply Hb|constructor]]. apply join_bytes_Forall; [by apply Hb|]. apply Forall_map.
    eapply Forall_impl; [apply Forall_and; split; [exact IH|exact Hp]|]. intros [k v] [Hv Hk].
    cbn [fst snd] in *. apply andb_prop in Hk as [Hk Hpv]. apply andb_prop in Hk as [_ Hk%bool_decide_eq_true].
    unfold print_member. cbn [fst snd]. constructor; [by apply Hb|]. apply Forall_app. split; [done|].
    constructor; [by apply Hb|]. constructor; [by apply Hb|]. by apply Hv.
Qed.

(** ** Object members *)

(** [foldName] on names that may equal an ASCII name: letters without case, the long
    s as S and the Kelvin sign as K. *)
Fixpoint foldName (l : list Z) : list Z :=
  match l with
  | 197 :: ((191 :: rest) as tl) => 83 :: foldName rest
  | 226 :: ((132 :: ((170 :: rest) as tl')) as tl) => 75 :: foldName rest
  | b :: rest => (if (97 <=? b) && (b <=? 122) then b - 32 else b) :: foldName rest
  | [] => []
  end.

(** The field a key names: by its exact name, otherwise without case. *)
Definition find_field (names : list string) (key : string) : option string :=
  match find (fun n => n =?s key) names with
  | Some n => Some n
  | None => find (fun n => bool_decide (foldName (bytes_of n) = foldName (bytes_of key))) names
  end.

Section Struct.
Context {A : Type} (names : list string) (setField : string -> json -> A -> option A).

(** [object] into a struct: members in order, each into the field it names; a key
    that names none is skipped. *)
Fixpoint decode_members (ms : list (list Z * json)) (a : A) : option A :=
  match ms with
  | [] => Some a
  | (k, v) :: ms =>
      key ← unquote k;
      a ← match find_field names key with Some n => setField n v a | None => Some a end;
      decode_members ms a
  end.

(** A value into a struct; null leaves it as it is. *)
Definition decode_struct (v : json) (a : A) : option A :=
  match v with JObj ms => decode_members ms a | JNull => Some a | _ => None end.
End Struct.

Definition decode_string (v : json) (s : string) : option string :=
  match v with JStr raw => unquote raw | JNull => Some s | _ => None end.

Definition decode_bool (v : json) (b : bool) : option bool :=
  match v with JBool b' => Some b' | JNull => Some b | _ => None end.

(** [strconv.ParseUint(s, 10, 64)] on a number literal. *)
Definition decode_uint64 (v : json) (n : Z) : option Z :=
  match v with
  | JNum t => z ← digits_value 0 t; if z <? 2 ^ 64 then Some z else None
  | JNull => Some n
  | _ => None
  end.

Definition encode_string (s : string) : json := JStr (quote s).
Definition encode_uint (n : Z) : json := JNum (bytes_of (Itoa n)).

(** A struct as an object, its fields by name. *)
Definition encode_struct (fields : list (string * json)) : json := JObj (map (fun '(n, v) => (bytes_of n, v)) fields).

Lemma find_field_exact names n : n ∈ names -> find_field names n = Some n.
Proof.
  intros Hn. unfold find_field. assert (E : find (fun m => m =?s n) names = Some n); [|by rewrite E].
  induction names as [|m names IH]; [by apply elem_of_nil in Hn|]. cbn [find]. case_bool_decide as Em; [by subst|].
  apply IH. apply elem_of_cons in Hn as [->|]; done.
Qed.

(** A member whose key is the name of a field. *)
Lemma decode_member {A} names (setField : string -> json -> A -> option A) n v ms a :
  unquote (bytes_of n) = Some n -> n ∈ names ->
  decode_members names setField ((bytes_of n, v) :: ms) a = a ← setField n v a; decode_members names setField ms a.
Proof. intros Hu Hn. cbn [decode_members]. rewrite Hu. cbn [mbind option_bind]. by rewrite find_field_exact. Qed.

Lemma num_scan_digits st l rest : st = N1 \/ st = NDot0 \/ st = NE0 -> Forall digit_byte l ->
  num_scan st (l ++ rest) = num_scan st rest.
Proof.
  intros Hst. induction 1 as [|c l Hc _ IH]; [done|]. unfold digit_byte in Hc. cbn [app num_scan].
  assert (E : num_step st c = Some st); [|by rewrite E].
  assert (Hd : is_dec c = true) by (unfold is_dec; rewrite !(proj2 (Z.leb_le _ _)) by lia; done).
  destruct Hst as [->|[->| ->]]; simpl; by rewrite Hd.
Qed.

(** A number that starts with its digits. *)
Lemma num_ok_digits fuel n rest : 0 < n < 10 ^ Z.of_nat fuel -> num_ok (dec_digits fuel n [] ++ rest) = num_scan N1 rest.
Proof.
  intros Hn. destruct (dec_digits_head fuel n Hn) as (c & l & E & Hc).
  assert (Hf : (1 <= fuel)%nat) by (destruct fuel; [simpl in Hn; lia|lia]).
  destruct (dec_digits_spec fuel n) as (_ & _ & Hd); [lia|done|]. rewrite E in *. apply Forall_cons in Hd as [_ Hd].
  cbn [app num_ok]. unfold num_start, is_dec. rewrite (proj2 (Z.eqb_neq c 45)), (proj2 (Z.eqb_neq c 48)) by lia.
  rewrite !(proj2 (Z.leb_le _ _)) by lia. cbn [andb]. by apply num_scan_digits; [left|].
Qed.

Lemma Itoa_pos_bytes n : 0 <= n < 10 ^ 20 -> bytes_of (Itoa n) = dec_digits 20 n [].
Proof.
  intros Hn. unfold Itoa. rewrite (proj2 (Z.ltb_ge n 0)) by lia. destruct (dec_digits_spec 20 n) as (_ & _ & Hd); [lia|lia|].
  apply bytes_string. eapply Forall_impl; [exact Hd|]. unfold digit_byte, is_byte. lia.
Qed.

Lemma decode_encode_uint n m : 0 <= n < 2 ^ 64 ->
  decode_uint64 (encode_uint n) m = Some n /\ printable (encode_uint n) = true.
Proof.
  intros Hn. unfold encode_uint. rewrite Itoa_pos_bytes by lia. cbn [decode_uint64 printable].
  destruct (dec_digits_spec 20 n) as (Hv & _ & _); [lia|lia|]. rewrite Hv. cbn [mbind option_bind].
  rewrite (proj2 (Z.ltb_lt _ _)) by lia. split; [done|].
  destruct (Z.eq_dec n 0) as [->|]; [reflexivity|]. rewrite <- (app_nil_r (dec_digits _ _ _)).
  by rewrite num_ok_digits by lia.
Qed.
