(* ===== verification/GoTime.v ===== *)
(** * [time.Time] and its JSON form

    A time is an instant and the offset of its location.  Dates are computed as in
    Go's time.go (cycles of 400, 100, 4 and 1 years); [MarshalJSON] writes RFC 3339
    with nanoseconds, [UnmarshalJSON] reads it as leniently as Go 1.21 does.  What
    was written is read back. *)

From Stdlib Require Import Ascii String.
From stdpp Require Import base strings list.
From S2P Require Import Prelude GoBytes GoText GoJson.

#[local] Open Scope Z_scope.
#[local] Open Scope go_scope.

(** Nanoseconds since 1970 in UTC, and seconds east of UTC. *)
Record Time : Type := mkTime { t_nano : Z; t_offset : Z }.

#[export] Instance Time_eq_dec : EqDecision Time.
Proof. solve_decision. Defined.

(** [t.UTC()] of an instant, and [t.UnixNano()]. *)
Definition UTC (nano : Z) : Time := mkTime nano 0.
Definition UnixNano (t : Time) : Z := i64 (t_nano t).

(** The zero [time.Time]: the first of January of year 1, and 1970 counted from it. *)
Definition unixToInternal : Z := 62135596800.
Definition zeroTime : Time := UTC (- unixToInternal * 1000000000).

(** ** Dates; day 0 is the first of January of year 1 *)

Definition isLeap (year : Z) : bool :=
  (year mod 4 =? 0) && (negb (year mod 100 =? 0) || (year mod 400 =? 0)).

Definition daysBefore : list Z := [0; 31; 59; 90; 120; 151; 181; 212; 243; 273; 304; 334; 365].
Definition days_before (month : Z) : Z := default 0 (daysBefore !! Z.to_nat month).

Definition daysIn (month : Z) (leap : bool) : Z :=
  if (month =? 2) && leap then 29 else days_before month - days_before (month - 1).

(** [absDate]: the year and the day of the year. *)
Definition yearDay (d : Z) : Z * Z :=
  let n400 := d / 146097 in let d := d - 146097 * n400 in
  let n100 := d / 36524 in let n100 := n100 - Z.shiftr n100 2 in let d := d - 36524 * n100 in
  let n4 := d / 1461 in let d := d - 1461 * n4 in
  let n1 := d / 365 in let n1 := n1 - Z.shiftr n1 2 in
  (400 * n400 + 100 * n100 + 4 * n4 + n1 + 1, d - 365 * n1).

(** The month and the day of it. *)
Definition monthDay (leap : bool) (yday : Z) : Z * Z :=
  if leap && (yday =? 59) then (2, 29)
  else
    let day := if leap && (59 <? yday) then yday - 1 else yday in
    let month := day / 31 in
    let '(month, begin) := if days_before (month + 1) <=? day then (month + 1, days_before (month + 1))
                           else (month, days_before month) in
    (month + 1, day - begin + 1).

(** [daysSinceEpoch], and the day number of a date ([Date]). *)
Definition daysSinceEpoch (year : Z) : Z :=
  let y := year - 1 in
  let n400 := y / 400 in let y := y - 400 * n400 in
  let n100 := y / 100 in let y := y - 100 * n100 in
  let n4 := y / 4 in let y := y - 4 * n4 in
  146097 * n400 + 36524 * n100 + 1461 * n4 + 365 * y.

Definition dayOfYear (leap : bool) (month day : Z) : Z :=
  days_before (month - 1) + (if leap && (3 <=? month) then 1 else 0) + (day - 1).

Definition dayNumber (year month day : Z) : Z := daysSinceEpoch year + dayOfYear (isLeap year) month day.

(** ** Writing *)

(** [appendInt] with a width. *)
Fixpoint fixed_digits (w : nat) (n : Z) : list Z :=
  match w with O => [] | S w => fixed_digits w (n / 10) ++ [48 + n mod 10] end.

Fixpoint drop_zeros (l : list Z) : list Z :=
  match l with c :: rest => if c =? 48 then drop_zeros rest else l | [] => [] end.
Definition trim_zeros (l : list Z) : list Z := reverse (drop_zeros (reverse l)).

(** [appendFormatRFC3339] of the nanosecond layout, and the checks of
    [appendStrictRFC3339]: the year has four digits and the offset is below a day. *)
Definition formatRFC3339 (t : Time) : option (list Z) :=
  let local := t_nano t + t_offset t * 1000000000 in
  let abs := local / 1000000000 + unixToInternal in
  let ns := local mod 1000000000 in
  let '(year, yday) := yearDay (abs / 86400) in
  let '(month, day) := monthDay (isLeap year) yday in
  let sec := abs mod 86400 in
  let zone := Z.quot (t_offset t) 60 in
  if (year <? 0) || (9999 <? year) || (24 <=? Z.abs zone / 60) then None
  else
    Some (fixed_digits 4 year ++ [45] ++ fixed_digits 2 month ++ [45] ++ fixed_digits 2 day ++ [84] ++
          fixed_digits 2 (sec / 3600) ++ [58] ++ fixed_digits 2 (sec / 60 mod 60) ++ [58] ++ fixed_digits 2 (sec mod 60) ++
          (if ns =? 0 then [] else 46 :: trim_zeros (fixed_digits 9 ns)) ++
          (if t_offset t =? 0 then [90]
           else [if zone <? 0 then 45 else 43] ++ fixed_digits 2 (Z.abs zone / 60) ++ [58] ++ fixed_digits 2 (Z.abs zone mod 60))).

(** ** Reading *)

(** [getnum]: two digits, or one if it need not be fixed. *)
Definition getnum (fixed : bool) (l : list Z) : option (Z * list Z) :=
  match l with
  | a :: rest =>
      if negb (is_dec a) then None
      else
        match rest with
        | b :: rest' => if is_dec b then Some ((a - 48) * 10 + (b - 48), rest')
                        else if fixed then None else Some (a - 48, rest)
        | [] => if fixed then None else Some (a - 48, [])
        end
  | [] => None
  end.

Definition getyear (l : list Z) : option (Z * list Z) :=
  match l with
  | a :: b :: c :: d :: rest => y ← digits_value 0 [a; b; c; d]; Some (y, rest)
  | _ => None
  end.

Definition literal (c : Z) (l : list Z) : option (list Z) :=
  match l with d :: rest => if d =? c then Some rest else None | [] => None end.

Fixpoint span_digits (l : list Z) : list Z * list Z :=
  match l with
  | c :: rest => if is_dec c then let '(ds, r) := span_digits rest in (c :: ds, r) else ([], l)
  | [] => ([], [])
  end.

(** The optional fraction: a period or comma and at least one digit; nine count
    ([parseNanoseconds]). *)
Definition getfraction (l : list Z) : option (Z * list Z) :=
  match l with
  | c :: ((d :: _) as rest) =>
      if ((c =? 46) || (c =? 44)) && is_dec d then
        let '(ds, l) := span_digits rest in
        let ds := take 9 ds in
        ns ← digits_value 0 ds; Some (ns * 10 ^ (9 - Z.of_nat (length ds)), l)
      else Some (0, l)
  | _ => Some (0, l)
  end.

(** [Z] or an offset in hours and minutes, up to 24 and 60. *)
Definition getzone (l : list Z) : option (Z * list Z) :=
  match l with
  | [] => None
  | s :: rest =>
      if s =? 90 then Some (0, rest)
      else
        '(hr, rest) ← getnum true rest; rest ← literal 58 rest; '(mm, rest) ← getnum true rest;
        if (24 <? hr) || (60 <? mm) then None
        else if s =? 43 then Some ((hr * 60 + mm) * 60, rest)
        else if s =? 45 then Some (- ((hr * 60 + mm) * 60), rest)
        else None
  end.

Definition between (lo hi x : Z) : option Datatypes.unit := if (lo <=? x) && (x <=? hi) then Some tt else None.

(** [Parse] with the layout RFC 3339; the strict checks of [parseStrictRFC3339] are
    disabled in Go 1.21. *)
Definition parseRFC3339 (l : list Z) : option Time :=
  '(year, l) ← getyear l; l ← literal 45 l;
  '(month, l) ← getnum true l; _ ← between 1 12 month; l ← literal 45 l;
  '(day, l) ← getnum true l; l ← literal 84 l;
  '(hour, l) ← getnum false l; _ ← between 0 23 hour; l ← literal 58 l;
  '(min, l) ← getnum true l; _ ← between 0 59 min; l ← literal 58 l;
  '(sec, l) ← getnum true l; _ ← between 0 59 sec;
  '(ns, l) ← getfraction l;
  '(offset, l) ← getzone l;
  _ ← between 1 (daysIn month (isLeap year)) day;
  match l with
  | [] => let abs := dayNumber year month day * 86400 + hour * 3600 + min * 60 + sec in
          Some (mkTime ((abs - offset - unixToInternal) * 1000000000 + ns) offset)
  | _ => None
  end.

(** [Time.UnmarshalJSON]: the literal is not unquoted; null is ignored. *)
Definition decode_time (v : json) (t : Time) : option Time :=
  match v with JStr raw => parseRFC3339 raw | JNull => Some t | _ => None end.

Definition encode_time (t : Time) : option json := JStr <$> formatRFC3339 t.

Example time_examples :
  string_of <$> formatRFC3339 (UTC 0) = Some "1970-01-01T00:00:00Z" /\
  string_of <$> formatRFC3339 (UTC 1709210096120000000) = Some "2024-02-29T12:34:56.12Z" /\
  string_of <$> formatRFC3339 (mkTime 1709210096000000000 (-19800)) = Some "2024-02-29T07:04:56-05:30" /\
  string_of <$> formatRFC3339 zeroTime = Some "0001-01-01T00:00:00Z" /\
  parseRFC3339 (bytes_of "2024-02-29T7:04:56,0000000019-05:30") = Some (mkTime 1709210096000000001 (-19800)) /\
  parseRFC3339 (bytes_of "2023-02-29T07:04:56Z") = None /\
  formatRFC3339 (mkTime 0 86400) = None /\ formatRFC3339 (UTC (- unixToInternal * 1000000000 - 366 * 86400 * 1000000000 - 1)) = None.
Proof. vm_compute. repeat split; reflexivity. Qed.

(** ** Dates round trip *)

#[local] Ltac Zify.zify_post_hook ::= Z.to_euclidean_division_equations.

Lemma shiftr_2 n : Z.shiftr n 2 = n / 4.
Proof. by rewrite Z.shiftr_div_pow2. Qed.

(** The cycles: the year's first day and the day of the year make up the day; only
    leap years have a day 365. *)
Lemma yearDay_spec d : let '(year, yday) := yearDay d in
  daysSinceEpoch year + yday = d /\ 0 <= yday <= 365 /\ (yday = 365 -> isLeap year = true).
Proof.
  unfold yearDay. rewrite !shiftr_2.
  set (a := d / 146097). set (r := d - 146097 * a). assert (Hr : 0 <= r < 146097) by (subst r a; lia).
  set (c := r / 36524 - r / 36524 / 4).
  assert (Hc : 0 <= c <= 3 /\ 0 <= r - 36524 * c <= 36524 /\ (r - 36524 * c = 36524 -> c = 3)) by (subst c; lia).
  set (s := r - 36524 * c) in *. clearbody c. set (b := s / 1461).
  assert (Hb : 0 <= b <= 24 /\ 0 <= s - 1461 * b < 1461) by (subst b; lia).
  set (u := s - 1461 * b) in *. clearbody b. set (e := u / 365 - u / 365 / 4).
  assert (He : 0 <= e <= 3 /\ 0 <= u - 365 * e <= 365 /\ (u - 365 * e = 365 -> e = 3)) by (subst e; lia).
  set (yd := u - 365 * e) in *. clearbody e.
  set (year := 400 * a + 100 * c + 4 * b + e + 1).
  assert (Hq : (year - 1) / 400 = a /\ (year - 1 - 400 * a) / 100 = c /\ (year - 1 - 400 * a - 100 * c) / 4 = b)
    by (subst year; lia).
  split; [|split; [lia|]].
  - unfold daysSinceEpoch. destruct Hq as (-> & -> & ->). subst year yd u s r. lia.
  - intros H365. assert (e = 3) by tauto. assert (u = 1460) by lia. assert (Hlast : b = 24 -> c = 3) by lia.
    unfold isLeap. assert (H4 : year mod 4 = 0) by (subst year; lia). rewrite H4. cbn [Z.eqb andb].
    destruct (Z.eq_dec b 24) as [Hb24|Hb24].
    + assert (H400 : year mod 400 = 0) by (subst year; rewrite Hlast by done; lia). rewrite H400. by rewrite orb_true_r.
    + assert (H100 : year mod 100 <> 0) by (subst year; lia). by rewrite (proj2 (Z.eqb_neq _ _) H100).
Qed.

Definition month_day_ok (leap : bool) (yday : Z) : bool :=
  let '(m, d) := monthDay leap yday in
  (1 <=? m) && (m <=? 12) && (1 <=? d) && (d <=? daysIn m leap) && (dayOfYear leap m d =? yday).

Lemma monthDay_spec leap yday : 0 <= yday <= 365 -> (yday = 365 -> leap = true) ->
  let '(m, d) := monthDay leap yday in
  1 <= m <= 12 /\ 1 <= d <= daysIn m leap /\ dayOfYear leap m d = yday.
Proof.
  intros Hy Hl. assert (H : month_day_ok leap yday = true).
  { assert (Hall : forall leap, forallb (month_day_ok leap) (map Z.of_nat (seq 0 (if leap then 366 else 365))) = true)
      by (intros []; vm_compute; reflexivity).
    specialize (Hall leap). rewrite forallb_Forall, Forall_forall in Hall. apply Hall, list_elem_of_fmap.
    exists (Z.to_nat yday). split; [lia|]. apply elem_of_seq. destruct leap; [lia|].
    destruct (Z.eq_dec yday 365) as [E|]; [by specialize (Hl E)|lia]. }
  unfold month_day_ok in H. destruct (monthDay leap yday) as [m d]. zbool. lia.
Qed.

Lemma daysIn_bound m leap : 1 <= m <= 12 -> daysIn m leap <= 31.
Proof.
  intros Hm. assert (H : forallb (fun m => daysIn m true <=? 31) (map Z.of_nat (seq 1 12)) = true /\
    forallb (fun m => daysIn m false <=? 31) (map Z.of_nat (seq 1 12)) = true) by (vm_compute; split; reflexivity).
  rewrite !forallb_Forall, !Forall_forall in H.
  assert (Hin : m ∈ map Z.of_nat (seq 1 12)).
  { apply list_elem_of_fmap. exists (Z.to_nat m). split; [lia|]. apply elem_of_seq. lia. }
  destruct H as [H1 H2]. destruct leap; [specialize (H1 m Hin)|specialize (H2 m Hin)]; cbn beta in *; zbool; lia.
Qed.

(** ** Digits round trip *)

Lemma fixed_digits_ok w n : Forall digit_byte (fixed_digits w n) /\ length (fixed_digits w n) = w.
Proof.
  revert n. induction w as [|w IH]; intros n; cbn [fixed_digits]; [split; [constructor|done]|].
  destruct (IH (n / 10)) as [H1 H2]. split.
  - apply Forall_app. split; [done|]. repeat constructor; lia.
  - rewrite length_app, H2. simpl. lia.
Qed.

Lemma digits_value_snoc l acc v d : digits_value acc l = Some v -> 0 <= d < 10 ->
  digits_value acc (l ++ [48 + d]) = Some (v * 10 + d).
Proof.
  intros Hl Hd. rewrite (digits_value_app l acc v) by done. cbn [digits_value].
  rewrite (proj2 (Z.leb_le 48 _)), (proj2 (Z.leb_le _ 57)) by lia. cbn [andb]. f_equal. lia.
Qed.

Lemma digits_value_fixed w n : 0 <= n < 10 ^ Z.of_nat w -> digits_value 0 (fixed_digits w n) = Some n.
Proof.
  revert n. induction w as [|w IH]; intros n Hn; cbn [fixed_digits]; [simpl in *; f_equal; lia|].
  rewrite Nat2Z.inj_succ, Z.pow_succ_r in Hn by lia.
  rewrite (digits_value_snoc _ 0 (n / 10) (n mod 10)); [f_equal; lia| |lia]. apply IH. lia.
Qed.

Lemma is_dec_digit c : digit_byte c -> is_dec c = true.
Proof. unfold digit_byte, is_dec. intros. rewrite !(proj2 (Z.leb_le _ _)) by lia. done. Qed.

Lemma getnum_fixed fixed n l : 0 <= n < 100 -> getnum fixed (fixed_digits 2 n ++ l) = Some (n, l).
Proof.
  intros Hn. unfold getnum. cbn [fixed_digits app]. rewrite !is_dec_digit by (unfold digit_byte; lia).
  cbn [negb]. do 2 f_equal. lia.
Qed.

Lemma getyear_fixed n l : 0 <= n < 10000 -> getyear (fixed_digits 4 n ++ l) = Some (n, l).
Proof.
  intros Hn. pose proof (digits_value_fixed 4 n Hn) as Hv. cbn [fixed_digits app] in *. unfold getyear. by rewrite Hv.
Qed.

Lemma literal_cons c l : literal c (c :: l) = Some l.
Proof. unfold literal. by rewrite Z.eqb_refl. Qed.

Lemma between_ok lo hi x : lo <= x <= hi -> between lo hi x = Some tt.
Proof. intros. unfold between. rewrite !(proj2 (Z.leb_le _ _)) by lia. done. Qed.

Lemma drop_zeros_spec l : exists k, l = replicate k 48 ++ drop_zeros l.
Proof.
  induction l as [|c l [k IH]]; [by exists 0%nat|]. cbn [drop_zeros]. destruct (Z.eqb_spec c 48) as [->|].
  - exists (S k). cbn [replicate app]. by f_equal.
  - by exists 0%nat.
Qed.

Lemma trim_zeros_spec l : exists k, l = trim_zeros l ++ replicate k 48.
Proof.
  destruct (drop_zeros_spec (reverse l)) as [k Hk]. exists k. unfold trim_zeros.
  rewrite <- (reverse_involutive l) at 1. rewrite Hk at 1. by rewrite reverse_app, reverse_replicate.
Qed.

Lemma digits_value_total l acc : Forall digit_byte l -> exists v, digits_value acc l = Some v.
Proof.
  intros Hl. revert acc. induction Hl as [|c l Hc _ IH]; intros acc; [by eexists|]. unfold digit_byte in Hc.
  cbn [digits_value]. rewrite !(proj2 (Z.leb_le _ _)) by lia. apply IH.
Qed.

Lemma digits_value_zeros k v : digits_value v (replicate k 48) = Some (v * 10 ^ Z.of_nat k).
Proof.
  revert v. induction k as [|k IH]; intros v; cbn [replicate digits_value]; [f_equal; cbn; lia|].
  change ((48 <=? 48) && (48 <=? 57)) with true. cbv iota. rewrite IH. f_equal.
  rewrite Nat2Z.inj_succ, Z.pow_succ_r by lia. lia.
Qed.

Lemma span_digits_app ds c rest : Forall digit_byte ds -> is_dec c = false ->
  span_digits (ds ++ c :: rest) = (ds, c :: rest).
Proof.
  induction 1 as [|d ds Hd _ IH]; intros Hc; cbn [app span_digits]; [by rewrite Hc|].
  rewrite is_dec_digit, IH by done. done.
Qed.

(** The fraction, followed by something that is neither a digit nor a separator. *)
Lemma getfraction_spec ns c rest : 0 <= ns < 10 ^ 9 -> c = 90 \/ c = 43 \/ c = 45 ->
  getfraction ((if ns =? 0 then [] else 46 :: trim_zeros (fixed_digits 9 ns)) ++ c :: rest) = Some (ns, c :: rest).
Proof.
  intros Hns Hc. assert (Hcd : is_dec c = false) by (destruct Hc as [->|[->| ->]]; done).
  destruct (Z.eqb_spec ns 0) as [->|Hnz].
  { cbn [app getfraction]. destruct rest; [done|]. destruct Hc as [->|[->| ->]]; done. }
  destruct (fixed_digits_ok 9 ns) as [Hd Hlen]. pose proof (digits_value_fixed 9 ns Hns) as Hv.
  destruct (trim_zeros_spec (fixed_digits 9 ns)) as [k Hk]. set (x := trim_zeros _) in *. rewrite Hk in Hd, Hlen, Hv.
  apply Forall_app in Hd as [Hd _]. destruct (digits_value_total x 0 Hd) as [v Hx].
  rewrite (digits_value_app _ _ _ _ Hx), digits_value_zeros in Hv. injection Hv as Hv.
  rewrite length_app, length_replicate in Hlen. clearbody x.
  destruct x as [|d x]; [injection Hx as <-; lia|]. cbn [app getfraction].
  rewrite is_dec_digit by (by inversion Hd). change ((46 =? 46) || (46 =? 44)) with true. cbn [andb].
  change (d :: x ++ c :: rest) with ((d :: x) ++ c :: rest). rewrite span_digits_app by done.
  rewrite take_ge by lia. rewrite Hx. cbn [mbind option_bind]. do 2 f_equal.
  replace (9 - Z.of_nat (length (d :: x))) with (Z.of_nat k) by lia. done.
Qed.

(** The zone of a time whose offset is in whole minutes, below a day. *)
Definition offset_ok (offset : Z) : Prop := offset mod 60 = 0 /\ Z.abs offset < 86400.

Definition zone_text (offset : Z) : list Z :=
  let zone := Z.quot offset 60 in
  if offset =? 0 then [90]
  else [if zone <? 0 then 45 else 43] ++ fixed_digits 2 (Z.abs zone / 60) ++ [58] ++ fixed_digits 2 (Z.abs zone mod 60).

Lemma getzone_text offset : offset_ok offset -> getzone (zone_text offset) = Some (offset, []).
Proof.
  intros [Hm Ha]. unfold zone_text. destruct (Z.eqb_spec offset 0) as [->|Hnz]; [done|].
  set (z := Z.quot offset 60). assert (Hz : offset = z * 60 /\ Z.abs z < 1440) by (subst z; lia). clearbody z.
  assert (Hs : ((if z <? 0 then 45 else 43) =? 90) = false) by (by destruct (z <? 0)).
  cbn [app getzone]. rewrite Hs, getnum_fixed by lia. cbn [mbind option_bind app]. rewrite literal_cons.
  cbn [mbind option_bind]. rewrite <- (app_nil_r (fixed_digits 2 (Z.abs z mod 60))), getnum_fixed by lia. cbn [mbind option_bind].
  rewrite (proj2 (Z.ltb_ge 24 _)), (proj2 (Z.ltb_ge 60 _)) by lia. cbn [orb].
  destruct (Z.ltb_spec z 0); cbn [Z.eqb Pos.eqb]; do 2 f_equal; lia.
Qed.

Lemma zone_text_head offset : exists c rest, zone_text offset = c :: rest /\ (c = 90 \/ c = 43 \/ c = 45).
Proof.
  unfold zone_text. destruct (offset =? 0); [by exists 90, []; auto|]. eexists _, _. split; [reflexivity|].
  destruct (_ <? 0); auto.
Qed.

Lemma between_inv lo hi x : between lo hi x = Some tt -> lo <= x <= hi.
Proof. unfold between. intros H. split_ifs_in H; [lia|done]. Qed.

(** One step of the parser. *)
#[local] Ltac parsed := cbn [mbind option_bind app].

(** A time that can be written is read back. *)
Lemma parse_format t l : offset_ok (t_offset t) -> formatRFC3339 t = Some l -> parseRFC3339 l = Some t.
Proof.
  intros Ho. unfold formatRFC3339. set (local := t_nano t + t_offset t * 1000000000).
  set (abs := local / 1000000000 + unixToInternal). pose proof (yearDay_spec (abs / 86400)) as Hy.
  destruct (yearDay (abs / 86400)) as [year yday]. destruct Hy as (Hday & Hyd & Hleap).
  pose proof (monthDay_spec (isLeap year) yday Hyd Hleap) as Hm.
  destruct (monthDay (isLeap year) yday) as [month day]. destruct Hm as (Hmo & Hd & Hdoy).
  destruct (_ || _ || _) eqn:Erange; [done|]. zbool. set (ns := local mod 1000000000). set (sec := abs mod 86400).
  fold (zone_text (t_offset t)). intros Hl. apply (inj Some) in Hl as <-. pose proof (daysIn_bound month (isLeap year) Hmo) as H31.
  unfold parseRFC3339. rewrite getyear_fixed by lia; parsed. rewrite literal_cons; parsed.
  rewrite getnum_fixed by lia; parsed. rewrite between_ok by lia; parsed. rewrite literal_cons; parsed.
  rewrite getnum_fixed by lia; parsed. rewrite literal_cons; parsed.
  rewrite getnum_fixed by (subst sec; lia); parsed. rewrite between_ok by (subst sec; lia); parsed.
  rewrite literal_cons; parsed. rewrite getnum_fixed by lia; parsed. rewrite between_ok by lia; parsed.
  rewrite literal_cons; parsed. rewrite getnum_fixed by lia; parsed. rewrite between_ok by lia; parsed.
  destruct (zone_text_head (t_offset t)) as (c & rest & Ez & Hc).
  rewrite Ez, getfraction_spec by (done || (subst ns; lia)). cbn [mbind option_bind]. rewrite <- Ez, getzone_text by done.
  cbn [mbind option_bind]. rewrite between_ok by lia. cbn [mbind option_bind]. destruct t as [nano offset]. cbn [t_nano t_offset] in *.
  do 2 f_equal. unfold dayNumber. rewrite Hdoy, Hday. subst ns sec abs local. lia.
Qed.

(** The times in UTC with a year of four digits. *)
Definition writable (nano : Z) : Prop := -62167219200 * 1000000000 <= nano < 253402300800 * 1000000000.
#[export] Instance writable_dec nano : Decision (writable nano).
Proof. unfold writable. apply _. Defined.

Lemma format_UTC nano : is_Some (formatRFC3339 (UTC nano)) <-> writable nano.
Proof.
  unfold formatRFC3339, UTC. cbn [t_nano t_offset]. rewrite Z.mul_0_l, Z.add_0_r.
  set (abs := nano / 1000000000 + unixToInternal). pose proof (yearDay_spec (abs / 86400)) as Hy.
  destruct (yearDay (abs / 86400)) as [year yday]. destruct Hy as (Hday & Hyd & Hleap).
  destruct (monthDay (isLeap year) yday) as [month day]. change (Z.quot 0 60) with 0. change (Z.abs 0 / 60) with 0.
  change (24 <=? 0) with false. rewrite orb_false_r.
  assert (Hw : writable nano <-> -366 <= abs / 86400 < 3652059) by (unfold writable, unixToInternal in *; subst abs; lia).
  rewrite Hw. assert (Hr : -366 <= abs / 86400 < 3652059 <-> 0 <= year <= 9999).
  { rewrite <- Hday. split.
    - intros H. assert (Hneg : year = -1 -> yday <> 365) by (intros -> H365; by specialize (Hleap H365)).
      unfold daysSinceEpoch in H. lia.
    - intros H. assert (H9999 : year = 9999 -> yday <> 365) by (intros -> H365; by specialize (Hleap H365)).
      unfold daysSinceEpoch. lia. }
  rewrite Hr. destruct (Z.ltb_spec year 0), (Z.ltb_spec 9999 year); cbn [orb]; split; intros Hs; try lia;
    try (by destruct Hs); by eexists.
Qed.

(** Characters that need no escape. *)
Definition plain_char (c : Z) : Prop := 32 <= c < 128 /\ c <> 34 /\ c <> 92.

Lemma plain_str_ok l : Forall plain_char l -> str_ok l = true.
Proof.
  intros Hl. unfold str_ok. rewrite bool_decide_eq_true_2.
  - rewrite andb_true_r. induction Hl as [|c l (Hc & H1 & H2) _ IH]; [done|]. cbn [str_scan str_step].
    rewrite (proj2 (Z.eqb_neq c 34)), (proj2 (Z.eqb_neq c 92)), (proj2 (Z.ltb_ge c 32)) by lia. exact IH.
  - eapply Forall_impl; [exact Hl|]. unfold plain_char, is_byte. lia.
Qed.

Lemma fixed_digits_plain w n : Forall plain_char (fixed_digits w n).
Proof. eapply Forall_impl; [apply (fixed_digits_ok w n)|]. unfold digit_byte, plain_char. lia. Qed.

Lemma trim_zeros_plain l : Forall plain_char l -> Forall plain_char (trim_zeros l).
Proof. destruct (trim_zeros_spec l) as [k Hk]. rewrite Hk at 1. by intros [? _]%Forall_app. Qed.

Lemma format_ok t l : formatRFC3339 t = Some l -> str_ok l = true.
Proof.
  intros H. apply plain_str_ok. unfold formatRFC3339 in H. destruct (yearDay _) as [year yday]. destruct (monthDay _ _) as [month day].
  destruct (_ || _ || _); [done|]. apply (inj Some) in H as <-.
  repeat (apply Forall_app; split); repeat (case_match; [|]); repeat (apply Forall_app; split);
    try apply fixed_digits_plain; try apply trim_zeros_plain, fixed_digits_plain;
    try (apply Forall_cons; split; [|first [apply Forall_nil; done|by apply trim_zeros_plain, fixed_digits_plain]]);
    try done; unfold plain_char; lia.
Qed.

Lemma decode_encode_time t t' v : offset_ok (t_offset t) -> encode_time t = Some v ->
  decode_time v t' = Some t /\ printable v = true /\ nesting v = 0%nat.
Proof.
  intros Ho. unfold encode_time. destruct (formatRFC3339 t) as [l|] eqn:E; [|done]. intros [= <-].
  cbn [decode_time printable]. split_and!; [by apply parse_format|by eapply format_ok|done].
Qed.
