(* ===== verification/GoFormat.v ===== *)
(** * [strconv.FormatFloat] with the shortest precision, as JSON writes numbers

    The digits are the fewest that [ParseFloat] reads as the same number, the nearest
    such decimal among those of that length; seventeen are always enough.  The JSON
    encoder uses the exponent form below 1e-6 and from 1e21.  What it writes is read
    back, whatever the finite number. *)

From Stdlib Require Import Ascii String.
From stdpp Require Import base strings list.
From S2P Require Import Prelude GoBytes GoText GoFloat GoParse GoJson.
From S2P Require Import GoTime.

#[local] Open Scope Z_scope.
#[local] Open Scope go_scope.

(** ** Decimals *)

(** [d * 10^p], as [ParseFloat] rounds it. *)
Definition decimal (d p : Z) : float64 := f_const (d * 10 ^ Z.max 0 p) (10 ^ Z.max 0 (- p)).

(** The exponent of the first digit of [k] units: up from one, or down. *)
Fixpoint exp_up (fuel : nat) (k p e : Z) : Z :=
  match fuel with
  | O => e
  | S fuel => if k <? 10 * p then e else exp_up fuel k (10 * p) (e + 1)
  end.
Fixpoint exp_down (fuel : nat) (k e : Z) : Z :=
  match fuel with
  | O => e
  | S fuel => if unit <=? k then e else exp_down fuel (10 * k) (e - 1)
  end.
Definition dec_exponent (k : Z) : Z := if unit <=? k then exp_up 400 k unit 0 else exp_down 400 k 0.

(** [k] units as a fraction, in tens to the [p]. *)
Definition scaled (k p : Z) : Z * Z := (k * 10 ^ Z.max 0 (- p), unit * 10 ^ Z.max 0 p).

(** The decimals next to [k] in tens to the [p], the nearer one first. *)
Definition neighbours (k p : Z) : Z * Z :=
  let '(n, d) := scaled k p in
  let near := rne n d in
  let floor := n / d in
  (near, if near =? floor then floor + 1 else floor).

(** The decimal of [n] digits that is read as [k], if there is one. *)
Definition with_digits (k e n : Z) : option (Z * Z) :=
  let p := e - n + 1 in
  let '(near, far) := neighbours k p in
  if bool_decide (decimal near p = Fin k) then Some (near, p)
  else if bool_decide (decimal far p = Fin k) then Some (far, p) else None.

(** Fewest digits first. *)
Fixpoint search_digits (fuel : nat) (k e n : Z) : Z * Z :=
  match fuel with
  | O => ((neighbours k (e - n + 1)).1, e - n + 1)
  | S fuel => match with_digits k e n with Some r => r | None => search_digits fuel k e (n + 1) end
  end.

(** No trailing zeros. *)
Fixpoint strip_zeros (fuel : nat) (d p : Z) : Z * Z :=
  match fuel with
  | O => (d, p)
  | S fuel => if d mod 10 =? 0 then strip_zeros fuel (d / 10) (p + 1) else (d, p)
  end.

Definition shortest (k : Z) : Z * Z :=
  let '(d, p) := search_digits 16 k (dec_exponent k) 1 in strip_zeros 18 d p.

(** ** Text *)

(** [%f] of [d * 10^p]: all digits before the point, those after it if there are any. *)
Definition fmt_f (d p : Z) : list Z :=
  if 0 <=? p then dec_digits 20 d [] ++ replicate (Z.to_nat p) 48
  else dec_digits 20 (d / 10 ^ (- p)) [] ++ 46 :: fixed_digits (Z.to_nat (- p)) (d mod 10 ^ (- p)).

(** [%e], with the exponent as the JSON encoder cleans it up. *)
Definition fmt_e (d p : Z) : list Z :=
  match dec_digits 20 d [] with
  | [] => []
  | c :: rest =>
      let exp := Z.of_nat (length rest) + p in
      c :: (match rest with [] => [] | _ => 46 :: rest end) ++
      101 :: (if exp <? 0 then 45 else 43) :: dec_digits 20 (Z.abs exp) []
  end.

(** [floatEncoder]: a number that is infinite or not a number is an error. *)
Definition format_pos (k : Z) : list Z :=
  let '(d, p) := shortest k in
  if f_lt (Fin k) (f_const 1 (10 ^ 6)) || f_le (f_of_int (10 ^ 21)) (Fin k) then fmt_e d p else fmt_f d p.

Definition formatFloat (x : float64) : option (list Z) :=
  match x with
  | Fin k => Some (if k =? 0 then [48] else if k <? 0 then 45 :: format_pos (- k) else format_pos k)
  | _ => None
  end.

Definition encode_float (x : float64) : option json := JNum <$> formatFloat x.

Definition decode_float (v : json) (x : float64) : option float64 :=
  match v with JNum t => ParseFloat (string_of t) | JNull => Some x | _ => None end.

Example format_examples :
  string_of <$> formatFloat (f_const 1 10) = Some "0.1" /\ string_of <$> formatFloat (f_of_int (-250)) = Some "-250" /\
  string_of <$> formatFloat (f_of_int (10 ^ 23)) = Some "1e+23" /\ string_of <$> formatFloat (Fin 1) = Some "5e-324" /\
  string_of <$> formatFloat (f_const 15 (10 ^ 8)) = Some "1.5e-7" /\
  string_of <$> formatFloat (f_const 2251799813685249 4) = Some "562949953421312.2".
Proof. vm_compute. repeat split; reflexivity. Qed.

(** ** Seventeen digits are enough *)

Lemma rne_unique n d q : 0 < d -> 2 * Z.abs (n - q * d) < d -> rne n d = q.
Proof. intros Hd Hq. destruct (rne_spec n d Hd) as [H _]. nia. Qed.

(** A number closer to [k] than [k * 2^-54] is rounded to it: the gap below a power
    of two is the smallest, relative to the number. *)
Lemma round_near n d k : exact k -> 0 < k -> 0 < d -> 2 ^ 54 * Z.abs (n - k * d) < k * d -> round_Z n d = k.
Proof.
  intros Hex Hk Hd Hnear. assert (Hn : 0 < n) by lia.
  assert (Hkpos : round_pos k 1 = k) by (unfold exact, round_Z in Hex; by rewrite (proj2 (Z.ltb_ge k 0)) in Hex by lia).
  unfold round_Z. rewrite (proj2 (Z.ltb_ge n 0)) by lia.
  destruct (excess_spec k 1) as [Ku Kl]; [lia|lia|]. destruct (excess_spec n d) as [Nu Nl]; [lia|lia|].
  pose proof (excess_nonneg k 1) as Hs. pose proof (excess_nonneg n d) as Ht. unfold round_pos in *.
  set (s := excess k 1) in *. set (t := excess n d) in *. clearbody s t.
  set (m := rne k (1 * 2 ^ s)) in Hkpos. clearbody m. rewrite !Z.pow_add_r in * by lia. rewrite !Z.mul_1_l in *.
  pose proof (pow2_pos s Hs) as Ps. pose proof (pow2_pos t Ht) as Pt.
  assert (Hm : m < 2 ^ 53 /\ (0 < s -> 2 ^ 52 <= m)) by (split; [|intros H0; specialize (Kl H0)]; nia).
  assert (Hkd : k * d = m * (d * 2 ^ s)) by (rewrite <- Hkpos; ring). rewrite Hkd in Hnear.
  set (x := d * 2 ^ s) in *. assert (Hx : 0 < x) by (subst x; by apply Z.mul_pos_pos).
  assert (Hlow : (2 ^ 54 - 1) * (m * x) < 2 ^ 54 * n < (2 ^ 54 + 1) * (m * x)) by lia.
  destruct (Z.lt_trichotomy t s) as [Hlt|[->|Hgt]].
  - assert (Hm' : 2 ^ 52 <= m) by (apply Hm; lia). destruct (Z.eq_dec s (t + 1)) as [->|Hfar].
    + set (y := d * 2 ^ t). assert (Hxy : x = 2 * y) by (subst x y; rewrite Z.pow_add_r by lia; lia).
      assert (Hny : n < 2 ^ 53 * y) by (subst y; lia). clearbody x. assert (Em : m = 2 ^ 52) by nia.
      rewrite (rne_unique n y (2 ^ 53)) by (subst m x; lia).
      rewrite <- Hkpos, Em, Z.pow_add_r by lia. lia.
    + assert (Hxt : 4 * (d * 2 ^ t) <= x).
      { subst x. replace s with (2 + t + (s - t - 2)) by lia. rewrite !Z.pow_add_r by lia.
        pose proof (pow2_pos (s - t - 2)). nia. }
      assert (Hny : 4 * n < 2 ^ 53 * x) by lia. clearbody x. nia.
  - fold x. rewrite (rne_unique n x m); [lia|lia|nia].
  - assert (Hxt : 2 * x <= d * 2 ^ t).
    { subst x. replace t with (1 + s + (t - s - 1)) by lia. rewrite !Z.pow_add_r by lia.
      pose proof (pow2_pos (t - s - 1)). nia. }
    specialize (Nl ltac:(lia)). assert (Hny : 2 ^ 53 * x <= n) by lia. clearbody x. nia.
Qed.

(** ** The exponent *)

Lemma pow10_pos e : 0 <= e -> 0 < 10 ^ e.
Proof. intros. by apply Z.pow_pos_nonneg. Qed.

Lemma exp_up_spec fuel k p e : p <= k < p * 10 ^ Z.of_nat fuel -> 0 <= e -> p = unit * 10 ^ e ->
  let e' := exp_up fuel k p e in e <= e' <= e + Z.of_nat fuel /\ unit * 10 ^ e' <= k < unit * 10 ^ (e' + 1).
Proof.
  revert p e. induction fuel as [|fuel IH]; intros p e Hk He Hp; cbn [exp_up].
  - simpl in Hk. lia.
  - rewrite Nat2Z.inj_succ, Z.pow_succ_r in Hk by lia. destruct (Z.ltb_spec k (10 * p)).
    + rewrite Z.pow_add_r by lia. lia.
    + destruct (IH (10 * p) (e + 1)) as [H1 H2]; [lia|lia|rewrite Z.pow_add_r by lia; lia|].
      split; [lia|exact H2].
Qed.

Lemma exp_down_spec fuel k e : 0 < k < unit * 10 -> unit <= k * 10 ^ Z.of_nat fuel -> e <= 0 ->
  let e' := exp_down fuel k e in
  e - Z.of_nat fuel <= e' <= e /\ unit <= k * 10 ^ (e - e') < unit * 10.
Proof.
  revert k e. induction fuel as [|fuel IH]; intros k e Hk Hf He; cbn [exp_down].
  - rewrite Z.sub_diag. simpl in *. lia.
  - rewrite Nat2Z.inj_succ, Z.pow_succ_r in Hf by lia. destruct (Z.leb_spec unit k).
    + rewrite Z.sub_diag. simpl. lia.
    + destruct (IH (10 * k) (e - 1)) as [H1 H2]; [lia|lia|lia|]. split; [lia|].
      set (e' := exp_down fuel (10 * k) (e - 1)) in *. replace (e - e') with (1 + (e - 1 - e')) by lia.
      rewrite Z.pow_add_r by lia. lia.
Qed.

(** The first digit is at the exponent. *)
Lemma dec_exponent_spec k : 0 < k < overflow -> let e := dec_exponent k in
  -400 <= e <= 400 /\ unit * 10 ^ Z.max 0 e <= k * 10 ^ Z.max 0 (- e) < 10 * (unit * 10 ^ Z.max 0 e).
Proof.
  intros Hk. unfold dec_exponent. assert (Hu : 0 < unit) by (by apply pow2_pos).
  assert (Ho : overflow < unit * 10 ^ Z.of_nat 400 /\ unit <= 10 ^ Z.of_nat 400) by (vm_compute; split; [reflexivity|discriminate]).
  destruct (Z.leb_spec unit k) as [Hle|Hlt].
  - destruct (exp_up_spec 400 k unit 0) as [H1 H2]; [lia|lia|rewrite Z.mul_1_r; done|].
    set (e := exp_up 400 k unit 0) in *. rewrite (Z.max_r 0 e), (Z.max_l 0 (- e)) by lia. rewrite Z.pow_add_r in H2 by lia. lia.
  - destruct (exp_down_spec 400 k 0) as [H1 H2]; [lia|nia|lia|]. set (e := exp_down 400 k 0) in *.
    rewrite (Z.max_l 0 e), (Z.max_r 0 (- e)) by lia. rewrite Z.sub_0_l in H2. lia.
Qed.

(** In tens to the [p], [n] digits are before the point. *)
Lemma scaled_spec k e n : 1 <= n -> unit * 10 ^ Z.max 0 e <= k * 10 ^ Z.max 0 (- e) < 10 * (unit * 10 ^ Z.max 0 e) ->
  let '(num, den) := scaled k (e - n + 1) in 0 < den /\ 10 ^ (n - 1) * den <= num < 10 ^ n * den.
Proof.
  intros Hn He. unfold scaled. assert (Hu : 0 < unit) by (by apply pow2_pos). set (p := e - n + 1).
  assert (Hpow : 10 ^ n = 10 * 10 ^ (n - 1)) by (rewrite <- Z.pow_succ_r by lia; f_equal; lia).
  assert (Hsplit : 10 ^ Z.max 0 (- p) * 10 ^ Z.max 0 e = 10 ^ (n - 1) * 10 ^ Z.max 0 p * 10 ^ Z.max 0 (- e))
    by (rewrite <- !Z.pow_add_r by lia; f_equal; subst p; lia).
  pose proof (pow10_pos (Z.max 0 (- p))) as P1. pose proof (pow10_pos (Z.max 0 p)) as P2. pose proof (pow10_pos (n - 1)) as P3.
  pose proof (pow10_pos (Z.max 0 e)) as P4. pose proof (pow10_pos (Z.max 0 (- e))) as P5. rewrite Hpow.
  set (a := 10 ^ Z.max 0 (- p)) in *. set (b := 10 ^ Z.max 0 p) in *. set (q := 10 ^ (n - 1)) in *.
  set (f := 10 ^ Z.max 0 e) in *. set (g := 10 ^ Z.max 0 (- e)) in *. clearbody a b q f g p.
  split; [apply Z.mul_pos_pos; lia|].
  assert (H1 : (q * (unit * b)) * g <= (k * a) * g).
  { replace (q * (unit * b) * g) with (unit * (q * b * g)) by ring. rewrite <- Hsplit. nia. }
  assert (H2 : (k * a) * g < (10 * q * (unit * b)) * g).
  { replace (10 * q * (unit * b) * g) with (10 * unit * (q * b * g)) by ring. rewrite <- Hsplit. nia. }
  split; [apply (Z.mul_le_mono_pos_r _ _ g); lia|apply (Z.mul_lt_mono_pos_r g); lia].
Qed.

(** ** The digits *)

Lemma rne_bounds n d lo hi : 0 < d -> lo * d <= n <= hi * d -> lo <= rne n d <= hi.
Proof.
  intros Hd Hn. rewrite <- (rne_exact lo d), <- (rne_exact hi d) by done. split; apply rne_le; nia.
Qed.

Lemma neighbours_bounds k e n : 1 <= n -> unit * 10 ^ Z.max 0 e <= k * 10 ^ Z.max 0 (- e) < 10 * (unit * 10 ^ Z.max 0 e) ->
  let '(near, far) := neighbours k (e - n + 1) in 0 < near <= 10 ^ n /\ 0 < far <= 10 ^ n.
Proof.
  intros Hn He. pose proof (scaled_spec k e n Hn He) as H. unfold neighbours.
  destruct (scaled k (e - n + 1)) as [num den]. destruct H as [Hd H]. pose proof (pow10_pos (n - 1)).
  pose proof (rne_bounds num den (10 ^ (n - 1)) (10 ^ n) Hd ltac:(lia)) as Hr.
  assert (Hf : 10 ^ (n - 1) <= num / den < 10 ^ n)
    by (split; [apply Z.div_le_lower_bound; lia|apply Z.div_lt_upper_bound; lia]).
  split; [lia|]. destruct (rne num den =? num / den); lia.
Qed.

(** With seventeen digits the nearest decimal is read as the number. *)
Lemma seventeen k e : bound k -> 0 < k -> unit * 10 ^ Z.max 0 e <= k * 10 ^ Z.max 0 (- e) < 10 * (unit * 10 ^ Z.max 0 e) ->
  decimal (neighbours k (e - 17 + 1)).1 (e - 17 + 1) = Fin k.
Proof.
  intros [Hex Hov] Hk He. pose proof (scaled_spec k e 17 ltac:(lia) He) as H. unfold neighbours, decimal, f_const, scaled in *.
  set (p := e - 17 + 1) in *. set (a := 10 ^ Z.max 0 (- p)) in *. set (b := 10 ^ Z.max 0 p) in *. cbn [fst].
  assert (Ha : 0 < a) by (apply pow10_pos; lia). destruct H as [Hd H].
  destruct (rne_spec (k * a) (unit * b) Hd) as [Hr _]. set (r := rne _ _) in *. clearbody r.
  unfold round. rewrite (round_near (r * b * unit) a k); [|done|done|done|].
  - rewrite (proj2 (Z.leb_gt _ _)) by lia. done.
  - replace (r * b * unit) with (r * (unit * b)) by ring. set (x := unit * b) in *. clearbody x a b.
    change (10 ^ (17 - 1)) with 10000000000000000 in H. lia.
Qed.

Lemma search_digits_spec fuel k e n : bound k -> 0 < k ->
  unit * 10 ^ Z.max 0 e <= k * 10 ^ Z.max 0 (- e) < 10 * (unit * 10 ^ Z.max 0 e) ->
  1 <= n -> n + Z.of_nat fuel = 17 ->
  let '(d, p) := search_digits fuel k e n in decimal d p = Fin k /\ 0 < d <= 10 ^ 17 /\ e - 16 <= p <= e.
Proof.
  intros Hb Hk He. revert n. induction fuel as [|fuel IH]; intros n Hn Hf; cbn [search_digits].
  - replace n with 17 by lia. pose proof (neighbours_bounds k e 17 ltac:(lia) He) as Hd.
    pose proof (seventeen k e Hb Hk He) as Hs. destruct (neighbours k (e - 17 + 1)) as [near far]. cbn [fst] in *.
    split; [exact Hs|]. lia.
  - pose proof (neighbours_bounds k e n Hn He) as Hd. unfold with_digits.
    assert (Hp : 10 ^ n <= 10 ^ 17) by (apply Z.pow_le_mono_r; lia).
    destruct (neighbours k (e - n + 1)) as [near far]. case_bool_decide as E1; [split; [exact E1|lia]|].
    case_bool_decide as E2; [split; [exact E2|lia]|]. apply IH; lia.
Qed.

(** Rounding depends on the quotient only. *)
Lemma round_ratio n1 d1 n2 d2 : 0 < d1 -> 0 < d2 -> n1 * d2 = n2 * d1 -> round n1 d1 = round n2 d2.
Proof.
  intros H1 H2 E. unfold round. assert (Er : round_Z n1 d1 = round_Z n2 d2) by (apply Z.le_antisymm; apply round_Z_le; lia).
  by rewrite Er.
Qed.

Lemma decimal_shift d p : decimal (10 * d) p = decimal d (p + 1).
Proof.
  unfold decimal, f_const. apply round_ratio; [apply pow10_pos; lia..|].
  assert (H : 10 * 10 ^ Z.max 0 p * 10 ^ Z.max 0 (- (p + 1)) = 10 ^ Z.max 0 (p + 1) * 10 ^ Z.max 0 (- p)).
  { rewrite <- Z.pow_succ_r, <- !Z.pow_add_r by lia. f_equal. lia. }
  set (a := 10 ^ Z.max 0 p) in *. set (b := 10 ^ Z.max 0 (- (p + 1))) in *. set (c := 10 ^ Z.max 0 (p + 1)) in *.
  set (e := 10 ^ Z.max 0 (- p)) in *. clearbody a b c e.
  transitivity (unit * d * (10 * a * b)); [ring|]. rewrite H. ring.
Qed.

Lemma strip_zeros_spec fuel d p : 0 < d ->
  let '(d', p') := strip_zeros fuel d p in decimal d' p' = decimal d p /\ 0 < d' <= d /\ p <= p' <= p + Z.of_nat fuel.
Proof.
  revert d p. induction fuel as [|fuel IH]; intros d p Hd; cbn [strip_zeros]; [split; [done|lia]|].
  destruct (Z.eqb_spec (d mod 10) 0) as [Hz|]; [|split; [done|lia]].
  assert (E : d = 10 * (d / 10)) by (pose proof (Z.div_mod d 10); lia).
  specialize (IH (d / 10) (p + 1) ltac:(lia)). destruct (strip_zeros fuel (d / 10) (p + 1)) as [d' p'].
  destruct IH as (H1 & H2 & H3). split; [|lia]. rewrite H1, <- decimal_shift. by rewrite <- E.
Qed.

(** The shortest decimal is read as the number. *)
Lemma shortest_spec k : bound k -> 0 < k ->
  let '(d, p) := shortest k in decimal d p = Fin k /\ 0 < d <= 10 ^ 17 /\ -416 <= p <= 418.
Proof.
  intros Hb Hk. destruct (dec_exponent_spec k) as [Hr He]; [destruct Hb; lia|]. unfold shortest.
  pose proof (search_digits_spec 16 k (dec_exponent k) 1 Hb Hk He ltac:(lia) ltac:(lia)) as Hs.
  destruct (search_digits 16 k (dec_exponent k) 1) as [d p]. destruct Hs as (H1 & H2 & H3).
  pose proof (strip_zeros_spec 18 d p ltac:(lia)) as Ht. destruct (strip_zeros 18 d p) as [d' p'].
  destruct Ht as (T1 & T2 & T3). split; [congruence|]. lia.
Qed.

(** ** Reading the text *)

Lemma scan_mantissa_digits ds rest m v : digits_value (mant m) ds = Some v ->
  scan_mantissa false (ds ++ rest) m =
    scan_mantissa false rest
      (mkMantissa v (fraction m + if sawdot m then Z.of_nat (length ds) else 0) (sawdot m)
         (sawdigits m || negb (bool_decide (ds = []))) (underscores m)).
Proof.
  revert m. induction ds as [|c ds IH]; intros m Hv; cbn [digits_value] in Hv.
  { injection Hv as <-. cbn [app length]. destruct m as [mv mf [] [] mu]; cbn; by rewrite ?Z.add_0_r. }
  destruct ((48 <=? c) && (c <=? 57)) eqn:E; [|done]. pose proof E as [Hc1%Z.leb_le Hc2%Z.leb_le]%andb_prop.
  cbn [app scan_mantissa]. rewrite (proj2 (Z.eqb_neq c 95)), (proj2 (Z.eqb_neq c 46)) by lia. unfold is_digit. rewrite E.
  rewrite IH by done. cbn [mant fraction sawdot sawdigits underscores]. rewrite orb_true_r. cbn [orb].
  f_equal. f_equal. destruct (sawdot m); cbn [length]; lia.
Qed.

Lemma scan_point l m : sawdot m = false ->
  scan_mantissa false (46 :: l) m = scan_mantissa false l (mkMantissa (mant m) (fraction m) true (sawdigits m) (underscores m)).
Proof. intros H. cbn [scan_mantissa Z.eqb Pos.eqb]. by rewrite H. Qed.

Lemma scan_exponent_digits ds e us v : digits_value e ds = Some v -> 0 <= e -> v < 10000 -> scan_exponent ds e us = (v, us, []).
Proof.
  revert e. induction ds as [|c ds IH]; intros e Hv He Hlt; cbn [digits_value] in Hv; [by injection Hv as <-|].
  destruct ((48 <=? c) && (c <=? 57)) eqn:E; [|done]. pose proof E as [Hc1%Z.leb_le Hc2%Z.leb_le]%andb_prop.
  assert (Hmono : forall l a b, 0 <= a -> digits_value a l = Some b -> a <= b).
  { induction l as [|x l IHl]; intros a b Ha Hb; cbn [digits_value] in Hb; [injection Hb as <-; lia|].
    destruct ((48 <=? x) && (x <=? 57)) eqn:Ex; [|done]. apply andb_prop in Ex as [?%Z.leb_le ?%Z.leb_le].
    apply IHl in Hb; lia. }
  assert (Hle : e * 10 + (c - 48) <= v) by (apply (Hmono ds); lia || done). cbn [scan_exponent]. rewrite (proj2 (Z.eqb_neq c 95)) by lia. unfold is_digit. rewrite E.
  rewrite (proj2 (Z.ltb_lt e 10000)) by lia. apply IH; lia || done.
Qed.

(** The text of a positive number after its sign: digits, point, digits, exponent. *)
Record reads (l : list Z) (d p : Z) : Prop := {
  rd_head : exists c rest, l = c :: rest /\ 48 <= c <= 57;
  rd_base : take_base l = (false, l);
  rd_value : exists m rest e,
    scan_mantissa false l (mkMantissa 0 0 false false false) = (m, rest) /\ sawdigits m = true /\ underscores m = false /\
    mant m = d /\ read_exponent false rest = Some (e, false, []) /\ e - fraction m = p }.

Lemma read_text sign l l' d p : reads l d p -> take_sign l' = (sign, l) ->
  read_number l' = in_range (f_const (sign * d * 10 ^ Z.max 0 p) (10 ^ Z.max 0 (- p))).
Proof.
  intros [_ Hb (m & rest & e & Hm & Hs & Hu & <- & He & <-)] Hsign. unfold read_number. rewrite Hsign, Hb, Hm, Hs. cbn [negb].
  rewrite He, Hu. cbn [orb andb]. by rewrite bool_decide_eq_true_2 by done.
Qed.

Lemma digits_of_nat d : 0 <= d < 10 ^ 20 ->
  digits_value 0 (dec_digits 20 d []) = Some d /\ Forall digit_byte (dec_digits 20 d []) /\
  exists c rest, dec_digits 20 d [] = c :: rest /\ digit_byte c.
Proof.
  intros Hd. destruct (dec_digits_spec 20 d) as (H1 & H2 & H3); [lia|lia|]. split_and!; [done..|].
  destruct (dec_digits 20 d []) as [|c rest]; [done|]. exists c, rest. split; [done|by inversion H3].
Qed.

Lemma digits_value_fixed_acc w n a : 0 <= n < 10 ^ Z.of_nat w ->
  digits_value a (fixed_digits w n) = Some (a * 10 ^ Z.of_nat w + n).
Proof.
  revert n. induction w as [|w IH]; intros n Hn; cbn [fixed_digits]; [simpl in *; f_equal; lia|].
  rewrite Nat2Z.inj_succ, Z.pow_succ_r in * by lia. pose proof (Z.div_mod n 10). pose proof (Z.mod_pos_bound n 10).
  rewrite (digits_value_snoc _ a (a * 10 ^ Z.of_nat w + n / 10) (n mod 10)); [f_equal; lia| |lia]. apply IH.
  split; [apply Z.div_pos; lia|apply Z.div_lt_upper_bound; lia].
Qed.

(** Digits followed by nothing, a point or an exponent are no base prefix. *)
Lemma take_base_text ds rest : Forall digit_byte ds -> ds <> [] -> (rest = [] \/ exists c r, rest = c :: r /\ (c = 46 \/ c = 101)) ->
  take_base (ds ++ rest) = (false, ds ++ rest).
Proof.
  intros Hd Hne Hr. assert (Hall : Forall (fun c => lower c <> 120) (ds ++ take 1 rest)).
  { apply Forall_app. split.
    - eapply Forall_impl; [exact Hd|]. intros c Hc. unfold digit_byte in Hc. rewrite lower_digit by done. lia.
    - destruct Hr as [->|(c & r & -> & [->| ->])]; repeat constructor; vm_compute; discriminate. }
  destruct ds as [|c [|c' ds]]; [done| |].
  - destruct Hr as [->|(b & r & -> & Hb)]; [by cbn; repeat case_match|]. cbn [app]. unfold take_base.
    assert (E : (lower b =? 120) = false) by (destruct Hb as [->| ->]; done). rewrite E. by repeat case_match.
  - cbn [app]. unfold take_base. inversion Hall as [|? ? _ H2]; subst. inversion H2 as [|? ? Hc' _]; subst.
    rewrite (proj2 (Z.eqb_neq _ _) Hc'). by repeat case_match.
Qed.

Lemma reads_f d p : 0 < d <= 10 ^ 17 -> -416 <= p -> reads (fmt_f d p) (if 0 <=? p then d * 10 ^ p else d) (Z.min 0 p).
Proof.
  intros Hd Hp. unfold fmt_f. destruct (Z.leb_spec 0 p).
  - destruct (digits_of_nat d) as (Hv & Hdig & c & rest & E & Hc); [lia|]. set (zeros := replicate (Z.to_nat p) 48).
    assert (Hz : Forall digit_byte zeros) by (apply Forall_replicate; unfold digit_byte; lia).
    assert (Hall : digits_value 0 (dec_digits 20 d [] ++ zeros) = Some (d * 10 ^ p)).
    { rewrite (digits_value_app _ _ _ _ Hv). unfold zeros. rewrite digits_value_zeros. do 2 f_equal. rewrite Z2Nat.id by lia. done. }
    assert (Hdz : Forall digit_byte (dec_digits 20 d [] ++ zeros)) by (by apply Forall_app).
    set (l := dec_digits 20 d [] ++ zeros) in *. assert (El : l = c :: rest ++ zeros) by (subst l; by rewrite E). clearbody l. split.
    + exists c, (rest ++ zeros). by rewrite El.
    + by apply take_base_digits.
    + pose proof (scan_mantissa_digits l [] (mkMantissa 0 0 false false false) _ Hall) as Hs. rewrite app_nil_r in Hs.
      eexists _, [], 0. split; [exact Hs|]. cbn. rewrite bool_decide_eq_false_2 by (by rewrite El). split_and!; try done. lia.
  - set (j := - p). assert (Hj : 0 < 10 ^ j) by (apply pow10_pos; lia).
    pose proof (Z.div_mod d (10 ^ j) ltac:(lia)) as Hdm. pose proof (Z.mod_pos_bound d (10 ^ j) Hj) as Hmb.
    assert (Hi : 0 <= d / 10 ^ j < 10 ^ 20) by (split; [apply Z.div_pos; lia|apply Z.div_lt_upper_bound; nia]).
    destruct (digits_of_nat (d / 10 ^ j)) as (Hv & Hdig & c & rest & E & Hc); [lia|].
    destruct (fixed_digits_ok (Z.to_nat j) (d mod 10 ^ j)) as [Hf Hlen].
    set (frac := fixed_digits (Z.to_nat j) (d mod 10 ^ j)) in *.
    assert (Hfv : digits_value (d / 10 ^ j) frac = Some d).
    { unfold frac. rewrite digits_value_fixed_acc by (rewrite Z2Nat.id by lia; lia). f_equal. rewrite Z2Nat.id by lia. lia. }
    split.
    + rewrite E. by exists c, (rest ++ 46 :: frac).
    + apply take_base_text; [done|by rewrite E|]. right. exists 46, frac. auto.
    + rewrite (scan_mantissa_digits _ _ (mkMantissa 0 0 false false false) _ Hv). cbn [mant fraction sawdot sawdigits underscores scan_mantissa].
      rewrite bool_decide_eq_false_2 by (by rewrite E). cbn [Z.eqb Pos.eqb orb negb].
      set (m := mkMantissa _ _ _ _ _). pose proof (scan_mantissa_digits frac [] m d Hfv) as Hs. rewrite app_nil_r in Hs.
      eexists _, [], 0. split; [exact Hs|]. cbn [mant fraction sawdot sawdigits underscores]. split_and!; try done.
      subst m. cbn [fraction sawdot]. rewrite Hlen. lia.
Qed.

Lemma take_sign_exponent exp :
  take_sign ((if exp <? 0 then 45 else 43) :: dec_digits 20 (Z.abs exp) []) =
    ((if exp <? 0 then -1 else 1), dec_digits 20 (Z.abs exp) []).
Proof. by destruct (exp <? 0). Qed.

Lemma read_exponent_text exp : Z.abs exp < 10000 ->
  read_exponent false (101 :: (if exp <? 0 then 45 else 43) :: dec_digits 20 (Z.abs exp) []) = Some (exp, false, []).
Proof.
  intros Hexp. destruct (digits_of_nat (Z.abs exp)) as (Hv & _ & c & rest & E & Hc); [lia|]. unfold read_exponent.
  change (lower 101 =? 101) with true. cbv iota. rewrite take_sign_exponent. rewrite E in *.
  unfold is_digit. unfold digit_byte in Hc. rewrite !(proj2 (Z.leb_le _ _)) by lia. cbn [andb].
  rewrite (scan_exponent_digits _ _ _ _ Hv) by lia. do 3 f_equal. destruct (Z.ltb_spec exp 0); lia.
Qed.

Lemma reads_e d p : 0 < d <= 10 ^ 17 -> -416 <= p <= 418 -> reads (fmt_e d p) d p.
Proof.
  intros Hd Hp. unfold fmt_e. destruct (digits_of_nat d) as (Hv & Hdig & c & rest & E & Hc); [lia|].
  assert (Hlen : (length rest <= 20)%nat).
  { pose proof (dec_digits_length 20 d) as Hl. rewrite E in Hl. simpl in Hl. lia. }
  rewrite E in *. set (exp := Z.of_nat (length rest) + p). set (tail := 101 :: _).
  assert (Ht : read_exponent false tail = Some (exp, false, [])) by (apply read_exponent_text; lia).
  assert (Hstop : forall m, scan_mantissa false tail m = (m, tail)) by done.
  change (c :: rest) with ([c] ++ rest) in Hv, Hdig. apply Forall_app in Hdig as [Hd1 Hd2].
  destruct (digits_value_total [c] 0 Hd1) as [v Hv1]. rewrite (digits_value_app _ _ _ _ Hv1) in Hv.
  assert (Hshape : exists r, tail = 101 :: r) by (by eexists). clearbody tail. destruct Hshape as [r Hr]. split.
  - by exists c, (match rest with [] => [] | _ => 46 :: rest end ++ tail).
  - apply (take_base_text [c]); [done|done|]. right.
    destruct rest; [exists 101, r; auto|eexists 46, _; split; [reflexivity|auto]].
  - rewrite (scan_mantissa_digits [c] _ (mkMantissa 0 0 false false false) _ Hv1 : scan_mantissa false (c :: _) _ = _).
    cbn [mant fraction sawdot sawdigits underscores].
    destruct rest as [|c' rest].
    + injection Hv as ->. cbn [app]. rewrite Hstop. eexists _, tail, exp. split; [reflexivity|].
      split_and!; try done. subst exp. cbn [fraction length]. lia.
    + cbn [app]. rewrite scan_point by done. cbn [mant fraction sawdigits underscores].
      set (m := mkMantissa _ _ _ _ _). pose proof (scan_mantissa_digits (c' :: rest) tail m d Hv) as Hs.
      cbn [app] in Hs. rewrite Hs, Hstop. eexists _, tail, exp. split; [reflexivity|]. split_and!; try done.
      subst m exp. cbn [fraction sawdot]. lia.
Qed.

(** ** Numbers round trip *)

Lemma f_const_neg x q : 0 < x -> 0 < q -> f_const (- x) q = f_neg (f_const x q).
Proof.
  intros Hx Hq. unfold f_const, round, round_Z. assert (Hu : 0 < unit) by (by apply pow2_pos).
  rewrite (proj2 (Z.ltb_lt (- x * unit) 0)), (proj2 (Z.ltb_ge (x * unit) 0)) by nia.
  replace (- (- x * unit)) with (x * unit) by lia. pose proof (round_pos_nonneg (x * unit) q ltac:(nia) Hq) as Hr.
  rewrite Z.abs_opp. destruct (Z.leb_spec overflow (Z.abs (round_pos (x * unit) q))); [|done]. cbn [f_neg]. f_equal.
  assert (0 < overflow) by (by apply pow2_pos). rewrite (proj2 (Z.ltb_lt _ 0)), (proj2 (Z.ltb_ge _ 0)) by lia. done.
Qed.

(** The text of a positive number stands for it. *)
Lemma format_pos_reads k : bound k -> 0 < k -> exists d p, reads (format_pos k) d p /\ decimal d p = Fin k /\ 0 < d.
Proof.
  intros Hb Hk. unfold format_pos. pose proof (shortest_spec k Hb Hk) as Hs. destruct (shortest k) as [d p].
  destruct Hs as (Hdec & Hd & Hp). destruct (_ || _).
  - exists d, p. split; [by apply reads_e|]. split; [done|lia].
  - eexists _, _. split; [apply reads_f; lia|]. destruct (Z.leb_spec 0 p).
    + pose proof (pow10_pos p). split; [|nia]. rewrite <- Hdec. unfold decimal. rewrite (Z.min_l 0 p) by lia.
      rewrite (Z.max_r 0 p), (Z.max_l 0 (- p)) by lia. by rewrite Z.mul_1_r.
    + rewrite (Z.min_r 0 p) by lia. split; [done|lia].
Qed.

Lemma ParseFloat_reads sign l l' d p : reads l d p -> 0 < d -> (sign = 1 /\ l' = l \/ sign = -1 /\ l' = 45 :: l) ->
  Forall is_byte l' -> ParseFloat (string_of l') = in_range (if sign =? 1 then decimal d p else f_neg (decimal d p)).
Proof.
  intros Hr Hd Hsign Hbytes. destruct (rd_head _ _ _ Hr) as (c & rest & Hl & Hc). unfold ParseFloat.
  rewrite bytes_string by done. destruct (not_special c rest Hc) as [S1 S2]. rewrite <- Hl in S1, S2.
  destruct Hsign as [[-> ->]|[-> ->]].
  - assert (Hsp : special l = None) by (unfold special; rewrite Hl, digit_cases by done; rewrite <- Hl; by rewrite S1, S2).
    rewrite Hsp, (read_text 1 l l d p Hr); [|unfold take_sign; rewrite Hl; by rewrite digit_cases]. by rewrite Z.mul_1_l.
  - assert (Hsp : special (45 :: l) = None) by (unfold special; by rewrite S1).
    rewrite Hsp, (read_text (-1) l (45 :: l) d p Hr) by done. cbn [Z.eqb]. unfold decimal. f_equal.
    replace (-1 * d * 10 ^ Z.max 0 p) with (- (d * 10 ^ Z.max 0 p)) by ring.
    pose proof (pow10_pos (Z.max 0 p)). pose proof (pow10_pos (Z.max 0 (- p))). apply f_const_neg; [nia|lia].
Qed.

(** ** The text is a JSON number *)

Lemma num_scan_all st l : st = N1 \/ st = NDot0 \/ st = NE0 -> Forall digit_byte l -> num_scan st l = true.
Proof.
  intros Hst Hl. rewrite <- (app_nil_r l), num_scan_digits by done. by destruct Hst as [->|[->| ->]].
Qed.

Lemma num_step_point c : is_dec c = true -> num_step NDot c = Some NDot0 /\ num_step NESign c = Some NE0.
Proof. intros H. cbn. by rewrite H. Qed.

Lemma num_scan_fraction l rest : Forall digit_byte l -> l <> [] -> num_scan NDot (l ++ rest) = num_scan NDot0 rest.
Proof.
  intros Hl Hne. destruct Hl as [|c l Hc Hl]; [done|]. cbn [app num_scan].
  rewrite (proj1 (num_step_point c (is_dec_digit c Hc))). apply num_scan_digits; auto.
Qed.

Lemma num_scan_exponent exp st : Z.abs exp < 10000 -> st = N1 \/ st = NDot0 ->
  num_scan st (101 :: (if exp <? 0 then 45 else 43) :: dec_digits 20 (Z.abs exp) []) = true.
Proof.
  intros Hexp Hst. destruct (digits_of_nat (Z.abs exp)) as (_ & Hd & c & rest & E & Hc); [lia|]. rewrite E in *.
  apply Forall_cons in Hd as [_ Hd].
  assert (H : num_scan NESign (c :: rest) = true).
  { cbn [num_scan]. rewrite (proj2 (num_step_point c (is_dec_digit c Hc))). apply num_scan_all; auto. }
  destruct Hst as [->| ->]; destruct (exp <? 0); exact H.
Qed.

Lemma num_ok_f d p : 0 < d <= 10 ^ 17 -> num_ok (fmt_f d p) = true.
Proof.
  intros Hd. unfold fmt_f. destruct (Z.leb_spec 0 p).
  - rewrite num_ok_digits by lia. apply num_scan_all; [auto|]. apply Forall_replicate. unfold digit_byte. lia.
  - assert (Hj : 0 < 10 ^ (- p)) by (apply pow10_pos; lia). destruct (fixed_digits_ok (Z.to_nat (- p)) (d mod 10 ^ (- p))) as [Hf Hlen].
    set (frac := fixed_digits _ _) in *.
    assert (Hs : num_scan NDot frac = true).
    { rewrite <- (app_nil_r frac). rewrite num_scan_fraction; [done|done|]. intros ->. simpl in Hlen. lia. }
    assert (Hi : 0 <= d / 10 ^ (- p) < 10 ^ 20) by (split; [apply Z.div_pos; lia|apply Z.div_lt_upper_bound; nia]).
    destruct (Z.eq_dec (d / 10 ^ (- p)) 0) as [->|]; [exact Hs|]. by rewrite num_ok_digits by lia.
Qed.

Lemma num_ok_e d p : 0 < d <= 10 ^ 17 -> -416 <= p <= 418 -> num_ok (fmt_e d p) = true.
Proof.
  intros Hd Hp. unfold fmt_e. destruct (dec_digits_head 20 d) as (c & rest & E & Hc); [lia|].
  pose proof (dec_digits_length 20 d) as Hl. destruct (digits_of_nat d) as (_ & Hdig & _); [lia|]. rewrite E in *.
  apply Forall_cons in Hdig as [_ Hdig]. simpl in Hl.
  assert (Hstart : num_start c = Some N1).
  { unfold num_start, is_dec. rewrite (proj2 (Z.eqb_neq c 45)), (proj2 (Z.eqb_neq c 48)) by lia.
    rewrite !(proj2 (Z.leb_le _ _)) by lia. done. }
  cbn [num_ok]. rewrite Hstart. destruct rest as [|c' rest]; [apply num_scan_exponent; [lia|auto]|].
  change (num_scan N1 ((46 :: c' :: rest) ++ ?l)) with (num_scan NDot ((c' :: rest) ++ l)).
  rewrite num_scan_fraction by done. apply num_scan_exponent; [lia|auto].
Qed.

Lemma num_ok_format k : bound k -> 0 < k -> num_ok (format_pos k) = true.
Proof.
  intros Hb Hk. unfold format_pos. pose proof (shortest_spec k Hb Hk) as Hs. destruct (shortest k) as [d p].
  destruct Hs as (_ & Hd & Hp). destruct (_ || _); [by apply num_ok_e|by apply num_ok_f].
Qed.

Lemma num_ok_neg c l : 48 <= c <= 57 -> num_ok (c :: l) = true -> num_ok (45 :: c :: l) = true.
Proof.
  intros Hc. cbn [num_ok num_start num_scan num_step Z.eqb Pos.eqb]. unfold num_start.
  by rewrite (proj2 (Z.eqb_neq c 45)) by lia.
Qed.

(** A finite number is written, and read back as it was. *)
Lemma decode_encode_float k x : bound k -> exists v, encode_float (Fin k) = Some v /\
  decode_float v x = Some (Fin k) /\ printable v = true /\ nesting v = 0%nat.
Proof.
  intros Hb. unfold encode_float, formatFloat. destruct (Z.eqb_spec k 0) as [->|Hnz].
  { eexists. split; [reflexivity|]. split; [vm_compute; reflexivity|done]. }
  destruct (Z.ltb_spec k 0) as [Hneg|Hpos]; (eexists; split; [reflexivity|]); cbn [decode_float printable nesting].
  - assert (Hb' : bound (- k)) by (destruct Hb; split; [by apply exact_opp|lia]).
    destruct (format_pos_reads (- k) Hb' ltac:(lia)) as (d & p & Hr & Hdec & Hd).
    pose proof (num_ok_format (- k) Hb' ltac:(lia)) as Hn. destruct (rd_head _ _ _ Hr) as (c & rest & El & Hc).
    rewrite El in Hn. apply num_ok_neg in Hn; [|done]. rewrite <- El in Hn. split_and!; [|done..].
    rewrite (ParseFloat_reads (-1) _ _ d p Hr Hd) by (auto using num_ok_bytes). rewrite Hdec. simpl. do 2 f_equal. lia.
  - destruct (format_pos_reads k Hb ltac:(lia)) as (d & p & Hr & Hdec & Hd).
    pose proof (num_ok_format k Hb ltac:(lia)) as Hn. split_and!; [|done..].
    rewrite (ParseFloat_reads 1 _ _ d p Hr Hd) by (auto using num_ok_bytes). by rewrite Hdec.
Qed.
