(* ===== verification/GoFlag.v ===== *)
(** * Command line flags and durations ([flag], [strconv.ParseInt], [time.ParseDuration])

    What the node's configuration uses of the standard library: the flag parser over
    the argument list, integers in any base, and durations in nanoseconds. *)

From Stdlib Require Import Ascii String.
From stdpp Require Import base strings list.
From S2P Require Import Prelude GoBytes GoText GoFloat GoParse.

#[local] Open Scope Z_scope.
#[local] Open Scope go_scope.

(** ** [strconv.ParseInt(s, 0, 64)] *)

Definition digit_in (c : Z) : option Z :=
  if is_digit c then Some (c - 48)
  else if (97 <=? lower c) && (lower c <=? 122) then Some (lower c - 97 + 10) else None.

(** The digits in the given base; underscores are skipped and reported. *)
Fixpoint scan_uint (base : Z) (l : list Z) (acc : Z) (us : bool) : option (Z * bool) :=
  match l with
  | [] => Some (acc, us)
  | c :: l =>
      if c =? 95 then scan_uint base l acc true
      else match digit_in c with
           | Some d => if d <? base then scan_uint base l (acc * base + d) us else None
           | None => None
           end
  end.

(** The base a prefix stands for, and the rest. *)
Definition int_base (l : list Z) : Z * list Z :=
  match l with
  | 48 :: c :: d :: rest =>
      if lower c =? 98 then (2, d :: rest)
      else if lower c =? 111 then (8, d :: rest)
      else if lower c =? 120 then (16, d :: rest)
      else (8, c :: d :: rest)
  | 48 :: rest => (8, rest)
  | _ => (10, l)
  end.

Definition ParseInt (s : string) : option Z :=
  let '(sign, l) := take_sign (bytes_of s) in
  if bool_decide (l = []) then None
  else
    let '(base, digits) := int_base l in
    match scan_uint base digits 0 false with
    | None => None
    | Some (n, us) =>
        if us && negb (underscoreOK l) then None
        else if (sign =? 1) && (2 ^ 63 <=? n) then None
        else if (sign =? -1) && (2 ^ 63 <? n) then None
        else Some (sign * n)
    end.

(** ** [time.ParseDuration] *)

(** [leadingInt]; [None] if the number does not fit. *)
Fixpoint leadingInt (l : list Z) (x : Z) : option (Z * list Z) :=
  match l with
  | c :: rest =>
      if is_digit c then
        if 2 ^ 63 / 10 <? x then None
        else let x := x * 10 + (c - 48) in
             if 2 ^ 63 <? x then None else leadingInt rest x
      else Some (x, l)
  | [] => Some (x, [])
  end.

(** [leadingFraction]: digits that do not fit are dropped. *)
Fixpoint leadingFraction (l : list Z) (x : Z) (scale : float64) (overflow : bool) : Z * float64 * list Z :=
  match l with
  | c :: rest =>
      if is_digit c then
        if overflow then leadingFraction rest x scale true
        else if (2 ^ 63 - 1) / 10 <? x then leadingFraction rest x scale true
        else let y := x * 10 + (c - 48) in
             if 2 ^ 63 <? y then leadingFraction rest x scale true
             else leadingFraction rest y (f_mul scale (f_of_int 10)) false
      else (x, scale, l)
  | [] => (x, scale, [])
  end.

Definition unitMap (u : list Z) : option Z :=
  if bool_decide (u = bytes_of "ns") then Some 1
  else if bool_decide (u = bytes_of "us") then Some 1000
  else if bool_decide (u = [194; 181; 115]) then Some 1000      (* U+00B5, micro sign *)
  else if bool_decide (u = [206; 188; 115]) then Some 1000      (* U+03BC, Greek mu *)
  else if bool_decide (u = bytes_of "ms") then Some 1000000
  else if bool_decide (u = bytes_of "s") then Some 1000000000
  else if bool_decide (u = bytes_of "m") then Some 60000000000
  else if bool_decide (u = bytes_of "h") then Some 3600000000000
  else None.

Fixpoint take_unit (l : list Z) : list Z * list Z :=
  match l with
  | c :: rest => if (c =? 46) || is_digit c then ([], l)
                 else let '(u, rest) := take_unit rest in (c :: u, rest)
  | [] => ([], [])
  end.

(** One number with its unit, in nanoseconds. *)
Definition duration_term (l : list Z) : option (Z * list Z) :=
  match leadingInt l 0 with
  | None => None
  | Some (v, rest) =>
      let pre := negb (bool_decide (length rest = length l)) in
      let '(f, scale, post, rest) :=
        match rest with
        | 46 :: frac =>
            let '(f, scale, rest) := leadingFraction frac 0 (f_of_int 1) false in
            (f, scale, negb (bool_decide (length rest = length frac)), rest)
        | _ => (0, f_of_int 1, false, rest)
        end in
      if negb pre && negb post then None
      else
        let '(u, rest) := take_unit rest in
        if bool_decide (u = []) then None
        else
          match unitMap u with
          | None => None
          | Some unit =>
              if 2 ^ 63 / unit <? v then None
              else
                let v := v * unit in
                if 0 <? f then
                  let v := v + default 0 (f_int (f_mul (f_of_int f) (f_div (f_of_int unit) scale))) in
                  if 2 ^ 63 <? v then None else Some (v, rest)
                else Some (v, rest)
          end
  end.

(** Every term takes a byte, so the length of the input is enough fuel. *)
Fixpoint duration_terms (fuel : nat) (l : list Z) (d : Z) : option Z :=
  match fuel, l with
  | _, [] => Some d
  | O, _ => None
  | S fuel, c :: _ =>
      if negb ((c =? 46) || is_digit c) then None
      else
        match duration_term l with
        | None => None
        | Some (v, rest) => let d := u64 (d + v) in if 2 ^ 63 <? d then None else duration_terms fuel rest d
        end
  end.

Definition ParseDuration (s : string) : option Z :=
  let '(sign, l) := take_sign (bytes_of s) in
  if bool_decide (l = [48]) then Some 0
  else if bool_decide (l = []) then None
  else
    match duration_terms (length l) l 0 with
    | None => None
    | Some d => if sign =? -1 then Some (- d) else if 2 ^ 63 - 1 <? d then None else Some d
    end.

(** ** [flag.Parse] *)

(** [flag.ExitOnError]: the process ends with the usage on an error. *)
Inductive FlagOutcome (S : Type) : Type :=
| FlagsParsed (s : S)
| FlagsHelp       (* exit status 0 *)
| FlagsError.     (* exit status 2 *)
Arguments FlagsParsed {S} s.
Arguments FlagsHelp {S}.
Arguments FlagsError {S}.

(** The name and value of [name=value]; the equal sign is not the first byte. *)
Fixpoint split_equal (l : list Z) : list Z * option (list Z) :=
  match l with
  | [] => ([], None)
  | c :: rest => if c =? 61 then ([], Some rest)
                 else let '(name, value) := split_equal rest in (c :: name, value)
  end.

(** The name part of an argument that is a flag: [None] for an argument that
    ends the flags, [Some None] for [--]. *)
Definition flag_name (arg : string) : option (option (list Z)) :=
  match bytes_of arg with
  | 45 :: 45 :: [] => Some None
  | 45 :: 45 :: name => Some (Some name)
  | 45 :: c :: name => Some (Some (c :: name))
  | _ => None
  end.

Section Flags.
(** Setting a flag: [None] if it is not defined, [Some None] if the value does
    not parse. *)
Context {S : Type} (set : string -> string -> S -> option (option S)).

Definition set_flag (name : string) (value : string) (s : S) : FlagOutcome S :=
  match set name value s with
  | Some (Some s) => FlagsParsed s
  | _ => FlagsError
  end.

Fixpoint flag_Parse (args : list string) (s : S) : FlagOutcome S :=
  match args with
  | [] => FlagsParsed s
  | arg :: args =>
      match flag_name arg with
      | None => FlagsParsed s
      | Some None => FlagsParsed s
      | Some (Some rest) =>
          match rest with
          | [] | 45 :: _ | 61 :: _ => FlagsError
          | _ =>
              let '(name, value) := split_equal rest in
              let name := string_of name in
              match set name "" s with
              | None => if (name =?s "help") || (name =?s "h") then FlagsHelp else FlagsError
              | Some _ =>
                  match value with
                  | Some v =>
                      match set_flag name (string_of v) s with
                      | FlagsParsed s => flag_Parse args s
                      | r => r
                      end
                  | None =>
                      match args with
                      | [] => FlagsError
                      | v :: args =>
                          match set_flag name v s with
                          | FlagsParsed s => flag_Parse args s
                          | r => r
                          end
                      end
                  end
              end
          end
      end
  end.
End Flags.

Example durations :
  ParseDuration "5s" = Some 5000000000 /\ ParseDuration "1h2m3.5s" = Some 3723500000000 /\
  ParseDuration "-1.5ms" = Some (-1500000) /\ ParseDuration "0" = Some 0 /\ ParseDuration "5" = None /\
  ParseDuration "" = None /\ ParseDuration ".s" = None /\ ParseDuration "9223372036854775807ns" = Some (2 ^ 63 - 1) /\
  ParseDuration "9223372036854775808ns" = None /\ ParseDuration "-9223372036854775808ns" = Some (- 2 ^ 63).
Proof. vm_compute. repeat split. Qed.

Example integers :
  ParseInt "12" = Some 12 /\ ParseInt "-0x1F" = Some (-31) /\ ParseInt "0" = Some 0 /\ ParseInt "010" = Some 8 /\
  ParseInt "1_000" = Some 1000 /\ ParseInt "1__0" = None /\ ParseInt "x" = None /\ ParseInt "" = None /\
  ParseInt "9223372036854775808" = None /\ ParseInt "-9223372036854775808" = Some (- 2 ^ 63).
Proof. vm_compute. repeat split. Qed.

(** ** Ranges *)

Definition int64 (z : Z) : Prop := - 2 ^ 63 <= z < 2 ^ 63.

Lemma take_sign_unit l : (take_sign l).1 = 1 \/ (take_sign l).1 = -1.
Proof.
  unfold take_sign. destruct l as [|c l]; [by left|].
  destruct (Z.eq_dec c 43) as [->|?]; [by left|]. destruct (Z.eq_dec c 45) as [->|?]; [by right|].
  left. repeat case_match; done.
Qed.

Lemma digit_in_range c d : digit_in c = Some d -> 0 <= d.
Proof.
  unfold digit_in, is_digit. intros Hd. repeat case_match; simplify_eq; repeat match goal with
    H : _ && _ = true |- _ => apply andb_prop in H as [? ?] end; zbool; lia.
Qed.

Lemma scan_uint_range base l acc us n us' : 0 < base -> 0 <= acc ->
  scan_uint base l acc us = Some (n, us') -> 0 <= n.
Proof.
  intros Hb. revert acc us. induction l as [|c l IH]; intros acc us Ha Hs; simpl in Hs; [by simplify_eq|].
  destruct (c =? 95); [by eapply IH|]. destruct (digit_in c) as [d|] eqn:Hd; [|done].
  apply digit_in_range in Hd. destruct (d <? base); [|done]. eapply IH; [|exact Hs]. nia.
Qed.

Lemma int_base_pos l : 0 < (int_base l).1.
Proof. unfold int_base. repeat case_match; simpl; lia. Qed.

Lemma ParseInt_range s z : ParseInt s = Some z -> int64 z.
Proof.
  unfold ParseInt, int64. pose proof (take_sign_unit (bytes_of s)) as Hsign.
  destruct (take_sign (bytes_of s)) as [sign l]. simpl in Hsign. case_bool_decide; [done|].
  pose proof (int_base_pos l) as Hb. destruct (int_base l) as [base digits]. simpl in Hb.
  destruct (scan_uint base digits 0 false) as [[n us]|] eqn:Hs; [|done].
  apply scan_uint_range in Hs; [|lia|lia]. destruct (us && _); [done|].
  destruct Hsign as [-> | ->]; simpl.
  - destruct (Z.leb_spec (2 ^ 63) n); [done|]. intros [= <-]. lia.
  - destruct (Z.ltb_spec (2 ^ 63) n); [done|]. intros [= <-]. lia.
Qed.

Lemma duration_terms_range fuel l d r : 0 <= d <= 2 ^ 63 -> duration_terms fuel l d = Some r -> 0 <= r <= 2 ^ 63.
Proof.
  revert l d. induction fuel as [|fuel IH]; intros [|c l] d Hd Hr; simpl in Hr; try (by simplify_eq).
  destruct (negb _); [done|]. destruct (duration_term (c :: l)) as [[v rest]|]; [|done].
  pose proof (u64_range (d + v)) as Hu. destruct (Z.ltb_spec (2 ^ 63) (u64 (d + v))); [done|].
  eapply IH; [|exact Hr]. lia.
Qed.

Lemma ParseDuration_range s z : ParseDuration s = Some z -> int64 z.
Proof.
  unfold ParseDuration, int64. destruct (take_sign (bytes_of s)) as [sign l].
  case_bool_decide; [intros [= <-]; lia|]. case_bool_decide; [done|].
  destruct (duration_terms (length l) l 0) as [d|] eqn:Hd; [|done]. apply duration_terms_range in Hd; [|lia].
  destruct (sign =? -1); [intros [= <-]; lia|]. destruct (Z.ltb_spec (2 ^ 63 - 1) d); [done|]. intros [= <-]. lia.
Qed.

Lemma Atoi_range s z : Atoi s = Some z -> int64 z.
Proof.
  unfold Atoi, int64. destruct (match bytes_of s with 45 :: l => _ | 43 :: l => _ | l => _ end) as [neg l].
  case_bool_decide; [done|]. destruct (digits_value 0 l); [|done].
  destruct ((_ <=? _) && _) eqn:E; [|done]. intros [= <-]. apply andb_prop in E as [? ?]. zbool. lia.
Qed.

(** ** What parsing flags keeps *)

Section FlagFacts.
Context {S : Type} (set : string -> string -> S -> option (option S)) (P : S -> Prop).
Hypothesis Hset : forall name value s s', P s -> set name value s = Some (Some s') -> P s'.

Lemma set_flag_inv name value s s' : P s -> set_flag set name value s = FlagsParsed s' -> P s'.
Proof using Hset.
  intros Hs. unfold set_flag. destruct (set name value s) as [[s1|]|] eqn:E; try done. intros [= <-].
  by eapply Hset.
Qed.

Lemma flag_Parse_inv n args s s' : (length args <= n)%nat -> P s ->
  flag_Parse set args s = FlagsParsed s' -> P s'.
Proof using Hset.
  revert args s. induction n as [|n IH]; intros [|arg args] s Hn Hs Hp; simpl in Hn, Hp;
    try lia; try (by simplify_eq).
  destruct (flag_name arg) as [[rest|]|]; try (by simplify_eq).
  assert (Hbody : forall name value, match set name "" s with
     | None => if (name =?s "help") || (name =?s "h") then FlagsHelp else FlagsError
     | Some _ => match value with
       | Some v => match set_flag set name (string_of v) s with FlagsParsed s => flag_Parse set args s | r => r end
       | None => match args with
                 | [] => FlagsError
                 | v :: args => match set_flag set name v s with FlagsParsed s => flag_Parse set args s | r => r end
                 end
       end
     end = FlagsParsed s' -> P s').
  { intros name value. destruct (set name "" s); [|by destruct (_ || _)]. destruct value as [v|].
    - destruct (set_flag set name (string_of v) s) as [s1| |] eqn:E; try done. intros Hr.
      eapply IH; [|by eapply set_flag_inv|exact Hr]. lia.
    - destruct args as [|v args']; [done|]. simpl in Hn.
      destruct (set_flag set name v s) as [s1| |] eqn:E; try done. intros Hr.
      eapply IH; [|by eapply set_flag_inv|exact Hr]. lia. }
  destruct (split_equal rest) as [name value]. eapply (Hbody (string_of name) value).
  repeat case_match; try done.
Qed.
End FlagFacts.
