(* ===== verification/Base64.v ===== *)
(** * Base64 ([encoding/base64.StdEncoding])

    The encoding gossip payloads travel in, with its round trip. *)

From stdpp Require Import base strings list.
From S2P Require Import Prelude GoBytes.

#[local] Open Scope Z_scope.

Definition pad64 : Z := 61.

Definition char64 (v : Z) : Z :=
  if v <? 26 then 65 + v else if v <? 52 then 71 + v else if v <? 62 then v - 4
  else if v =? 62 then 43 else 47.

Definition value64 (c : Z) : option Z :=
  if (65 <=? c) && (c <=? 90) then Some (c - 65)
  else if (97 <=? c) && (c <=? 122) then Some (c - 71)
  else if (48 <=? c) && (c <=? 57) then Some (c + 4)
  else if c =? 43 then Some 62
  else if c =? 47 then Some 63
  else None.

Fixpoint encode64 (l : list Z) : list Z :=
  match l with
  | x :: y :: z :: l =>
      char64 (x / 4) :: char64 ((x mod 4) * 16 + y / 16) ::
      char64 ((y mod 16) * 4 + z / 64) :: char64 (z mod 64) :: encode64 l
  | [x; y] => [char64 (x / 4); char64 ((x mod 4) * 16 + y / 16); char64 ((y mod 16) * 4); pad64]
  | [x] => [char64 (x / 4); char64 ((x mod 4) * 16); pad64; pad64]
  | [] => []
  end.

(** Quadruples; padding is allowed in the last one only. *)
Fixpoint decode64 (l : list Z) : option (list Z) :=
  match l with
  | [] => Some []
  | a :: b :: c :: d :: l =>
      match value64 a, value64 b with
      | Some a, Some b =>
          if (c =? pad64) then
            if (d =? pad64) && bool_decide (l = []) then Some [a * 4 + b / 16] else None
          else match value64 c with
               | None => None
               | Some c =>
                   if (d =? pad64) then
                     if bool_decide (l = [])
                     then Some [a * 4 + b / 16; (b mod 16) * 16 + c / 4] else None
                   else match value64 d with
                        | None => None
                        | Some d =>
                            (fun r => a * 4 + b / 16 :: (b mod 16) * 16 + c / 4 ::
                                      (c mod 4) * 64 + d :: r) <$> decode64 l
                        end
               end
      | _, _ => None
      end
  | _ => None
  end.

Definition base64_EncodeToString (src : list Z) : string := string_of (encode64 src).

(** Line breaks in the input are skipped. *)
Definition base64_DecodeString (s : string) : option (list Z) :=
  decode64 (filter (fun b => b <> 10 /\ b <> 13) (bytes_of s)).

(** Characters of the alphabet: visible, no bar, no line break, no padding. *)
Lemma char64_spec v : 0 <= v < 64 ->
  value64 (char64 v) = Some v /\ visible (char64 v) /\ char64 v <> pad64 /\ char64 v <> 124.
Proof.
  intros Hv. assert (exists k, v = Z.of_nat k /\ (k < 64)%nat) as (k & -> & Hk)
    by (exists (Z.to_nat v); lia).
  unfold visible. do 64 (destruct k as [|k]; [vm_compute; split_and!; done || (intros; discriminate)|]). lia.
Qed.

Definition text64 (c : Z) : Prop := visible c /\ c <> 124.

Lemma encode64_text : forall l, Forall is_byte l -> Forall text64 (encode64 l).
Proof.
  assert (Ht : forall v, 0 <= v < 64 -> text64 (char64 v)).
  { intros v Hv. destruct (char64_spec v Hv) as (_ & ? & _ & ?). by split. }
  assert (Hp : text64 pad64) by (by vm_compute).
  assert (Hd : forall x k m, is_byte x -> k * m = 256 -> 0 < k -> 0 < m -> 0 <= x / k < m).
  { intros x k m Hx Hkm Hk Hm. unfold is_byte in Hx.
    split; [apply Z.div_pos; lia|apply Z.div_lt_upper_bound; lia]. }
  fix IH 1. intros [|x [|y [|z l]]] Hl; simpl; [done|..];
    repeat match goal with H : Forall is_byte (_ :: _) |- _ => apply Forall_cons in H as [? ?] end;
    repeat match goal with H : is_byte ?x |- _ =>
      pose proof (Hd x 4 64 H eq_refl ltac:(lia) ltac:(lia));
      pose proof (Hd x 16 16 H eq_refl ltac:(lia) ltac:(lia));
      pose proof (Hd x 64 4 H eq_refl ltac:(lia) ltac:(lia));
      pose proof (Z.mod_pos_bound x 4 ltac:(lia)); pose proof (Z.mod_pos_bound x 16 ltac:(lia));
      pose proof (Z.mod_pos_bound x 64 ltac:(lia)); clear H end.
  - do 2 (constructor; [apply Ht; lia|]). by do 2 (constructor; [done|]).
  - do 3 (constructor; [apply Ht; lia|]). by constructor.
  - do 4 (constructor; [apply Ht; lia|]). by apply IH.
Qed.

Lemma decode_encode64 : forall l, Forall is_byte l -> decode64 (encode64 l) = Some l.
Proof.
  assert (Hd : forall x k m, is_byte x -> k * m = 256 -> 0 < k -> 0 < m -> 0 <= x / k < m).
  { intros x k m Hx Hkm Hk Hm. unfold is_byte in Hx.
    split; [apply Z.div_pos; lia|apply Z.div_lt_upper_bound; lia]. }
  assert (Hc : forall v, 0 <= v < 64 -> value64 (char64 v) = Some v /\ (char64 v =? pad64) = false).
  { intros v Hv. destruct (char64_spec v Hv) as (? & _ & ? & _). split; [done|]. by apply Z.eqb_neq. }
  assert (Hq : forall q r, 0 <= r < 16 -> (q * 16 + r) / 16 = q /\ (q * 16 + r) mod 16 = r).
  { intros q r Hb. split; symmetry; [apply (Z.div_unique _ _ _ r)|apply (Z.mod_unique _ _ q)]; lia. }
  assert (Hr : forall q r, 0 <= r < 4 -> (q * 4 + r) / 4 = q /\ (q * 4 + r) mod 4 = r).
  { intros q r Hb. split; symmetry; [apply (Z.div_unique _ _ _ r)|apply (Z.mod_unique _ _ q)]; lia. }
  fix IH 1. intros [|x [|y [|z l]]] Hl; [done|..];
    repeat match goal with H : Forall is_byte (_ :: _) |- _ => apply Forall_cons in H as [? ?] end;
    repeat match goal with H : is_byte ?x |- _ =>
      pose proof (Hd x 4 64 H eq_refl ltac:(lia) ltac:(lia));
      pose proof (Hd x 16 16 H eq_refl ltac:(lia) ltac:(lia));
      pose proof (Hd x 64 4 H eq_refl ltac:(lia) ltac:(lia));
      pose proof (Z.mod_pos_bound x 4 ltac:(lia)); pose proof (Z.mod_pos_bound x 16 ltac:(lia));
      pose proof (Z.mod_pos_bound x 64 ltac:(lia));
      pose proof (Z.div_mod x 4 ltac:(lia)); pose proof (Z.div_mod x 16 ltac:(lia));
      pose proof (Z.div_mod x 64 ltac:(lia)); clear H end.
  - cbn [encode64 decode64]. rewrite (proj1 (Hc (x / 4) ltac:(lia))).
    rewrite (proj1 (Hc (x mod 4 * 16) ltac:(lia))). simpl.
    rewrite Z.div_mul by lia. do 2 f_equal. lia.
  - cbn [encode64 decode64]. rewrite (proj1 (Hc (x / 4) ltac:(lia))).
    rewrite (proj1 (Hc (x mod 4 * 16 + y / 16) ltac:(lia))).
    destruct (Hc (y mod 16 * 4) ltac:(lia)) as [-> ->]. simpl.
    destruct (Hq (x mod 4) (y / 16)) as [-> ->]; [lia|].
    rewrite Z.div_mul by lia. do 2 f_equal; [lia|]. f_equal. lia.
  - cbn [encode64 decode64]. rewrite (proj1 (Hc (x / 4) ltac:(lia))).
    rewrite (proj1 (Hc (x mod 4 * 16 + y / 16) ltac:(lia))).
    destruct (Hc (y mod 16 * 4 + z / 64) ltac:(lia)) as [-> ->].
    destruct (Hc (z mod 64) ltac:(lia)) as [-> ->].
    rewrite IH by done. simpl.
    destruct (Hq (x mod 4) (y / 16)) as [-> ->]; [lia|].
    destruct (Hr (y mod 16) (z / 64)) as [-> ->]; [lia|].
    f_equal. f_equal; [lia|]. f_equal; [lia|]. f_equal. lia.
Qed.

(** The encoded text is a field of the wire protocol. *)
Lemma base64_text l : Forall is_byte l ->
  bytes_of (base64_EncodeToString l) = encode64 l /\ Forall text64 (encode64 l).
Proof.
  intros Hl. pose proof (encode64_text l Hl) as Ht. split; [|done].
  apply bytes_string. eapply Forall_impl; [exact Ht|]. unfold text64, visible, is_byte. lia.
Qed.

Lemma base64_roundtrip l : Forall is_byte l ->
  base64_DecodeString (base64_EncodeToString l) = Some l.
Proof.
  intros Hl. destruct (base64_text l Hl) as [E Ht]. unfold base64_DecodeString. rewrite E.
  assert (Hf : filter (fun b => b <> 10 /\ b <> 13) (encode64 l) = encode64 l).
  { revert Ht. generalize (encode64 l) as r. induction 1 as [|c r [Hv _] Hr IH]; [done|].
    rewrite filter_cons_True by (unfold visible in Hv; lia). by rewrite IH. }
  rewrite Hf. by apply decode_encode64.
Qed.
