(* ===== verification/Wire.v ===== *)
(** * The wire protocol (src/cmd/node/message.go, src/cmd/coordinator/message.go)

    Length-prefixed frames over a byte stream and messages of fields separated
    by [|].  The two programs have the same framing; the coordinator's parser
    trims the whole message first. *)

From Stdlib Require Import Ascii String.
From stdpp Require Import base strings list.
From S2P Require Import Prelude GoBytes Sha256 DhtId GoText.

#[local] Open Scope Z_scope.
#[local] Open Scope go_scope.

(** ** Frames *)

(** [io.ReadFull] of [n] bytes: the bytes and the rest of the stream, [io.EOF]
    when the stream is at its end, [io.ErrUnexpectedEOF] in the middle. *)
Inductive FrameError : Type := EOF | ErrUnexpectedEOF.

Definition ReadFull (n : nat) (stream : list Z) : FrameError + (list Z * list Z) :=
  if bool_decide (n = 0%nat) then inr ([], stream)
  else if bool_decide (stream = []) then inl EOF
  else if bool_decide (length stream < n)%nat then inl ErrUnexpectedEOF
  else inr (take n stream, drop n stream).

Definition readFrame (stream : list Z) : FrameError + (list Z * list Z) :=
  match ReadFull 4 stream with
  | inl err => inl err
  | inr (header, stream) =>
      let length := be_value header in
      if length =? 0 then inr ([], stream)
      else match ReadFull (Z.to_nat length) stream with
           | inl err => inl err
           | inr (payload, stream) => inr (payload, stream)
           end
  end.

(** What [writeFrame] sends: [binary.BigEndian.PutUint32] of [uint32(len)], then
    the payload. *)
Definition writeFrame (payload : list Z) : list Z :=
  be_bytes 4 (u32 (Z.of_nat (length payload))) ++ payload.

(** A connection's frames until it ends or breaks; a frame takes at least four
    bytes, so the length of the stream is enough fuel. *)
Fixpoint readFrames_loop (fuel : nat) (stream : list Z) : list (list Z) * FrameError :=
  match fuel with
  | O => ([], EOF)
  | S fuel =>
      match readFrame stream with
      | inl err => ([], err)
      | inr (payload, stream) =>
          let '(ps, err) := readFrames_loop fuel stream in (payload :: ps, err)
      end
  end.

Definition readFrames (stream : list Z) : list (list Z) * FrameError :=
  readFrames_loop (S (length stream)) stream.

Lemma be_bytes_S w x : be_bytes (S w) x = Z.shiftr x (8 * Z.of_nat w) mod 256 :: be_bytes w x.
Proof.
  unfold be_bytes. rewrite <- cons_seq, <- seq_shift. simpl map. rewrite map_map. f_equal.
  - f_equal. f_equal. lia.
  - apply map_ext. intros i. do 2 f_equal. lia.
Qed.

Lemma be_bytes_length w x : length (be_bytes w x) = w.
Proof. unfold be_bytes. by rewrite length_map, length_seq. Qed.

Lemma be_value_bytes w x : be_value (be_bytes w x) = x mod 256 ^ Z.of_nat w.
Proof.
  induction w as [|w IH]; [by rewrite Z.mod_1_r|].
  rewrite be_bytes_S, be_value_cons, be_bytes_length, IH, Nat2Z.inj_succ, Z.pow_succ_r by lia.
  rewrite Z.shiftr_div_pow2 by lia. rewrite Z.pow_mul_r by lia. change (2 ^ 8) with 256.
  assert (0 < 256 ^ Z.of_nat w) by (apply Z.pow_pos_nonneg; lia).
  rewrite (Z.mul_comm 256), Z.rem_mul_r by lia. lia.
Qed.

Lemma ReadFull_app a rest : ReadFull (length a) (a ++ rest) = inr (a, rest).
Proof.
  unfold ReadFull. case_bool_decide as Ha.
  { by apply nil_length_inv in Ha as ->. }
  rewrite bool_decide_eq_false_2 by (intros [-> _]%app_eq_nil; done).
  rewrite bool_decide_eq_false_2 by (rewrite length_app; lia).
  by rewrite take_app_length, drop_app_length.
Qed.

(** What a reader gets from a written frame, whatever its size. *)
Lemma readFrame_writeFrame payload rest :
  let n := Z.to_nat (Z.of_nat (length payload) mod 2 ^ 32) in
  readFrame (writeFrame payload ++ rest) = inr (take n payload, drop n payload ++ rest).
Proof.
  intros n. unfold readFrame, writeFrame. rewrite <- app_assoc.
  pose proof (ReadFull_app (be_bytes 4 (u32 (Z.of_nat (length payload)))) (payload ++ rest)) as E.
  rewrite be_bytes_length in E. rewrite E, be_value_bytes.
  assert (Hl : u32 (Z.of_nat (length payload)) mod 256 ^ Z.of_nat 4 = Z.of_nat n).
  { unfold u32. change (256 ^ Z.of_nat 4) with (2 ^ 32). rewrite Z.mod_mod by lia.
    subst n. rewrite Z2Nat.id; [done|]. apply Z.mod_pos_bound. lia. }
  rewrite Hl. assert (Hn : (n <= length payload)%nat).
  { subst n. pose proof (Z.mod_le (Z.of_nat (length payload)) (2 ^ 32)). lia. }
  destruct (Z.eqb_spec (Z.of_nat n) 0) as [E0|E0].
  { assert (n = 0%nat) as -> by lia. done. }
  rewrite Nat2Z.id. clearbody n.
  rewrite <- (take_drop n payload) at 1. rewrite <- app_assoc.
  pose proof (ReadFull_app (take n payload) (drop n payload ++ rest)) as E2.
  rewrite length_take, Nat.min_l in E2 by done. by rewrite E2.
Qed.

(** frames round trip.  A reader gets back exactly the payload of a written
    frame and is left at the next one; the length field is 32 bits, so a payload
    of 4 GiB or more is cut to its length modulo 2^32 and the rest is read as
    frames. *)
Theorem frame_roundtrip payload rest :
  readFrame (writeFrame payload ++ rest) =
    inr (take (Z.to_nat (Z.of_nat (length payload) mod 2 ^ 32)) payload,
         drop (Z.to_nat (Z.of_nat (length payload) mod 2 ^ 32)) payload ++ rest) /\
  (Z.of_nat (length payload) < 2 ^ 32 ->
   readFrame (writeFrame payload ++ rest) = inr (payload, rest)).
Proof.
  split; [apply readFrame_writeFrame|]. intros Hlt. rewrite readFrame_writeFrame.
  rewrite Z.mod_small, Nat2Z.id by lia. by rewrite take_ge, drop_ge.
Qed.

Lemma frame_roundtrip_witness :
  readFrame (writeFrame (bytes_of "GETPEERS") ++ [1; 2]) = inr (bytes_of "GETPEERS", [1; 2]).
Proof. apply (frame_roundtrip (bytes_of "GETPEERS") [1; 2]). by vm_compute. Defined.

Lemma readFrame_small payload rest : Z.of_nat (length payload) < 2 ^ 32 ->
  readFrame (writeFrame payload ++ rest) = inr (payload, rest).
Proof.
  intros Hlt. rewrite readFrame_writeFrame.
  rewrite Z.mod_small, Nat2Z.id by lia. by rewrite take_ge, drop_ge.
Qed.

Lemma readFrames_loop_concat ps fuel : (length ps < fuel)%nat ->
  Forall (fun p => Z.of_nat (length p) < 2 ^ 32) ps ->
  readFrames_loop fuel (mjoin (map writeFrame ps)) = (ps, EOF).
Proof.
  intros Hf Hps. revert fuel Hf. induction Hps as [|p ps Hp Hps IH]; intros fuel Hf;
    (destruct fuel as [|fuel]; [simpl in Hf; lia|]); [done|].
  change (mjoin (map writeFrame (p :: ps))) with (writeFrame p ++ mjoin (map writeFrame ps)).
  cbn [readFrames_loop]. rewrite readFrame_small by done. rewrite IH; [done|]. simpl in Hf. lia.
Qed.

Lemma readFrames_concat ps :
  Forall (fun p => Z.of_nat (length p) < 2 ^ 32) ps ->
  readFrames (mjoin (map writeFrame ps)) = (ps, EOF).
Proof.
  intros Hps. apply readFrames_loop_concat; [|done]. clear Hps.
  induction ps as [|p ps IH]; [simpl; lia|].
  change (mjoin (map writeFrame (p :: ps))) with (writeFrame p ++ mjoin (map writeFrame ps)).
  unfold writeFrame at 1. rewrite !length_app, be_bytes_length. simpl in *. lia.
Qed.

Lemma ReadFull_length n stream a rest : ReadFull n stream = inr (a, rest) -> length stream = (n + length rest)%nat.
Proof.
  unfold ReadFull. repeat case_bool_decide; intros [= <- <-]; [lia|]. rewrite length_drop. lia.
Qed.

Lemma readFrame_length stream payload rest :
  readFrame stream = inr (payload, rest) -> (length rest < length stream)%nat.
Proof.
  unfold readFrame. destruct (ReadFull 4 stream) as [|[header body]] eqn:E; [done|]. apply ReadFull_length in E.
  case_match; [intros [= <- <-]; lia|]. destruct (ReadFull _ body) as [|[p q]] eqn:E'; [done|].
  apply ReadFull_length in E'. intros [= <- <-]. lia.
Qed.

Lemma readFrames_loop_fuel f1 : forall f2 stream, (length stream < f1)%nat -> (length stream < f2)%nat ->
  readFrames_loop f1 stream = readFrames_loop f2 stream.
Proof.
  induction f1 as [|f1 IH]; intros [|f2] stream H1 H2; try lia. cbn [readFrames_loop].
  destruct (readFrame stream) as [|[payload rest]] eqn:E; [done|]. apply readFrame_length in E.
  by rewrite (IH f2) by lia.
Qed.

(** The fuel does not matter: [readFrames] reads until a frame cannot be read. *)
Lemma readFrames_eq stream : readFrames stream =
  match readFrame stream with
  | inl err => ([], err)
  | inr (payload, rest) => (payload :: (readFrames rest).1, (readFrames rest).2)
  end.
Proof.
  unfold readFrames at 1. cbn [readFrames_loop]. destruct (readFrame stream) as [|[payload rest]] eqn:E; [done|].
  apply readFrame_length in E. rewrite (readFrames_loop_fuel _ (S (length rest))) by lia.
  unfold readFrames. by destruct (readFrames_loop _ rest).
Qed.

(** a stream of frames is read back message by message, and ends with a
    clean end of file. *)
Theorem frames_roundtrip ps :
  Forall (fun p => Z.of_nat (length p) < 2 ^ 32) ps ->
  readFrames (mjoin (map writeFrame ps)) = (ps, EOF).
Proof. apply readFrames_concat. Qed.

Lemma frames_roundtrip_witness :
  readFrames (mjoin (map writeFrame [bytes_of "HELLO|a|b"; []; bytes_of "GETPEERS"])) =
    ([bytes_of "HELLO|a|b"; []; bytes_of "GETPEERS"], EOF).
Proof. apply frames_roundtrip. repeat constructor; by vm_compute. Defined.

(** ** Messages *)

Definition bar : Z := 124.
Definition comma : Z := 44.

(** The node's [parseMessage]; the slice of a split is never empty. *)
Definition parseMessage (message : string) : string * list string :=
  match Split message bar with
  | [] => ("", [])
  | part :: parts => (ToUpper (TrimSpace part), parts)
  end.

(** The coordinator's [parseMessage]. *)
Definition coordinator_parseMessage (message : string) : string * list string :=
  match Split (TrimSpace message) bar with
  | [] => ("", [])
  | part :: parts => (ToUpper (TrimSpace part), parts)
  end.

Definition splitAndTrim (value : string) : list string :=
  filter (fun s => s <> "") (map TrimSpace (Split value comma)).

(** The coordinator has its own copies of these functions, with the same text. *)
Definition coordinator_readFrame : list Z -> FrameError + (list Z * list Z) := readFrame.
Definition coordinator_writeFrame : list Z -> list Z := writeFrame.
Definition coordinator_splitAndTrim : string -> list string := splitAndTrim.

(** A field that survives the protocol: visible characters without the bar. *)
Definition field (s : string) : Prop := Forall visible (bytes_of s) /\ bar ∉ bytes_of s.

#[export] Instance visible_dec b : Decision (visible b).
Proof. unfold visible. apply _. Defined.
#[export] Instance field_dec s : Decision (field s).
Proof. unfold field. apply _. Defined.

Definition upper_word (s : string) : Prop := Forall (fun b => 65 <= b <= 90) (bytes_of s).

Lemma upper_bytes_id l : Forall (fun b => 65 <= b <= 90) l -> upper_bytes l = l.
Proof.
  induction 1 as [|b l Hb Hl IH]; [done|].
  assert (Hstep : upper_bytes (b :: l) =
    (if (97 <=? b) && (b <=? 122) then b - 32 else b) :: upper_bytes l).
  { assert (exists k, b = 65 + Z.of_nat k /\ (k < 26)%nat) as (k & -> & Hk)
      by (exists (Z.to_nat (b - 65)); lia).
    do 26 (destruct k as [|k]; [done|]). lia. }
  rewrite Hstep, IH. rewrite (proj2 (Z.leb_gt 97 _)) by lia. done.
Qed.

Lemma upper_word_field s : upper_word s -> field s /\ ToUpper (TrimSpace s) = s.
Proof.
  intros Hs. assert (Hf : field s).
  { split; [eapply Forall_impl; [exact Hs|]; unfold visible; lia|].
    intros Hin. unfold upper_word in Hs. rewrite Forall_forall in Hs. specialize (Hs _ Hin).
    unfold bar in Hs. lia. }
  split; [done|]. rewrite TrimSpace_visible by apply Hf. unfold ToUpper.
  rewrite upper_bytes_id by exact Hs. apply string_bytes.
Qed.

Lemma Join_visible sep elems : visible sep -> Forall (fun s => Forall visible (bytes_of s)) elems ->
  Forall visible (bytes_of (Join elems sep)).
Proof.
  intros Hsep He. unfold Join.
  assert (H : Forall visible (join_bytes sep (map bytes_of elems))).
  { induction He as [|s elems Hs He IH]; simpl; [constructor|]. destruct elems; [done|]. simpl in *.
    apply Forall_app. split; [done|by constructor]. }
  rewrite bytes_string; [done|]. eapply Forall_impl; [exact H|]. unfold visible, is_byte. lia.
Qed.

(** What the parsers make of a message built from fields. *)
Lemma parse_built kind args :
  upper_word kind -> Forall field args ->
  let msg := Join (kind :: args) bar in
  TrimSpace msg = msg /\ parseMessage msg = (kind, args) /\
  coordinator_parseMessage msg = (kind, args).
Proof.
  intros Hk Ha msg. destruct (upper_word_field kind Hk) as [Hf Hup].
  assert (Hsplit : Split msg bar = kind :: args).
  { apply Split_Join; [unfold is_byte, bar; lia|done|]. constructor; [apply Hf|].
    eapply Forall_impl; [exact Ha|]. by intros s []. }
  assert (Htrim : TrimSpace msg = msg).
  { apply TrimSpace_visible, Join_visible; [unfold visible, bar; lia|]. constructor; [apply Hf|].
    eapply Forall_impl; [exact Ha|]. by intros s []. }
  unfold parseMessage, coordinator_parseMessage. rewrite Htrim, Hsplit, Hup. done.
Qed.

(** messages round trip.  A message built from an upper-case type and
    fields of visible characters without a bar is parsed back into them, by the
    node's parser and by the coordinator's, and the trimming in between changes
    nothing. *)
Theorem message_roundtrip kind args :
  upper_word kind -> Forall field args ->
  let msg := Join (kind :: args) bar in
  TrimSpace msg = msg /\ parseMessage msg = (kind, args) /\
  coordinator_parseMessage msg = (kind, args).
Proof. apply parse_built. Qed.

Lemma message_roundtrip_witness :
  parseMessage (Join ["GOSSIP"; "ab12"; "3"; "e30="] bar) = ("GOSSIP", ["ab12"; "3"; "e30="]).
Proof.
  apply (message_roundtrip "GOSSIP" ["ab12"; "3"; "e30="]).
  - unfold upper_word. vm_compute. repeat constructor; done.
  - apply (bool_decide_eq_true_1 _). vm_compute. reflexivity.
Defined.
