(* ===== verification/NodeApp.v ===== *)
(** * The edge node (src/cmd/node)

    The state of a node process, the frames it answers, the gossip it receives
    and forwards, and how it discovers peers.  Readings are opaque here, and
    their codec is a parameter with its round trip as a hypothesis where a theorem
    needs it; [NodeMain] uses that of pkg/sensor.  What the process reads from outside (clock, random
    permutation, formatted time) is an environment; frames it sends are outputs. *)

From Stdlib Require Import Ascii String.
From stdpp Require Import base strings list sorting sets gmap.
From S2P Require Import Prelude GoBytes Sha256 GoText Base64 Wire.

#[local] Open Scope Z_scope.
#[local] Open Scope go_scope.

(** ** State (state.go) *)

Record peerInfo : Type := mkPeerInfo { nodeID : string; addr : string; lastSeen : Z }.

(** The configuration (config.go); intervals are in nanoseconds. *)
Record config : Type := mkNodeConfig {
  cfg_nodeID : string; cfg_listenAddr : string; cfg_metricsAddr : string; cfg_advertiseAddr : string;
  cfg_peerAddr : string; cfg_bootstrapAddrs : list string; cfg_message : string;
  cfg_retryInterval : Z; cfg_sensorInterval : Z; cfg_coordinatorAddr : string;
  cfg_gossipFanout : Z; cfg_gossipTTL : Z }.

(** [rng.Perm], the clock and the formatted time. *)
Record AppEnv : Type := mkAppEnv { env_now : Z; env_perm : nat -> list nat; env_time : string }.

(** Frames sent to other processes: address and message. *)
Notation sends := (list (string * string)).

Definition gossipMsgType : string := "GOSSIP".

#[local] Set Default Proof Using "Type".

Section NodeApp.
Context {Reading : Type} (reading_node : Reading -> string) (reading_time : Reading -> Z)
  (EncodeReading : Reading -> option (list Z)) (DecodeReading : list Z -> option Reading).

Record nodeState : Type := mkNodeState {
  self : peerInfo; peers : gmap string peerInfo;
  readings : gmap string Reading; seenGossip : gmap string Z }.

Definition upsertPeer (e : AppEnv) (s : nodeState) (p : peerInfo) : nodeState :=
  if addr p =?s "" then s
  else mkNodeState (self s) (<[addr p := mkPeerInfo (nodeID p) (addr p) (env_now e)]> (peers s))
         (readings s) (seenGossip s).

(** [sort.Strings]; equal strings are indistinguishable, so the order in which
    the map is visited does not matter. *)
Definition peerAddrs (s : nodeState) : list string :=
  merge_sort String.le (addr (self s) :: map fst (map_to_list (peers s))).

Definition peerCount (s : nodeState) : Z := Z.of_nat (size (peers s)).

Definition setReading (s : nodeState) (r : Reading) : nodeState :=
  mkNodeState (self s) (peers s) (<[reading_node r := r]> (readings s)) (seenGossip s).

Definition shouldProcessGossip (e : AppEnv) (s : nodeState) (messageID : string)
  : nodeState * bool :=
  match seenGossip s !! messageID with
  | Some _ => (s, false)
  | None => (mkNodeState (self s) (peers s) (readings s)
               (<[messageID := env_now e]> (seenGossip s)), true)
  end.

(** ** Gossip (gossip.go) *)

(** [rng.Perm(n)] is a permutation of [0..n-1], so the indexing is in range. *)
Definition selectGossipTargets (e : AppEnv) (s : nodeState) (coordinatorAddr : string) (fanout : Z)
  : list string :=
  let peers := peerAddrs s ++ (if coordinatorAddr =?s "" then [] else [coordinatorAddr]) in
  let filtered := filter (fun p => p <> addr (self s)) peers in
  if (fanout <=? 0) || bool_decide (filtered = []) then []
  else if Z.of_nat (length filtered) <=? fanout then filtered
  else omap (fun i => filtered !! i) (take (Z.to_nat fanout) (env_perm e (length filtered))).

(** [fmt.Sprintf("%s|%s|%d|%s", ...)]. *)
Definition formatGossip (messageID : string) (ttl : Z) (encoded : string) : string :=
  Join [gossipMsgType; messageID; Itoa ttl; encoded] bar.

Definition gossipMessageID (nid : string) (timestamp : Z) : string :=
  EncodeToString (take 8 (Sum256 (bytes_of (String.append nid (String.append "-" (Itoa timestamp)))))).

(** [gossipBroadcast]; the second component is whether the reading could not be
    encoded. *)
Definition gossipBroadcast (e : AppEnv) (cfg : config) (s : nodeState) (r : Reading)
  : nodeState * sends * bool :=
  match EncodeReading r with
  | None => (s, [], true)
  | Some payload =>
      let encoded := base64_EncodeToString payload in
      let messageID := gossipMessageID (cfg_nodeID cfg) (reading_time r) in
      let '(s, _) := shouldProcessGossip e s messageID in
      let targets := selectGossipTargets e s (cfg_coordinatorAddr cfg) (cfg_gossipFanout cfg) in
      let msg := formatGossip messageID (cfg_gossipTTL cfg) encoded in
      (s, map (fun a => (a, msg)) targets, false)
  end.

(** [handleGossipMessage] on the fields after the type. *)
Definition handleGossipMessage (e : AppEnv) (cfg : config) (s : nodeState) (parts : list string)
  : nodeState * sends :=
  match parts with
  | messageID :: ttlText :: encoded :: _ =>
      let '(s, fresh) := shouldProcessGossip e s messageID in
      if negb fresh then (s, [])
      else
        match Atoi ttlText with
        | None => (s, [])
        | Some ttl =>
            if ttl <? 0 then (s, [])
            else
              match base64_DecodeString encoded with
              | None => (s, [])
              | Some payload =>
                  match DecodeReading payload with
                  | None => (s, [])
                  | Some r =>
                      let s := setReading s r in
                      if ttl =? 0 then (s, [])
                      else
                        let targets := selectGossipTargets e s (cfg_coordinatorAddr cfg)
                                         (cfg_gossipFanout cfg) in
                        let forward := formatGossip messageID (ttl - 1) encoded in
                        (s, map (fun a => (a, forward)) targets)
                  end
              end
        end
  | _ => (s, [])
  end.

(** ** The server (server.go) *)

(** The body of the loop of [handleConn] on one frame: the state, the frames
    written back on the connection and the frames gossip sends. *)
Definition handleFrame (e : AppEnv) (cfg : config) (s : nodeState) (payload : list Z)
  : nodeState * list string * sends :=
  let message := TrimSpace (string_of payload) in
  if message =?s "" then (s, [], [])
  else
    let '(msgType, parts) := parseMessage message in
    if msgType =?s "HELLO" then
      match parts with
      | nid :: a :: _ => (upsertPeer e s (mkPeerInfo nid a (env_now e)), ["ACK|HELLO"], [])
      | _ => (s, [], [])
      end
    else if msgType =?s "GETPEERS" then
      (s, [String.append "PEERS|" (Join (peerAddrs s) comma)], [])
    else if msgType =?s "MESSAGE" then
      match parts with
      | _ :: _ :: _ => (s, [String.append "ACK|MESSAGE|" (env_time e)], [])
      | _ => (s, [], [])
      end
    else if msgType =?s gossipMsgType then
      let '(s, out) := handleGossipMessage e cfg s parts in (s, [], out)
    else (s, [], []).

(** The frames of a connection, each with its own environment. *)
Fixpoint handleFrames (cfg : config) (s : nodeState) (frames : list (AppEnv * list Z))
  : nodeState * list string * sends :=
  match frames with
  | [] => (s, [], [])
  | (e, payload) :: frames =>
      let '(s, replies, out) := handleFrame e cfg s payload in
      let '(s, replies', out') := handleFrames cfg s frames in
      (s, replies ++ replies', out ++ out')
  end.

(** [handleConn] on what the other side sends until the stream ends or breaks. *)
Definition handleConn (cfg : config) (s : nodeState) (envs : nat -> AppEnv) (stream : list Z)
  : nodeState * list string * sends :=
  handleFrames cfg s (imap (fun i payload => (envs i, payload)) (readFrames stream).1).

(** ** Bootstrap (bootstrap.go) *)

(** What [helloAndGetPeers] sends ([fmt.Sprintf("HELLO|%s|%s", ...)]). *)
Definition helloRequests (cfg : config) : list string :=
  [Join ["HELLO"; cfg_nodeID cfg; cfg_advertiseAddr cfg] bar; "GETPEERS"].

(** Its result when the other side answers with [stream]; [None] for the stream
    stands for a dial or write that fails.  A missing acknowledgement is only
    logged, but the stream is then at its end and the next read fails too. *)
Definition helloAndGetPeers (conn : option (list Z)) : option (list string) :=
  match conn with
  | None => None
  | Some stream =>
      let stream := match readFrame stream with inl _ => [] | inr (_, rest) => rest end in
      match readFrame stream with
      | inl _ => None
      | inr (response, _) =>
          match parseMessage (TrimSpace (string_of response)) with
          | (msgType, part :: _) => if msgType =?s "PEERS" then Some (splitAndTrim part) else None
          | (_, []) => None
          end
      end
  end.

(** [bootstrapDiscovery]; [hello] is the outcome of [helloAndGetPeers] at an
    address.  The second component are the peers it then sends a message to. *)
Definition bootstrapDiscovery (e : AppEnv) (cfg : config) (s : nodeState)
    (hello : string -> option (list string)) : nodeState * list string :=
  if bool_decide (cfg_bootstrapAddrs cfg = []) && (cfg_peerAddr cfg =?s "") then (s, [])
  else
    let addrs := cfg_bootstrapAddrs cfg ++
                 (if cfg_peerAddr cfg =?s "" then [] else [cfg_peerAddr cfg]) in
    let found := mjoin (map (fun a => if a =?s "" then [] else default [] (hello a)) addrs) in
    let s := fold_left (fun s a =>
               if (a =?s "") || (a =?s cfg_advertiseAddr cfg) then s
               else upsertPeer e s (mkPeerInfo "" a (env_now e))) found s in
    (s, filter (fun p => p <> cfg_advertiseAddr cfg) (peerAddrs s)).

(** ** Seen messages stay seen *)

Lemma shouldProcess_seen e s x : is_Some (seenGossip (shouldProcessGossip e s x).1 !! x).
Proof.
  unfold shouldProcessGossip. destruct (seenGossip s !! x) eqn:E; simpl; [by rewrite E|].
  by rewrite lookup_insert_eq.
Qed.

Lemma shouldProcess_mono e s x y :
  is_Some (seenGossip s !! y) -> is_Some (seenGossip (shouldProcessGossip e s x).1 !! y).
Proof.
  unfold shouldProcessGossip. intros Hy. destruct (seenGossip s !! x) eqn:E; simpl; [done|].
  destruct (decide (x = y)) as [->|]; [by rewrite lookup_insert_eq|by rewrite lookup_insert_ne].
Qed.

(** What a gossip message does, by cases. *)
Lemma handleGossip_cases e cfg s x ttlText encoded rest s' out :
  handleGossipMessage e cfg s (x :: ttlText :: encoded :: rest) = (s', out) ->
  let s1 := (shouldProcessGossip e s x).1 in
  (out = [] /\ (s' = s1 \/ exists r, s' = setReading s1 r /\ Atoi ttlText = Some 0)) \/
  exists ttl payload r, seenGossip s !! x = None /\ Atoi ttlText = Some ttl /\ 0 < ttl /\
    base64_DecodeString encoded = Some payload /\ DecodeReading payload = Some r /\
    s' = setReading s1 r /\
    out = map (fun a => (a, formatGossip x (ttl - 1) encoded))
      (selectGossipTargets e s' (cfg_coordinatorAddr cfg) (cfg_gossipFanout cfg)).
Proof.
  unfold handleGossipMessage, shouldProcessGossip.
  destruct (seenGossip s !! x) eqn:Hs; simpl; [intros [= <- <-]; auto|].
  destruct (Atoi ttlText) as [ttl|]; [|intros [= <- <-]; auto].
  destruct (Z.ltb_spec ttl 0); [intros [= <- <-]; auto|].
  destruct (base64_DecodeString encoded) as [payload|] eqn:Hb; [|intros [= <- <-]; auto].
  destruct (DecodeReading payload) as [r|] eqn:Hd; [|intros [= <- <-]; auto].
  destruct (Z.eqb_spec ttl 0); intros [= <- <-]; [subst; eauto 6|].
  right. exists ttl, payload, r. split_and!; try done. lia.
Qed.

Lemma handleGossip_seen e cfg s x rest : is_Some (seenGossip s !! x) ->
  handleGossipMessage e cfg s (x :: rest) = (s, []).
Proof.
  intros [v Hv]. destruct rest as [|t [|p rest]]; [done..|].
  unfold handleGossipMessage, shouldProcessGossip. by rewrite Hv.
Qed.

Lemma handleGossip_mono e cfg s parts y :
  is_Some (seenGossip s !! y) -> is_Some (seenGossip (handleGossipMessage e cfg s parts).1 !! y).
Proof.
  intros Hy. destruct parts as [|x [|t [|p rest]]]; try done.
  destruct (handleGossipMessage e cfg s (x :: t :: p :: rest)) as [s' out] eqn:E.
  pose proof (shouldProcess_mono e s x y Hy) as Hm.
  apply handleGossip_cases in E as [[_ [->|(r & -> & _)]]|(? & ? & r & _ & _ & _ & _ & _ & -> & _)];
    done.
Qed.

Lemma handleFrame_mono e cfg s payload y :
  is_Some (seenGossip s !! y) -> is_Some (seenGossip (handleFrame e cfg s payload).1.1 !! y).
Proof.
  intros Hy. unfold handleFrame. case_bool_decide; [done|].
  destruct (parseMessage _) as [kind parts].
  case_bool_decide; [|case_bool_decide; [done|case_bool_decide; [by repeat case_match|]]].
  - destruct parts as [|? [|? ?]]; try done. simpl. unfold upsertPeer. by case_bool_decide.
  - case_bool_decide; [|done]. pose proof (handleGossip_mono e cfg s parts y Hy).
    by destruct (handleGossipMessage e cfg s parts).
Qed.

Lemma handleFrames_mono cfg s frames y :
  is_Some (seenGossip s !! y) -> is_Some (seenGossip (handleFrames cfg s frames).1.1 !! y).
Proof.
  revert s. induction frames as [|[e payload] frames IH]; intros s Hy; [done|]. simpl.
  pose proof (handleFrame_mono e cfg s payload y Hy) as H1.
  destruct (handleFrame e cfg s payload) as [[s1 r1] o1]. specialize (IH s1 H1).
  by destruct (handleFrames cfg s1 frames) as [[s2 r2] o2].
Qed.

(** a gossip message is processed at most once.  After a node has handled a
    message with some ID, whatever it receives on a connection in between, another message
    with that ID changes nothing and is not forwarded. *)
Theorem gossip_processed_once e cfg s x ttlText encoded rest envs stream e' rest' :
  let s1 := (handleGossipMessage e cfg s (x :: ttlText :: encoded :: rest)).1 in
  let s2 := (handleConn cfg s1 envs stream).1.1 in
  handleGossipMessage e' cfg s2 (x :: rest') = (s2, []).
Proof.
  intros s1 s2. assert (H1 : is_Some (seenGossip s1 !! x)).
  { subst s1. destruct (handleGossipMessage e cfg s _) as [s' out] eqn:E.
    pose proof (shouldProcess_seen e s x) as Hm.
    apply handleGossip_cases in E as [[_ [->|(r & -> & _)]]|(? & ? & r & _ & _ & _ & _ & _ & -> & _)];
      done. }
  by apply handleGossip_seen, handleFrames_mono.
Qed.

(** ** Forwarding *)

Lemma elem_of_peerAddrs s a : a ∈ peerAddrs s <-> a = addr (self s) \/ is_Some (peers s !! a).
Proof.
  unfold peerAddrs. rewrite merge_sort_Permutation, elem_of_cons.
  change (map fst (map_to_list (peers s))) with ((map_to_list (peers s)).*1).
  rewrite list_elem_of_fmap. split; (intros [->|H]; [by left|right]).
  - destruct H as ([y p] & -> & Hin). apply elem_of_map_to_list in Hin. eauto.
  - destruct H as [p Hp]. exists (a, p). split; [done|]. by apply elem_of_map_to_list.
Qed.

Lemma length_omap_le {A B} (f : A -> option B) l : (length (omap f l) <= length l)%nat.
Proof. induction l as [|x l IH]; csimpl; [lia|]. destruct (f x); simpl in *; lia. Qed.

Lemma selectGossipTargets_spec e s coord fanout :
  let ts := selectGossipTargets e s coord fanout in
  Z.of_nat (length ts) <= Z.max 0 fanout /\
  forall a, a ∈ ts -> a <> addr (self s) /\ (is_Some (peers s !! a) \/ a = coord /\ coord <> "").
Proof.
  unfold selectGossipTargets. set (filtered := filter _ _).
  assert (Hf : forall a, a ∈ filtered -> a <> addr (self s) /\
    (is_Some (peers s !! a) \/ a = coord /\ coord <> "")).
  { intros a Ha. apply list_elem_of_filter in Ha as [Hne Ha]. split; [done|].
    apply elem_of_app in Ha as [Ha|Ha].
    - apply elem_of_peerAddrs in Ha as [?|?]; [done|by left].
    - case_bool_decide; [set_solver|]. apply list_elem_of_singleton in Ha. auto. }
  destruct (Z.leb_spec fanout 0); simpl; [split; [lia|set_solver]|].
  case_bool_decide; [split; [simpl; lia|set_solver]|].
  destruct (Z.leb_spec (Z.of_nat (length filtered)) fanout); [split; [lia|done]|].
  split.
  - pose proof (length_omap_le (fun i => filtered !! i) (take (Z.to_nat fanout) (env_perm e (length filtered)))) as Hl.
    rewrite length_take in Hl. lia.
  - intros a Ha. apply Hf. apply list_elem_of_omap in Ha as (i & _ & Hi).
    by eapply list_elem_of_lookup_2.
Qed.

(** What a fresh, well-formed message does. *)
Lemma handleGossip_accepts e cfg s x ttlText encoded rest ttl payload r :
  seenGossip s !! x = None -> Atoi ttlText = Some ttl -> 0 <= ttl ->
  base64_DecodeString encoded = Some payload -> DecodeReading payload = Some r ->
  let s' := setReading (shouldProcessGossip e s x).1 r in
  handleGossipMessage e cfg s (x :: ttlText :: encoded :: rest) =
    (s', if ttl =? 0 then [] else
         map (fun a => (a, formatGossip x (ttl - 1) encoded))
           (selectGossipTargets e s' (cfg_coordinatorAddr cfg) (cfg_gossipFanout cfg))).
Proof.
  intros Hs Ht Hpos Hb Hd. simpl. unfold shouldProcessGossip. rewrite Hs. simpl.
  rewrite Ht, (proj2 (Z.ltb_ge ttl 0)) by done. rewrite Hb, Hd. by destruct (ttl =? 0).
Qed.

(** forwarding.  A fresh message with a TTL of at least zero and a reading
    that decodes is kept, and forwarded if its TTL is positive; nothing else is
    ever forwarded.  What is forwarded has the same ID and payload and the TTL
    lowered by one, and goes to at most [fanout] targets, each a known peer or
    the coordinator and never the node itself. *)
Theorem gossip_forwarding e cfg s x ttlText encoded rest s' out :
  handleGossipMessage e cfg s (x :: ttlText :: encoded :: rest) = (s', out) ->
  (forall ttl payload r, seenGossip s !! x = None -> Atoi ttlText = Some ttl -> 0 <= ttl ->
     base64_DecodeString encoded = Some payload -> DecodeReading payload = Some r ->
     readings s' = <[reading_node r := r]> (readings s) /\
     map fst out = if ttl =? 0 then [] else
        selectGossipTargets e s' (cfg_coordinatorAddr cfg) (cfg_gossipFanout cfg)) /\
  Z.of_nat (length out) <= Z.max 0 (cfg_gossipFanout cfg) /\
  forall a msg, (a, msg) ∈ out ->
    seenGossip s !! x = None /\
    (exists ttl payload r, Atoi ttlText = Some ttl /\ 0 < ttl /\
       msg = formatGossip x (ttl - 1) encoded /\
       base64_DecodeString encoded = Some payload /\ DecodeReading payload = Some r) /\
    a <> addr (self s) /\ (is_Some (peers s !! a) \/ a = cfg_coordinatorAddr cfg).
Proof.
  intros H. split.
  { intros ttl payload r Hs Ht Hpos Hb Hd.
    rewrite (handleGossip_accepts _ _ _ _ _ _ _ ttl payload r) in H by done. injection H as <- <-.
    unfold shouldProcessGossip. rewrite Hs. split; [done|]. destruct (ttl =? 0); [done|].
    rewrite map_map. apply map_id. }
  apply handleGossip_cases in H
    as [[-> _]|(ttl & payload & r & Hs & Ht & Hpos & Hb & Hd & -> & ->)].
  { split; [simpl; lia|]. by intros a msg ?%elem_of_nil. }
  set (s1 := setReading (shouldProcessGossip e s x).1 r).
  destruct (selectGossipTargets_spec e s1 (cfg_coordinatorAddr cfg) (cfg_gossipFanout cfg)) as [Hlen Hin].
  assert (Hself : self s1 = self s /\ peers s1 = peers s).
  { subst s1. unfold shouldProcessGossip. by rewrite Hs. }
  split; [by rewrite length_map|]. intros a msg Ha. apply list_elem_of_fmap in Ha as (b & [= -> ->] & Hb').
  destruct (Hin _ Hb') as [Hne Hor]. destruct Hself as [E1 E2]. rewrite E1 in Hne. rewrite E2 in Hor.
  split_and!; [done|by exists ttl, payload, r|done|]. destruct Hor as [?|[? _]]; [by left|by right].
Qed.
End NodeApp.

(** ** A concrete node

    Readings that are just the name of their node, encoded as themselves. *)

Definition demo_app_env : AppEnv := mkAppEnv 7 (fun n => seq 0 n) "2025-01-01T00:00:00Z".
Definition demo_config : config :=
  mkNodeConfig "n1" "h1:8000" "h1:9100" "h1:8000" "" ["h2:8000"] "hello" 2000000000 5000000000 "co:9000" 2 3.
Definition demo_state : nodeState (Reading := string) :=
  upsertPeer demo_app_env (mkNodeState (mkPeerInfo "n1" "h1:8000" 0) ∅ ∅ ∅)
    (mkPeerInfo "n2" "h2:8000" 0).
Definition demo_encode (r : string) : option (list Z) := Some (bytes_of r).
Definition demo_decode (l : list Z) : option string := Some (string_of l).
Definition demo_gossip : list string := ["00ff"; "1"; base64_EncodeToString (bytes_of "n9")].

Lemma gossip_forwarding_witness :
  let res := handleGossipMessage id demo_decode demo_app_env demo_config demo_state demo_gossip in
  Z.of_nat (length res.2) <= 2 /\
  ("h2:8000", formatGossip "00ff" 0 (base64_EncodeToString (bytes_of "n9"))) ∈ res.2 /\
  readings res.1 = {["n9" := "n9"]}.
Proof.
  set (res := handleGossipMessage _ _ _ _ _ _).
  destruct (gossip_forwarding id demo_decode demo_app_env demo_config demo_state "00ff" "1"
    (base64_EncodeToString (bytes_of "n9")) [] res.1 res.2) as (Hacc & Hlen & _).
  { by destruct res eqn:E. }
  split; [exact Hlen|]. split; [|by apply (Hacc 1 (bytes_of "n9") "n9")].
  apply (bool_decide_eq_true_1 _). by vm_compute.
Defined.
