(* ===== verification/NodeExchange.v ===== *)
(** * Exchanges between nodes (src/cmd/node)

    Two processes talking over the wire protocol: a reading broadcast by one node
    and received by another, and the bootstrap handshake. *)

From Stdlib Require Import Ascii String.
From stdpp Require Import base strings list sorting sets gmap.
From S2P Require Import Prelude GoBytes Sha256 GoText Base64 Wire.
From S2P Require Import NodeApp.

#[local] Open Scope Z_scope.
#[local] Open Scope go_scope.

(** ** Fields of the messages *)

Lemma gossipMessageID_field nid ts : field (gossipMessageID nid ts).
Proof.
  unfold gossipMessageID. set (l := take 8 _).
  assert (Hl : Forall is_byte l) by (apply Forall_take, Sum256_spec).
  split; [apply (hex_bytes l Hl)|]. intros Hin. pose proof (hex_below l Hl) as Hb.
  rewrite Forall_forall in Hb. specialize (Hb _ Hin). unfold bar in Hb. lia.
Qed.

Lemma Itoa_field z : - 2 ^ 63 <= z < 2 ^ 63 -> field (Itoa z).
Proof.
  intros Hz. destruct (Itoa_bytes z Hz) as (_ & Hv & Hb). split; [done|]. apply Hb. unfold bar. lia.
Qed.

Lemma base64_field l : Forall is_byte l -> field (base64_EncodeToString l).
Proof.
  intros Hl. destruct (base64_text l Hl) as [E Ht]. unfold field. rewrite E. split.
  - eapply Forall_impl; [exact Ht|]. by intros c [].
  - intros Hin. rewrite Forall_forall in Ht. by destruct (Ht _ Hin) as [_ []].
Qed.

Lemma upper_word_dec_true w : forallb (fun b => (65 <=? b) && (b <=? 90)) (bytes_of w) = true ->
  upper_word w.
Proof.
  intros H. apply Forall_forall. intros b Hb. rewrite forallb_forall in H.
  apply list_elem_of_In in Hb. specialize (H b Hb). apply andb_prop in H as [?%Z.leb_le ?%Z.leb_le]. lia.
Qed.

(** The bytes a process sends as frames. *)
Definition sent (msgs : list string) : list Z := mjoin (map (fun m => writeFrame (bytes_of m)) msgs).

Definition short (msg : string) : Prop := Z.of_nat (length (bytes_of msg)) < 2 ^ 32.

#[export] Instance short_dec msg : Decision (short msg).
Proof. unfold short. apply _. Defined.

Lemma readFrames_sent msgs : Forall short msgs -> (readFrames (sent msgs)).1 = map bytes_of msgs.
Proof.
  intros Hs. unfold sent. rewrite <- (map_map bytes_of writeFrame), readFrames_concat; [done|].
  by apply Forall_map.
Qed.

#[local] Arguments NodeApp.handleGossipMessage : simpl never.

#[local] Set Default Proof Using "Type".

Section Exchange.
Context {Reading : Type} (reading_node : Reading -> string) (reading_time : Reading -> Z)
  (EncodeReading : Reading -> option (list Z)) (DecodeReading : list Z -> option Reading).

Notation handleConn := (handleConn reading_node DecodeReading).
Notation handleFrame := (handleFrame reading_node DecodeReading).
Notation handleGossipMessage := (handleGossipMessage reading_node DecodeReading).
Notation gossipBroadcast := (gossipBroadcast reading_time EncodeReading).

(** A gossip message in a frame and on a connection. *)
Lemma handleFrame_gossip e cfg s x ttl encoded :
  field x -> field encoded -> - 2 ^ 63 <= ttl < 2 ^ 63 ->
  handleFrame e cfg s (bytes_of (formatGossip x ttl encoded)) =
    let '(s, out) := handleGossipMessage e cfg s [x; Itoa ttl; encoded] in (s, [], out).
Proof.
  intros Hx He Ht. unfold NodeApp.handleFrame.
  destruct (parse_built gossipMsgType [x; Itoa ttl; encoded]) as (Htr & Hp & _).
  { by apply upper_word_dec_true. }
  { repeat constructor; try apply Hx; try apply He; by apply Itoa_field. }
  rewrite string_bytes. unfold formatGossip. rewrite Htr, bool_decide_eq_false_2, Hp.
  - change (gossipMsgType =?s "HELLO") with false. change (gossipMsgType =?s "GETPEERS") with false.
    change (gossipMsgType =?s "MESSAGE") with false. by change (gossipMsgType =?s gossipMsgType) with true.
  - intros E. rewrite E in Hp. discriminate Hp.
Qed.

Lemma handleConn_gossip cfg s envs x ttl encoded :
  field x -> field encoded -> - 2 ^ 63 <= ttl < 2 ^ 63 -> short (formatGossip x ttl encoded) ->
  handleConn cfg s envs (sent [formatGossip x ttl encoded]) =
    let '(s, out) := handleGossipMessage (envs 0%nat) cfg s [x; Itoa ttl; encoded] in (s, [], out).
Proof.
  intros Hx He Ht Hl. unfold NodeApp.handleConn. rewrite readFrames_sent by (by repeat constructor).
  cbn [map imap handleFrames]. rewrite handleFrame_gossip by done.
  destruct (handleGossipMessage _ _ _ _) as [s' out]. simpl. by rewrite app_nil_r.
Qed.

(** a broadcast reading arrives.  A node that receives the frame another
    node's [gossipBroadcast] sends, and has not seen its ID, ends with the
    decoded reading in its table and the ID marked; it answers nothing and
    forwards at most the same message with the TTL lowered by one.  The sender,
    should the message come back to it, ignores it. *)
Theorem gossip_delivery e cfg s r payload r' s1 out target msg cfgB sB envs :
  let x := gossipMessageID (cfg_nodeID cfg) (reading_time r) in
  EncodeReading r = Some payload -> Forall is_byte payload -> DecodeReading payload = Some r' ->
  0 <= cfg_gossipTTL cfg < 2 ^ 63 ->
  gossipBroadcast e cfg s r = (s1, out, false) -> (target, msg) ∈ out -> short msg ->
  seenGossip sB !! x = None ->
  handleConn cfg s1 envs (sent [msg]) = (s1, [], []) /\
  exists sB' fwd, handleConn cfgB sB envs (sent [msg]) = (sB', [], fwd) /\
    readings sB' = <[reading_node r' := r']> (readings sB) /\ is_Some (seenGossip sB' !! x) /\
    (cfg_gossipTTL cfg = 0 -> fwd = []) /\
    forall a m, (a, m) ∈ fwd ->
      m = formatGossip x (cfg_gossipTTL cfg - 1) (base64_EncodeToString payload).
Proof.
  intros x Henc Hb Hdec Httl Hbc Hin Hshort Hfresh. unfold NodeApp.gossipBroadcast in Hbc.
  rewrite Henc in Hbc. fold x in Hbc. destruct (shouldProcessGossip e s x) as [s0 b0] eqn:Hsp.
  injection Hbc as <- <-. apply list_elem_of_fmap in Hin as (? & [= -> ->] & _).
  pose proof (gossipMessageID_field (cfg_nodeID cfg) (reading_time r)) as Hx.
  pose proof (base64_field payload Hb) as He.
  rewrite !handleConn_gossip by (done || lia). split.
  { rewrite handleGossip_seen; [done|]. pose proof (shouldProcess_seen e s x) as H. by rewrite Hsp in H. }
  rewrite (handleGossip_accepts reading_node DecodeReading _ _ _ _ _ _ _ (cfg_gossipTTL cfg) payload r').
  - eexists _, _. split; [done|]. unfold shouldProcessGossip. rewrite Hfresh. simpl.
    split_and!; [done|by rewrite lookup_insert_eq|by intros ->|].
    intros a m Ham. case_match; [by apply elem_of_nil in Ham|].
    by apply list_elem_of_fmap in Ham as (? & [= -> ->] & _).
  - done.
  - apply Atoi_Itoa. lia.
  - lia.
  - by apply base64_roundtrip.
  - done.
Qed.

(** ** Bootstrap *)

(** Addresses the peer list can carry. *)
Definition address (a : string) : Prop := field a /\ comma ∉ bytes_of a /\ a <> "".

#[export] Instance address_dec a : Decision (address a).
Proof. unfold address. apply _. Defined.

Lemma join_elem sep b elems : b <> sep -> is_byte sep -> Forall (fun a => b ∉ bytes_of a) elems ->
  b ∉ bytes_of (Join elems sep).
Proof.
  intros Hb Hs He. unfold Join.
  assert (H : Forall (fun c => is_byte c /\ c <> b) (join_bytes sep (map bytes_of elems))).
  { induction He as [|a elems Ha He IH]; simpl; [constructor|].
    assert (H : Forall (fun c => is_byte c /\ c <> b) (bytes_of a)).
    { pose proof (bytes_of_range a) as Hr. rewrite Forall_forall in Hr |- *.
      intros c Hc. split; [by apply Hr|]. by intros ->. }
    destruct elems; [done|]. simpl in *. apply Forall_app. split; [done|]. by constructor. }
  apply Forall_and in H as [Hr H]. rewrite bytes_string by done.
  intros Hin. rewrite Forall_forall in H. by apply (H b).
Qed.

Lemma splitAndTrim_join addrs : addrs <> [] -> Forall address addrs ->
  splitAndTrim (Join addrs comma) = addrs /\ field (Join addrs comma).
Proof.
  intros Hne Ha. split.
  - unfold splitAndTrim. rewrite Split_Join; [|unfold is_byte, comma; lia|done|].
    + clear Hne. induction Ha as [|a addrs (Hf & _ & Ha) _ IH]; [done|]. simpl.
      rewrite TrimSpace_visible by apply Hf. rewrite filter_cons_True by done. by rewrite IH.
    + eapply Forall_impl; [exact Ha|]. by intros a (_ & ? & _).
  - split.
    + apply Join_visible; [unfold visible, comma; lia|]. eapply Forall_impl; [exact Ha|]. by intros a [[] _].
    + apply join_elem; [done|unfold is_byte, comma; lia|]. eapply Forall_impl; [exact Ha|]. by intros a [[] _].
Qed.

Lemma string_of_app a b : string_of (a ++ b) = String.append (string_of a) (string_of b).
Proof. unfold string_of. induction a as [|c a IH]; [done|]. exact (f_equal (String _) IH). Qed.

Lemma peers_message text : String.append "PEERS|" text = Join ["PEERS"; text] bar.
Proof.
  unfold Join. change (join_bytes bar (map bytes_of ["PEERS"; text])) with (bytes_of "PEERS|" ++ bytes_of text).
  by rewrite string_of_app, !string_bytes.
Qed.

(** The two frames of the handshake at the server. *)
Lemma handleFrame_hello e cfgB sB nid a : field nid -> field a -> a <> "" ->
  handleFrame e cfgB sB (bytes_of (Join ["HELLO"; nid; a] bar)) =
    (upsertPeer e sB (mkPeerInfo nid a (env_now e)), ["ACK|HELLO"], []).
Proof.
  intros Hn Ha Hne. unfold NodeApp.handleFrame. rewrite string_bytes.
  destruct (parse_built "HELLO" [nid; a]) as (Htr & Hp & _).
  { by apply upper_word_dec_true. }
  { by repeat constructor; apply Hn || apply Ha. }
  rewrite Htr, bool_decide_eq_false_2, Hp; [done|]. intros E. rewrite E in Hp. discriminate Hp.
Qed.

Lemma handleFrame_getpeers e cfgB sB :
  handleFrame e cfgB sB (bytes_of "GETPEERS") =
    (sB, [String.append "PEERS|" (Join (peerAddrs sB) comma)], []).
Proof. reflexivity. Qed.

(** The client's reading of the answers. *)
Lemma helloAndGetPeers_reads ack addrs : short ack -> addrs <> [] -> Forall address addrs ->
  short (String.append "PEERS|" (Join addrs comma)) ->
  helloAndGetPeers (Some (sent [ack; String.append "PEERS|" (Join addrs comma)])) = Some addrs.
Proof.
  intros Hack Hne Ha Hs. destruct (splitAndTrim_join addrs Hne Ha) as [Hst Hf].
  unfold helloAndGetPeers. rewrite peers_message in *. set (msg := Join ["PEERS"; _] bar) in *.
  change (sent [ack; msg]) with (writeFrame (bytes_of ack) ++ writeFrame (bytes_of msg) ++ []).
  rewrite readFrame_small by exact Hack. rewrite readFrame_small by exact Hs. rewrite string_bytes.
  destruct (parse_built "PEERS" [Join addrs comma]) as (Htr & Hp & _).
  { by apply upper_word_dec_true. }
  { by repeat constructor; apply Hf. }
  fold msg in Htr, Hp. rewrite Htr, Hp. rewrite bool_decide_eq_true_2 by done. by rewrite Hst.
Qed.

(** C35: the bootstrap handshake.  After a node's two requests over one
    connection the server has registered it, and the list the node reads from
    the answers is the server's whole view: every peer it knows, the server
    itself and the node. *)
Theorem hello_exchange cfg cfgB sB envs :
  field (cfg_nodeID cfg) -> address (cfg_advertiseAddr cfg) -> address (addr (self sB)) ->
  (forall a, is_Some (peers sB !! a) -> address a) -> Forall short (helloRequests cfg) ->
  let '(sB', replies, out) := handleConn cfgB sB envs (sent (helloRequests cfg)) in
  let known := peerAddrs sB' in
  out = [] /\
  peers sB' = <[cfg_advertiseAddr cfg :=
    mkPeerInfo (cfg_nodeID cfg) (cfg_advertiseAddr cfg) (env_now (envs 0%nat))]> (peers sB) /\
  (Forall short replies -> helloAndGetPeers (Some (sent replies)) = Some known) /\
  forall a, a ∈ known <-> a = addr (self sB) \/ a = cfg_advertiseAddr cfg \/ is_Some (peers sB !! a).
Proof.
  intros Hn Ha Hself Hpeers Hreq. unfold NodeApp.handleConn. rewrite readFrames_sent by done.
  unfold helloRequests. cbn [map imap handleFrames compose].
  rewrite handleFrame_hello by (apply Hn || apply Ha). rewrite handleFrame_getpeers. cbv iota beta.
  set (sB' := upsertPeer _ _ _).
  assert (Hp : peers sB' = <[cfg_advertiseAddr cfg :=
    mkPeerInfo (cfg_nodeID cfg) (cfg_advertiseAddr cfg) (env_now (envs 0%nat))]> (peers sB)
    /\ self sB' = self sB).
  { subst sB'. unfold upsertPeer. simpl. by rewrite bool_decide_eq_false_2 by apply Ha. }
  destruct Hp as [Hp Hs].
  assert (Hknown : forall a, a ∈ peerAddrs sB' <->
    a = addr (self sB) \/ a = cfg_advertiseAddr cfg \/ is_Some (peers sB !! a)).
  { intros a. rewrite elem_of_peerAddrs, Hp, Hs, lookup_insert_is_Some'. naive_solver. }
  split_and!; [done|done| |done]. intros Hr. apply Forall_cons in Hr as [Hr1 [Hr2 _]%Forall_cons].
  apply helloAndGetPeers_reads; [done| | |done].
  - intros E. pose proof (proj2 (Hknown (addr (self sB))) (or_introl eq_refl)) as H.
    rewrite E in H. by apply elem_of_nil in H.
  - apply Forall_forall. intros a [->|[->|Hin]]%Hknown; [done|done|by apply Hpeers].
Qed.
End Exchange.

(** ** Two concrete nodes *)

Definition demo_peer_state : nodeState (Reading := string) :=
  mkNodeState (mkPeerInfo "n2" "h2:8000" 0) ∅ ∅ ∅.
Definition demo_envs (_ : nat) : AppEnv := demo_app_env.
Definition demo_time (_ : string) : Z := 42.

Lemma gossip_delivery_witness :
  exists s out msg, gossipBroadcast demo_time demo_encode demo_app_env demo_config demo_state "n1" =
      (s, out, false) /\ ("h2:8000", msg) ∈ out /\
    readings (handleConn id demo_decode demo_config demo_peer_state demo_envs (sent [msg])).1.1 =
      {["n1" := "n1"]}.
Proof.
  set (res := gossipBroadcast demo_time demo_encode demo_app_env demo_config demo_state "n1").
  set (msg := formatGossip (gossipMessageID "n1" 42) 3 (base64_EncodeToString (bytes_of "n1"))).
  assert (Hb : res.2 = false) by (vm_compute; reflexivity).
  assert (Hin : ("h2:8000", msg) ∈ res.1.2).
  { apply (bool_decide_eq_true_1 _). vm_compute. reflexivity. }
  destruct (gossip_delivery id demo_time demo_encode demo_decode demo_app_env demo_config demo_state
    "n1" (bytes_of "n1") "n1" res.1.1 res.1.2 "h2:8000" msg demo_config demo_peer_state demo_envs)
    as (_ & sB' & fwd & Hc & Hr & _).
  - reflexivity.
  - apply bytes_of_range.
  - vm_compute. reflexivity.
  - simpl. lia.
  - rewrite <- Hb, <- !surjective_pairing. reflexivity.
  - exact Hin.
  - unfold short. vm_compute. reflexivity.
  - apply lookup_empty.
  - exists res.1.1, res.1.2, msg. split; [rewrite <- Hb, <- !surjective_pairing; reflexivity|].
    split; [exact Hin|]. rewrite Hc. simpl fst. rewrite Hr. apply insert_empty.
Defined.

Lemma hello_exchange_witness :
  helloAndGetPeers (Some (sent (handleConn id demo_decode demo_config demo_peer_state demo_envs
    (sent (helloRequests demo_config))).1.2)) = Some ["h1:8000"; "h2:8000"].
Proof.
  set (res := handleConn _ _ _ _ _ _).
  assert (E1 : peerAddrs res.1.1 = ["h1:8000"; "h2:8000"]) by (vm_compute; reflexivity).
  assert (E2 : Forall short res.1.2).
  { apply (bool_decide_eq_true_1 _). vm_compute. reflexivity. }
  pose proof (hello_exchange id demo_decode demo_config demo_config demo_peer_state demo_envs) as H.
  fold res in H. destruct res as [[sB' replies] out]. cbn [fst snd] in *.
  destruct H as (_ & _ & H & _).
  - apply (bool_decide_eq_true_1 _). vm_compute. reflexivity.
  - apply (bool_decide_eq_true_1 _). vm_compute. reflexivity.
  - apply (bool_decide_eq_true_1 _). vm_compute. reflexivity.
  - intros a [p Hp]. pose proof (eq_trans (eq_sym (lookup_empty a)) Hp). discriminate.
  - apply (bool_decide_eq_true_1 _). vm_compute. reflexivity.
  - rewrite (H E2), E1. reflexivity.
Defined.
