(* ===== verification/GossipFlood.v ===== *)
(** * Gossip in a network of nodes (src/cmd/node/gossip.go)

    Nodes at their addresses and the gossip frames in flight between them.  Any
    frame may be delivered next or lost; the network is not ordered.  One message
    ID is followed through the network: how many frames it causes, and whom it
    reaches. *)

From Stdlib Require Import Ascii String.
From stdpp Require Import base strings list sorting sets gmap relations.
From S2P Require Import Prelude GoBytes Sha256 GoText Base64 Wire.
From S2P Require Import NodeApp NodeExchange.

#[local] Open Scope Z_scope.
#[local] Open Scope go_scope.
#[local] Set Default Proof Using "Type".

Section Flood.
Context {Reading : Type} (reading_node : Reading -> string) (DecodeReading : list Z -> option Reading).

Notation handleFrame := (handleFrame reading_node DecodeReading).
Notation handleGossipMessage := (handleGossipMessage reading_node DecodeReading).
Notation Process := (config * nodeState (Reading := Reading))%type.

Record Net : Type := mkNet { nodes : gmap string Process; wire : sends }.

Inductive NetEvent : Type := Deliver (e : AppEnv) (i : nat) | Lose (i : nat).

(** The [i]-th frame in flight arrives: the process at its address handles it,
    and what it forwards is in flight. *)
Definition deliver (e : AppEnv) (i : nat) (net : Net) : option Net :=
  match wire net !! i with
  | None => None
  | Some (a, msg) =>
      let rest := delete i (wire net) in
      match nodes net !! a with
      | None => Some (mkNet (nodes net) rest)
      | Some (cfg, s) =>
          let '(s', _, out) := handleFrame e cfg s (bytes_of msg) in
          Some (mkNet (<[a := (cfg, s')]> (nodes net)) (rest ++ out))
      end
  end.

Definition netStep (ev : NetEvent) (net : Net) : option Net :=
  match ev with
  | Deliver e i => deliver e i net
  | Lose i => if bool_decide (i < length (wire net))%nat
              then Some (mkNet (nodes net) (delete i (wire net))) else None
  end.

Fixpoint netRun (evs : list NetEvent) (net : Net) : option Net :=
  match evs with
  | [] => Some net
  | ev :: evs => match netStep ev net with None => None | Some net => netRun evs net end
  end.

(** ** Following one message *)
Context (x : string) (Hx : field x).

Definition fresh (p : Process) : Prop := seenGossip p.2 !! x = None.
#[local] Instance fresh_dec p : Decision (fresh p).
Proof. unfold fresh. apply _. Defined.

Definition unseen (net : Net) : gset string := dom (filter (fun kv => fresh kv.2) (nodes net)).

Lemma elem_of_unseen net a : a ∈ unseen net <-> exists p, nodes net !! a = Some p /\ fresh p.
Proof.
  unfold unseen. rewrite elem_of_dom. unfold is_Some. setoid_rewrite map_lookup_filter_Some. done.
Qed.

(** A frame that carries a gossip message with the ID. *)
Definition about (msg : string) : Prop :=
  exists ttl encoded, 0 <= ttl < 2 ^ 63 /\ field encoded /\ msg = formatGossip x ttl encoded.

(** What a node does with such a frame. *)
Lemma node_step e cfg s msg : about msg ->
  let '(s', _, out) := handleFrame e cfg s (bytes_of msg) in
  (forall q, q ∈ out -> about q.2) /\ Z.of_nat (length out) <= Z.max 0 (cfg_gossipFanout cfg) /\
  seenGossip s' !! x <> None /\ self s' = self s /\ peers s' = peers s /\
  (seenGossip s !! x <> None -> s' = s /\ out = []).
Proof using Hx.
  intros (ttl & encoded & Ht & He & ->). rewrite handleFrame_gossip by (done || lia).
  destruct (handleGossipMessage e cfg s [x; Itoa ttl; encoded]) as [s' out] eqn:E.
  destruct (decide (is_Some (seenGossip s !! x))) as [Hs|Hs].
  { rewrite handleGossip_seen in E by done. injection E as <- <-. apply not_eq_None_Some in Hs.
    split_and!; try done; [by intros ? ?%elem_of_nil|simpl; lia]. }
  apply eq_None_not_Some in Hs. pose proof (shouldProcess_seen e s x) as Hseen.
  assert (Hkeep : self (shouldProcessGossip e s x).1 = self s /\ peers (shouldProcessGossip e s x).1 = peers s)
    by (unfold shouldProcessGossip; by rewrite Hs).
  apply not_eq_None_Some in Hseen. destruct Hkeep as [Hk1 Hk2].
  apply handleGossip_cases in E as [[-> [->|(r & -> & _)]]|(t & payload & r & _ & Ht' & Hpos & _ & _ & -> & ->)];
    (split_and!; try done; try (by intros ? ?%elem_of_nil); try (simpl; lia)).
  - intros [a m] Hin. apply list_elem_of_fmap in Hin as (? & [= -> ->] & _).
    rewrite Atoi_Itoa in Ht' by lia. injection Ht' as <-. exists (ttl - 1), encoded. split; [lia|done].
  - rewrite length_map. apply selectGossipTargets_spec.
Qed.

Definition all_about (net : Net) : Prop := forall q, q ∈ wire net -> about q.2.
Definition fanout_at_most (F : Z) (net : Net) : Prop :=
  forall a p, nodes net !! a = Some p -> cfg_gossipFanout p.1 <= F.

(** Frames in flight, and [F] more for every node that may still forward. *)
Definition potential (F : Z) (net : Net) : Z :=
  Z.of_nat (length (wire net)) + F * Z.of_nat (size (unseen net)).

Lemma unseen_handled net a p cfg s w : nodes net !! a = Some p -> seenGossip s !! x <> None ->
  unseen (mkNet (<[a := (cfg, s)]> (nodes net)) w) = unseen net ∖ {[a]}.
Proof.
  intros Hp Hs. apply set_eq. intros b. rewrite elem_of_difference, !elem_of_unseen, elem_of_singleton.
  simpl. destruct (decide (a = b)) as [->|Hne].
  - rewrite lookup_insert_eq. split; [|naive_solver]. intros (q & [= <-] & Hq). done.
  - rewrite lookup_insert_ne by done. naive_solver.
Qed.

Lemma length_delete_lt {A} (l : list A) i y : l !! i = Some y ->
  Z.of_nat (length (delete i l)) = Z.of_nat (length l) - 1.
Proof. intros H. rewrite length_delete by eauto. apply lookup_lt_Some in H. lia. Qed.

Lemma netStep_potential F ev net net' : 0 <= F -> all_about net -> fanout_at_most F net ->
  netStep ev net = Some net' ->
  all_about net' /\ fanout_at_most F net' /\ potential F net' + 1 <= potential F net.
Proof using Hx.
  intros HF Ha Hf Hstep. destruct ev as [e i|i]; simpl in Hstep.
  2:{ case_bool_decide as Hi; [|done]. injection Hstep as <-.
      apply lookup_lt_is_Some_2 in Hi as [q Hq]. split_and!; [|done|].
      - intros q' Hq'%list_elem_of_delete_inv. by apply Ha.
      - unfold potential, unseen. simpl. rewrite (length_delete_lt _ _ _ Hq). lia. }
  unfold deliver in Hstep. destruct (wire net !! i) as [[a msg]|] eqn:Hw; [|done].
  assert (Hrest : forall q, q ∈ delete i (wire net) -> about q.2)
    by (intros q Hq%list_elem_of_delete_inv; by apply Ha).
  assert (Hmsg : about msg) by (apply (Ha (a, msg)); by eapply list_elem_of_lookup_2).
  destruct (nodes net !! a) as [[cfg s]|] eqn:Hn.
  2:{ injection Hstep as <-. split_and!; [done|done|]. unfold potential, unseen. simpl.
      rewrite (length_delete_lt _ _ _ Hw). lia. }
  pose proof (node_step e cfg s msg Hmsg) as H.
  destruct (handleFrame e cfg s (bytes_of msg)) as [[s' replies] out]. injection Hstep as <-.
  destruct H as (Hout & Hlen & Hseen & _ & _ & Hstay). pose proof (Hf _ _ Hn) as Hcf. simpl in Hcf.
  split_and!.
  - intros q [Hq|Hq]%elem_of_app; auto.
  - intros b p. simpl. destruct (decide (a = b)) as [->|Hne].
    + rewrite lookup_insert_eq. by intros [= <-].
    + rewrite lookup_insert_ne by done. apply Hf.
  - unfold potential. rewrite (unseen_handled net a (cfg, s)) by done. simpl.
    rewrite length_app, Nat2Z.inj_add, (length_delete_lt _ _ _ Hw).
    destruct (decide (a ∈ unseen net)) as [Hin|Hin].
    + rewrite size_difference, size_singleton by set_solver.
      assert (size (unseen net) <> 0%nat) by (intros E%size_empty_inv; set_solver). nia.
    + assert (seenGossip s !! x <> None) as [_ ->]%Hstay.
      { intros E. apply Hin, elem_of_unseen. by exists (cfg, s). }
      replace (unseen net ∖ {[a]}) with (unseen net) by set_solver. simpl. lia.
Qed.

(** C33: a gossip message dies out.  Whatever is delivered or lost and in
    whatever order, one message ID causes at most the frames in flight plus
    [fanout] more for every node that has not seen it; in particular no run is
    infinite. *)
Theorem gossip_dies_out F evs net net' : 0 <= F -> all_about net -> fanout_at_most F net ->
  netRun evs net = Some net' ->
  Z.of_nat (length evs) + Z.of_nat (length (wire net')) <=
    Z.of_nat (length (wire net)) + F * Z.of_nat (size (unseen net)).
Proof using Hx.
  intros HF. change (all_about net -> fanout_at_most F net -> netRun evs net = Some net' ->
    Z.of_nat (length evs) + Z.of_nat (length (wire net')) <= potential F net).
  revert net. induction evs as [|ev evs IH]; intros net Ha Hf Hr; simpl in Hr.
  { injection Hr as ->. unfold potential. simpl. nia. }
  destruct (netStep ev net) as [net1|] eqn:E; [|done].
  destruct (netStep_potential F ev net net1 HF Ha Hf E) as (Ha1 & Hf1 & Hp).
  specialize (IH net1 Ha1 Hf1 Hr). simpl length. lia.
Qed.

(** ** Whom a message reaches *)

(** The addresses a process sends gossip to. *)
Definition target (p : Process) (b : string) : Prop :=
  b <> addr (self p.2) /\
  (is_Some (peers p.2 !! b) \/ b = cfg_coordinatorAddr p.1 /\ cfg_coordinatorAddr p.1 <> "").

(** A fanout that covers all of them. *)
Definition wide (p : Process) : Prop := Z.of_nat (size (peers p.2)) + 2 <= cfg_gossipFanout p.1.

Lemma wide_targets e cfg s b : wide (cfg, s) -> target (cfg, s) b ->
  b ∈ selectGossipTargets e s (cfg_coordinatorAddr cfg) (cfg_gossipFanout cfg).
Proof.
  unfold wide, target. simpl. intros Hw [Hne Hb]. unfold selectGossipTargets.
  set (all := peerAddrs s ++ _). set (filtered := filter _ all).
  assert (Hin : b ∈ filtered).
  { apply list_elem_of_filter. split; [done|]. apply elem_of_app. destruct Hb as [Hb|[-> Hc]].
    - left. apply elem_of_peerAddrs. by right.
    - right. rewrite bool_decide_eq_false_2 by done. by apply list_elem_of_singleton. }
  assert (Hlen : (length filtered <= size (peers s) + 2)%nat).
  { etrans; [apply length_filter|]. subst all. rewrite length_app. unfold peerAddrs.
    rewrite merge_sort_Permutation. simpl. rewrite length_map, length_map_to_list.
    case_bool_decide; simpl; lia. }
  rewrite (proj2 (Z.leb_gt _ 0)) by lia. rewrite bool_decide_eq_false_2 by (intros E; rewrite E in Hin; by apply elem_of_nil in Hin).
  simpl. by rewrite (proj2 (Z.leb_le _ _)) by lia.
Qed.

(** One process sends to another of the network. *)
Definition knows (net : Net) (a b : string) : Prop :=
  exists p, nodes net !! a = Some p /\ target p b /\ is_Some (nodes net !! b).

(** Processes stay, what they have seen stays seen, and whom they know. *)
Record extends (net net' : Net) : Prop := mkExtends {
  ext_nodes : forall a, is_Some (nodes net !! a) -> is_Some (nodes net' !! a);
  ext_seen : unseen net' ⊆ unseen net;
  ext_knows : forall a b, knows net a b -> knows net' a b }.

Context (payload : list Z) (Hbytes : Forall is_byte payload)
        (r : Reading) (Hdec : DecodeReading payload = Some r) (origin : string).

Notation encoded := (base64_EncodeToString payload).

(** The flood of the message while it runs: every frame in flight has hops left
    for all nodes still to reach, and what a node that has seen it knows is either
    reached or about to be. *)
Record flooding (net : Net) : Prop := mkFlooding {
  fl_wide : forall a p, nodes net !! a = Some p -> wide p;
  fl_wire : forall q, q ∈ wire net -> exists ttl, Z.of_nat (size (unseen net)) <= ttl < 2 ^ 63 /\
    q.2 = formatGossip x ttl encoded;
  fl_closed : forall a b, knows net a b -> a ∉ unseen net -> b ∉ unseen net \/ b ∈ map fst (wire net);
  fl_reading : forall a p, nodes net !! a = Some p -> ~ fresh p -> a <> origin ->
    readings p.2 !! reading_node r = Some r }.

Lemma process_fresh e cfg s ttl : fresh (cfg, s) -> 0 < ttl < 2 ^ 63 ->
  exists s', handleFrame e cfg s (bytes_of (formatGossip x ttl encoded)) =
      (s', [], map (fun a => (a, formatGossip x (ttl - 1) encoded))
                 (selectGossipTargets e s' (cfg_coordinatorAddr cfg) (cfg_gossipFanout cfg))) /\
    ~ fresh (cfg, s') /\ self s' = self s /\ peers s' = peers s /\
    readings s' !! reading_node r = Some r.
Proof using Hx Hbytes Hdec.
  intros Hf Ht. unfold fresh in Hf. simpl in Hf.
  rewrite handleFrame_gossip by (done || lia || by apply base64_field).
  rewrite (handleGossip_accepts reading_node DecodeReading _ _ _ _ _ _ _ ttl payload r);
    [|done|apply Atoi_Itoa; lia|lia|by apply base64_roundtrip|done].
  eexists. split; [by rewrite (proj2 (Z.eqb_neq ttl 0)) by lia|].
  pose proof (shouldProcess_seen e s x) as Hs. apply not_eq_None_Some in Hs.
  unfold fresh. simpl. split_and!; [done| | |by rewrite lookup_insert_eq];
    unfold shouldProcessGossip; by rewrite Hf.
Qed.

Lemma elem_of_fst_delete (w : sends) i a msg b : w !! i = Some (a, msg) -> b ∈ map fst w ->
  b = a \/ b ∈ map fst (delete i w).
Proof.
  intros Hi Hb. change (map fst w) with (w.*1) in Hb. change (map fst (delete i w)) with ((delete i w).*1).
  rewrite (delete_Permutation w i (a, msg) Hi) in Hb. rewrite fmap_cons, elem_of_cons in Hb. done.
Qed.

Lemma not_unseen net a p : nodes net !! a = Some p -> (a ∉ unseen net <-> ~ fresh p).
Proof.
  intros Hp. rewrite elem_of_unseen. split.
  - intros H Hf. apply H. by exists p.
  - intros H (q & Hq & Hf). rewrite Hp in Hq. by injection Hq as ->.
Qed.

Lemma unseen_pos net a p : nodes net !! a = Some p -> fresh p -> (size (unseen net) <> 0)%nat.
Proof.
  intros Hp Hf E%size_empty_inv%leibniz_equiv.
  assert (Ha : a ∈ unseen net) by (apply elem_of_unseen; by exists p).
  rewrite E in Ha. by apply not_elem_of_empty in Ha.
Qed.

(** A frame to an address with nothing to learn. *)
Lemma flooding_drop net i a msg : flooding net -> wire net !! i = Some (a, msg) -> a ∉ unseen net ->
  flooding (mkNet (nodes net) (delete i (wire net))).
Proof.
  intros [Hwide Hwire Hclosed Hread] Hw Ha. split; [done| | |done].
  - intros q Hq%list_elem_of_delete_inv. by apply Hwire.
  - intros c b Hk Hc. destruct (Hclosed c b Hk Hc) as [?|Hb]; [by left|].
    destruct (elem_of_fst_delete _ _ _ _ _ Hw Hb) as [->|?]; [by left|by right].
Qed.

Lemma knows_update net a cfg s s' w b c : nodes net !! a = Some (cfg, s) ->
  self s' = self s -> peers s' = peers s ->
  (knows (mkNet (<[a := (cfg, s')]> (nodes net)) w) b c <-> knows net b c).
Proof.
  intros Hn Hself Hpeers. unfold knows. simpl.
  assert (Hdom : is_Some (<[a := (cfg, s')]> (nodes net) !! c) <-> is_Some (nodes net !! c)).
  { rewrite lookup_insert_is_Some'. split; [intros [<-|?]; [by rewrite Hn|done]|by right]. }
  setoid_rewrite Hdom. destruct (decide (a = b)) as [<-|Hne]; [|by rewrite lookup_insert_ne by done].
  rewrite lookup_insert_eq, Hn. unfold target.
  split; intros (p & [= <-] & Ht & Hc); (eexists; split; [done|]); simpl in *.
  - by rewrite Hself, Hpeers in Ht.
  - by rewrite Hself, Hpeers.
Qed.

Lemma extends_update net a cfg s s' w : nodes net !! a = Some (cfg, s) -> ~ fresh (cfg, s') ->
  self s' = self s -> peers s' = peers s -> extends net (mkNet (<[a := (cfg, s')]> (nodes net)) w).
Proof.
  intros Hn Hf Hs Hp. split.
  - intros b Hb. simpl. rewrite lookup_insert_is_Some'. by right.
  - rewrite (unseen_handled net a (cfg, s)) by done. apply subseteq_difference_l. done.
  - intros b c. by apply (knows_update net a cfg s s').
Qed.

(** A node that sees the message for the first time. *)
Lemma flooding_handle net i a ttl e cfg s s' :
  flooding net -> wire net !! i = Some (a, formatGossip x ttl encoded) ->
  nodes net !! a = Some (cfg, s) -> fresh (cfg, s) -> ~ fresh (cfg, s') ->
  Z.of_nat (size (unseen net)) <= ttl < 2 ^ 63 ->
  self s' = self s -> peers s' = peers s -> readings s' !! reading_node r = Some r ->
  flooding (mkNet (<[a := (cfg, s')]> (nodes net)) (delete i (wire net) ++
    map (fun b => (b, formatGossip x (ttl - 1) encoded))
      (selectGossipTargets e s' (cfg_coordinatorAddr cfg) (cfg_gossipFanout cfg)))).
Proof using Hx Hbytes Hdec.
  intros [Hwide Hwire Hclosed Hread] Hw Hn Hfresh Hnf Ht Hself Hpeers Hr.
  assert (Ha : a ∈ unseen net) by (apply elem_of_unseen; by exists (cfg, s)).
  assert (Hsize : (size (unseen net) <> 0)%nat) by (by eapply unseen_pos).
  assert (Hw' : wide (cfg, s')) by (unfold wide; simpl; rewrite Hpeers; by apply (Hwide a (cfg, s))).
  split; simpl.
  - intros b p. destruct (decide (a = b)) as [<-|Hne].
    + rewrite lookup_insert_eq. by intros [= <-].
    + rewrite lookup_insert_ne by done. apply Hwide.
  - rewrite (unseen_handled net a (cfg, s)) by done.
    rewrite size_difference, size_singleton by set_solver.
    intros q [Hq%list_elem_of_delete_inv|Hq]%elem_of_app.
    + destruct (Hwire q Hq) as (t & Ht' & ->). exists t. split; [lia|done].
    + apply list_elem_of_fmap in Hq as (b & -> & _). exists (ttl - 1). split; [lia|done].
  - rewrite (unseen_handled net a (cfg, s)) by done. intros c b Hk Hc.
    change (map fst ?l) with (l.*1). rewrite fmap_app, elem_of_app.
    destruct (decide (b = a)) as [->|Hba]; [left; set_solver|].
    destruct (decide (c = a)) as [->|Hca].
    + right. right. destruct Hk as (p & Hp & Htg & _). simpl in Hp. rewrite lookup_insert_eq in Hp.
      injection Hp as <-. change (map ?f ?l) with (f <$> l). rewrite <- list_fmap_compose.
      apply list_elem_of_fmap. exists b. split; [done|]. by apply wide_targets.
    + apply (knows_update net a cfg s s' _ c b Hn Hself Hpeers) in Hk.
      destruct (Hclosed c b Hk) as [Hb|Hb]; [set_solver|left; set_solver|].
      destruct (elem_of_fst_delete _ _ _ _ _ Hw Hb) as [->|?]; [done|right; by left].
  - intros b p. destruct (decide (a = b)) as [<-|Hne].
    + rewrite lookup_insert_eq. by intros [= <-].
    + rewrite lookup_insert_ne by done. apply Hread.
Qed.

Lemma deliver_flooding e i net net' : flooding net -> deliver e i net = Some net' ->
  flooding net' /\ extends net net'.
Proof using Hx Hbytes Hdec.
  intros Hfl Hstep. unfold deliver in Hstep.
  destruct (wire net !! i) as [[a msg]|] eqn:Hw; [|done].
  destruct (fl_wire net Hfl (a, msg)) as (ttl & Ht & Hmsg); [by eapply list_elem_of_lookup_2|].
  simpl in Hmsg. destruct (nodes net !! a) as [[cfg s]|] eqn:Hn.
  2:{ injection Hstep as <-. split; [|done]. apply (flooding_drop _ _ _ _ Hfl Hw).
      rewrite elem_of_unseen. intros (p & Hp & _). by rewrite Hn in Hp. }
  destruct (decide (fresh (cfg, s))) as [Hfresh|Hseen].
  - assert (Hsize : (size (unseen net) <> 0)%nat) by (by eapply unseen_pos).
    destruct (process_fresh e cfg s ttl Hfresh) as (s' & Hs' & Hnf & Hself & Hpeers & Hr); [lia|].
    rewrite Hmsg, Hs' in Hstep. injection Hstep as <-. subst msg. split.
    + by eapply flooding_handle.
    + by apply (extends_update net a cfg s s').
  - pose proof (node_step e cfg s msg) as H.
    destruct (handleFrame e cfg s (bytes_of msg)) as [[s' replies] out]. injection Hstep as <-.
    destruct H as (_ & _ & _ & _ & _ & Hstay).
    { exists ttl, encoded. split_and!; [lia|lia|by apply base64_field|done]. }
    destruct Hstay as [-> ->]; [done|]. rewrite insert_id by done. rewrite app_nil_r.
    split; [|done]. apply (flooding_drop _ _ _ _ Hfl Hw). by apply (not_unseen net a (cfg, s)).
Qed.

(** A run in which nothing is lost. *)
Definition lossless (ev : NetEvent) : Prop := match ev with Deliver _ _ => True | Lose _ => False end.

Lemma run_flooding evs net net' : Forall lossless evs -> flooding net -> netRun evs net = Some net' ->
  flooding net' /\ extends net net'.
Proof using Hx Hbytes Hdec.
  intros Hev. revert net. induction Hev as [|ev evs Hl Hev IH]; intros net Hfl Hr; simpl in Hr.
  { by injection Hr as ->. }
  destruct ev as [e i|i]; [|done]. destruct (netStep _ net) as [net1|] eqn:E; [|done].
  destruct (deliver_flooding e i net net1 Hfl E) as [Hfl1 Hk1].
  destruct (IH net1 Hfl1 Hr) as [Hfl' Hk']. split; [done|].
  destruct Hk1, Hk'. split; auto. by etrans.
Qed.

(** When the flood is over, what a reached node leads to is reached. *)
Lemma flood_over net a b : flooding net -> wire net = [] -> rtc (knows net) a b ->
  a ∉ unseen net -> b ∉ unseen net.
Proof.
  intros Hfl Hw. induction 1 as [a|a c b Hac _ IH]; [done|]. intros Ha. apply IH.
  destruct (fl_closed net Hfl a c Hac Ha) as [?|Hin]; [done|]. by rewrite Hw in Hin; apply elem_of_nil in Hin.
Qed.
End Flood.

Section Reach.
Context {Reading : Type} (reading_node : Reading -> string) (reading_time : Reading -> Z)
  (EncodeReading : Reading -> option (list Z)) (DecodeReading : list Z -> option Reading).

Lemma size_unseen x (net : Net (Reading := Reading)) : (size (unseen x net) <= size (nodes net))%nat.
Proof.
  unfold unseen. rewrite <- size_dom. apply subseteq_size, dom_filter_subseteq.
Qed.

(** The network after a broadcast into quiet. *)
Lemma broadcast_flooding net0 origin cfg s e rd payload (r : Reading) s1 out :
  let x := gossipMessageID (cfg_nodeID cfg) (reading_time rd) in
  let net1 := mkNet (<[origin := (cfg, s1)]> (nodes net0)) out in
  nodes net0 !! origin = Some (cfg, s) ->
  (forall a p, nodes net0 !! a = Some p -> wide p /\ fresh x p) ->
  EncodeReading rd = Some payload ->
  Z.of_nat (size (nodes net0)) - 1 <= cfg_gossipTTL cfg < 2 ^ 63 ->
  gossipBroadcast reading_time EncodeReading e cfg s rd = (s1, out, false) ->
  flooding reading_node x payload r origin net1 /\ extends x net0 net1 /\ origin ∉ unseen x net1.
Proof using DecodeReading.
  intros x net1 Ho Hall Henc Httl Hbc. unfold gossipBroadcast in Hbc. rewrite Henc in Hbc.
  fold x in Hbc. destruct (Hall _ _ Ho) as [Hwo Hfo]. unfold fresh in Hfo. simpl in Hfo.
  unfold shouldProcessGossip in Hbc. rewrite Hfo in Hbc. injection Hbc as Hs1 Hout.
  assert (Hs : self s1 = self s /\ peers s1 = peers s) by (by subst s1). destruct Hs as [Hself Hpeers].
  assert (Hnf : seenGossip s1 !! x <> None) by (subst s1; simpl; by rewrite lookup_insert_eq).
  rewrite Hs1 in Hout.
  assert (Hun : unseen x net1 = unseen x net0 ∖ {[origin]}) by (by apply (unseen_handled x net0 origin (cfg, s))).
  assert (Hw : wide (cfg, s1)) by (unfold wide in *; simpl in *; by rewrite Hpeers).
  assert (Hold : forall a p, nodes net1 !! a = Some p -> a = origin /\ p = (cfg, s1) \/
    a <> origin /\ wide p /\ fresh x p).
  { intros a p. simpl. destruct (decide (origin = a)) as [<-|Hne].
    - rewrite lookup_insert_eq. intros [= <-]. by left.
    - rewrite lookup_insert_ne by done. intros Hp. right. destruct (Hall a p Hp). by split_and!. }
  split_and!; [split|by apply (extends_update x net0 origin cfg s s1)|rewrite Hun; set_solver].
  - intros a p [[-> ->]|(_ & ? & _)]%Hold; done.
  - rewrite Hun, size_difference, size_singleton.
    2:{ apply singleton_subseteq_l, elem_of_unseen. by exists (cfg, s). }
    intros q Hq. simpl in Hq. rewrite <- Hout in Hq. apply list_elem_of_fmap in Hq as (? & -> & _).
    exists (cfg_gossipTTL cfg). split; [|done]. pose proof (size_unseen x net0).
    pose proof (unseen_pos x net0 origin (cfg, s) Ho Hfo). lia.
  - intros a b (p & Hp & Ht & Hb) Ha. destruct (Hold a p Hp) as [[-> ->]|(_ & _ & Hf)].
    + right. simpl. rewrite <- Hout, map_map. rewrite map_id. by apply wide_targets.
    + destruct Ha. apply elem_of_unseen. by exists p.
  - intros a p [[-> _]|(_ & _ & ?)]%Hold; done.
Qed.

(** C9: gossip reaches everyone.  Let a node broadcast a reading in a network
    where every node's fanout covers its targets, nobody has seen the message and
    the TTL is at least the number of other nodes.  When every frame has been
    delivered, in any order, every node the sender can reach through the peer
    tables has seen the message and, the sender apart, holds the reading. *)
Theorem gossip_reaches_everyone net0 origin cfg s e rd payload r s1 out evs net b :
  let x := gossipMessageID (cfg_nodeID cfg) (reading_time rd) in
  nodes net0 !! origin = Some (cfg, s) ->
  (forall a p, nodes net0 !! a = Some p -> wide p /\ fresh x p) ->
  EncodeReading rd = Some payload -> Forall is_byte payload -> DecodeReading payload = Some r ->
  Z.of_nat (size (nodes net0)) - 1 <= cfg_gossipTTL cfg < 2 ^ 63 ->
  gossipBroadcast reading_time EncodeReading e cfg s rd = (s1, out, false) ->
  Forall lossless evs ->
  netRun reading_node DecodeReading evs (mkNet (<[origin := (cfg, s1)]> (nodes net0)) out) = Some net ->
  wire net = [] -> rtc (knows net0) origin b ->
  exists p, nodes net !! b = Some p /\ ~ fresh x p /\
    (b <> origin -> readings p.2 !! reading_node r = Some r).
Proof.
  intros x Ho Hall Henc Hb Hdec Httl Hbc Hev Hrun Hw Hreach.
  pose proof (gossipMessageID_field (cfg_nodeID cfg) (reading_time rd)) as Hx. fold x in Hx.
  destruct (broadcast_flooding net0 origin cfg s e rd payload r s1 out) as (Hfl & Hex & Hor); [done..|].
  fold x in Hfl, Hor.
  destruct (run_flooding reading_node DecodeReading x Hx payload Hb r Hdec origin evs _ net Hev Hfl Hrun)
    as (Hfl' & Hex').
  assert (Hr : rtc (knows net) origin b).
  { eapply rtc_subrel; [|exact Hreach]. intros c d Hcd. by apply (ext_knows x _ _ Hex'), (ext_knows x _ _ Hex). }
  assert (Hns : b ∉ unseen x net).
  { eapply (flood_over reading_node x payload r origin net origin b); [done..|].
    intros Hin. by apply Hor, (ext_seen x _ _ Hex'). }
  assert (Hnode : is_Some (nodes net !! b)).
  { apply rtc_inv_r in Hr as [<-|(c & _ & _ & _ & _ & Hc)]; [|done].
    apply (ext_nodes x _ _ Hex'), (ext_nodes x _ _ Hex). by exists (cfg, s). }
  destruct Hnode as [p Hp]. exists p. assert (Hf : ~ fresh x p) by (by apply (not_unseen x net b p)).
  split_and!; [done|done|]. intros Hne. by apply (fl_reading _ _ _ _ _ _ Hfl' b p).
Qed.
End Reach.

(** ** A concrete network

    Three nodes in a row: [h1] knows [h2] and [h2] knows [h3]. *)

Definition chain_config : config := mkNodeConfig "n1" "h1:8000" "h1:9100" "h1:8000" "" [] "hello" 2000000000 5000000000 "" 3 3.
Definition chain_state (self : string) (known : list string) : nodeState (Reading := string) :=
  fold_left (fun s a => upsertPeer demo_app_env s (mkPeerInfo "" a 0)) known
    (mkNodeState (mkPeerInfo self self 0) ∅ ∅ ∅).
Definition chain_net : Net :=
  mkNet {["h1" := (chain_config, chain_state "h1" ["h2"]);
          "h2" := (chain_config, chain_state "h2" ["h3"]);
          "h3" := (chain_config, chain_state "h3" [])]} [].
#[local] Notation chain_id := (gossipMessageID (cfg_nodeID chain_config) (demo_time "n1")).
Definition chain_sent : nodeState * sends * bool :=
  gossipBroadcast demo_time demo_encode demo_app_env chain_config (chain_state "h1" ["h2"]) "n1".
Definition chain_start : Net := mkNet (<["h1" := (chain_config, chain_sent.1.1)]> (nodes chain_net)) chain_sent.1.2.
Definition chain_events : list NetEvent := [Deliver demo_app_env 0; Deliver demo_app_env 0].
Definition chain_end : option Net := netRun id demo_decode chain_events chain_start.

Lemma chain_knows a b cfg s : nodes chain_net !! a = Some (cfg, s) -> b <> addr (self s) ->
  is_Some (peers s !! b) -> is_Some (nodes chain_net !! b) -> knows chain_net a b.
Proof. intros Hn Hne Hp Hb. exists (cfg, s). split; [done|]. split; [|done]. split; [done|by left]. Qed.

Lemma chain_ready : forall a p, nodes chain_net !! a = Some p -> wide p /\ fresh chain_id p.
Proof.
  assert (H : map_Forall (fun _ p => Z.of_nat (size (peers p.2)) + 2 <= cfg_gossipFanout p.1 /\
    seenGossip p.2 !! chain_id = None) (nodes chain_net)).
  { apply (bool_decide_eq_true_1 _). vm_compute. reflexivity. }
  exact H.
Qed.

Lemma chain_ends : wire <$> chain_end = Some [].
Proof. vm_compute. reflexivity. Qed.

Lemma gossip_reaches_everyone_witness : exists net p, chain_end = Some net /\
  nodes net !! "h3" = Some p /\ readings p.2 !! "n1" = Some "n1".
Proof.
  pose proof chain_ends as Hw. destruct chain_end as [net|] eqn:E; [|discriminate Hw].
  injection Hw as Hw.
  destruct (gossip_reaches_everyone id demo_time demo_encode demo_decode chain_net "h1" chain_config
    (chain_state "h1" ["h2"]) demo_app_env "n1" (bytes_of "n1") "n1" chain_sent.1.1 chain_sent.1.2
    chain_events net "h3") as (p & Hp & _ & Hr).
  - vm_compute. reflexivity.
  - exact chain_ready.
  - reflexivity.
  - apply bytes_of_range.
  - vm_compute. reflexivity.
  - split; vm_compute; [discriminate|reflexivity].
  - vm_compute. reflexivity.
  - repeat constructor.
  - exact E.
  - exact Hw.
  - apply rtc_l with "h2".
    + eapply chain_knows; [vm_compute; reflexivity|vm_compute; discriminate|vm_compute; eauto..].
    + apply rtc_once. eapply chain_knows; [vm_compute; reflexivity|vm_compute; discriminate|vm_compute; eauto..].
  - exists net, p. split; [reflexivity|]. split; [exact Hp|]. apply Hr. discriminate.
Defined.

Lemma chain_start_about : all_about chain_id chain_start.
Proof.
  assert (H : wire chain_start = [("h2", formatGossip chain_id 3 (base64_EncodeToString (bytes_of "n1")))]).
  { vm_compute. reflexivity. }
  intros q Hq. rewrite H in Hq. apply list_elem_of_singleton in Hq as ->.
  exists 3, (base64_EncodeToString (bytes_of "n1")). split; [lia|]. split; [|reflexivity].
  apply base64_field, bytes_of_range.
Qed.

Lemma gossip_dies_out_witness : exists net, chain_end = Some net /\
  2 + Z.of_nat (length (wire net)) <= 1 + 3 * 2.
Proof.
  pose proof chain_ends as Hw. destruct chain_end as [net|] eqn:E; [|discriminate Hw].
  exists net. split; [reflexivity|].
  assert (Hu : size (unseen chain_id chain_start) = 2%nat) by (vm_compute; reflexivity).
  pose proof (gossip_dies_out id demo_decode chain_id (gossipMessageID_field _ _) 3 chain_events
    chain_start net) as H. rewrite Hu in H.
  assert (Hl : Z.of_nat (length (wire chain_start)) = 1) by (vm_compute; reflexivity).
  rewrite Hl in H. apply H.
  - lia.
  - exact chain_start_about.
  - assert (HF : map_Forall (fun _ p => cfg_gossipFanout p.1 <= 3) (nodes chain_start)).
    { apply (bool_decide_eq_true_1 _). vm_compute. reflexivity. }
    exact HF.
  - exact E.
Defined.
