(* ===== verification/Sensor.v ===== *)
(** * Sensor readings (src/pkg/sensor)

    Readings, their generation and geographic aggregation.  The trigonometric
    functions of [math] and the generators of [math/rand] are parameters, with
    their documented ranges and special cases as laws. *)

From Stdlib Require Import Ascii String.
From stdpp Require Import base strings list sets.
From S2P Require Import Prelude GoBytes Sha256 DhtId GoFloat GoTime.

#[local] Open Scope Z_scope.
#[local] Open Scope go_scope.

(** ** Data (sensor.go) *)

Record Location : Type := mkLocation { Latitude : float64; Longitude : float64 }.

Record Reading : Type := mkReading {
  NodeID : string; TemperatureC : float64; Loc : Location; Timestamp : Time }.

#[export] Instance Location_eq_dec : EqDecision Location.
Proof. solve_decision. Defined.
#[export] Instance Reading_eq_dec : EqDecision Reading.
Proof. solve_decision. Defined.

Definition minTempC : float64 := f_of_int (-10).
Definition maxTempC : float64 := f_of_int 45.

(** ** What is used of the standard library *)

(** [math/rand]: a generator and its draws. *)
Class Rand (R : Type) := {
  rand_New : Z -> R;
  Float64 : R -> float64 * R;
  NormFloat64 : R -> float64 * R;
  (* a number in [0.0,1.0), a number in [-math.MaxFloat64, +math.MaxFloat64] *)
  Float64_range r : within 0 unit (Float64 r).1;
  NormFloat64_finite r : exists k, (NormFloat64 r).1 = Fin k }.

(** [math]: values at zero, and the range of the cosine. *)
Class Trig := {
  Sin : float64 -> float64; Cos : float64 -> float64; Asin : float64 -> float64;
  Sin_0 : Sin (Fin 0) = Fin 0;
  Asin_0 : Asin (Fin 0) = Fin 0;
  Cos_range k : within (- unit) unit (Cos (Fin k)) }.

(** ** Scaling and clamping *)

Definition clamp (value min max : float64) : float64 :=
  if f_lt value min then min else if f_lt max value then max else value.

(** [math.MaxUint64] *)
Definition MaxUint64 : Z := 2 ^ 64 - 1.

Definition scaleUint64 (value : Z) (min max : float64) : float64 :=
  if f_le max min then min
  else
    let fraction := f_div (f_of_int value) (f_of_int MaxUint64) in
    f_add min (f_mul fraction (f_sub max min)).

Definition seedFromString (value : string) : Z :=
  i64 (be_value (take 8 (Sum256 (bytes_of value)))).

Definition LocationFromSeed (seed : string) : Location :=
  let hash := Sum256 (bytes_of seed) in
  let latBits := be_value (take 8 hash) in
  let lonBits := be_value (take 8 (drop 8 hash)) in
  let lat := scaleUint64 latBits (f_of_int (-90)) (f_of_int 90) in
  let lon := scaleUint64 lonBits (f_of_int (-180)) (f_of_int 180) in
  mkLocation lat lon.

(** ** Generation *)

Section Generator.
Context {R : Type} `{Rand R}.

Record Generator : Type := mkGenerator {
  g_nodeID : string; g_location : Location; g_rng : R; baseTemp : float64; jitter : float64 }.

Definition NewGenerator (nodeID : string) (location : Location) : Generator :=
  let seed := seedFromString nodeID in
  let rng := rand_New seed in
  let '(f, rng) := Float64 rng in
  let base := f_add (f_of_int 18) (f_mul f (f_of_int 10)) in
  mkGenerator nodeID location rng base (f_const 8 10).

(** [now] is what [time.Now] gives, in nanoseconds since 1970. *)
Definition Next (now : Z) (g : Generator) : Reading * Generator :=
  let '(n, rng) := NormFloat64 (g_rng g) in
  let noise := f_mul n (jitter g) in
  let value := clamp (f_add (baseTemp g) noise) minTempC maxTempC in
  (mkReading (g_nodeID g) value (g_location g) (UTC now),
   mkGenerator (g_nodeID g) (g_location g) rng (baseTemp g) (jitter g)).

(** The readings of a generator at the given times. *)
Fixpoint generate (nows : list Z) (g : Generator) : list Reading * Generator :=
  match nows with
  | [] => ([], g)
  | now :: nows =>
      let '(r, g) := Next now g in
      let '(rs, g) := generate nows g in (r :: rs, g)
  end.
End Generator.

(** ** Geography (geo.go) *)

Section Geo.
Context `{Trig}.

Definition earthRadiusKm : Z := 6371.

(** [math.Pi], to the digits of its declaration. *)
Definition Pi : float64 :=
  f_const 314159265358979323846264338327950288419716939937510582097494459 (10 ^ 62).

Definition degreesToRadians (deg : float64) : float64 := f_div (f_mul deg Pi) (f_of_int 180).

Definition DistanceKm (a b : Location) : float64 :=
  let lat1 := degreesToRadians (Latitude a) in
  let lat2 := degreesToRadians (Latitude b) in
  let deltaLat := degreesToRadians (f_sub (Latitude b) (Latitude a)) in
  let deltaLon := degreesToRadians (f_sub (Longitude b) (Longitude a)) in
  let sinLat := Sin (f_div deltaLat (f_of_int 2)) in
  let sinLon := Sin (f_div deltaLon (f_of_int 2)) in
  let h := f_add (f_mul sinLat sinLat)
             (f_mul (f_mul (f_mul (Cos lat1) (Cos lat2)) sinLon) sinLon) in
  f_mul (f_of_int (2 * earthRadiusKm)) (Asin (f_sqrt h)).

(** A nil slice and an empty one are the same list. *)
Definition FilterByRadius (readings : list Reading) (center : Location) (radiusKm : float64)
  : list Reading :=
  if f_le radiusKm (Fin 0) then []
  else filter (fun r => f_le (DistanceKm center (Loc r)) radiusKm = true) readings.

(** ** Aggregation (aggregate.go) *)

Inductive AggregateError : Type := ErrNoReadings | ErrNoReadingsInRadius.

Definition AverageTemperature (readings : list Reading) : AggregateError + float64 :=
  if bool_decide (readings = []) then inl ErrNoReadings
  else
    let sum := fold_left (fun sum r => f_add sum (TemperatureC r)) readings (Fin 0) in
    inr (f_div sum (f_of_int (Z.of_nat (length readings)))).

Definition AverageTemperatureInRadius (readings : list Reading) (center : Location) (radiusKm : float64)
  : AggregateError + float64 * Z :=
  let matched := FilterByRadius readings center radiusKm in
  if bool_decide (matched = []) then inl ErrNoReadingsInRadius
  else
    match AverageTemperature matched with
    | inl err => inl err
    | inr avg => inr (avg, Z.of_nat (length matched))
    end.
End Geo.

Example scale_ends : scaleUint64 0 (f_of_int (-90)) (f_of_int 90) = f_of_int (-90) /\
  scaleUint64 MaxUint64 (f_of_int (-90)) (f_of_int 90) = f_of_int 90.
Proof. vm_compute. split; reflexivity. Qed.

(** ** Ranges *)

Lemma unit_pos : 0 < unit.
Proof. by apply pow2_pos. Qed.

(** Close goals about concrete bounds. *)
Ltac by_bound := apply (bool_decide_eq_true_1 _); vm_compute; reflexivity.

Lemma within_clamp v lo hi : v <> NaN -> lo <= hi -> within lo hi (clamp v (Fin lo) (Fin hi)).
Proof.
  intros Hv Hle. unfold clamp. destruct (f_lt v (Fin lo)) eqn:E1.
  { exists lo. split; [done|lia]. }
  destruct (f_lt (Fin hi) v) eqn:E2; [exists hi; split; [done|lia]|].
  apply f_le_within; by apply f_lt_le.
Qed.

Lemma within_scaleUint64 value a b : 0 <= value < 2 ^ 64 -> a < b -> bound a -> bound b ->
  bound (b - a) -> within a b (scaleUint64 value (Fin a) (Fin b)).
Proof.
  intros Hv Hab Ha Hb Hd. pose proof unit_pos as Hu. unfold scaleUint64.
  assert (Hle : f_le (Fin b) (Fin a) = false) by (by apply Z.leb_gt). rewrite Hle.
  assert (Hfrac : within 0 unit (f_div (f_of_int value) (f_of_int MaxUint64))).
  { replace (f_of_int MaxUint64) with (Fin (2 ^ 64 * unit)) by (vm_compute; reflexivity).
    apply within_div; [|lia|by_bound|by_bound].
    apply within_round; [lia|by_bound|by_bound|]. nia. }
  assert (Hsub : f_sub (Fin b) (Fin a) = Fin (b - a)) by (by apply round_bound). rewrite Hsub.
  assert (Hs : within 0 (b - a) (f_mul (f_div (f_of_int value) (f_of_int MaxUint64)) (Fin (b - a)))).
  { apply within_scale; [done| |done]. exists (b - a). split; [done|lia]. }
  apply (within_weaken (a + 0) (a + (b - a))); [|lia..].
  apply within_add; [apply within_fin|done|by rewrite Z.add_0_r|]. by replace (a + (b - a)) with b by lia.
Qed.

(** Well-formed readings: a temperature the generator can produce, a place on
    earth. *)
Definition degrees (k : Z) : Z := k * unit.
Definition wf_location (l : Location) : Prop :=
  within (degrees (-90)) (degrees 90) (Latitude l) /\ within (degrees (-180)) (degrees 180) (Longitude l).
Definition wf_temperature (t : float64) : Prop := within (degrees (-10)) (degrees 45) t.
Definition wf_reading (r : Reading) : Prop := wf_temperature (TemperatureC r) /\ wf_location (Loc r).

Lemma LocationFromSeed_wf seed : wf_location (LocationFromSeed seed).
Proof.
  destruct (Sum256_spec (bytes_of seed)) as [Hl Hb].
  assert (H : forall l, Forall is_byte l -> 0 <= be_value (take 8 l) < 2 ^ 64).
  { intros l Hl'. pose proof (be_value_range (take 8 l) (Forall_take _ 8 l Hl')) as H.
    change (2 ^ 64) with (256 ^ 8). split; [lia|]. eapply Z.lt_le_trans; [apply H|].
    apply Z.pow_le_mono_r; [lia|]. rewrite length_take. lia. }
  unfold LocationFromSeed, wf_location. cbv zeta. cbn [Latitude Longitude].
  replace (f_of_int (-90)) with (Fin (degrees (-90))) by (vm_compute; reflexivity).
  replace (f_of_int 90) with (Fin (degrees 90)) by (vm_compute; reflexivity).
  replace (f_of_int (-180)) with (Fin (degrees (-180))) by (vm_compute; reflexivity).
  replace (f_of_int 180) with (Fin (degrees 180)) by (vm_compute; reflexivity).
  split; (apply within_scaleUint64; [|done|by_bound|by_bound|by_bound]); apply H; [done|by apply Forall_drop].
Qed.

(** ** Generated readings *)

Section GeneratorFacts.
Context {R : Type} `{Rand R}.

(** What the code relies on in a generator: finite parameters. *)
Definition wf_generator (g : Generator (R := R)) : Prop :=
  (exists b, baseTemp g = Fin b) /\ exists j, jitter g = Fin j.

Lemma NewGenerator_wf nodeID location :
  let g := NewGenerator nodeID location in
  wf_generator g /\ g_nodeID g = nodeID /\ g_location g = location /\
  within (degrees 18) (degrees 28) (baseTemp g).
Proof.
  unfold NewGenerator. pose proof (Float64_range (rand_New (seedFromString nodeID))) as Hf.
  destruct (Float64 _) as [f rng]. cbn [fst] in Hf. cbv zeta.
  assert (Hb : within (degrees 18) (degrees 28) (f_add (f_of_int 18) (f_mul f (f_of_int 10)))).
  { replace (f_of_int 18) with (Fin (degrees 18)) by (vm_compute; reflexivity).
    replace (f_of_int 10) with (Fin (degrees 10)) by (vm_compute; reflexivity).
    apply (within_weaken (degrees 18 + 0) (degrees 18 + degrees 10)); [|unfold degrees; lia..].
    apply within_add; [apply within_fin| |by_bound|by_bound].
    apply within_scale; [done| |by_bound]. exists (degrees 10). pose proof unit_pos. unfold degrees. split; [done|lia]. }
  split_and!; try done. split; cbn [baseTemp jitter].
  - destruct Hb as (k & -> & _). by eexists.
  - exists (round_Z (8 * unit) 10). vm_compute. reflexivity.
Qed.

Lemma Next_wf now g : wf_generator g ->
  let '(r, g') := Next now g in
  wf_generator g' /\ g_nodeID g' = g_nodeID g /\ g_location g' = g_location g /\
  NodeID r = g_nodeID g /\ Loc r = g_location g /\ Timestamp r = UTC now /\ wf_temperature (TemperatureC r).
Proof.
  intros [[b Hb] [j Hj]]. unfold Next. destruct (NormFloat64_finite (g_rng g)) as [k Hk].
  destruct (NormFloat64 (g_rng g)) as [n rng]. cbn [fst] in Hk. subst n.
  split_and!; try done; [split; by eexists|]. unfold wf_temperature. cbn [TemperatureC].
  replace minTempC with (Fin (degrees (-10))) by (vm_compute; reflexivity).
  replace maxTempC with (Fin (degrees 45)) by (vm_compute; reflexivity).
  apply within_clamp; [|pose proof unit_pos; unfold degrees; lia].
  rewrite Hb, Hj. apply add_not_nan, finite_round.
Qed.

Lemma generate_wf nows g : wf_generator g ->
  Forall (fun r => NodeID r = g_nodeID g /\ Loc r = g_location g /\ wf_temperature (TemperatureC r))
    (generate nows g).1 /\ map Timestamp (generate nows g).1 = map UTC nows.
Proof.
  revert g. induction nows as [|now nows IH]; intros g Hg; [done|]. simpl.
  pose proof (Next_wf now g Hg) as Hn. destruct (Next now g) as [r g'].
  destruct Hn as (Hg' & Hid & Hl & H1 & H2 & H3 & H4). specialize (IH g' Hg').
  destruct (generate nows g') as [rs g'']. destruct IH as [IH Ht]. simpl in *. split.
  - constructor; [done|]. by rewrite Hid, Hl in IH.
  - by rewrite H3, Ht.
Qed.

(** C23: every generated reading is well-formed.  Whatever the random numbers, a
    generator with a derived location produces, one per tick, readings of its
    node with a temperature between -10 and 45 degrees and a location on earth. *)
Theorem generator_readings_wf nodeID seed nows :
  let rs := (generate nows (NewGenerator nodeID (LocationFromSeed seed))).1 in
  Forall (fun r => NodeID r = nodeID /\ wf_reading r) rs /\ map Timestamp rs = map UTC nows.
Proof.
  destruct (NewGenerator_wf nodeID (LocationFromSeed seed)) as (Hg & Hid & Hl & _).
  destruct (generate_wf nows _ Hg) as [Hr Ht]. split; [|done]. eapply Forall_impl; [exact Hr|].
  intros r (H1 & H2 & H3). rewrite Hid in H1. rewrite Hl in H2. split; [done|]. split; [done|].
  rewrite H2. apply LocationFromSeed_wf.
Qed.
End GeneratorFacts.

(** ** Averages *)

Lemma bound_degrees z : Z.abs z <= 2 ^ 53 -> bound (degrees z).
Proof.
  intros Hz. pose proof (f_of_int_exact z Hz) as E. split; [by apply exact_intro|].
  unfold f_of_int, f_const, round in E. destruct (Z.leb_spec overflow (Z.abs (round_Z (z * unit) 1))); [done|].
  injection E as E. by rewrite E in *.
Qed.

Lemma sum_within lo hi rs j s :
  Forall (fun r => within (degrees lo) (degrees hi) (TemperatureC r)) rs ->
  Z.abs lo * (j + Z.of_nat (length rs)) <= 2 ^ 53 -> Z.abs hi * (j + Z.of_nat (length rs)) <= 2 ^ 53 -> 0 <= j ->
  within (degrees (lo * j)) (degrees (hi * j)) s ->
  within (degrees (lo * (j + Z.of_nat (length rs)))) (degrees (hi * (j + Z.of_nat (length rs))))
    (fold_left (fun sum r => f_add sum (TemperatureC r)) rs s).
Proof.
  intros Hrs. revert j s. induction Hrs as [|r rs Hr Hrs IH]; intros j s Hlo Hhi Hj Hs.
  { simpl. by rewrite Z.add_0_r. }
  simpl length in *. rewrite Nat2Z.inj_succ in *. simpl.
  replace (j + Z.succ (Z.of_nat (length rs))) with ((j + 1) + Z.of_nat (length rs)) in * by lia.
  apply IH; [done|done|lia|].
  replace (degrees (lo * (j + 1))) with (degrees (lo * j) + degrees lo) by (unfold degrees; lia).
  replace (degrees (hi * (j + 1))) with (degrees (hi * j) + degrees hi) by (unfold degrees; lia).
  apply within_add; [done|done|..].
  - replace (degrees (lo * j) + degrees lo) with (degrees (lo * (j + 1))) by (unfold degrees; lia).
    apply bound_degrees. nia.
  - replace (degrees (hi * j) + degrees hi) with (degrees (hi * (j + 1))) by (unfold degrees; lia).
    apply bound_degrees. nia.
Qed.

Lemma average_within rs avg : Forall (fun r => wf_temperature (TemperatureC r)) rs ->
  Z.of_nat (length rs) < 2 ^ 47 -> AverageTemperature rs = inr avg -> wf_temperature avg.
Proof.
  intros Hrs Hn. unfold AverageTemperature. case_bool_decide as Hne; [done|]. intros [= <-].
  assert (Hpos : 0 < Z.of_nat (length rs)) by (destruct rs; [done|simpl; lia]).
  pose proof (sum_within (-10) 45 rs 0 (Fin 0) Hrs) as H. rewrite Z.add_0_l in H.
  rewrite f_of_int_exact by lia. unfold wf_temperature.
  apply within_div; [|done|apply bound_degrees; lia|apply bound_degrees; lia].
  replace (degrees (-10) * Z.of_nat (length rs)) with (degrees (-10 * Z.of_nat (length rs))) by (unfold degrees; lia).
  replace (degrees 45 * Z.of_nat (length rs)) with (degrees (45 * Z.of_nat (length rs))) by (unfold degrees; lia).
  apply H; [lia|lia|lia|]. exists 0. split; [done|]. unfold degrees. lia.
Qed.

(** ** Region queries *)

Section RegionFacts.
Context `{Trig}.

Lemma zero_angle k : degreesToRadians (f_sub (Fin k) (Fin k)) = Fin 0.
Proof.
  unfold f_sub, f_neg, f_add. rewrite Z.add_opp_diag_r. vm_compute. reflexivity.
Qed.

Lemma finite_radians lo hi x : within lo hi x -> Z.abs lo <= degrees 180 -> Z.abs hi <= degrees 180 ->
  exists k, degreesToRadians x = Fin k.
Proof.
  intros (k & -> & Hk) Hlo Hhi. unfold degreesToRadians.
  assert (HP : exists p, Pi = Fin p /\ 0 < p <= degrees 4).
  { exists (round_Z (314159265358979323846264338327950288419716939937510582097494459 * unit) (10 ^ 62)).
    split; [vm_compute; reflexivity|]. split; by vm_compute. }
  destruct HP as (p & -> & Hp).
  assert (Hm : within (degrees (-720)) (degrees 720) (f_mul (Fin k) (Fin p))).
  { simpl. apply within_round; [apply unit_pos|apply bound_degrees; lia|apply bound_degrees; lia|].
    unfold degrees in *. pose proof unit_pos. nia. }
  assert (Hd : within (degrees (-4)) (degrees 4) (f_div (f_mul (Fin k) (Fin p)) (f_of_int 180))).
  { rewrite f_of_int_exact by lia. apply within_div; [|lia|apply bound_degrees; lia|apply bound_degrees; lia].
    by replace (degrees (-4) * 180) with (degrees (-720)) by (unfold degrees; lia);
       replace (degrees 4 * 180) with (degrees 720) by (unfold degrees; lia). }
  destruct Hd as (q & -> & _). by eexists.
Qed.

(** A place is at distance zero of itself. *)
Lemma DistanceKm_self l : wf_location l -> DistanceKm l l = Fin 0.
Proof.
  intros [Hlat Hlon]. unfold DistanceKm.
  destruct (finite_radians _ _ _ Hlat) as [rl Hrl]; [unfold degrees; pose proof unit_pos; lia..|].
  rewrite Hrl. destruct Hlat as (a & Ha & _), Hlon as (o & Ho & _). rewrite Ha, Ho, !zero_angle.
  replace (f_div (Fin 0) (f_of_int 2)) with (Fin 0) by (vm_compute; reflexivity). rewrite Sin_0.
  destruct (Cos_range rl) as (c & -> & Hc).
  assert (Hcc : within (- unit) unit (f_mul (Fin c) (Fin c))).
  { simpl. apply within_round; [apply unit_pos|by_bound|by_bound|]. pose proof unit_pos. nia. }
  destruct Hcc as (d & -> & _).
  assert (Hz : f_mul (Fin d) (Fin 0) = Fin 0) by (simpl; rewrite Z.mul_0_r; vm_compute; reflexivity).
  rewrite Hz. replace (f_sqrt (f_add (f_mul (Fin 0) (Fin 0)) (f_mul (Fin 0) (Fin 0)))) with (Fin 0)
    by (vm_compute; reflexivity).
  rewrite Asin_0. vm_compute. reflexivity.
Qed.

Lemma FilterByRadius_spec rs c radius r :
  r ∈ FilterByRadius rs c radius <->
    f_le radius (Fin 0) = false /\ r ∈ rs /\ f_le (DistanceKm c (Loc r)) radius = true.
Proof.
  unfold FilterByRadius. destruct (f_le radius (Fin 0)).
  - split; [by intros ?%elem_of_nil|]. by intros [? _].
  - rewrite list_elem_of_filter. split; [intros [H1 H2]|intros (_ & H1 & H2)].
    + exact (conj eq_refl (conj H2 H1)).
    + exact (conj H2 H1).
Qed.

Lemma FilterByRadius_sublist rs c radius : FilterByRadius rs c radius `sublist_of` rs.
Proof. unfold FilterByRadius. destruct (f_le radius (Fin 0)); [apply sublist_nil_l|apply sublist_filter]. Qed.

(** What a query computes: the readings it selects and their average. *)
Lemma AverageTemperatureInRadius_spec rs center radius :
  Forall wf_reading rs -> Z.of_nat (length rs) < 2 ^ 47 ->
  let matched := FilterByRadius rs center radius in
  match AverageTemperatureInRadius rs center radius with
  | inl err => err = ErrNoReadingsInRadius /\ matched = [] /\
      forall r, r ∈ rs -> f_lt (Fin 0) radius = true -> Loc r <> center
  | inr (avg, n) => n = Z.of_nat (length matched) /\ 0 < n /\ wf_temperature avg
  end.
Proof.
  intros Hrs Hn. unfold AverageTemperatureInRadius.
  case_bool_decide as Hm.
  { split_and!; try done. intros r Hr Hpos Hc. assert (Hin : r ∈ FilterByRadius rs center radius).
    { apply FilterByRadius_spec. rewrite Forall_forall in Hrs. destruct (Hrs r Hr) as [_ Hl].
      subst center. rewrite DistanceKm_self by done.
      destruct radius as [|[]|k]; try done. simpl in *. apply Z.ltb_lt in Hpos. split_and!; [|done|].
      - apply Z.leb_gt. lia.
      - apply Z.leb_le. lia. }
    rewrite Hm in Hin. by apply elem_of_nil in Hin. }
  pose proof (FilterByRadius_sublist rs center radius) as Hsub.
  destruct (AverageTemperature _) as [err|avg] eqn:E.
  { unfold AverageTemperature in E. by rewrite bool_decide_eq_false_2 in E. }
  split_and!; [done| |].
  - destruct (FilterByRadius rs center radius); [done|simpl; lia].
  - eapply average_within; [|eapply Z.le_lt_trans; [|exact Hn]|exact E].
    + apply Forall_forall. intros r (_ & Hr & _)%FilterByRadius_spec. rewrite Forall_forall in Hrs. exact (proj1 (Hrs r Hr)).
    + apply Nat2Z.inj_le. by apply sublist_length.
Qed.

(** region queries.  Over well-formed readings a query selects exactly the
    readings within a positive radius, in order.  It either reports that there is
    none, or their number and an average that no rounding moves out of the range
    from -10 to 45 degrees.  A positive radius around a sensor always finds it. *)
Theorem region_query rs center radius : Forall wf_reading rs -> Z.of_nat (length rs) < 2 ^ 47 ->
  let matched := FilterByRadius rs center radius in
  matched `sublist_of` rs /\
  (forall r, r ∈ matched <->
     f_le radius (Fin 0) = false /\ r ∈ rs /\ f_le (DistanceKm center (Loc r)) radius = true) /\
  match AverageTemperatureInRadius rs center radius with
  | inl err => err = ErrNoReadingsInRadius /\ matched = [] /\
      forall r, r ∈ rs -> f_lt (Fin 0) radius = true -> Loc r <> center
  | inr (avg, n) => n = Z.of_nat (length matched) /\ 0 < n /\ wf_temperature avg
  end.
Proof.
  intros Hrs Hn. split; [apply FilterByRadius_sublist|]. split; [apply FilterByRadius_spec|].
  exact (AverageTemperatureInRadius_spec rs center radius Hrs Hn).
Qed.
End RegionFacts.

(** ** A concrete query *)

#[local] Instance flat_trig : Trig.
Proof.
  refine {| Sin _ := Fin 0; Cos _ := Fin 0; Asin _ := Fin 0 |}; [reflexivity..|].
  intros k. exists 0. split; [reflexivity|]. pose proof unit_pos. lia.
Defined.

#[local] Instance still_rand : Rand nat.
Proof.
  refine {| rand_New _ := 0%nat; Float64 r := (Fin 0, r); NormFloat64 r := (Fin 0, r) |}.
  - intros r. exists 0. split; [reflexivity|]. pose proof unit_pos. lia.
  - intros r. by exists 0.
Defined.

Definition demo_place : Location := mkLocation (f_of_int 48) (f_of_int 16).
Definition demo_readings : list Reading := (generate [1; 2] (NewGenerator "n1" demo_place)).1.

Lemma demo_readings_wf : Forall wf_reading demo_readings.
Proof.
  destruct (NewGenerator_wf "n1" demo_place) as (Hg & Hid & Hl & _).
  destruct (generate_wf [1; 2] _ Hg) as [Hr _]. eapply Forall_impl; [exact Hr|].
  intros r (_ & H2 & H3). split; [exact H3|]. rewrite H2, Hl.
  assert (Hk : forall z lo hi, Z.abs z <= 2 ^ 53 -> lo <= z <= hi -> within (degrees lo) (degrees hi) (f_of_int z)).
  { intros z lo hi Hz Hb. rewrite f_of_int_exact by done. exists (z * unit). split; [reflexivity|].
    unfold degrees. pose proof unit_pos. nia. }
  split; apply Hk; lia.
Qed.

Lemma region_query_witness :
  exists avg, AverageTemperatureInRadius demo_readings demo_place (f_of_int 10) = inr (avg, 2) /\
    wf_temperature avg.
Proof.
  destruct (region_query demo_readings demo_place (f_of_int 10) demo_readings_wf) as (_ & _ & H); [vm_compute; reflexivity|].
  assert (E : match AverageTemperatureInRadius demo_readings demo_place (f_of_int 10) with
    inr (_, n) => n =? 2 | inl _ => false end = true) by (vm_compute; reflexivity).
  destruct (AverageTemperatureInRadius demo_readings demo_place (f_of_int 10)) as [err|[avg n]]; [discriminate E|].
  apply Z.eqb_eq in E. subst n. exists avg. split; [reflexivity|].
  apply H.
Defined.
