(* ===== verification/SensorCodec.v ===== *)
(** * Readings as JSON (src/pkg/sensor/codec.go)

    [EncodeReading] and [DecodeReading] with the JSON of the standard library: the
    struct has no tags, so its members carry the names of the fields.  Every generated
    reading survives encoding and decoding. *)

From Stdlib Require Import Ascii String.
From stdpp Require Import base strings list.
From S2P Require Import Prelude GoBytes Sha256 GoText GoFloat GoUtf8.
From S2P Require Import GoJson GoTime GoFormat Sensor.

#[local] Open Scope Z_scope.
#[local] Open Scope go_scope.

(** The zero values of the structs. *)
Definition zeroLocation : Location := mkLocation (Fin 0) (Fin 0).
Definition zeroReading : Reading := mkReading "" (Fin 0) zeroLocation zeroTime.

(** ** Encoding *)

Definition encode_location (l : Location) : option json :=
  lat ← encode_float (Latitude l); lon ← encode_float (Longitude l);
  Some (encode_struct [("Latitude", lat); ("Longitude", lon)]).

Definition encode_reading (r : Reading) : option json :=
  temp ← encode_float (TemperatureC r); loc ← encode_location (Loc r); time ← encode_time (Timestamp r);
  Some (encode_struct [("NodeID", encode_string (NodeID r)); ("TemperatureC", temp); ("Location", loc); ("Timestamp", time)]).

(** [json.Marshal(reading)]. *)
Definition EncodeReading (reading : Reading) : option (list Z) := print_json <$> encode_reading reading.

(** ** Decoding *)

Definition set_location (name : string) (v : json) (l : Location) : option Location :=
  if name =?s "Latitude" then x ← decode_float v (Latitude l); Some (mkLocation x (Longitude l))
  else x ← decode_float v (Longitude l); Some (mkLocation (Latitude l) x).

Definition decode_location : json -> Location -> option Location := decode_struct ["Latitude"; "Longitude"] set_location.

Definition set_reading (name : string) (v : json) (r : Reading) : option Reading :=
  if name =?s "NodeID" then x ← decode_string v (NodeID r); Some (mkReading x (TemperatureC r) (Loc r) (Timestamp r))
  else if name =?s "TemperatureC" then x ← decode_float v (TemperatureC r); Some (mkReading (NodeID r) x (Loc r) (Timestamp r))
  else if name =?s "Location" then x ← decode_location v (Loc r); Some (mkReading (NodeID r) (TemperatureC r) x (Timestamp r))
  else x ← decode_time v (Timestamp r); Some (mkReading (NodeID r) (TemperatureC r) (Loc r) x).

Definition decode_reading : json -> Reading -> option Reading :=
  decode_struct ["NodeID"; "TemperatureC"; "Location"; "Timestamp"] set_reading.

(** [json.Unmarshal(payload, &reading)]; every caller drops the reading that comes
    with an error. *)
Definition DecodeReading (payload : list Z) : option Reading := v ← parse_json payload; decode_reading v zeroReading.

(** ** Round trip *)

(** Numbers JSON can carry. *)
Definition json_float (x : float64) : Prop := exists k, x = Fin k /\ bound k.

(** Readings that can be written: finite numbers, a year of four digits. *)
Definition encodable (r : Reading) : Prop :=
  json_float (TemperatureC r) /\ json_float (Latitude (Loc r)) /\ json_float (Longitude (Loc r)) /\
  offset_ok (t_offset (Timestamp r)) /\ is_Some (formatRFC3339 (Timestamp r)).

(** What arrives: the node's name with ill-formed bytes replaced. *)
Definition received (r : Reading) : Reading :=
  mkReading (string_of (coerce (bytes_of (NodeID r)))) (TemperatureC r) (Loc r) (Timestamp r).

Lemma encode_float_ok x y : json_float x -> exists v, encode_float x = Some v /\ decode_float v y = Some x /\
  printable v = true /\ nesting v = 0%nat.
Proof. intros (k & -> & Hb). by apply decode_encode_float. Qed.

(** The key of a member that is a field name. *)
Lemma plain_name n : Forall plain_char (bytes_of n) -> unquote (bytes_of n) = Some n.
Proof.
  intros Hn. unfold unquote. assert (H : unquote_from 0 (bytes_of n) = Some (bytes_of n)); [|rewrite H; simpl; by rewrite string_bytes].
  induction Hn as [|c l (Hc & H1 & H2) _ IH]; [done|]. cbn [unquote_from unquote_item].
  rewrite (proj2 (Z.eqb_neq c 92)), (proj2 (Z.eqb_neq c 34)), (proj2 (Z.ltb_ge c 32)), (proj2 (Z.ltb_lt c 128)) by lia.
  cbn [orb mbind option_bind pred]. by rewrite IH.
Qed.

#[export] Instance plain_char_dec c : Decision (plain_char c).
Proof. unfold plain_char. apply _. Defined.

(** Decode the next member of a printed struct. *)
Ltac next_member :=
  rewrite decode_member by
    (first [apply plain_name, (bool_decide_eq_true_1 _); vm_compute; reflexivity | by repeat constructor]).

Lemma encode_location_ok l l' : json_float (Latitude l) -> json_float (Longitude l) ->
  exists v, encode_location l = Some v /\ decode_location v l' = Some l /\ printable v = true /\ nesting v = 1%nat.
Proof.
  intros H1 H2. destruct (encode_float_ok _ (Latitude l') H1) as (v1 & E1 & D1 & P1 & N1).
  destruct (encode_float_ok _ (Longitude l') H2) as (v2 & E2 & D2 & P2 & N2). unfold encode_location. rewrite E1, E2.
  eexists. split; [reflexivity|]. split; [|split].
  - unfold decode_location, decode_struct, encode_struct. cbn [map]. next_member.
    change (set_location "Latitude" v1 l') with (x ← decode_float v1 (Latitude l'); Some (mkLocation x (Longitude l'))).
    rewrite D1. cbn [mbind option_bind]. next_member. set (a := mkLocation _ _).
    change (set_location "Longitude" v2 a) with (x ← decode_float v2 (Longitude a); Some (mkLocation (Latitude a) x)).
    cbn [Longitude Latitude a]. rewrite D2. by destruct l.
  - cbn [printable encode_struct map forallb]. by rewrite P1, P2.
  - cbn [nesting encode_struct map maximum foldr]. by rewrite N1, N2.
Qed.

(** Setting the fields of a reading. *)
Lemma set_reading_fields v n t l ts :
  set_reading "NodeID" v (mkReading n t l ts) = (x ← decode_string v n; Some (mkReading x t l ts)) /\
  set_reading "TemperatureC" v (mkReading n t l ts) = (x ← decode_float v t; Some (mkReading n x l ts)) /\
  set_reading "Location" v (mkReading n t l ts) = (x ← decode_location v l; Some (mkReading n t x ts)) /\
  set_reading "Timestamp" v (mkReading n t l ts) = (x ← decode_time v ts; Some (mkReading n t l x)).
Proof. done. Qed.

Lemma encode_reading_ok r : encodable r ->
  exists v, encode_reading r = Some v /\ decode_reading v zeroReading = Some (received r) /\ printable v = true /\ nesting v = 2%nat.
Proof.
  intros (Ht & Hla & Hlo & Ho & [text Htext]).
  destruct (encode_float_ok _ (Fin 0) Ht) as (v1 & E1 & D1 & P1 & N1).
  destruct (encode_location_ok (Loc r) zeroLocation Hla Hlo) as (v2 & E2 & D2 & P2 & N2).
  assert (E3 : encode_time (Timestamp r) = Some (JStr text)) by (unfold encode_time; by rewrite Htext).
  destruct (decode_encode_time (Timestamp r) zeroTime _ Ho E3) as (D3 & P3 & _).
  unfold encode_reading. rewrite E1, E2, E3. eexists. split; [reflexivity|]. split; [|split].
  - unfold decode_reading, decode_struct, encode_struct, zeroReading. cbn [map].
    next_member. rewrite (proj1 (set_reading_fields _ _ _ _ _)). unfold encode_string, decode_string. rewrite unquote_quote.
    cbn [mbind option_bind]. next_member. rewrite (proj1 (proj2 (set_reading_fields _ _ _ _ _))), D1. cbn [mbind option_bind].
    next_member. rewrite (proj1 (proj2 (proj2 (set_reading_fields _ _ _ _ _)))), D2. cbn [mbind option_bind].
    next_member. by rewrite (proj2 (proj2 (proj2 (set_reading_fields _ _ _ _ _)))), D3.
  - cbn [printable encode_struct map forallb encode_string] in *. by rewrite quote_ok, P1, P2, P3.
  - cbn [nesting encode_struct map maximum foldr encode_string]. by rewrite N1, N2.
Qed.

(** An encodable reading is written as bytes, and read back. *)
Lemma reading_roundtrip r : encodable r -> exists payload, EncodeReading r = Some payload /\ Forall is_byte payload /\
  DecodeReading payload = Some (received r).
Proof.
  intros Hr. destruct (encode_reading_ok r Hr) as (v & E & D & P & N). unfold EncodeReading, DecodeReading. rewrite E.
  eexists. split; [reflexivity|]. split; [by apply print_bytes|].
  rewrite parse_print; [exact D|exact P|]. rewrite N. apply (bool_decide_eq_true_1 _). vm_compute. reflexivity.
Qed.

Lemma received_valid r : ValidString (NodeID r) = true -> received r = r.
Proof.
  intros Hv. unfold received. rewrite coerce_valid by (done || apply bytes_of_range). rewrite string_bytes. by destruct r.
Qed.

(** Only finite numbers and years of four digits are written. *)
Lemma encode_inv r payload : EncodeReading r = Some payload ->
  is_Some (formatRFC3339 (Timestamp r)) /\
  (exists t lat lon, TemperatureC r = Fin t /\ Latitude (Loc r) = Fin lat /\ Longitude (Loc r) = Fin lon).
Proof.
  unfold EncodeReading, encode_reading, encode_location, encode_float, encode_time, formatFloat.
  destruct r as [n t [lat lon] ts]. cbn [TemperatureC Loc Latitude Longitude Timestamp].
  destruct t as [| |t]; [done..|]. destruct lat as [| |lat]; [done..|]. destruct lon as [| |lon]; [done..|]. simpl.
  destruct (formatRFC3339 ts) as [text|]; [|done]. intros _. split; [by eexists|]. by exists t, lat, lon.
Qed.

(** C13: readings survive their JSON form.  A reading with representable numbers, whose
    time has a zone of whole minutes below 24 hours, is
    encoded exactly if they are finite and its year has four digits; the payload
    decodes to the same reading, bytes of the node's name that are not UTF-8 apart. *)
Theorem reading_codec r :
  wf_float (TemperatureC r) -> wf_float (Latitude (Loc r)) -> wf_float (Longitude (Loc r)) -> offset_ok (t_offset (Timestamp r)) ->
  match EncodeReading r with
  | Some payload => Forall is_byte payload /\ DecodeReading payload = Some (received r) /\
      (ValidString (NodeID r) = true -> DecodeReading payload = Some r)
  | None => formatRFC3339 (Timestamp r) = None \/ ~ exists t lat lon,
      TemperatureC r = Fin t /\ Latitude (Loc r) = Fin lat /\ Longitude (Loc r) = Fin lon
  end.
Proof.
  intros Ht Hla Hlo Ho.
  assert (Hen : is_Some (formatRFC3339 (Timestamp r)) ->
    (exists t lat lon, TemperatureC r = Fin t /\ Latitude (Loc r) = Fin lat /\ Longitude (Loc r) = Fin lon) -> encodable r).
  { intros Hf (t & lat & lon & Et & Ela & Elo). rewrite Et, Ela, Elo in *.
    unfold encodable. rewrite Et, Ela, Elo. split_and!; try done; by eexists. }
  destruct (EncodeReading r) as [payload|] eqn:E.
  - destruct (encode_inv r payload E) as [Hf Hn]. destruct (reading_roundtrip r (Hen Hf Hn)) as (p & Ep & Hb & Hd).
    rewrite E in Ep. injection Ep as <-. split; [done|]. split; [done|]. intros Hv. by rewrite <- (received_valid r Hv).
  - destruct (formatRFC3339 (Timestamp r)) as [text|] eqn:Ef; [right|by left]. intros Hn.
    destruct (reading_roundtrip r (Hen ltac:(by eexists) Hn)) as (p & Ep & _). by rewrite E in Ep.
Qed.

(** ** Generated readings *)

Lemma wf_add x y : wf_float x -> wf_float y -> wf_float (f_add x y).
Proof. destruct x as [|[]|a], y as [|[]|b]; intros Hx Hy; try done. apply wf_round. lia. Qed.

Lemma wf_clamp v lo hi : wf_float v -> wf_float lo -> wf_float hi -> wf_float (clamp v lo hi).
Proof. intros. unfold clamp. by repeat case_match. Qed.

Lemma wf_mul x y : wf_float (f_mul x y).
Proof. destruct x as [|s|a], y as [|s'|b]; simpl; try done; [by destruct (_ =? _)..|]. apply wf_round. apply pow2_pos. lia. Qed.

Lemma wf_const p q : 0 < q -> wf_float (f_const p q).
Proof. apply wf_round. Qed.

Lemma wf_of_int z : wf_float (f_of_int z).
Proof. apply wf_round. lia. Qed.

Lemma wf_scale v lo hi : wf_float lo -> wf_float (scaleUint64 v lo hi).
Proof. intros. unfold scaleUint64. case_match; [done|]. by apply wf_add; [|apply wf_mul]. Qed.

Lemma json_within lo hi x : within lo hi x -> wf_float x -> json_float x.
Proof. intros (k & -> & _) Hk. by exists k. Qed.

Lemma location_numbers seed : json_float (Latitude (LocationFromSeed seed)) /\ json_float (Longitude (LocationFromSeed seed)).
Proof.
  destruct (LocationFromSeed_wf seed) as [H1 H2]. split; [apply (json_within _ _ _ H1)|apply (json_within _ _ _ H2)];
    unfold LocationFromSeed; cbv zeta; cbn [Latitude Longitude]; apply wf_scale, wf_of_int.
Qed.

Section Generated.
Context {R : Type} {Hrand : Rand R}.

(** The base temperature of a new generator is a number JSON can carry. *)
Definition numbers_ok (g : Generator (R := R)) : Prop :=
  wf_generator g /\ wf_float (baseTemp g) /\ json_float (Latitude (g_location g)) /\ json_float (Longitude (g_location g)).

Lemma NewGenerator_numbers nodeID seed : numbers_ok (NewGenerator nodeID (LocationFromSeed seed)).
Proof.
  destruct (NewGenerator_wf (R := R) nodeID (LocationFromSeed seed)) as (Hg & _ & Hl & _). unfold numbers_ok. rewrite Hl.
  split; [exact Hg|]. split; [|apply location_numbers]. unfold NewGenerator. destruct (Float64 _) as [f rng].
  cbv zeta. cbn [baseTemp]. apply wf_add; [apply wf_of_int|apply wf_mul].
Qed.

(** What is read next can be encoded if the clock shows a year of four digits. *)
Lemma Next_encodable now g : numbers_ok g ->
  numbers_ok (Next now g).2 /\ (encodable (Next now g).1 <-> writable now).
Proof.
  intros (Hg & Hb & Hla & Hlo). pose proof (Next_wf now g Hg) as Hn.
  assert (Hwf : wf_float (TemperatureC (Next now g).1)).
  { unfold Next. destruct (NormFloat64 (g_rng g)) as [n rng]. cbn [fst TemperatureC].
    apply wf_clamp; [|apply wf_of_int..]. apply wf_add; [exact Hb|apply wf_mul]. }
  assert (Hbase : baseTemp (Next now g).2 = baseTemp g) by (unfold Next; by destruct (NormFloat64 (g_rng g))).
  destruct (Next now g) as [r g']. cbn [fst snd] in *. destruct Hn as (Hg' & _ & Hl' & _ & Hl & Hts & Htemp).
  split; [unfold numbers_ok; by rewrite Hl', Hbase|]. unfold encodable. rewrite Hl, Hts, <- format_UTC. split; [tauto|].
  intros Hf. split_and!; try done. by eapply json_within.
Qed.

Lemma generate_numbers nows g : numbers_ok g -> numbers_ok (generate nows g).2.
Proof.
  revert g. induction nows as [|now nows IH]; intros g Hg; [exact Hg|]. cbn [generate].
  destruct (Next_encodable now g Hg) as [Hg' _]. destruct (Next now g) as [r g']. specialize (IH g' Hg').
  destruct (generate nows g') as [rs g'']. exact IH.
Qed.

Lemma generate_encodable nows g : numbers_ok g -> Forall (fun r => encodable r <-> writable (t_nano (Timestamp r))) (generate nows g).1.
Proof.
  revert g. induction nows as [|now nows IH]; intros g Hg; [constructor|]. cbn [generate].
  destruct (Next_encodable now g Hg) as [Hg' He]. pose proof (Next_wf now g (proj1 Hg)) as Hn.
  destruct (Next now g) as [r g']. cbn [fst snd] in *. specialize (IH g' Hg'). destruct (generate nows g') as [rs g''].
  destruct Hn as (_ & _ & _ & _ & _ & Hts & _). constructor; [|exact IH]. by rewrite Hts in *.
Qed.
End Generated.

(** ** What else decodes *)

(** Null and an object without members are readings: of nobody, at the zero time. *)
Example empty_readings :
  DecodeReading (bytes_of "null") = Some zeroReading /\ DecodeReading (bytes_of " {} ") = Some zeroReading /\
  DecodeReading (bytes_of "[]") = None /\ DecodeReading (bytes_of "") = None.
Proof. vm_compute. repeat split. Qed.

(** Text with single quotes for the double quotes of JSON. *)
Definition json_text (s : string) : list Z := map (fun c => if c =? 39 then 34 else c) (bytes_of s).

Definition demo_coded : Reading :=
  mkReading (string_of [110; 60; 206; 187]) (f_const 43 2) (mkLocation (f_of_int (-8)) (f_const 1 (10 ^ 7))) (UTC 1709210096120000000).

Definition demo_json : list Z :=
  json_text "{'NodeID':'n\u003c" ++ [206; 187] ++
  json_text "','TemperatureC':21.5,'Location':{'Latitude':-8,'Longitude':1e-7},'Timestamp':'2024-02-29T12:34:56.12Z'}".

Lemma reading_codec_witness : EncodeReading demo_coded = Some demo_json /\ DecodeReading demo_json = Some demo_coded.
Proof.
  assert (E : EncodeReading demo_coded = Some demo_json) by (vm_compute; reflexivity).
  pose proof (reading_codec demo_coded) as H. rewrite E in H. split; [exact E|]. destruct H as (_ & _ & Hd).
  - apply (wf_const 43 2). lia.
  - apply (wf_of_int (-8)).
  - apply (wf_const 1 (10 ^ 7)). lia.
  - split; reflexivity.
  - apply Hd. vm_compute. reflexivity.
Defined.

(** Members in any order and case, unknown ones, null and duplicates. *)
Example lenient_decoding :
  DecodeReading (json_text "{'extra':[1,{'x':null}],'nodeid':'a','NodeID':'b','Location':{'latitude':1.5},'temperaturec':null,'location':{'LONGITUDE':-2}}") =
    Some (mkReading "b" (Fin 0) (mkLocation (f_const 3 2) (f_of_int (-2))) zeroTime) /\
  DecodeReading (json_text "{'TemperatureC':'20'}") = None /\ DecodeReading (json_text "{'TemperatureC':1e400}") = None /\
  DecodeReading (json_text "{'Timestamp':'yesterday'}") = None.
Proof. vm_compute. repeat split; reflexivity. Qed.
