(* ===== verification/GossipSim.v ===== *)
(** * The gossip simulator (src/pkg/gossip)

    An epidemic broadcast in rounds.  The generator of the simulator is its sequence
    of permutations ([rng.Perm]), and the order in which the set of infected IDs is
    visited is a parameter.  The reference is breadth-first search. *)

From Stdlib Require Import Ascii String.
From stdpp Require Import base strings list sets gmap relations.
From S2P Require Import Prelude GoFloat.

#[local] Open Scope Z_scope.
#[local] Open Scope go_scope.
#[local] Set Default Proof Using "Type".

Record Node : Type := mkGossipNode { ID : string; Peers : list string }.

Record Result : Type := mkResult {
  Steps : Z; ReachedCount : Z; ReachedRatio : float64; Total : Z }.

Inductive SimError : Type :=
| ErrNilSimulator | ErrNoNodes | ErrFanout | ErrTargetRatio | ErrMaxSteps | ErrInitialNode
| ErrNotReached.

Definition noResult : Result := mkResult 0 0 (Fin 0) 0.

(** The generator: its [k]-th permutation of [0..n-1]. *)
Definition Rng : Type := nat -> nat -> list nat.
Record Simulator : Type := mkSimulator { sim_rng : option Rng }.

(** [rand.New(rand.NewSource(seed))] is the generator of a seed. *)
Definition NewSimulator (source : Z -> Rng) (seed : Z) : Simulator := mkSimulator (Some (source seed)).

(** The peers drawn and how many permutations have been used. *)
Definition selectRandomPeers (peers : list string) (fanout : Z) (rng : Rng) (draws : nat)
  : list string * nat :=
  if bool_decide (peers = []) then ([], draws)
  else if Z.of_nat (length peers) <=? fanout then (peers, draws)
  else (omap (fun i => peers !! i) (take (Z.to_nat fanout) (rng draws (length peers))), S draws).

Definition peersByID (nodes : list Node) : gmap string (list string) :=
  fold_left (fun m node => <[ID node := Peers node]> m) nodes ∅.

Lemma peersByID_fold nodes (m : gmap string (list string)) a ps :
  fold_left (fun m node => <[ID node := Peers node]> m) nodes m !! a = Some ps ->
  m !! a = Some ps \/ mkGossipNode a ps ∈ nodes.
Proof.
  revert m. induction nodes as [|n nodes IH]; intros m Hps; simpl in *; [by left|].
  apply IH in Hps as [Hps|Hps]; [|right; by right].
  apply lookup_insert_Some in Hps as [[<- <-]|[_ Hps]]; [right; destruct n; left|by left].
Qed.

Lemma peersByID_total nodes (m : gmap string (list string)) n : n ∈ nodes \/ is_Some (m !! ID n) ->
  is_Some (fold_left (fun m node => <[ID node := Peers node]> m) nodes m !! ID n).
Proof.
  revert m. induction nodes as [|n' nodes IH]; intros m Hn; simpl.
  { destruct Hn as [Hn%elem_of_nil|Hn]; done. }
  apply IH. rewrite lookup_insert_is_Some. destruct Hn as [[->|Hn]%elem_of_cons|Hn]; [right; by left|by left|].
  right. destruct (decide (ID n' = ID n)); [by left|by right].
Qed.

(** Every entry of the table is a node's, and every node has one. *)
Lemma peersByID_spec nodes :
  (forall a ps, peersByID nodes !! a = Some ps -> mkGossipNode a ps ∈ nodes) /\
  (forall n, n ∈ nodes -> is_Some (peersByID nodes !! ID n)).
Proof.
  split; [|intros n Hn; apply peersByID_total; by left].
  intros a ps Hps. apply peersByID_fold in Hps as [Hps|?]; [by rewrite lookup_empty in Hps|done].
Qed.

Lemma bsteps_last {A} (R : relation A) n x z : bsteps R (S n) x z ->
  bsteps R n x z \/ exists y, bsteps R n x y /\ R y z.
Proof.
  intros (n' & Hle & Hn)%bsteps_nsteps. destruct (decide (n' <= n)%nat).
  - left. apply bsteps_nsteps. by exists n'.
  - right. replace n' with (S n) in Hn by lia. apply nsteps_inv_r in Hn as (y & Hy & Hyz).
    exists y. split; [|done]. apply bsteps_nsteps. by exists n.
Qed.

Section Simulation.
(** The order in which the infected IDs are visited in a step. *)
Context (rangeSet : nat -> gset string -> list string).

(** One pass over the infected IDs, in the order the map is visited. *)
Fixpoint spread (table : gmap string (list string)) (fanout : Z) (rng : Rng) (infected : gset string)
    (order : list string) (draws : nat) (newly : gset string) : gset string * nat :=
  match order with
  | [] => (newly, draws)
  | nodeID :: order =>
      let peers := default [] (table !! nodeID) in
      let '(selected, draws) := selectRandomPeers peers fanout rng draws in
      let newly := fold_left (fun newly peerID =>
        if bool_decide (peerID ∈ infected) then newly else newly ∪ {[peerID]}) selected newly in
      spread table fanout rng infected order draws newly
  end.

Definition ratioOf (infected : gset string) (total : Z) : float64 :=
  f_div (f_of_int (Z.of_nat (size infected))) (f_of_int total).

(** The rounds from [step] on, [fuel] of them left. *)
Fixpoint rounds (table : gmap string (list string)) (fanout : Z) (rng : Rng) (targetRatio : float64)
    (total : Z) (fuel : nat) (step : Z) (infected : gset string) (draws : nat)
  : Result * option SimError :=
  match fuel with
  | O => (mkResult (step - 1) (Z.of_nat (size infected)) (ratioOf infected total) total, Some ErrNotReached)
  | S fuel =>
      let '(newly, draws) := spread table fanout rng infected (rangeSet (Z.to_nat step) infected) draws ∅ in
      let infected := infected ∪ newly in
      let reachedRatio := ratioOf infected total in
      if f_le targetRatio reachedRatio
      then (mkResult step (Z.of_nat (size infected)) reachedRatio total, None)
      else rounds table fanout rng targetRatio total fuel (step + 1) infected draws
  end.

Definition SimulatePropagation (s : option Simulator) (nodes : list Node) (initialID : string)
    (fanout : Z) (targetRatio : float64) (maxSteps : Z) : Result * option SimError :=
  match s ≫= sim_rng with
  | None => (noResult, Some ErrNilSimulator)
  | Some rng =>
      if bool_decide (nodes = []) then (noResult, Some ErrNoNodes)
      else if fanout <=? 0 then (noResult, Some ErrFanout)
      else if f_le targetRatio (Fin 0) || f_lt (f_of_int 1) targetRatio then (noResult, Some ErrTargetRatio)
      else if maxSteps <=? 0 then (noResult, Some ErrMaxSteps)
      else
        let table := peersByID nodes in
        match table !! initialID with
        | None => (noResult, Some ErrInitialNode)
        | Some _ =>
            rounds table fanout rng targetRatio (Z.of_nat (length nodes)) (Z.to_nat maxSteps) 1
              {[initialID]} 0
        end
  end.

End Simulation.

(** ** The reference: breadth-first search *)

Section Table.
Context (table : gmap string (list string)).

Definition edge (a b : string) : Prop := exists ps, table !! a = Some ps /\ b ∈ ps.

(** IDs at most [k] hops away. *)
Fixpoint ball (initial : string) (k : nat) : gset string :=
  match k with
  | O => {[initial]}
  | S k => let X := ball initial k in
           X ∪ list_to_set (mjoin (map (fun a => default [] (table !! a)) (elements X)))
  end.

Lemma elem_of_neighbours (X : gset string) b :
  b ∈ mjoin (map (fun a => default [] (table !! a)) (elements X)) <-> exists a, a ∈ X /\ edge a b.
Proof.
  rewrite list_elem_of_join. setoid_rewrite list_elem_of_fmap. unfold edge. split.
  - intros (l & Hb & a & -> & Ha). apply elem_of_elements in Ha. exists a. split; [done|].
    destruct (table !! a) as [ps|]; [by exists ps|by apply elem_of_nil in Hb].
  - intros (a & Ha & ps & Hps & Hb). exists (default [] (table !! a)). rewrite Hps. split; [done|].
    exists a. rewrite Hps. split; [done|by apply elem_of_elements].
Qed.

Lemma elem_of_ball initial k b : b ∈ ball initial k <-> bsteps edge k initial b.
Proof.
  revert b. induction k as [|k IH]; intros b; simpl.
  - rewrite elem_of_singleton. split; [intros ->; constructor|]. by inversion 1.
  - rewrite elem_of_union, IH, elem_of_list_to_set, elem_of_neighbours. split.
    + intros [H|(a & Ha & Hab)]; [by apply bsteps_S|]. apply IH in Ha. by eapply bsteps_r.
    + intros H. apply bsteps_last in H as [H|(a & Ha & Hab)]; [by left|].
      right. exists a. split; [by apply IH|done].
Qed.
End Table.

(** ** One round *)

Lemma select_subset peers fanout rng draws p :
  p ∈ (selectRandomPeers peers fanout rng draws).1 -> p ∈ peers.
Proof.
  unfold selectRandomPeers. case_bool_decide; [by intros ?%elem_of_nil|]. destruct (_ <=? _); [done|].
  simpl. intros (i & _ & Hi)%list_elem_of_omap. by eapply list_elem_of_lookup_2.
Qed.

Lemma select_all peers fanout rng draws : Z.of_nat (length peers) <= fanout ->
  selectRandomPeers peers fanout rng draws = (peers, draws).
Proof.
  intros Hle. unfold selectRandomPeers. case_bool_decide; [by subst|].
  by rewrite (proj2 (Z.leb_le _ _)).
Qed.

Lemma elem_of_fold_newly infected selected newly p :
  p ∈ fold_left (fun newly peerID =>
        if bool_decide (peerID ∈ infected) then newly else newly ∪ {[peerID]}) selected newly <->
  p ∈ (newly : gset string) \/ p ∈ selected /\ p ∉ (infected : gset string).
Proof.
  revert newly. induction selected as [|q selected IH]; intros newly; simpl; [set_solver|].
  rewrite IH. case_bool_decide; set_solver.
Qed.

(** Everything a pass adds is a neighbour of an infected ID. *)
Lemma spread_sound table fanout rng infected order draws newly p :
  p ∈ (spread table fanout rng infected order draws newly).1 ->
  p ∈ newly \/ exists a, a ∈ order /\ edge table a p.
Proof.
  revert draws newly. induction order as [|a order IH]; intros draws newly; simpl; [by left|].
  destruct (selectRandomPeers _ fanout rng draws) as [selected draws'] eqn:E.
  intros [Hp|(b & Hb & Hbp)]%IH; [|right; exists b; set_solver].
  apply elem_of_fold_newly in Hp as [Hp|[Hp _]]; [by left|]. right. exists a. split; [set_solver|].
  assert (Hin : p ∈ default [] (table !! a)) by (apply (select_subset _ fanout rng draws); by rewrite E).
  unfold edge. destruct (table !! a) as [ps|]; [by exists ps|by apply elem_of_nil in Hin].
Qed.

Definition full_fanout (table : gmap string (list string)) (fanout : Z) : Prop :=
  forall a ps, table !! a = Some ps -> Z.of_nat (length ps) <= fanout.

(** With fanout for all peers it adds all of them. *)
Lemma spread_full table fanout rng infected order draws newly p :
  0 <= fanout -> full_fanout table fanout ->
  p ∈ (spread table fanout rng infected order draws newly).1 <->
  p ∈ newly \/ (exists a, a ∈ order /\ edge table a p) /\ p ∉ infected.
Proof.
  intros H0 Hfull. revert draws newly. induction order as [|a order IH]; intros draws newly; simpl; [set_solver|].
  rewrite select_all.
  2:{ destruct (table !! a) as [ps|] eqn:E; simpl; [by eapply Hfull|lia]. }
  rewrite IH, elem_of_fold_newly. unfold edge.
  assert (Hd : p ∈ default [] (table !! a) <-> exists ps, table !! a = Some ps /\ p ∈ ps).
  { destruct (table !! a) as [ps|]; simpl; [naive_solver|]. split; [by intros ?%elem_of_nil|naive_solver]. }
  rewrite Hd. set_solver.
Qed.

Section Facts.
Context (rangeSet : nat -> gset string -> list string)
        (Hrange : forall k (X : gset string), rangeSet k X ≡ₚ elements X).

Lemma elem_of_order k (X : gset string) a : a ∈ rangeSet k X <-> a ∈ X.
Proof using Hrange. rewrite Hrange. apply elem_of_elements. Qed.

Lemma round_ball table fanout rng initial k i draws infected :
  let infected' := infected ∪ (spread table fanout rng infected (rangeSet i infected) draws ∅).1 in
  infected ⊆ ball table initial k -> infected' ⊆ ball table initial (S k).
Proof using Hrange.
  intros infected' Hsub p. simpl. rewrite elem_of_union, elem_of_list_to_set, elem_of_neighbours.
  subst infected'. rewrite elem_of_union. intros [Hp|Hp]; [left; by apply Hsub|].
  apply spread_sound in Hp as [?|(a & Ha & Hap)]; [set_solver|].
  right. exists a. split; [|done]. apply Hsub. by apply elem_of_order in Ha.
Qed.

Lemma round_ball_full table fanout rng initial k i draws :
  0 <= fanout -> full_fanout table fanout ->
  let X := ball table initial k in
  X ∪ (spread table fanout rng X (rangeSet i X) draws ∅).1 = ball table initial (S k).
Proof using Hrange.
  intros H0 Hfull X. apply set_eq. intros p. simpl. fold X.
  rewrite !elem_of_union, elem_of_list_to_set, elem_of_neighbours, (spread_full _ _ _ _ _ _ _ _ H0 Hfull).
  setoid_rewrite elem_of_order. split; [intros [?|[?|[? _]]]; set_solver|].
  intros [?|Hn]; [by left|]. destruct (decide (p ∈ X)); [by left|right; right; done].
Qed.

(** ** All rounds *)

(** What a run reports about the set it ended with. *)
Definition reports (target : float64) (total : Z) (res : Result) (err : option SimError) (X : gset string) : Prop :=
  ReachedCount res = Z.of_nat (size X) /\ ReachedRatio res = ratioOf X total /\ Total res = total /\
  (err = None /\ f_le target (ReachedRatio res) = true \/
   err = Some ErrNotReached /\ f_le target (ReachedRatio res) = false).

Lemma rounds_sound table fanout rng target total initial fuel k infected draws :
  infected ⊆ ball table initial k -> f_le target (ratioOf infected total) = false \/ (0 < fuel)%nat ->
  let '(res, err) := rounds rangeSet table fanout rng target total fuel (Z.of_nat k + 1) infected draws in
  exists j X, Steps res = Z.of_nat j /\ (k <= j <= k + fuel)%nat /\ (0 < fuel -> k < j)%nat /\
    infected ⊆ X /\ X ⊆ ball table initial j /\ reports target total res err X /\
    (err <> None -> j = (k + fuel)%nat).
Proof using Hrange.
  revert k infected draws. induction fuel as [|fuel IH]; intros k infected draws Hsub Hnot; simpl.
  { exists k, infected. unfold reports. simpl. destruct Hnot as [Hnot|]; [|lia].
    split_and!; try done; try lia. right. split; [done|exact Hnot]. }
  pose proof (round_ball table fanout rng initial k (Z.to_nat (Z.of_nat k + 1)) draws infected Hsub) as Hb. cbv zeta in Hb.
  destruct (spread _ _ _ _ _ _ _) as [newly draws'] eqn:E. cbn [fst] in Hb.
  destruct (f_le target (ratioOf (infected ∪ newly) total)) eqn:Hle.
  - exists (S k), (infected ∪ newly). unfold reports. simpl Steps.
    split_and!; try done; try lia; [apply union_subseteq_l|]. left. split; [done|exact Hle].
  - specialize (IH (S k) (infected ∪ newly) draws' Hb (or_introl Hle)).
    replace (Z.of_nat k + 1 + 1) with (Z.of_nat (S k) + 1) by lia.
    destruct (rounds _ _ _ _ _ _ _ _ _ _) as [res err].
    destruct IH as (j & X & H1 & H2 & H3 & H4 & H5 & H6 & H7). exists j, X.
    split_and!; try done; try lia; [|intros He; specialize (H7 He); lia].
    etrans; [apply union_subseteq_l|exact H4].
Qed.

Lemma rounds_full table fanout rng target total initial fuel k draws :
  0 <= fanout -> full_fanout table fanout ->
  f_le target (ratioOf (ball table initial k) total) = false \/ (0 < fuel)%nat ->
  let '(res, err) := rounds rangeSet table fanout rng target total fuel (Z.of_nat k + 1)
                       (ball table initial k) draws in
  exists j, Steps res = Z.of_nat j /\ (k <= j <= k + fuel)%nat /\ (0 < fuel -> k < j)%nat /\
    reports target total res err (ball table initial j) /\ (err <> None -> j = (k + fuel)%nat) /\
    forall i, (k < i < j)%nat -> f_le target (ratioOf (ball table initial i) total) = false.
Proof using Hrange.
  intros H0 Hfull. revert k draws. induction fuel as [|fuel IH]; intros k draws Hnot; cbn [rounds].
  { exists k. unfold reports. simpl. destruct Hnot as [Hnot|]; [|lia].
    split_and!; try done; try lia. right. split; [done|exact Hnot]. }
  pose proof (round_ball_full table fanout rng initial k (Z.to_nat (Z.of_nat k + 1)) draws H0 Hfull) as Hb. cbv zeta in Hb.
  destruct (spread _ _ _ _ _ _ _) as [newly draws'] eqn:E. cbn [fst] in Hb. rewrite Hb.
  destruct (f_le target (ratioOf (ball table initial (S k)) total)) eqn:Hle.
  - exists (S k). unfold reports. cbn [Steps ReachedCount ReachedRatio Total].
    split_and!; try done; try lia. left. split; [done|exact Hle].
  - specialize (IH (S k) draws' (or_introl Hle)).
    replace (Z.of_nat k + 1 + 1) with (Z.of_nat (S k) + 1) by lia.
    destruct (rounds _ _ _ _ _ _ _ _ _ _) as [res err].
    destruct IH as (j & H1 & H2 & H3 & H4 & H5 & H6). exists j.
    split_and!; try done; try lia; [intros He; specialize (H5 He); lia|].
    intros i Hi. destruct (decide (i = S k)) as [->|]; [exact Hle|]. apply H6. lia.
Qed.

(** Arguments the simulator accepts. *)
Definition accepts (nodes : list Node) (initialID : string) (fanout : Z) (target : float64) (maxSteps : Z) : Prop :=
  nodes <> [] /\ 0 < fanout /\ f_le target (Fin 0) = false /\ f_lt (f_of_int 1) target = false /\
  0 < maxSteps /\ is_Some (peersByID nodes !! initialID).

Lemma Simulate_accepts rng nodes initialID fanout target maxSteps :
  accepts nodes initialID fanout target maxSteps ->
  SimulatePropagation rangeSet (Some (mkSimulator (Some rng))) nodes initialID fanout target maxSteps =
    rounds rangeSet (peersByID nodes) fanout rng target (Z.of_nat (length nodes)) (Z.to_nat maxSteps)
      (Z.of_nat 0 + 1) (ball (peersByID nodes) initialID 0) 0.
Proof.
  intros (Hne & Hf & Ht1 & Ht2 & Hm & [ps Hps]). unfold SimulatePropagation. simpl (Some _ ≫= _). cbv iota.
  rewrite bool_decide_eq_false_2 by done. rewrite (proj2 (Z.leb_gt fanout 0)), (proj2 (Z.leb_gt maxSteps 0)) by done.
  by rewrite Ht1, Ht2, Hps.
Qed.

(** C34: with fanout for all peers the simulation is breadth-first search.
    Whatever the generator draws and in whatever order the map is visited, the
    run ends at the first step, of at most [maxSteps], at which the IDs within
    that many hops of the initial node are the target share of the nodes, and
    reports exactly them; or after [maxSteps] with an error if they never are. *)
Theorem propagation_is_bfs rng nodes initialID fanout target maxSteps :
  accepts nodes initialID fanout target maxSteps -> full_fanout (peersByID nodes) fanout ->
  let total := Z.of_nat (length nodes) in
  let reached k := ball (peersByID nodes) initialID k in
  let '(res, err) := SimulatePropagation rangeSet (Some (mkSimulator (Some rng))) nodes initialID
                       fanout target maxSteps in
  (forall k b, b ∈ reached k <-> bsteps (edge (peersByID nodes)) k initialID b) /\
  exists j, Steps res = Z.of_nat j /\ 1 <= Steps res <= maxSteps /\
    reports target total res err (reached j) /\ (err <> None -> Steps res = maxSteps) /\
    forall i, (0 < i < j)%nat -> f_le target (ratioOf (reached i) total) = false.
Proof using Hrange.
  intros Hacc Hfull total reached. rewrite Simulate_accepts by done.
  pose proof Hacc as (_ & Hf & _ & _ & Hm & _).
  pose proof (rounds_full (peersByID nodes) fanout rng target total initialID (Z.to_nat maxSteps) 0 0) as H.
  destruct (rounds _ _ _ _ _ _ _ _ _ _) as [res err].
  destruct H as (j & H1 & H2 & H3 & H4 & H5 & H6); [lia|done|right; lia|].
  split; [intros k b; apply elem_of_ball|]. exists j. split_and!; try done; try lia.
  intros He. specialize (H5 He). lia.
Qed.

(** a simulation reports what it reached.  With any fanout the run takes at
    most [maxSteps] steps; the count and ratio it reports are those of a set of
    IDs that contains the initial one and only IDs within that many hops; it
    succeeds exactly if the ratio is at least the target, and fails only after
    all steps. *)
Theorem propagation_sound rng nodes initialID fanout target maxSteps :
  accepts nodes initialID fanout target maxSteps ->
  let '(res, err) := SimulatePropagation rangeSet (Some (mkSimulator (Some rng))) nodes initialID
                       fanout target maxSteps in
  exists j X, Steps res = Z.of_nat j /\ 1 <= Steps res <= maxSteps /\ initialID ∈ X /\
    (forall b, b ∈ X -> bsteps (edge (peersByID nodes)) j initialID b) /\
    reports target (Z.of_nat (length nodes)) res err X /\ (err <> None -> Steps res = maxSteps).
Proof using Hrange.
  intros Hacc. rewrite Simulate_accepts by done. pose proof Hacc as (_ & Hf & _ & _ & Hm & _).
  pose proof (rounds_sound (peersByID nodes) fanout rng target (Z.of_nat (length nodes)) initialID
    (Z.to_nat maxSteps) 0 (ball (peersByID nodes) initialID 0) 0) as H.
  destruct (rounds _ _ _ _ _ _ _ _ _ _) as [res err].
  destruct H as (j & X & H1 & H2 & H3 & H4 & H5 & H6 & H7); [done|right; lia|].
  exists j, X. split_and!; try done; try lia.
  - apply H4. simpl. by apply elem_of_singleton.
  - intros b Hb. apply elem_of_ball. by apply H5.
  - intros He. specialize (H7 He). lia.
Qed.
End Facts.

(** ** Concrete runs *)

Definition range_elements (_ : nat) (X : gset string) : list string := elements X.
Definition in_order : Rng := fun _ n => seq 0 n.
Definition demo_simulator : option Simulator := Some (mkSimulator (Some in_order)).

Definition line_nodes : list Node :=
  [mkGossipNode "a" ["b"]; mkGossipNode "b" ["c"]; mkGossipNode "c" []].

Lemma line_accepts : accepts line_nodes "a" 1 (f_of_int 1) 5.
Proof. split; [discriminate|]. vm_compute. split_and!; try reflexivity. by eexists. Qed.

Lemma propagation_is_bfs_witness :
  exists res, SimulatePropagation range_elements demo_simulator line_nodes "a" 1 (f_of_int 1) 5 = (res, None) /\
    Steps res = 2 /\ ReachedCount res = 3.
Proof.
  pose proof (propagation_is_bfs range_elements (fun _ X => reflexivity _) in_order line_nodes "a" 1
    (f_of_int 1) 5 line_accepts) as H. fold demo_simulator in H. cbv zeta in H.
  assert (E : let '(res, err) := SimulatePropagation range_elements demo_simulator line_nodes "a" 1 (f_of_int 1) 5 in
    (Steps res, err) = (2, None)) by (vm_compute; reflexivity).
  destruct (SimulatePropagation _ _ _ _ _ _ _) as [res err]. injection E as E1 ->.
  exists res. split; [reflexivity|]. split; [exact E1|].
  destruct H as (_ & j & Hj & _ & (Hc & _) & _).
  - intros a ps Hps. assert (Hall : map_Forall (fun _ (l : list string) => Z.of_nat (length l) <= 1) (peersByID line_nodes)).
    { apply (bool_decide_eq_true_1 _). vm_compute. reflexivity. }
    exact (Hall a ps Hps).
  - rewrite Hc. assert (j = 2%nat) as -> by lia. vm_compute. reflexivity.
Defined.

Lemma propagation_sound_witness :
  exists res, SimulatePropagation range_elements demo_simulator line_nodes "a" 1 (f_of_int 1) 5 = (res, None) /\
    1 <= Steps res <= 5.
Proof.
  pose proof (propagation_sound range_elements (fun _ X => reflexivity _) in_order line_nodes "a" 1
    (f_of_int 1) 5 line_accepts) as H. fold demo_simulator in H.
  assert (E : let '(_, err) := SimulatePropagation range_elements demo_simulator line_nodes "a" 1 (f_of_int 1) 5 in
    err = None) by (vm_compute; reflexivity).
  destruct (SimulatePropagation _ _ _ _ _ _ _) as [res err]. subst err.
  destruct H as (j & X & _ & Hs & _). exists res. split; [reflexivity|exact Hs].
Defined.

(** Peers that are no nodes count as reached: a single node that lists two
    strangers reports three of one node reached. *)
Example strangers_count :
  (SimulatePropagation range_elements demo_simulator [mkGossipNode "a" ["x"; "y"]] "a" 2 (f_of_int 1) 1).1 =
    mkResult 1 3 (f_of_int 3) 1.
Proof. vm_compute. reflexivity. Qed.
