(* ===== verification/DhtSim.v ===== *)
(** * The DHT simulator (src/cmd/dhtsim)

    The program that builds a network of DHT nodes, publishes a sensor reading per
    node, looks every reading up again, averages a region and simulates gossip over
    the routing tables.  A network of up to twenty nodes is a full mesh, so every
    value is stored everywhere and the run succeeds up to the random gossip. *)

From Stdlib Require Import Ascii String.
From stdpp Require Import base strings list sorting sets gmap.
From S2P Require Import Prelude GoFloat GossipSim Sensor.
From S2P Require Import GoBytes Sha256 DhtId DhtBucket DhtRouting DhtLookup.
From S2P Require Import SensorCodec DhtStore GoText.

#[local] Open Scope Z_scope.
#[local] Open Scope go_scope.
#[local] Set Default Proof Using "Type".

Definition peerCount : Z := 20.

Definition nodeName (i : Z) : string := String.append "node-" (Itoa (i + 1)).

(** ** Building the network *)

(** One round of the first loop of [buildNetwork]. *)
Definition createNode (acc : simNetwork * list Peer) (nodeName : string) : simNetwork * list Peer :=
  let '(nodes, peers) := acc in
  let nid := KeyToID nodeName in
  let node := NewNode nid nodeName bucketK in
  (<[nid := node]> nodes, peers ++ [peer node]).

Section Build.
(** The time at which a node adds a peer. *)
Context (seenAt : NodeID -> Peer -> Z).

(** The loop over the peers, for one node. *)
Fixpoint connect (node : Node) (peers : list Peer) : exec Node :=
  match peers with
  | [] => Ok node
  | p :: peers =>
      if bool_decide (ID p = ID (peer node)) then connect node peers
      else
        let! r := AddPeer (seenAt (ID (peer node)) p) (rt node) p in
        connect (mkDhtNode (peer node) r.1 (store node)) peers
  end.

(** The loop over the nodes, in the order of [range]. *)
Fixpoint connectAll (order : list NodeID) (peers : list Peer) (nodes : simNetwork) : exec simNetwork :=
  match order with
  | [] => Ok nodes
  | x :: order =>
      match nodes !! x with
      | None => connectAll order peers nodes
      | Some node =>
          let! node := connect node peers in
          connectAll order peers (<[x := node]> nodes)
      end
  end.

Definition buildNetwork (rangeNodes : simNetwork -> list NodeID) (count : Z) : exec simNetwork :=
  let '(nodes, peers) := fold_left createNode (map nodeName (seqZ 0 count)) (∅, []) in
  connectAll (rangeNodes nodes) peers nodes.
End Build.

(** ** The phases *)

Inductive SimFailure : Type :=
| EncodeFailed
| StoreFailed (err : DhtError)
| NoNodes
| FindFailed (err : DhtError)
| DecodeFailed
| UnexpectedNode (id : string)
| NoReadings
| RegionFailed (err : AggregateError)
| NoGossipNodes
| PropagationFailed (err : SimError)
| TargetMissed (duration : Z).

Definition simOptions : FindNodeOptions := mkOptions bucketK 3 20.

Section Phases.
Context {R : Type} {Hrand : Rand R} {Htrig : Trig}.
(** The order of the map in [mergePeers], and when a node takes its reading. *)
Context (rangeMap : gmap NodeID Peer -> list Peer) (readAt : string -> Z).

(** The reading a node of the given address publishes. *)
Definition readingOf (addr : string) : Reading :=
  (Next (readAt addr) (NewGenerator addr (LocationFromSeed addr))).1.

(** [publishSensorReadings] over the nodes left in [order]. *)
Fixpoint publishSensorReadings (order : list NodeID) (net : simNetwork) : simNetwork * option SimFailure :=
  match order with
  | [] => (net, None)
  | x :: order =>
      match net !! x with
      | None => publishSensorReadings order net
      | Some node =>
          match EncodeReading (readingOf (Addr (peer node))) with
          | None => (net, Some EncodeFailed)
          | Some payload =>
              let key := sensorKey (Addr (peer node)) in
              match IterativeStore rangeMap (fun _ => false) (Some (rt node)) (Some (findNode net))
                      (Some storeValue) net key payload simOptions with
              | (net, _, Some err) => (net, Some (StoreFailed err))
              | (net, _, None) => publishSensorReadings order net
              end
          end
      end
  end.

(** The loop of [verifySensorQueries]. *)
Fixpoint queryReadings (anchor : Node) (net : simNetwork) (order : list NodeID) (readings : list Reading)
  : SimFailure + list Reading :=
  match order with
  | [] => inr readings
  | x :: order =>
      match net !! x with
      | None => queryReadings anchor net order readings
      | Some node =>
          let key := sensorKey (Addr (peer node)) in
          match IterativeFindValue rangeMap (fun _ => false) (Some (rt anchor)) (Some (findValue net))
                  key simOptions with
          | (_, _, Some err) => inl (FindFailed err)
          | (value, _, None) =>
              match DecodeReading (default [] value) with
              | None => inl DecodeFailed
              | Some reading =>
                  if negb (Sensor.NodeID reading =?s Addr (peer node))
                  then inl (UnexpectedNode (Sensor.NodeID reading))
                  else queryReadings anchor net order (readings ++ [reading])
              end
          end
      end
  end.

(** [first] is the order of the loop that picks the anchor. *)
Definition verifySensorQueries (first order : list NodeID) (net : simNetwork) : SimFailure + list Reading :=
  match head first ≫= fun x => net !! x with
  | None => inl NoNodes
  | Some anchor => queryReadings anchor net order []
  end.

(** [QueryAPI.AverageTemperatureInRadius] (api.go). *)
Definition QueryAPI_AverageTemperatureInRadius (readings : list Reading) (center : Location)
    (radiusKm : float64) : SimFailure + float64 * Z :=
  match AverageTemperatureInRadius readings center radiusKm with
  | inl err => inl (RegionFailed err)
  | inr r => inr r
  end.

(** The average and number of samples that are logged. *)
Definition runRegionQuery (readings : list Reading) : SimFailure + float64 * Z :=
  match readings with
  | [] => inl NoReadings
  | r :: _ => QueryAPI_AverageTemperatureInRadius readings (Loc r) (f_of_int 10)
  end.
End Phases.

(** ** Gossip over the routing tables *)

Definition gossipNode (node : Node) : GossipSim.Node :=
  mkGossipNode (Addr (peer node)) (map Addr (GetClosestPeers (rt node) (ID (peer node)) bucketK)).

Definition runGossipSimulation (rangeSet : nat -> gset string -> list string) (source : Z -> Rng)
    (order : list NodeID) (net : simNetwork) : SimFailure + Result :=
  let nodes := map gossipNode (omap (fun x => net !! x) order) in
  match nodes with
  | [] => inl NoGossipNodes
  | first :: _ =>
      let seed := 42 in
      let fanout := 3 in
      let maxSteps := 20 in
      let targetRatio := f_const 9 10 in
      let tick := 100 * 1000000 in
      let sim := NewSimulator source seed in
      match SimulatePropagation rangeSet (Some sim) nodes (GossipSim.ID first)
              fanout targetRatio maxSteps with
      | (_, Some err) => inl (PropagationFailed err)
      | (result, None) =>
          let duration := i64 (Steps result * tick) in
          if 2 * 1000000000 <? duration then inl (TargetMissed duration) else inr result
      end
  end.

(** ** The program *)

Section Main.
Context {R : Type} {Hrand : Rand R} {Htrig : Trig}.
Context (rangeMap : gmap NodeID Peer -> list Peer) (seenAt : NodeID -> Peer -> Z) (readAt : string -> Z).
(** The order of the [i]-th loop over the nodes. *)
Context (rangeNodes : nat -> simNetwork -> list NodeID).
Context (rangeSet : nat -> gset string -> list string) (source : Z -> Rng).

(** [main] with [count] nodes: what it looked up, the region's average and the
    result of the gossip, or why it exits with status 1. *)
Definition dhtsim (count : Z) : exec (SimFailure + (list Reading * (float64 * Z) * Result)) :=
  let! network := buildNetwork seenAt (rangeNodes 0) count in
  match publishSensorReadings rangeMap readAt (rangeNodes 1 network) network with
  | (_, Some err) => Ok (inl err)
  | (network, None) =>
      match verifySensorQueries rangeMap (rangeNodes 2 network) (rangeNodes 3 network) network with
      | inl err => Ok (inl err)
      | inr readings =>
          match runRegionQuery readings with
          | inl err => Ok (inl err)
          | inr region =>
              match runGossipSimulation rangeSet source (rangeNodes 4 network) network with
              | inl err => Ok (inl err)
              | inr result => Ok (inr (readings, region, result))
              end
          end
      end
  end.
End Main.

(** ** A table that is large enough keeps everybody *)

Definition contact (p : Peer) : NodeID * string := (ID p, Addr p).
Definition contacts (t : RoutingTable) : list (NodeID * string) := map contact (allPeers t).

Lemma elem_of_contacts y a t : (y, a) ∈ contacts t <-> exists p, p ∈ allPeers t /\ ID p = y /\ Addr p = a.
Proof. unfold contacts. rewrite list_elem_of_fmap. unfold contact. naive_solver. Qed.

(** The buckets of a table have the given capacity. *)
Definition capacity (c : Z) (t : RoutingTable) : Prop :=
  forall i b, buckets t !! i = Some b -> maxSize b = c.

Lemma NewRoutingTable_capacity l c : 0 < c -> capacity c (NewRoutingTable l c).
Proof.
  intros Hc i b Hb. unfold NewRoutingTable in Hb. cbn [buckets] in Hb.
  rewrite (proj2 (Z.leb_gt c 0)) in Hb by done.
  apply lookup_replicate in Hb as [-> _]. unfold NewBucket. simpl.
  destruct (Z.leb_spec c 0); [lia|done].
Qed.

Lemma NewRoutingTable_empty l c : allPeers (NewRoutingTable l c) = [].
Proof. unfold allPeers, NewRoutingTable. cbn [buckets]. by vm_compute. Qed.

(** Adding a new peer to a table with room for one more. *)
Lemma AddPeer_room now c t p : rt_inv t -> capacity c t -> wf_id (ID p) ->
  Addr p <> "" -> ID p <> zeroID -> ID p <> localID t ->
  ID p ∉ ids (allPeers t) -> Z.of_nat (length (allPeers t)) < c ->
  exists t', AddPeer now t p = Ok (t', None) /\ rt_inv t' /\ localID t' = localID t /\ capacity c t' /\
    allPeers t' ≡ₚ mkPeer (ID p) (Addr p) now :: allPeers t.
Proof.
  intros Hrt Hc Hp Ha Hz Hs Hnew Hlen.
  destruct (AddPeer_accept now t p Hrt Hp Ha Hz Hs) as (t' & E & Hinv & Hloc & _ & (b & b' & Hb & Hb' & Hl & Hm) & Hrest).
  set (i := Z.to_nat (bucketIndex (localID t) (ID p))) in *. set (p' := mkPeer (ID p) (Addr p) now) in *.
  exists t'. split; [exact E|]. split; [exact Hinv|]. split; [exact Hloc|].
  assert (Hbs : buckets t' = <[i := b']> (buckets t)).
  { apply list_eq. intros j. destruct (decide (j = i)) as [->|Hj].
    - rewrite Hb', list_lookup_insert_eq; [done|]. by eapply lookup_lt_Some.
    - rewrite Hrest, list_lookup_insert_ne by done. done. }
  split.
  { intros j x Hx. rewrite Hbs in Hx. apply list_lookup_insert_Some in Hx as [(_ & <- & _)|[_ Hx]];
      [rewrite Hm; by eapply Hc|by eapply Hc]. }
  assert (Hall : allPeers t = mjoin (map List (take i (buckets t))) ++ List b ++ mjoin (map List (drop (S i) (buckets t)))).
  { unfold allPeers. rewrite <- (take_drop_middle (buckets t) i b Hb) at 1. by rewrite map_app, join_app. }
  rewrite Hall in Hlen, Hnew. rewrite !length_app in Hlen. rewrite !ids_app in Hnew.
  assert (Hl' : List b' = List b ++ [p']).
  { rewrite Hl, (Hc _ _ Hb). unfold lru_add. rewrite decide_False by set_solver.
    rewrite decide_False by lia. done. }
  unfold allPeers at 1. rewrite Hbs, insert_take_drop by (by eapply lookup_lt_Some).
  rewrite map_app, join_app. simpl. rewrite Hl', Hall. solve_Permutation.
Qed.

(** ** The network is a full mesh *)

(** Peers a table accepts. *)
Definition valid_peer (p : Peer) : Prop := wf_id (ID p) /\ ID p <> zeroID /\ Addr p <> "".

Section Mesh.
Context (seenAt : NodeID -> Peer -> Z).

Lemma connect_spec node peers :
  rt_inv (rt node) -> capacity bucketK (rt node) -> localID (rt node) = ID (peer node) ->
  Forall valid_peer peers -> NoDup (ids peers) ->
  (forall x, x ∈ ids peers -> x ∉ ids (allPeers (rt node))) ->
  Z.of_nat (length (allPeers (rt node)) + length peers) <= bucketK ->
  exists node', connect seenAt node peers = Ok node' /\ peer node' = peer node /\ store node' = store node /\
    rt_inv (rt node') /\ forall y a, (y, a) ∈ contacts (rt node') <->
      (y, a) ∈ contacts (rt node) \/ (y <> ID (peer node) /\ exists p, p ∈ peers /\ contact p = (y, a)).
Proof.
  revert node. induction peers as [|p peers IH]; intros node Hrt Hc Hloc Hv Hnd Hdis Hlen; cbn [connect].
  { exists node. split_and!; try done. intros y a. split; [by left|]. intros [?|(_ & ? & ?%elem_of_nil & _)]; done. }
  apply Forall_cons in Hv as [(Hw & Hz & Ha) Hv]. apply NoDup_cons in Hnd as [Hp Hnd]. simpl in Hlen.
  case_bool_decide as Hself.
  { destruct (IH node) as (node' & E & H1 & H2 & H3 & H4); try done; [set_solver|lia|].
    exists node'. split_and!; try done. intros y a. rewrite H4. unfold contact. set_solver. }
  destruct (AddPeer_room (seenAt (ID (peer node)) p) bucketK (rt node) p) as (t' & -> & H1 & H2 & H3 & H4);
    try done; [by rewrite Hloc|set_solver|lia|]. cbn [exec_bind fst].
  destruct (IH (mkDhtNode (peer node) t' (store node))) as (node' & E & I1 & I2 & I3 & I4); try done; simpl.
  - by rewrite H2.
  - intros x Hx Hin. unfold ids in Hin. rewrite (Permutation_map ID H4) in Hin. simpl in Hin.
    apply elem_of_cons in Hin as [->|Hin]; [done|]. eapply (Hdis x); [set_solver|exact Hin].
  - rewrite H4. simpl. lia.
  - exists node'. split_and!; try done. intros y a. rewrite I4. simpl. unfold contacts at 1.
    rewrite (Permutation_map contact H4). simpl. rewrite elem_of_cons. fold (contacts (rt node)).
    unfold contact. simpl. set_solver.
Qed.

Definition connected (peers : list Peer) (node : Node) : Node :=
  match connect seenAt node peers with Ok node' => node' | Panic => node end.

Lemma connectAll_spec order peers nodes : NoDup order ->
  (forall x n, x ∈ order -> nodes !! x = Some n -> connect seenAt n peers = Ok (connected peers n)) ->
  exists net, connectAll seenAt order peers nodes = Ok net /\
    forall x, net !! x = if decide (x ∈ order) then connected peers <$> nodes !! x else nodes !! x.
Proof.
  revert nodes. induction order as [|x order IH]; intros nodes Hnd Hok; cbn [connectAll].
  { exists nodes. split; [done|]. intros y. by rewrite decide_False by set_solver. }
  apply NoDup_cons in Hnd as [Hx Hnd]. destruct (nodes !! x) as [n|] eqn:En.
  - rewrite (Hok x n) by set_solver. cbn [exec_bind].
    destruct (IH (<[x := connected peers n]> nodes)) as (net & E & Hnet); [done| |].
    + intros y m Hy Hm. rewrite lookup_insert_ne in Hm by set_solver. apply (Hok y); [set_solver|done].
    + exists net. split; [done|]. intros y. rewrite Hnet. destruct (decide (y = x)) as [->|Hne].
      * rewrite decide_False by done. rewrite decide_True by set_solver. by rewrite lookup_insert_eq, En.
      * rewrite lookup_insert_ne by done. destruct (decide (y ∈ order)), (decide (y ∈ x :: order)); set_solver.
  - destruct (IH nodes) as (net & E & Hnet); [done|intros y m Hy; apply Hok; set_solver|].
    exists net. split; [done|]. intros y. rewrite Hnet. destruct (decide (y = x)) as [->|Hne].
    + rewrite decide_False by done. rewrite decide_True by set_solver. by rewrite En.
    + destruct (decide (y ∈ order)), (decide (y ∈ x :: order)); set_solver.
Qed.

Lemma connectAll_range order peers nodes : order ≡ₚ (map_to_list nodes).*1 ->
  (forall x n, nodes !! x = Some n -> connect seenAt n peers = Ok (connected peers n)) ->
  connectAll seenAt order peers nodes = Ok (connected peers <$> nodes).
Proof.
  intros Hrange Hok. destruct (connectAll_spec order peers nodes) as (net & -> & Hnet); [|by intros x n _; apply Hok|].
  { rewrite Hrange. apply NoDup_fst_map_to_list. }
  f_equal. apply map_eq. intros x. rewrite Hnet, lookup_fmap. case_decide as Hx; [done|].
  destruct (nodes !! x) as [n|] eqn:En; [|done]. destruct Hx. rewrite Hrange. apply list_elem_of_fmap.
  exists (x, n). split; [done|]. by apply elem_of_map_to_list.
Qed.

(** A network in which every node knows every other. *)
Record mesh (net : simNetwork) : Prop := {
  mesh_node x n : net !! x = Some n ->
    ID (peer n) = x /\ valid_peer (peer n) /\ rt_inv (rt n);
  mesh_key x n : net !! x = Some n -> x = KeyToID (Addr (peer n));
  mesh_knows x n : net !! x = Some n -> forall y a, (y, a) ∈ contacts (rt n) <->
    y <> x /\ exists m, net !! y = Some m /\ Addr (peer m) = a;
  mesh_size : 2 <= Z.of_nat (size net) <= bucketK }.

(** Names whose identifiers are distinct and not zero. *)
Definition good_names (names : list string) : Prop :=
  NoDup (map KeyToID names) /\ Forall (fun s => KeyToID s <> zeroID /\ s <> "") names.

Definition peerOf (name : string) : Peer := mkPeer (KeyToID name) name 0.

Lemma ids_peerOf names : ids (map peerOf names) = map KeyToID names.
Proof. unfold ids. by rewrite map_map. Qed.

Lemma valid_peerOf names : good_names names -> Forall valid_peer (map peerOf names).
Proof.
  intros [_ Hok]. apply Forall_map. eapply Forall_impl; [exact Hok|].
  intros s [Hz Hs]. split_and!; [apply KeyToID_wf|done|done].
Qed.

Lemma createNode_fold names nodes peers :
  NoDup (map KeyToID names) -> Forall (fun s => nodes !! KeyToID s = None) names ->
  let '(nodes', peers') := fold_left createNode names (nodes, peers) in
  peers' = peers ++ map peerOf names /\ size nodes' = (size nodes + length names)%nat /\
  forall x n, nodes' !! x = Some n <-> nodes !! x = Some n \/
    exists s, s ∈ names /\ x = KeyToID s /\ n = NewNode (KeyToID s) s bucketK.
Proof.
  revert nodes peers. induction names as [|s names IH]; intros nodes peers Hnd Hnew; cbn [fold_left].
  { rewrite app_nil_r. split_and!; [done|simpl; lia|]. intros x n. split; [by left|].
    intros [?|(? & ?%elem_of_nil & _)]; done. }
  apply NoDup_cons in Hnd as [Hs Hnd]. apply Forall_cons in Hnew as [Hn Hnew].
  unfold createNode at 2. specialize (IH (<[KeyToID s := NewNode (KeyToID s) s bucketK]> nodes)
    (peers ++ [peerOf s]) Hnd). change (peer (NewNode (KeyToID s) s bucketK)) with (peerOf s).
  destruct (fold_left createNode names _) as [nodes' peers']. destruct IH as (H1 & H2 & H3).
  { apply Forall_forall. intros y Hy. rewrite Forall_forall in Hnew. rewrite lookup_insert_ne; [by apply Hnew|].
    intros E. apply Hs. rewrite E. apply list_elem_of_fmap. by exists y. }
  split_and!.
  - by rewrite H1, <- app_assoc.
  - rewrite H2, map_size_insert_None by done. simpl. lia.
  - intros x n. rewrite H3. split.
    + intros [Hx|(y & Hy & Hr)]; [|right; exists y; split; [by right|exact Hr]].
      apply lookup_insert_Some in Hx as [[<- <-]|[_ Hx]]; [right|by left].
      exists s. split_and!; [by left|done|done].
    + intros [Hx|(y & Hy & -> & ->)].
      * left. rewrite lookup_insert_ne; [done|]. intros <-. congruence.
      * apply elem_of_cons in Hy as [->|Hy]; [left; apply lookup_insert_eq|right; eauto].
Qed.

Lemma NewNode_connect names s : good_names names -> Z.of_nat (length names) <= bucketK -> s ∈ names ->
  let n := connected (map peerOf names) (NewNode (KeyToID s) s bucketK) in
  connect seenAt (NewNode (KeyToID s) s bucketK) (map peerOf names) = Ok n /\
  peer n = peerOf s /\ store n = ∅ /\ rt_inv (rt n) /\
  forall y a, (y, a) ∈ contacts (rt n) <-> y <> KeyToID s /\ a ∈ names /\ y = KeyToID a.
Proof.
  intros Hg Hlen Hs. unfold connected.
  destruct (connect_spec (NewNode (KeyToID s) s bucketK) (map peerOf names)) as (n & -> & H1 & H2 & H3 & H4).
  - apply NewRoutingTable_inv, KeyToID_wf.
  - by apply NewRoutingTable_capacity.
  - reflexivity.
  - by apply valid_peerOf.
  - rewrite ids_peerOf. apply Hg.
  - intros x _. cbn [NewNode rt]. rewrite NewRoutingTable_empty. apply not_elem_of_nil.
  - cbn [NewNode rt]. rewrite NewRoutingTable_empty, length_map. exact Hlen.
  - split_and!; try done. intros y a. rewrite H4. cbn [NewNode rt peer ID]. unfold contacts at 1.
    rewrite NewRoutingTable_empty. split.
    + intros [?%elem_of_nil|(Hy & p & Hp & E)]; [done|]. apply list_elem_of_fmap in Hp as (b & -> & Hb).
      unfold contact, peerOf in E. simpl in E. by simplify_eq.
    + intros (Hy & Ha & ->). right. split; [done|]. exists (peerOf a). split; [|done].
      apply list_elem_of_fmap. by exists a.
Qed.

(** What [buildNetwork] gives: one node per name, all connected, nothing stored. *)
Lemma buildNetwork_mesh rangeNodes count :
  (forall net : simNetwork, rangeNodes net ≡ₚ (map_to_list net).*1) ->
  2 <= count <= bucketK -> good_names (map nodeName (seqZ 0 count)) ->
  exists net, buildNetwork seenAt rangeNodes count = Ok net /\ mesh net /\
    (forall x n, net !! x = Some n -> store n = ∅ /\ exists s, s ∈ map nodeName (seqZ 0 count) /\
       peer n = peerOf s) /\
    Z.of_nat (size net) = count /\
    forall s, s ∈ map nodeName (seqZ 0 count) -> exists n, net !! KeyToID s = Some n /\ peer n = peerOf s.
Proof.
  intros Hrange Hcount Hg. unfold buildNetwork. set (names := map nodeName (seqZ 0 count)) in *.
  assert (Hlen : Z.of_nat (length names) = count).
  { subst names. rewrite length_map, length_seqZ. lia. }
  clearbody names.
  pose proof (createNode_fold names ∅ [] (proj1 Hg)) as Hc.
  destruct (fold_left createNode names (∅, [])) as [nodes peers]. destruct Hc as (-> & Hsize & Hnodes).
  { apply Forall_forall. intros s _. apply lookup_empty. }
  cbn [app]. rewrite map_size_empty in Hsize. simpl in Hsize.
  assert (Hn : forall x n, nodes !! x = Some n -> exists s, s ∈ names /\ x = KeyToID s /\ n = NewNode (KeyToID s) s bucketK).
  { intros x n Hx. apply Hnodes in Hx as [Hx|?]; [by rewrite lookup_empty in Hx|done]. }
  rewrite connectAll_range; [|apply Hrange|intros x n (s & Hs & -> & ->)%Hn; apply NewNode_connect; [done|lia|done]].
  set (net := connected (map peerOf names) <$> nodes).
  assert (Hsome : forall s, s ∈ names -> net !! KeyToID s =
    Some (connected (map peerOf names) (NewNode (KeyToID s) s bucketK))).
  { intros s Hs. subst net. rewrite lookup_fmap, (proj2 (Hnodes _ (NewNode (KeyToID s) s bucketK))); [done|]. right. eauto. }
  assert (Hback : forall x n, net !! x = Some n -> exists s, s ∈ names /\ x = KeyToID s /\
    n = connected (map peerOf names) (NewNode (KeyToID s) s bucketK)).
  { intros x n Hx. subst net. rewrite lookup_fmap in Hx. apply fmap_Some in Hx as (m & Hm & ->).
    apply Hn in Hm as (s & Hs & -> & ->). eauto. }
  assert (Hsz : Z.of_nat (size net) = count) by (subst net; rewrite map_size_fmap; lia).
  pose proof (fun s => NewNode_connect names s Hg ltac:(lia)) as HC. cbv zeta in HC.
  exists net. split; [reflexivity|]. clearbody net. split; [|split_and!; [|exact Hsz|]].
  - split; [| | |lia].
    + intros x n (s & Hs & -> & ->)%Hback. destruct (HC s Hs) as (_ & Hp & _ & Hrt & _).
      split_and!; [by rewrite Hp|rewrite Hp|exact Hrt].
      pose proof (valid_peerOf names Hg) as Hv. rewrite Forall_map, Forall_forall in Hv. by apply Hv.
    + intros x n (s & Hs & -> & ->)%Hback. destruct (HC s Hs) as (_ & -> & _). done.
    + intros x n (s & Hs & -> & ->)%Hback y a. destruct (HC s Hs) as (_ & _ & _ & _ & Hk). rewrite Hk. split.
      * intros (Hy & Ha & ->). split; [done|]. eexists. split; [by apply Hsome|].
        destruct (HC a Ha) as (_ & -> & _). done.
      * intros (Hy & m & (b & Hb & -> & ->)%Hback & <-). split; [done|].
        destruct (HC b Hb) as (_ & -> & _). done.
  - intros x n (s & Hs & -> & ->)%Hback. destruct (HC s Hs) as (_ & Hp & Hst & _). eauto.
  - intros s Hs. eexists. split; [by apply Hsome|]. by destruct (HC s Hs) as (_ & ? & _).
Qed.
End Mesh.

(** ** Lookups in a mesh *)

(** Every peer a lookup hears of comes from its table or an answer. *)
Section HeardFrom.
Context {V : Type} (rangeMap : gmap NodeID Peer -> list Peer) (ask : list Peer -> Peer -> Answer V).
Context (ctxDone : nat -> bool) (P : Peer -> Prop).
Hypothesis Hask : forall h p ps, ask h p = Closer ps -> Forall P ps.

Lemma batch_heard_from batch st : Forall P (heard st) ->
  Forall P (heard (lookup_batch rangeMap ask batch st).1).
Proof using Hask.
  revert st. induction batch as [|q batch IH]; intros st Hst; simpl; [done|].
  destruct (ask (asked st) q) as [|v|ps] eqn:E; simpl; [by apply IH|done|].
  apply IH. simpl. apply Forall_app. split; [done|]. by eapply Hask.
Qed.

Lemma loop_heard_from target k alpha rounds round st : Forall P (heard st) ->
  Forall P (heard (lookup_loop rangeMap ask ctxDone target k alpha rounds round st).1).
Proof using Hask.
  revert round st. induction rounds as [|rounds IH]; intros round st Hst; simpl; [done|].
  destruct (ctxDone round); [done|]. case_bool_decide; [done|].
  pose proof (batch_heard_from (nextUnqueried (shortlist st) (queried st) alpha) st Hst) as Hb.
  destruct (lookup_batch _ _ _ _) as [st1 [v|]]; simpl in *; [done|]. by apply IH.
Qed.
End HeardFrom.

(** A lookup whose context is never done and that looks for nodes runs to its end. *)
Lemma loop_exhausted rangeMap (ask : list Peer -> Peer -> Answer Empty_set) target k alpha rounds round st :
  (lookup_loop rangeMap ask (fun _ => false) target k alpha rounds round st).2 = Exhausted.
Proof.
  revert round st. induction rounds as [|rounds IH]; intros round st; simpl; [done|].
  case_bool_decide; [done|]. by destruct (lookup_batch _ _ _ _) as [st1 [[]|]].
Qed.

Section MeshLookup.
Context (rangeMap : gmap NodeID Peer -> list Peer).
Hypothesis Hrange : forall m, rangeMap m ≡ₚ (map_to_list m).*2.
Context (net : simNetwork) (Hmesh : mesh net).

Lemma mesh_peers x n p : net !! x = Some n -> p ∈ allPeers (rt n) ->
  ID p <> x /\ exists m, net !! ID p = Some m /\ Addr (peer m) = Addr p.
Proof using Hmesh.
  intros Hn Hp. apply (mesh_knows _ Hmesh x n Hn (ID p) (Addr p)). apply elem_of_contacts. eauto.
Qed.

Lemma mesh_ids x n y : net !! x = Some n -> y ∈ ids (allPeers (rt n)) <-> y <> x /\ is_Some (net !! y).
Proof using Hmesh.
  intros Hn. rewrite elem_of_ids. split.
  - intros (p & Hp & <-). destruct (mesh_peers x n p Hn Hp) as (? & m & Hm & _). split; [done|by exists m].
  - intros [Hy [m Hm]]. assert (Hin : (y, Addr (peer m)) ∈ contacts (rt n)) by (apply (mesh_knows _ Hmesh x n Hn); eauto).
    apply elem_of_contacts in Hin as (p & Hp & Hid & _). by exists p.
Qed.

(** Distinct identifiers of the network are no more than its nodes. *)
Lemma ids_le_size (l : list NodeID) : NoDup l -> (forall y, y ∈ l -> is_Some (net !! y)) -> (length l <= size net)%nat.
Proof.
  intros Hnd Hl. assert (Hsub : l ⊆+ (map_to_list net).*1).
  { apply NoDup_submseteq; [done|]. intros y Hy. destruct (Hl y Hy) as [m Hm]. apply list_elem_of_fmap.
    exists (y, m). split; [done|]. by apply elem_of_map_to_list. }
  apply submseteq_length in Hsub. by rewrite length_fmap, length_map_to_list in Hsub.
Qed.

(** With at most twenty nodes a table answers with all it knows. *)
Lemma mesh_closest x n target : net !! x = Some n -> wf_id target ->
  GetClosestPeers (rt n) target bucketK ≡ₚ allPeers (rt n).
Proof using Hmesh.
  intros Hn Ht. rewrite GetClosestPeers_take, take_ge; [apply sort_perm|].
  rewrite sort_perm. destruct (mesh_node _ Hmesh x n Hn) as (_ & _ & Hrt).
  destruct (allPeers_wf _ Hrt) as [_ Hnd].
  pose proof (ids_le_size (ids (allPeers (rt n))) Hnd) as Hle.
  unfold ids in Hle at 2. rewrite length_map in Hle. pose proof (mesh_size _ Hmesh) as Hs.
  transitivity (size net); [|unfold bucketK in *; lia].
  apply Hle. intros y Hy. by apply (mesh_ids x n y Hn).
Qed.

Lemma mesh_other x : is_Some (net !! x) -> exists y, y <> x /\ is_Some (net !! y).
Proof using Hmesh.
  intros [n Hn]. destruct (decide (delete x net = ∅)) as [E|Hne].
  - pose proof (mesh_size _ Hmesh) as Hs. assert (Hsz : size net = S (size (delete x net))).
    { rewrite map_size_delete_Some by eauto.
      assert (size net <> 0%nat); [|lia]. intros E0%map_size_empty_inv. subst. by rewrite lookup_empty in Hn. }
    rewrite E, map_size_empty in Hsz. lia.
  - apply map_choose in Hne as (y & m & Hm). apply lookup_delete_Some in Hm as [? Hm]. exists y. split; [done|by exists m].
Qed.

Lemma mesh_answer target h p m : net !! ID p = Some m -> wf_id target ->
  exists ps, ask_node (findNode net) target h p = Closer ps /\ ps ≡ₚ allPeers (rt m).
Proof using Hmesh.
  intros Hm Ht. exists (GetClosestPeers (rt m) target bucketK). split; [|by apply (mesh_closest (ID p))].
  unfold ask_node, findNode. by rewrite Hm.
Qed.

Lemma elem_of_ids_perm l l' y : l ≡ₚ l' -> y ∈ ids l <-> y ∈ ids l'.
Proof. intros Hp. unfold ids. by rewrite (Permutation_map ID Hp). Qed.

(** The first peer a lookup asks is a node of the network. *)
Lemma mesh_first_batch x n alpha start : net !! x = Some n -> 1 <= alpha -> start ≡ₚ allPeers (rt n) ->
  exists p batch m, nextUnqueried start ∅ alpha = p :: batch /\ p ∈ start /\ net !! ID p = Some m.
Proof using Hmesh.
  intros Hn Ha Hstart. destruct (nextUnqueried_spec start ∅ alpha Ha) as (Hsub & _ & _ & Hempty).
  destruct (nextUnqueried start ∅ alpha) as [|p batch].
  { exfalso. specialize (Hempty eq_refl). destruct (mesh_other x) as (z & Hz & Hzn); [eauto|].
    assert (Hin : z ∈ ids start) by (rewrite (elem_of_ids_perm _ _ z Hstart); by apply (mesh_ids x n z Hn)).
    apply elem_of_ids in Hin as (q & Hq & _). rewrite Forall_forall in Hempty. by apply Hempty in Hq. }
  assert (Hp : p ∈ start) by (eapply elem_of_submseteq; [left|by apply sublist_submseteq]).
  pose proof Hp as Hp'. rewrite Hstart in Hp'. destruct (mesh_peers _ _ _ Hn Hp') as (_ & m & Hm & _). eauto 7.
Qed.

(** A lookup hears of exactly the nodes of the network. *)
Lemma mesh_heard x n target k alpha rounds start : net !! x = Some n -> wf_id target -> 1 <= alpha ->
  start ≡ₚ allPeers (rt n) ->
  let st := (lookup_loop rangeMap (ask_node (findNode net) target) (fun _ => false) target k alpha (S rounds) 0
               (mkLookup start ∅ [] start)).1 in
  forall y, y ∈ ids (heard st) <-> is_Some (net !! y).
Proof using Hmesh.
  intros Hn Ht Ha Hstart st y. split.
  - intros (p & Hp & <-)%elem_of_ids. revert p Hp. apply Forall_forall. subst st. apply loop_heard_from.
    + intros h p ps Hps. unfold ask_node, findNode in Hps. destruct (net !! ID p) as [m|] eqn:Hm; [|done].
      simpl in Hps. injection Hps as <-. apply Forall_forall. intros q Hq.
      rewrite (mesh_closest _ _ _ Hm Ht) in Hq. destruct (mesh_peers _ _ _ Hm Hq) as (_ & ? & ? & _). eauto.
    + apply Forall_forall. cbn [heard]. intros q Hq. rewrite Hstart in Hq.
      destruct (mesh_peers _ _ _ Hn Hq) as (_ & ? & ? & _). eauto.
  - intros Hy. subst st. cbn [lookup_loop].
    destruct (mesh_first_batch x n alpha start Hn Ha Hstart) as (p & batch & m & Hb & Hp & Hm).
    cbn [shortlist queried]. rewrite Hb, bool_decide_eq_false_2 by done.
    destruct (mesh_answer target [] p m Hm Ht) as (ps & Hans & Hps).
    assert (Hheard : y ∈ ids (heard (lookup_batch rangeMap (ask_node (findNode net) target) (p :: batch)
      (mkLookup start ∅ [] start)).1)).
    { cbn [lookup_batch asked]. rewrite Hans. cbn [shortlist queried heard].
      assert (Hin : y ∈ ids (start ++ ps)).
      { rewrite ids_app, elem_of_app. destruct (decide (y = ID p)) as [->|Hne].
        - left. apply elem_of_ids. eauto.
        - right. rewrite (elem_of_ids_perm _ _ y Hps). by apply (mesh_ids (ID p) m y Hm). }
      apply elem_of_ids in Hin as (q & Hq & <-). apply elem_of_ids. exists q. split; [|done].
      by apply batch_heard. }
    destruct (lookup_batch _ _ _ _) as [st1 [[]|]]. cbn [fst] in Hheard.
    apply elem_of_ids in Hheard as (q & Hq & <-). apply elem_of_ids. exists q. split; [|done].
    by apply loop_heard.
Qed.

Lemma run_simOptions {V} (ask : list Peer -> Peer -> Answer V) ctxDone (t : RoutingTable) target :
  lookup_run rangeMap ask ctxDone t target simOptions =
    let start := GetClosestPeers t target bucketK in
    if bool_decide (start = []) then inl ErrNoClosePeers
    else inr (lookup_loop rangeMap ask ctxDone target bucketK 3 20 0
                (mkLookup (sortPeersByDistance target start) ∅ [] (sortPeersByDistance target start))).
Proof. reflexivity. Qed.

Lemma mesh_closest_nonempty x n target : net !! x = Some n -> wf_id target ->
  GetClosestPeers (rt n) target bucketK <> [].
Proof using Hmesh.
  intros Hn Ht E. pose proof (mesh_closest x n target Hn Ht) as Hp. rewrite E in Hp.
  destruct (mesh_other x) as (z & Hz & Hzn); [eauto|].
  assert (Hin : z ∈ ids (allPeers (rt n))) by (by apply (mesh_ids x n z Hn)).
  rewrite <- (elem_of_ids_perm _ _ z Hp) in Hin. by apply elem_of_nil in Hin.
Qed.

(** ... and so returns all of them. *)
Lemma mesh_lookup x n target : net !! x = Some n -> wf_id target ->
  exists r, IterativeFindNode rangeMap (fun _ => false) (Some (rt n)) (Some (findNode net)) target simOptions = inr r /\
    forall y, y ∈ ids r <-> is_Some (net !! y).
Proof using Hmesh Hrange.
  intros Hn Ht. destruct (mesh_node _ Hmesh x n Hn) as (_ & _ & Hrt).
  assert (Hnet : net_inv net) by (intros y m Hy; apply (mesh_node _ Hmesh y m Hy)).
  unfold IterativeFindNode. fold (ask_node (findNode net) target).
  set (start := sortPeersByDistance target (GetClosestPeers (rt n) target bucketK)).
  assert (Hstart : start ≡ₚ allPeers (rt n)) by (subst start; rewrite sort_perm; by apply (mesh_closest x)).
  destruct (lookup_loop rangeMap (ask_node (findNode net) target) (fun _ => false) target bucketK 3 20 0
    (mkLookup start ∅ [] start)) as [st e] eqn:Hl.
  assert (Hrun : lookup_run rangeMap (ask_node (findNode net) target) (fun _ => false) (rt n) target simOptions = inr (st, e)).
  { rewrite run_simOptions. cbv zeta. rewrite bool_decide_eq_false_2 by (by apply (mesh_closest_nonempty x)).
    fold start. by rewrite Hl. }
  rewrite Hrun.
  pose proof (lookup_run_inv (H := RoutingTable_source) rangeMap (ask_node (findNode net) target) (fun _ => false) target Hrange
    (ask_node_wf (findNode net) target (fun h p ps q => findNode_wf net h p target ps q Hnet Ht)) Ht (rt n) simOptions
    bucketK 3 20 st e Hrt eq_refl Hrun) as (Hinv & Hs & _).
  pose proof (loop_exhausted rangeMap (ask_node (findNode net) target) target bucketK 3 20 0 (mkLookup start ∅ [] start)) as He.
  pose proof (mesh_heard x n target bucketK 3 19 start Hn Ht ltac:(lia) Hstart) as Hheard. cbv zeta in Hheard.
  rewrite Hl in He, Hheard. cbn [fst snd] in He, Hheard. subst e. destruct (Hs eq_refl) as [Hsorted _].
  eexists. split; [reflexivity|]. change (normalizeFindNodeOptions simOptions).1.1 with bucketK.
  destruct (final_closest rangeMap (findNode net) target Hrange
    (fun h p ps q => findNode_wf net h p target ps q Hnet Ht) Ht bucketK st ltac:(done) Hinv Hsorted) as (Hw & _ & _ & Hin & Hout).
  intros y. split; [intros Hy; by apply Hheard, Hin|]. intros Hy.
  destruct (decide (y ∈ ids (trimPeers (shortlist st) bucketK))) as [|Hnot]; [done|exfalso].
  destruct Hy as [m Hm]. destruct (mesh_node _ Hmesh y m Hm) as (Hid & (_ & Hz & _) & _).
  destruct (Hout y) as [Hlen _]; [apply Hheard; eauto|congruence|done|].
  pose proof (ids_le_size (y :: ids (trimPeers (shortlist st) bucketK))) as Hle. simpl in Hle.
  unfold ids in Hle at 3. rewrite length_map in Hle. pose proof (mesh_size _ Hmesh) as Hsz.
  assert (S (length (trimPeers (shortlist st) bucketK)) <= size net)%nat; [|lia]. apply Hle.
  - apply NoDup_cons. split; [done|apply Hw].
  - intros z [->|Hz']%elem_of_cons; [eauto|]. by apply Hheard, Hin.
Qed.

(** ** Storing and finding in a mesh *)

Lemma storeAll_ok key value peers nodes : (forall p, p ∈ peers -> is_Some (nodes !! ID p)) ->
  (storeAll storeValue nodes key value peers).2 = None.
Proof.
  revert nodes. induction peers as [|p peers IH]; intros nodes Hin; cbn [storeAll]; [done|].
  unfold storeValue. destruct (Hin p) as [m Hm]; [left|]. rewrite Hm. simpl.
  apply IH. intros q Hq. apply lookup_insert_is_Some. destruct (decide (ID p = ID q)); [by left|right].
  split; [done|]. apply Hin. by right.
Qed.

(** A value stored by any node is stored by all of them. *)
Lemma mesh_store x n key value : net !! x = Some n ->
  exists r, IterativeStore rangeMap (fun _ => false) (Some (rt n)) (Some (findNode net)) (Some storeValue)
    net key value simOptions = ((fun m => StoreLocal m key value) <$> net, r, None).
Proof using Hmesh Hrange.
  intros Hn. unfold IterativeStore.
  destruct (mesh_lookup x n (KeyToID key) Hn (KeyToID_wf key)) as (r & -> & Hr).
  pose proof (storeAll_ok key value r net) as Hok.
  destruct (storeAll storeValue net key value r) as [net' err] eqn:E. simpl in Hok.
  rewrite Hok by (intros p Hp; apply Hr, elem_of_ids; eauto).
  destruct (storeAll_spec _ _ _ _ _ _ E) as (H1 & H2 & H3).
  assert (err = None) as -> by (apply Hok; intros p Hp; apply Hr, elem_of_ids; eauto).
  specialize (H3 eq_refl). exists r. do 2 f_equal. apply map_eq. intros y. rewrite lookup_fmap.
  destruct (net' !! y) as [m'|] eqn:Hy.
  - destruct (H1 _ _ Hy) as (m & Hm & Hrt & Hp & Hor). rewrite Hm. simpl. f_equal.
    assert (Hst : store m' = <[key := value]> (store m)).
    { destruct Hor as [->|[_ ?]]; [|done]. symmetry. apply insert_id.
      assert (Hin : y ∈ ids r) by (apply Hr; eauto). apply elem_of_ids in Hin as (p & Hpr & <-).
      destruct (H3 p Hpr) as (m2 & Hm2 & Hv). congruence. }
    destruct m', m. unfold StoreLocal. simpl in *. congruence.
  - destruct (net !! y) as [m|] eqn:Hm; [|done]. destruct (proj1 (H2 y)) as [? ?]; [by eauto|congruence].
Qed.

(** What every node stores is found from any node. *)
Lemma mesh_find x n key value : net !! x = Some n ->
  (forall y m, net !! y = Some m -> store m !! key = Some value) ->
  IterativeFindValue rangeMap (fun _ => false) (Some (rt n)) (Some (findValue net)) key simOptions =
    (Some value, [], None).
Proof using Hmesh.
  intros Hn Hall. unfold IterativeFindValue. pose proof (KeyToID_wf key) as Ht.
  rewrite run_simOptions. cbv zeta. rewrite bool_decide_eq_false_2 by (by apply (mesh_closest_nonempty x)).
  set (start := sortPeersByDistance _ _). assert (Hstart : start ≡ₚ allPeers (rt n)).
  { subst start. rewrite sort_perm. by apply (mesh_closest x). }
  destruct (mesh_first_batch x n 3 start Hn ltac:(lia) Hstart) as (p & batch & m & Hb & Hp & Hm).
  cbn [lookup_loop shortlist queried]. rewrite Hb, bool_decide_eq_false_2 by done. cbn [lookup_batch].
  unfold findValue at 1. rewrite Hm. unfold HandleFindValue, FindValueLocal. rewrite (Hall _ _ Hm). done.
Qed.
End MeshLookup.

Lemma mesh_fmap f net : (forall n, peer (f n) = peer n /\ rt (f n) = rt n) -> mesh net -> mesh (f <$> net).
Proof.
  intros Hf [H1 H0 H2 H3].
  assert (Hb : forall x n, (f <$> net) !! x = Some n -> exists m, net !! x = Some m /\ n = f m).
  { intros x n Hx. rewrite lookup_fmap in Hx. apply fmap_Some in Hx as (m & ? & ->). eauto. }
  split.
  - intros x n (m & Hm & ->)%Hb. destruct (Hf m) as [-> ->]. by apply H1.
  - intros x n (m & Hm & ->)%Hb. destruct (Hf m) as [-> _]. by apply H0.
  - intros x n (m & Hm & ->)%Hb y a. destruct (Hf m) as [_ ->]. rewrite (H2 x m Hm). split.
    + intros (Hy & z & Hz & Ha). split; [done|]. exists (f z). rewrite lookup_fmap, Hz. split; [done|].
      by rewrite (proj1 (Hf z)).
    + intros (Hy & z & (w & Hw & ->)%Hb & Ha). split; [done|]. exists w. split; [done|].
      by rewrite <- (proj1 (Hf w)).
  - by rewrite map_size_fmap.
Qed.

Lemma bytes_append a b : bytes_of (String.append a b) = bytes_of a ++ bytes_of b.
Proof. unfold bytes_of. induction a as [|x a IH]; simpl; [done|]. by f_equal. Qed.

Lemma sensorKey_inj a b : sensorKey a = sensorKey b -> a = b.
Proof.
  intros E%(f_equal bytes_of). unfold sensorKey in E. rewrite !bytes_append in E.
  simplify_list_eq. rewrite <- (string_bytes a), <- (string_bytes b). by f_equal.
Qed.
