(* ===== verification/DhtSimRun.v ===== *)
(** * A run of the DHT simulator (src/cmd/dhtsim/main.go)

    The phases of [main] in a full mesh: every reading is published everywhere and
    found again from any node, the region query finds its centre, and the gossip
    simulation stays within the network and its two seconds. *)

From Stdlib Require Import Ascii String.
From stdpp Require Import base strings list sorting sets gmap relations.
From S2P Require Import Prelude GoFloat GossipSim Sensor.
From S2P Require Import GoBytes Sha256 DhtId DhtBucket DhtRouting DhtLookup.
From S2P Require Import GoUtf8 GoJson GoTime SensorCodec DhtStore DhtSim.

#[local] Open Scope Z_scope.
#[local] Open Scope go_scope.
#[local] Set Default Proof Using "Type".

(** ** Publishing and querying every reading *)

Section PhaseFacts.
Context {R : Type} {Hrand : Rand R} {Htrig : Trig}.
Context (rangeMap : gmap NodeID Peer -> list Peer) (readAt : string -> Z).
Hypothesis Hrange : forall m, rangeMap m ≡ₚ (map_to_list m).*2.

Definition payloadOf (addr : string) : list Z := default [] (EncodeReading (readingOf readAt addr)).

(** The addresses of the nodes visited. *)
Definition addrsOf (net : simNetwork) (order : list NodeID) : list string :=
  omap (fun x => (fun n => Addr (peer n)) <$> net !! x) order.

(** A node after the readings of [addrs] were stored at it. *)
Definition withReadings (addrs : list string) (n : Node) : Node :=
  fold_left (fun n a => StoreLocal n (sensorKey a) (payloadOf a)) addrs n.

Lemma withReadings_same addrs n : peer (withReadings addrs n) = peer n /\ rt (withReadings addrs n) = rt n.
Proof. revert n. induction addrs as [|a addrs IH]; intros n; simpl; [done|]. destruct (IH (StoreLocal n (sensorKey a) (payloadOf a))) as [-> ->]. done. Qed.

Lemma withReadings_store addrs n a :
  store (withReadings addrs n) !! sensorKey a =
    if decide (a ∈ addrs) then Some (payloadOf a) else store n !! sensorKey a.
Proof.
  revert n. induction addrs as [|b addrs IH]; intros n; simpl; [done|]. rewrite IH.
  destruct (decide (a ∈ addrs)) as [Ha|Ha]; [rewrite decide_True by (by right); done|]. simpl.
  destruct (decide (a = b)) as [->|Hne].
  - rewrite decide_True by (by left). apply lookup_insert_eq.
  - rewrite decide_False; [|by intros [?|?]%elem_of_cons]. apply lookup_insert_ne. by intros ?%sensorKey_inj.
Qed.

Lemma addrsOf_fmap f net order : (forall n, peer (f n) = peer n) -> addrsOf (f <$> net) order = addrsOf net order.
Proof.
  intros Hf. unfold addrsOf. induction order as [|x order IH]; cbn [omap list_omap]; [done|].
  rewrite lookup_fmap, IH.
  destruct (net !! x); simpl; [by rewrite Hf|done].
Qed.

Lemma publish_all order net : mesh net ->
  (forall x n, net !! x = Some n -> is_Some (EncodeReading (readingOf readAt (Addr (peer n))))) ->
  publishSensorReadings rangeMap readAt order net =
    (withReadings (addrsOf net order) <$> net, None).
Proof using Hrange.
  revert net. induction order as [|x order IH]; intros net Hmesh Henc; cbn [publishSensorReadings].
  { simpl. by rewrite map_fmap_id. }
  unfold addrsOf. cbn [omap list_omap]. destruct (net !! x) as [n|] eqn:Hn; [|by apply IH].
  cbn [fmap option_fmap option_map]. destruct (Henc _ _ Hn) as [payload Hp]. rewrite Hp.
  destruct (mesh_store rangeMap Hrange net Hmesh x n (sensorKey (Addr (peer n))) payload Hn) as [r ->].
  set (f := fun m => StoreLocal m (sensorKey (Addr (peer n))) payload).
  rewrite IH.
  - rewrite addrsOf_fmap by done. f_equal. rewrite <- map_fmap_compose. apply map_fmap_ext. intros y m _. simpl.
    subst f. simpl. unfold payloadOf. by rewrite Hp.
  - by apply mesh_fmap.
  - intros y m Hy. rewrite lookup_fmap in Hy. apply fmap_Some in Hy as (w & Hw & ->). exact (Henc y w Hw).
Qed.

Lemma readingOf_NodeID addr : Sensor.NodeID (readingOf readAt addr) = addr.
Proof. unfold readingOf, Next, NewGenerator. destruct (Float64 _), (NormFloat64 _). reflexivity. Qed.

Lemma query_all x anchor net order acc : mesh net -> net !! x = Some anchor ->
  (forall y n a, net !! y = Some n -> a ∈ addrsOf net order -> store n !! sensorKey a = Some (payloadOf a)) ->
  (forall a, a ∈ addrsOf net order -> DecodeReading (payloadOf a) = Some (readingOf readAt a)) ->
  queryReadings rangeMap anchor net order acc =
    inr (acc ++ map (readingOf readAt) (addrsOf net order)).
Proof.
  intros Hmesh Ha. revert acc. induction order as [|y order IH]; intros acc Hst Hdec; cbn [queryReadings].
  { by rewrite app_nil_r. }
  unfold addrsOf in *. cbn [omap list_omap] in *. destruct (net !! y) as [n|] eqn:Hn; [|by apply IH].
  cbn [fmap option_fmap option_map] in *.
  rewrite (mesh_find rangeMap net Hmesh x anchor _ (payloadOf (Addr (peer n))) Ha)
    by (intros z m Hz; apply (Hst z); [done|left]).
  simpl default. rewrite Hdec by left. rewrite readingOf_NodeID, bool_decide_eq_true_2 by done. simpl negb. cbv iota.
  rewrite IH; [by rewrite <- app_assoc| |].
  - intros z m a Hz Hin. apply (Hst z); [done|by right].
  - intros a Hin. apply Hdec. by right.
Qed.

Lemma readingOf_wf addr : wf_reading (readingOf readAt addr) /\ Loc (readingOf readAt addr) = LocationFromSeed addr.
Proof.
  destruct (NewGenerator_wf (R := R) addr (LocationFromSeed addr)) as (Hg & _ & Hl & _).
  pose proof (Next_wf (readAt addr) _ Hg) as Hn. unfold readingOf.
  destruct (Next (readAt addr) _) as [r g]. destruct Hn as (_ & _ & _ & _ & H2 & _ & H3). cbn [fst].
  rewrite Hl in H2. split; [|exact H2]. split; [exact H3|]. rewrite H2. apply LocationFromSeed_wf.
Qed.

(** A region around one of the readings is never empty. *)
Lemma region_around_first addrs : addrs <> [] -> Z.of_nat (length addrs) < 2 ^ 47 ->
  exists avg n, runRegionQuery (map (readingOf readAt) addrs) = inr (avg, n) /\
    wf_temperature avg /\ 1 <= n <= Z.of_nat (length addrs).
Proof.
  intros Hne Hlen. destruct addrs as [|a addrs]; [done|]. set (rs := map (readingOf readAt) (a :: addrs)).
  assert (Hrs : Forall wf_reading rs) by (apply Forall_map, Forall_forall; intros b _; apply readingOf_wf).
  assert (Hl : length rs = length (a :: addrs)) by apply length_map. rewrite <- Hl in *. clear Hl.
  pose proof (AverageTemperatureInRadius_spec rs (Loc (readingOf readAt a)) (f_of_int 10) Hrs Hlen) as HA.
  cbv zeta in HA. change (runRegionQuery rs) with
    (QueryAPI_AverageTemperatureInRadius rs (Loc (readingOf readAt a)) (f_of_int 10)).
  unfold QueryAPI_AverageTemperatureInRadius.
  destruct (AverageTemperatureInRadius rs (Loc (readingOf readAt a)) (f_of_int 10)) as [err|[avg n]].
  - exfalso. destruct HA as (_ & _ & Hno). apply (Hno (readingOf readAt a)); [left| |reflexivity].
    vm_compute. reflexivity.
  - destruct HA as (Hn & Hpos & Havg). exists avg, n. split; [reflexivity|]. split; [exact Havg|].
    pose proof (sublist_length _ _ (FilterByRadius_sublist rs (Loc (readingOf readAt a)) (f_of_int 10))). lia.
Qed.
End PhaseFacts.

(** ** The nodes a loop visits *)

Lemma visited_perm (net : simNetwork) order : order ≡ₚ (map_to_list net).*1 ->
  omap (fun x => net !! x) order ≡ₚ (map_to_list net).*2.
Proof.
  intros Hp. rewrite Hp. clear Hp. assert (Hin : forall x n, (x, n) ∈ map_to_list net -> net !! x = Some n)
    by (intros x n; apply elem_of_map_to_list).
  induction (map_to_list net) as [|[x n] l IH]; [done|]. cbn [fmap list_fmap omap list_omap fst snd].
  rewrite (Hin x n) by left. constructor. apply IH. intros y m Hy. apply Hin. by right.
Qed.

Lemma addrsOf_visited net order : addrsOf net order = map (fun n => Addr (peer n)) (omap (fun x => net !! x) order).
Proof.
  unfold addrsOf. induction order as [|x order IH]; [done|]. cbn [omap list_omap]. rewrite IH.
  by destruct (net !! x).
Qed.

Section Visited.
Context (net : simNetwork) (Hmesh : mesh net) (order : list NodeID).
Hypothesis Horder : order ≡ₚ (map_to_list net).*1.

Lemma elem_of_visited n : n ∈ omap (fun x => net !! x) order <-> net !! ID (peer n) = Some n.
Proof using Hmesh Horder.
  rewrite (visited_perm net order Horder), list_elem_of_fmap. split.
  - intros ([x m] & -> & Hm%elem_of_map_to_list). simpl. by rewrite (proj1 (mesh_node _ Hmesh x m Hm)).
  - intros Hn. exists (ID (peer n), n). split; [done|]. by apply elem_of_map_to_list.
Qed.

Lemma length_visited : length (omap (fun x => net !! x) order) = size net.
Proof using Horder. by rewrite (visited_perm net order Horder), length_fmap, length_map_to_list. Qed.

Lemma elem_of_addrs a : a ∈ addrsOf net order <-> exists n, net !! KeyToID a = Some n /\ Addr (peer n) = a.
Proof using Hmesh Horder.
  rewrite addrsOf_visited, list_elem_of_fmap. setoid_rewrite elem_of_visited. split.
  - intros (n & -> & Hn). exists n. by rewrite <- (mesh_key _ Hmesh _ n Hn).
  - intros (n & Hn & Ha). exists n. split; [done|]. by rewrite (proj1 (mesh_node _ Hmesh _ n Hn)).
Qed.

Lemma NoDup_addrs : NoDup (addrsOf net order).
Proof using Hmesh Horder.
  apply (NoDup_fmap_1 KeyToID). rewrite addrsOf_visited.
  assert (E : KeyToID <$> map (fun n => Addr (peer n)) (omap (fun x => net !! x) order) ≡ₚ (map_to_list net).*1).
  { rewrite (visited_perm net order Horder). clear Horder.
    assert (Hin : forall x n, (x, n) ∈ map_to_list net -> x = KeyToID (Addr (peer n)))
      by (intros x n Hx%elem_of_map_to_list; by apply (mesh_key _ Hmesh)).
    induction (map_to_list net) as [|[x n] l IH]; [done|]. simpl. rewrite <- (Hin x n) by left. constructor.
    apply IH. intros y m Hy. apply Hin. by right. }
  rewrite E. apply NoDup_fst_map_to_list.
Qed.

Lemma length_addrs : length (addrsOf net order) = size net.
Proof using Hmesh Horder. rewrite addrsOf_visited, length_map. apply length_visited. Qed.
End Visited.

(** ** Gossip over a mesh *)

Section MeshGossip.
Context (rangeSet : nat -> gset string -> list string)
        (Hset : forall k (X : gset string), rangeSet k X ≡ₚ elements X).
Context (net : simNetwork) (Hmesh : mesh net) (order : list NodeID).
Hypothesis Horder : order ≡ₚ (map_to_list net).*1.

Definition gossipNodes : list GossipSim.Node := map gossipNode (omap (fun x => net !! x) order).

(** A node gossips to the addresses of all other nodes. *)
Lemma gossipNode_peers n : net !! ID (peer n) = Some n ->
  (forall b, b ∈ Peers (gossipNode n) <-> b <> Addr (peer n) /\ b ∈ addrsOf net order) /\
  length (Peers (gossipNode n)) = length (allPeers (rt n)).
Proof using Hmesh Horder.
  intros Hn. destruct (mesh_node _ Hmesh _ _ Hn) as (_ & (Hw & _ & _) & _).
  pose proof (mesh_closest net Hmesh _ n (ID (peer n)) Hn Hw) as Hp. simpl. split.
  - intros b. rewrite (Permutation_map Addr Hp), list_elem_of_fmap, (elem_of_addrs net Hmesh order Horder). split.
    + intros (p & -> & Hin). destruct (mesh_peers net Hmesh _ _ _ Hn Hin) as (Hne & m & Hm & Ha).
      pose proof (mesh_key _ Hmesh _ _ Hm) as Hk. rewrite Ha in Hk. split; [|exists m; by rewrite <- Hk].
      intros E. apply Hne. rewrite Hk, E. symmetry. by apply (mesh_key _ Hmesh).
    + intros (Hne & m & Hm & Ha). assert (Hin : (KeyToID b, b) ∈ contacts (rt n)).
      { apply (mesh_knows _ Hmesh _ _ Hn). split; [|eauto]. intros E. rewrite E, Hn in Hm. congruence. }
      apply elem_of_contacts in Hin as (p & Hin & _ & Hb). eauto.
  - by rewrite length_map, Hp.
Qed.

Lemma gossip_table a ps : peersByID gossipNodes !! a = Some ps ->
  a ∈ addrsOf net order /\ (forall b, b ∈ ps <-> b <> a /\ b ∈ addrsOf net order) /\ (length ps < size net)%nat.
Proof using Hmesh Horder.
  intros Hps%peersByID_spec. apply list_elem_of_fmap in Hps as (n & E & Hn%(elem_of_visited net Hmesh order Horder)).
  pose proof (gossipNode_peers n Hn) as [Hb Hl]. rewrite <- E in Hb, Hl. cbn [Peers] in Hb, Hl.
  assert (Addr (peer n) = a) as <- by (unfold gossipNode in E; by simplify_eq).
  split; [|split; [exact Hb|]].
  - apply (elem_of_addrs net Hmesh order Horder). exists n. split; [|done]. by rewrite <- (mesh_key _ Hmesh _ n Hn).
  - rewrite Hl. destruct (mesh_node _ Hmesh _ n Hn) as (_ & _ & Hrt). destruct (allPeers_wf _ Hrt) as [_ Hnd].
    pose proof (ids_le_size net (ID (peer n) :: ids (allPeers (rt n)))) as Hle. simpl in Hle.
    unfold ids in Hle at 3. rewrite length_map in Hle. apply Hle.
    + apply NoDup_cons. split; [|done]. rewrite (mesh_ids net Hmesh _ n _ Hn). tauto.
    + intros y [->|Hy]%elem_of_cons; [eauto|]. by apply (mesh_ids net Hmesh _ n _ Hn).
Qed.

(** Gossip stays within the network. *)
Lemma mesh_ball a k : a ∈ addrsOf net order -> forall b, b ∈ ball (peersByID gossipNodes) a k -> b ∈ addrsOf net order.
Proof using Hmesh Horder.
  intros Ha. induction k as [|k IH]; intros b; cbn [ball]; [by intros ->%elem_of_singleton|].
  rewrite elem_of_union, elem_of_list_to_set, elem_of_neighbours. intros [?|(c & Hc & ps & Hps & Hb)]; [auto|].
  by apply (gossip_table c ps Hps) in Hb as [_ ?].
Qed.

(** One hop reaches everybody. *)
Lemma mesh_ball_1 a : a ∈ addrsOf net order -> size (ball (peersByID gossipNodes) a 1) = size net.
Proof using Hmesh Horder.
  intros Ha. rewrite <- (length_addrs net Hmesh order Horder).
  rewrite <- (size_list_to_set (C := gset string)) by (by apply NoDup_addrs). f_equal. apply set_eq. intros b.
  rewrite elem_of_list_to_set. split; [by apply mesh_ball|]. intros Hb. cbn [ball].
  rewrite elem_of_union, elem_of_list_to_set, elem_of_neighbours.
  destruct (decide (b = a)) as [->|Hne]; [left; by apply elem_of_singleton|right].
  exists a. split; [by apply elem_of_singleton|].
  pose proof Ha as Ha'. apply (elem_of_addrs net Hmesh order Horder) in Ha' as (n & Hn & Han).
  destruct (proj2 (peersByID_spec gossipNodes) (gossipNode n)) as [ps Hps].
  { apply list_elem_of_fmap. exists n. split; [done|]. apply (elem_of_visited net Hmesh order Horder).
    by rewrite (proj1 (mesh_node _ Hmesh _ n Hn)). }
  simpl in Hps. rewrite Han in Hps. exists ps. split; [done|]. by apply (gossip_table a ps Hps).
Qed.

Definition targetRatio : float64 := f_const 9 10.

Lemma gossip_accepts first rest : gossipNodes = first :: rest ->
  accepts gossipNodes (GossipSim.ID first) 3 targetRatio 20 /\ GossipSim.ID first ∈ addrsOf net order.
Proof.
  intros E. assert (Hin : first ∈ gossipNodes) by (rewrite E; left). split.
  - split; [rewrite E; discriminate|]. split; [lia|]. split; [vm_compute; reflexivity|].
    split; [vm_compute; reflexivity|]. split; [lia|]. by apply (peersByID_spec gossipNodes).
  - unfold gossipNodes in Hin. apply list_elem_of_fmap in Hin as (n & -> & Hn). rewrite addrsOf_visited.
    apply list_elem_of_fmap. by exists n.
Qed.

Lemma full_ratio c : 2 <= c <= 4 -> f_le targetRatio (f_div (f_of_int c) (f_of_int c)) = true.
Proof.
  intros Hc. assert (c = 2 \/ c = 3 \/ c = 4) as [->|[->| ->]] by lia; vm_compute; reflexivity.
Qed.

Lemma length_gossipNodes : length gossipNodes = size net.
Proof using Horder. unfold gossipNodes. rewrite length_map. by apply length_visited. Qed.

(** A run over any randomness. *)
Lemma mesh_propagation rng initial : accepts gossipNodes initial 3 targetRatio 20 -> initial ∈ addrsOf net order ->
  let '(res, err) := SimulatePropagation rangeSet (Some (mkSimulator (Some rng))) gossipNodes initial 3 targetRatio 20 in
  1 <= Steps res <= 20 /\ 1 <= ReachedCount res <= Z.of_nat (size net) /\ Total res = Z.of_nat (size net) /\
  (err = None /\ f_le targetRatio (ReachedRatio res) = true \/ err = Some ErrNotReached).
Proof using Hmesh Horder Hset.
  intros Hacc Hin. rewrite Simulate_accepts by done.
  pose proof (rounds_sound rangeSet Hset (peersByID gossipNodes) 3 rng targetRatio (Z.of_nat (length gossipNodes))
    initial (Z.to_nat 20) 0 (ball (peersByID gossipNodes) initial 0) 0) as Hr.
  destruct (rounds _ _ _ _ _ _ _ _ _ _) as [res err].
  destruct Hr as (j & X & H1 & H2 & H3 & H4 & H5 & (Hc & _ & Ht & Hor) & _); [reflexivity|right; lia|].
  assert (Hle : (size X <= size net)%nat).
  { rewrite <- (length_addrs net Hmesh order Horder).
    rewrite <- (size_list_to_set (C := gset string)) by (by apply NoDup_addrs).
    apply subseteq_size. intros b Hb. apply elem_of_list_to_set. eapply mesh_ball; [exact Hin|]. by apply H5. }
  assert (Hpos : size X <> 0%nat).
  { intros E%size_empty_inv. apply (not_elem_of_empty (C := gset string) initial), E, H4. by apply elem_of_singleton. }
  rewrite length_gossipNodes in Ht. split; [lia|]. split; [lia|]. split; [exact Ht|].
  destruct Hor as [Hor|[Hor _]]; [left|right]; exact Hor.
Qed.

(** Up to four nodes reach each other in one step. *)
Lemma small_propagation rng initial : accepts gossipNodes initial 3 targetRatio 20 -> initial ∈ addrsOf net order ->
  Z.of_nat (size net) <= 4 ->
  (SimulatePropagation rangeSet (Some (mkSimulator (Some rng))) gossipNodes initial 3 targetRatio 20).2 = None.
Proof using Hmesh Horder Hset.
  intros Hacc Hin Hsmall. rewrite Simulate_accepts by done.
  pose proof (rounds_full rangeSet Hset (peersByID gossipNodes) 3 rng targetRatio (Z.of_nat (length gossipNodes))
    initial (Z.to_nat 20) 0 0 ltac:(lia)) as Hr.
  destruct (rounds _ _ _ _ _ _ _ _ _ _) as [res err].
  assert (Hfull : full_fanout (peersByID gossipNodes) 3).
  { intros a ps Hps. apply gossip_table in Hps as (_ & _ & Hl). lia. }
  destruct (Hr Hfull) as (j & H1 & H2 & H3 & (_ & Hratio & _ & Hor) & _ & Hfirst); [right; lia|]. clear Hr.
  assert (Hone : f_le targetRatio (ratioOf (ball (peersByID gossipNodes) initial 1) (Z.of_nat (length gossipNodes))) = true).
  { unfold ratioOf. rewrite mesh_ball_1, length_gossipNodes by done. apply full_ratio.
    pose proof (mesh_size _ Hmesh). lia. }
  assert (j = 1%nat) as ->.
  { destruct (decide (j = 1%nat)) as [|Hj]; [done|]. exfalso.
    pose proof (Hfirst 1%nat ltac:(lia)) as Hno. rewrite Hone in Hno. discriminate Hno. }
  destruct Hor as [[Hor _]|[_ Hno]]; [exact Hor|]. rewrite Hratio, Hone in Hno. discriminate Hno.
Qed.

Lemma gossip_outcome source :
  match runGossipSimulation rangeSet source order net with
  | inl err => err = PropagationFailed ErrNotReached /\ 4 < Z.of_nat (size net)
  | inr res => 1 <= Steps res <= 20 /\ 1 <= ReachedCount res <= Z.of_nat (size net) /\
      Total res = Z.of_nat (size net) /\ f_le targetRatio (ReachedRatio res) = true
  end.
Proof using Hmesh Horder Hset.
  unfold runGossipSimulation. fold gossipNodes. pose proof length_gossipNodes as Hlen.
  pose proof (mesh_size _ Hmesh) as Hs. destruct gossipNodes as [|first rest] eqn:E; [simpl in Hlen; lia|].
  rewrite <- E in *. destruct (gossip_accepts first rest E) as [Hacc Hin].
  pose proof (mesh_propagation (source 42) _ Hacc Hin) as Hr. pose proof (small_propagation (source 42) _ Hacc Hin) as Hsmall.
  cbv zeta. unfold NewSimulator. fold targetRatio.
  destruct (SimulatePropagation _ _ _ _ _ _ _) as [res err]. cbn [snd] in Hsmall.
  destruct Hr as (H1 & H2 & H3 & [[-> H4]| ->]).
  - rewrite i64_id by lia. destruct (Z.ltb_spec (2 * 1000000000) (Steps res * (100 * 1000000))); [lia|].
    split; [exact H1|]. split; [exact H2|]. split; [exact H3|exact H4].
  - split; [reflexivity|]. destruct (Z.lt_ge_cases 4 (Z.of_nat (size net))) as [|Hle]; [done|].
    discriminate (Hsmall Hle).
Qed.
End MeshGossip.

(** ** The names of the simulated nodes *)

Definition nodeNames (count : Z) : list string := map nodeName (seqZ 0 count).

Lemma good_names_20 : good_names (nodeNames peerCount).
Proof.
  split.
  - apply (bool_decide_eq_true_1 _). vm_compute. reflexivity.
  - apply (bool_decide_eq_true_1 _). vm_compute. reflexivity.
Qed.

Lemma good_nodeNames count : 0 <= count <= peerCount -> good_names (nodeNames count).
Proof.
  intros Hc. destruct good_names_20 as [H1 H2].
  assert (E : nodeNames peerCount = nodeNames count ++ map nodeName (seqZ count (peerCount - count))).
  { unfold nodeNames. rewrite <- map_app. f_equal.
    pose proof (seqZ_app 0 count (peerCount - count) ltac:(lia) ltac:(lia)) as Hz.
    by rewrite Zplus_minus in Hz. }
  rewrite E in H1, H2. rewrite map_app in H1. apply NoDup_app in H1 as [H1 _]. apply Forall_app in H2 as [H2 _].
  split; assumption.
Qed.

Section Run.
Context {R : Type} {Hrand : Rand R} {Htrig : Trig}.
Context (rangeMap : gmap NodeID Peer -> list Peer) (seenAt : NodeID -> Peer -> Z) (readAt : string -> Z).
Context (rangeNodes : nat -> simNetwork -> list NodeID).
Context (rangeSet : nat -> gset string -> list string) (source : Z -> Rng).
(** The loops over maps visit every entry once. *)
Hypothesis Hmap : forall m, rangeMap m ≡ₚ (map_to_list m).*2.
Hypothesis Hnodes : forall i net, rangeNodes i net ≡ₚ (map_to_list net).*1.
Hypothesis Hset : forall k (X : gset string), rangeSet k X ≡ₚ elements X.

(** The names of the nodes are ASCII. *)
Lemma nodeNames_valid count a : count <= peerCount -> a ∈ nodeNames count -> ValidString a = true.
Proof.
  intros Hc Ha. assert (H : forallb ValidString (nodeNames peerCount) = true) by (vm_compute; reflexivity).
  rewrite forallb_Forall, Forall_forall in H. apply H. unfold nodeNames in *. apply list_elem_of_fmap in Ha as (i & -> & Hi).
  apply list_elem_of_fmap. exists i. split; [done|]. apply elem_of_seqZ. apply elem_of_seqZ in Hi. lia.
Qed.

(** The readings of the nodes survive their JSON form. *)
Lemma readingOf_codec count a : count <= peerCount -> a ∈ nodeNames count -> writable (readAt a) ->
  exists b, EncodeReading (readingOf readAt a) = Some b /\ DecodeReading b = Some (readingOf readAt a).
Proof.
  intros Hc Ha Hw. destruct (Next_encodable (readAt a) _ (NewGenerator_numbers a a)) as [_ He].
  destruct (reading_roundtrip (readingOf readAt a)) as (b & Hb & _ & Hd); [by apply He|]. exists b. split; [exact Hb|].
  rewrite Hd, received_valid; [done|]. rewrite readingOf_NodeID. by apply (nodeNames_valid count).
Qed.

Lemma addrs_names net order count : mesh net -> order ≡ₚ (map_to_list net).*1 -> good_names (nodeNames count) ->
  (forall x n, net !! x = Some n -> exists s, s ∈ nodeNames count /\ peer n = peerOf s) ->
  (forall s, s ∈ nodeNames count -> exists n, net !! KeyToID s = Some n /\ peer n = peerOf s) ->
  addrsOf net order ≡ₚ nodeNames count.
Proof.
  intros Hmesh Horder [Hnd _] H1 H2. apply NoDup_Permutation; [by apply NoDup_addrs|by apply (NoDup_fmap_1 KeyToID)|].
  intros a. rewrite (elem_of_addrs net Hmesh order Horder). split.
  - intros (n & Hn & <-). destruct (H1 _ _ Hn) as (s & Hs & ->). done.
  - intros (n & Hn & Hp)%H2. exists n. by rewrite Hp.
Qed.

(** The network with all readings published, as the later phases find it. *)
Lemma published_network count : 2 <= count <= peerCount ->
  (forall a, a ∈ nodeNames count -> writable (readAt a)) ->
  exists net net', buildNetwork seenAt (rangeNodes 0) count = Ok net /\
    publishSensorReadings rangeMap readAt (rangeNodes 1 net) net = (net', None) /\
    mesh net' /\ Z.of_nat (size net') = count /\
    (forall order, order ≡ₚ (map_to_list net').*1 -> addrsOf net' order ≡ₚ nodeNames count) /\
    (forall x n a, net' !! x = Some n -> a ∈ nodeNames count ->
       store n !! sensorKey a = Some (payloadOf readAt a)).
Proof using Hmap Hnodes.
  intros Hc Hclock. pose proof (good_nodeNames count ltac:(lia)) as Hg.
  destruct (buildNetwork_mesh seenAt (rangeNodes 0) count (Hnodes 0) Hc Hg)
    as (net & Hbuild & Hmesh & Hback & Hsize & Hall). fold (nodeNames count) in Hback, Hall.
  pose proof (addrs_names net (rangeNodes 1 net) count Hmesh (Hnodes 1 net) Hg
    (fun x n Hx => proj2 (Hback x n Hx)) Hall) as Haddrs.
  set (addrs := addrsOf net (rangeNodes 1 net)) in *.
  exists net, (withReadings readAt addrs <$> net). split; [exact Hbuild|]. split.
  { apply publish_all; [exact Hmap|exact Hmesh|]. intros x n Hx. destruct (Hback x n Hx) as (_ & s & Hs & ->).
    destruct (readingOf_codec count s) as (b & Hb & _); [lia|done|by apply Hclock|].
    exists b. exact Hb. }
  assert (Hmesh' : mesh (withReadings readAt addrs <$> net))
    by (apply mesh_fmap; [apply withReadings_same|exact Hmesh]).
  split; [exact Hmesh'|]. split; [by rewrite map_size_fmap|]. split.
  - intros order Horder. apply addrs_names; [exact Hmesh'|exact Horder|exact Hg| |].
    + intros x n Hx. rewrite lookup_fmap in Hx. apply fmap_Some in Hx as (m & Hm & ->).
      rewrite (proj1 (withReadings_same _ _ _)). exact (proj2 (Hback x m Hm)).
    + intros s (n & Hn & Hp)%Hall. exists (withReadings readAt addrs n).
      rewrite lookup_fmap, Hn. split; [done|]. by rewrite (proj1 (withReadings_same _ _ _)).
  - intros x n a Hx Ha. rewrite lookup_fmap in Hx. apply fmap_Some in Hx as (m & Hm & ->).
    rewrite withReadings_store, decide_True; [done|]. by rewrite Haddrs.
Qed.

(** C8: the simulator does what it claims.  With two to twenty nodes and a clock
    that shows a year of four digits, whatever the order of Go's maps and the random
    numbers, it builds the network without a panic, a full mesh in which every node
    knows all others; it publishes one reading per node, and then every node stores
    every reading; and it looks every one of them up again, unchanged, from whichever
    node it picked; the region query around a reading succeeds with an average between
    -10 and 45 degrees.  The only way to fail is that the gossip does not reach 90 per
    cent in 20 steps, which is impossible with up to four nodes; if it succeeds it
    counts only nodes of the network. *)
Theorem dhtsim_run count : 2 <= count <= peerCount ->
  (forall a, a ∈ nodeNames count -> writable (readAt a)) ->
  let run := dhtsim rangeMap seenAt readAt rangeNodes rangeSet source count in
  (exists net net', buildNetwork seenAt (rangeNodes 0) count = Ok net /\
     publishSensorReadings rangeMap readAt (rangeNodes 1 net) net = (net', None) /\
     mesh net' /\ Z.of_nat (size net') = count /\
     forall x n a, net' !! x = Some n -> a ∈ nodeNames count ->
       store n !! sensorKey a = Some (payloadOf readAt a)) /\
  ((run = Ok (inl (PropagationFailed ErrNotReached)) /\ 4 < count) \/
   exists readings avg n res, run = Ok (inr (readings, (avg, n), res)) /\
     readings ≡ₚ map (readingOf readAt) (nodeNames count) /\ wf_temperature avg /\ 1 <= n <= count /\
     1 <= Steps res <= 20 /\ 1 <= ReachedCount res <= count /\ f_le targetRatio (ReachedRatio res) = true).
Proof using Hmap Hnodes Hset.
  intros Hc Hclock run. destruct (published_network count Hc Hclock)
    as (net0 & net & Hbuild & Hpub & Hmesh & Hsize & Haddrs & Hstored).
  split; [by exists net0, net|].
  subst run. unfold dhtsim. rewrite Hbuild. cbn [exec_bind]. rewrite Hpub.
  pose proof (Haddrs _ (Hnodes 3 net)) as Hnames. set (order := rangeNodes 3 net) in *.
  assert (Hquery : verifySensorQueries rangeMap (rangeNodes 2 net) order net =
    inr (map (readingOf readAt) (addrsOf net order))).
  { unfold verifySensorQueries. pose proof (Hnodes 2 net) as H2.
    destruct (rangeNodes 2 net) as [|x first]; [|cbn [head mbind option_bind]].
    { apply Permutation_length in H2. rewrite length_fmap, length_map_to_list in H2. simpl in H2. lia. }
    assert (Hx : x ∈ (map_to_list net).*1) by (rewrite <- H2; left).
    apply list_elem_of_fmap in Hx as ([y n] & -> & Hn%elem_of_map_to_list). cbn [fst]. rewrite Hn.
    apply (query_all rangeMap readAt y n net order [] Hmesh Hn).
    - intros z m a Hz Ha. rewrite Hnames in Ha. by apply (Hstored z).
    - intros a Ha. rewrite Hnames in Ha. destruct (readingOf_codec count a) as (b & Hb & Hd);
        [lia|done|by apply Hclock|]. unfold payloadOf. by rewrite Hb. }
  rewrite Hquery.
  assert (Hlen : Z.of_nat (length (addrsOf net order)) = count).
  { rewrite (length_addrs net Hmesh order (Hnodes 3 net)). exact Hsize. }
  destruct (region_around_first readAt (addrsOf net order)) as (avg & n & -> & Havg & Hn).
  { intros E. rewrite E in Hlen. simpl in Hlen. lia. }
  { unfold peerCount in Hc. lia. }
  pose proof (gossip_outcome rangeSet Hset net Hmesh (rangeNodes 4 net) (Hnodes 4 net) source) as Hgo.
  destruct (runGossipSimulation rangeSet source (rangeNodes 4 net) net) as [err|res].
  - left. destruct Hgo as [-> Hbig]. split; [reflexivity|lia].
  - right. destruct Hgo as (H1 & H2 & _ & H4). exists (map (readingOf readAt) (addrsOf net order)), avg, n, res.
    split; [reflexivity|]. split; [by apply Permutation_map|]. split; [exact Havg|]. split; [lia|].
    split; [exact H1|]. split; [lia|exact H4].
Qed.
End Run.

(** ** Concrete runs *)

Definition demo_run (count : Z) :=
  dhtsim (Hrand := still_rand) (Htrig := flat_trig) (fun m => (map_to_list m).*2) (fun _ _ => 1)
    (fun _ => 2) (fun _ net => (map_to_list net).*1) range_elements (fun _ => in_order) count.

Lemma demo_clock : writable 2.
Proof. unfold writable. lia. Qed.

(** The program as configured, and with so few nodes that it cannot fail. *)
Lemma dhtsim_run_witness :
  (demo_run peerCount = Ok (inl (PropagationFailed ErrNotReached)) \/
   exists readings region res, demo_run peerCount = Ok (inr (readings, region, res)) /\
     readings ≡ₚ map (readingOf (Hrand := still_rand) (fun _ => 2)) (nodeNames peerCount)) /\
  exists readings region res, demo_run 4 = Ok (inr (readings, region, res)).
Proof.
  pose proof (dhtsim_run (Hrand := still_rand) (Htrig := flat_trig) 
    (fun m => (map_to_list m).*2) (fun _ _ => 1) (fun _ => 2) (fun _ net => (map_to_list net).*1)
    range_elements (fun _ => in_order) (fun m => reflexivity _) (fun i net => reflexivity _) (fun k X => reflexivity _)) as Hrun.
  split.
  - destruct (Hrun peerCount ltac:(unfold peerCount; lia) (fun _ _ => demo_clock)) as [_ [[E _]|(rs & avg & n & res & E & Hrs & _)]];
      [left; exact E|right]. exists rs, (avg, n), res. split; [exact E|exact Hrs].
  - destruct (Hrun 4 ltac:(unfold peerCount; lia) (fun _ _ => demo_clock)) as [_ [[_ E]|(rs & avg & n & res & E & _)]];
      [lia|]. exists rs, (avg, n), res. exact E.
Defined.

(** A single node has nobody to store its reading at, and none has no anchor. *)
Example too_few_nodes :
  demo_run 1 = Ok (inl (StoreFailed ErrNoClosePeers)) /\ demo_run 0 = Ok (inl NoNodes).
Proof. vm_compute. split; reflexivity. Qed.
