(* ===== verification/Servers.v ===== *)
(** * The node's TCP server (src/cmd/node/server.go) and the accept loops

    [runTCPServer], [runGossipServer] and [runRaftServer] have the same loop: a
    listener, one goroutine for each connection, and a goroutine that closes the
    listener when the context ends.  For the node, whose connections carry any number
    of frames, the goroutines are run here in any order, one critical section of the
    shared state at a time: a gossip message is marked as seen, stored and forwarded
    under three separate locks, and other connections may run in between. *)

From Stdlib Require Import Ascii String.
From stdpp Require Import base strings list sets gmap.
From S2P Require Import Prelude GoBytes Sha256 GoText Base64 Wire.
From S2P Require Import NodeApp NodeExchange.

#[local] Open Scope Z_scope.
#[local] Open Scope go_scope.
#[local] Set Default Proof Using "Type".

(** ** Listening and accepting *)

(** The listener is open until the context ends; the loop runs until [Accept] says
    [net.ErrClosed]. *)
Record Listener : Type := mkListener { lis_open : bool; lis_loop : bool }.

(** [net.Listen] may fail, which ends the server with an error. *)
Definition listen (bound : bool) : option Listener := if bound then Some (mkListener true true) else None.

(** The goroutine that waits for the context. *)
Definition closeListener (l : Listener) : Listener := mkListener false (lis_loop l).

(** A round of the loop.  On an open listener [Accept] gives a connection, from which
    the bytes [conn] can be read, or fails; on a closed one it gives [net.ErrClosed].
    The second component is the connection a goroutine is started for. *)
Definition acceptRound (conn : option (list Z)) (l : Listener) : Listener * option (list Z) :=
  if negb (lis_loop l) then (l, None)
  else if negb (lis_open l) then (mkListener false false, None)
  else match conn with
       | None => (l, None)                        (* "accept failed", continue *)
       | Some stream => (l, Some stream)
       end.

(** ** The node's server *)

Section NodeServer.
Context {Reading : Type} (reading_node : Reading -> string) (DecodeReading : list Z -> option Reading).

Notation state := (nodeState (Reading := Reading)).

(** Where the goroutine of [handleConn] is, with the bytes it has not read yet: about
    to read a frame, in [handleGossipMessage] before [setReading], there before
    [selectGossipTargets], or returned. *)
Inductive Conn : Type :=
| CReading (stream : list Z)
| CStoring (messageID : string) (ttl : Z) (r : Reading) (encoded : string) (stream : list Z)
| CForwarding (messageID : string) (ttl : Z) (encoded : string) (stream : list Z)
| CClosed.

Record NodeServer : Type := mkNodeServer { ns_listener : Listener; ns_conns : list Conn; ns_state : state }.

Inductive ServerEvent : Type :=
| ServerAccept (conn : option (list Z))
| ServerTurn (i : nat) (e : AppEnv)
| ServerCancel.

(** What connection [i] does, for the history: a frame it took with the replies given to
    [writeFrame], a message ID [shouldProcessGossip] accepted with the reading of the
    message if it is valid, a reading stored, and what gossip sends. *)
Inductive Act : Type :=
| ActFrame (i : nat) (payload : list Z) (replies : list string)
| ActAccept (i : nat) (messageID : string) (r : option Reading)
| ActStore (i : nat) (r : Reading)
| ActSend (i : nat) (out : sends).

(** The checks of [handleGossipMessage] after [shouldProcessGossip]. *)
Definition validGossip (ttlText encoded : string) : option (Z * Reading) :=
  ttl ← Atoi ttlText;
  if ttl <? 0 then None
  else payload ← base64_DecodeString encoded; r ← DecodeReading payload; Some (ttl, r).

(** A frame that was read, up to the first release of the state's lock. *)
Definition takeFrame (cfg : config) (i : nat) (e : AppEnv) (payload rest : list Z) (s : state)
  : Conn * state * list Act :=
  let message := TrimSpace (string_of payload) in
  let '(msgType, parts) := parseMessage message in
  if negb (message =?s "") && (msgType =?s gossipMsgType) then
    match parts with
    | messageID :: ttlText :: encoded :: _ =>
        let '(s, fresh) := shouldProcessGossip e s messageID in
        if negb fresh then (CReading rest, s, [ActFrame i payload []])
        else match validGossip ttlText encoded with
             | None => (CReading rest, s, [ActFrame i payload []; ActAccept i messageID None])
             | Some (ttl, r) => (CStoring messageID ttl r encoded rest, s,
                                 [ActFrame i payload []; ActAccept i messageID (Some r)])
             end
    | _ => (CReading rest, s, [ActFrame i payload []])
    end
  else
    let '(s, replies, _) := NodeApp.handleFrame reading_node DecodeReading e cfg s payload in
    (CReading rest, s, [ActFrame i payload replies]).

(** The goroutine up to its next release of the state's lock.  A write that fails is
    only logged: the [break] that follows leaves the [switch], not the loop. *)
Definition connTurn (cfg : config) (i : nat) (e : AppEnv) (c : Conn) (s : state) : Conn * state * list Act :=
  match c with
  | CReading stream =>
      match readFrame stream with
      | inl _ => (CClosed, s, [])
      | inr (payload, rest) => takeFrame cfg i e payload rest s
      end
  | CStoring messageID ttl r encoded rest =>
      (if ttl =? 0 then CReading rest else CForwarding messageID ttl encoded rest,
       NodeApp.setReading reading_node s r, [ActStore i r])
  | CForwarding messageID ttl encoded rest =>
      let targets := selectGossipTargets e s (cfg_coordinatorAddr cfg) (cfg_gossipFanout cfg) in
      (CReading rest, s, [ActSend i (map (fun a => (a, formatGossip messageID (ttl - 1) encoded)) targets)])
  | CClosed => (CClosed, s, [])
  end.

Definition serverStep (cfg : config) (ev : ServerEvent) (srv : NodeServer) : NodeServer * list Act :=
  match ev with
  | ServerAccept conn =>
      let '(l, started) := acceptRound conn (ns_listener srv) in
      (mkNodeServer l (ns_conns srv ++ match started with Some stream => [CReading stream] | None => [] end)
         (ns_state srv), [])
  | ServerTurn i e =>
      match ns_conns srv !! i with
      | Some c =>
          let '(c, s, acts) := connTurn cfg i e c (ns_state srv) in
          (mkNodeServer (ns_listener srv) (<[i := c]> (ns_conns srv)) s, acts)
      | None => (srv, [])
      end
  | ServerCancel => (mkNodeServer (closeListener (ns_listener srv)) (ns_conns srv) (ns_state srv), [])
  end.

Fixpoint serverRun (cfg : config) (evs : list ServerEvent) (srv : NodeServer) : NodeServer * list Act :=
  match evs with
  | [] => (srv, [])
  | ev :: evs =>
      let '(srv, acts) := serverStep cfg ev srv in
      let '(srv, acts') := serverRun cfg evs srv in (srv, acts ++ acts')
  end.

(** [runTCPServer]: an error if the address cannot be bound. *)
Definition runTCPServer (cfg : config) (bound : bool) (s : state) (evs : list ServerEvent)
  : option (NodeServer * list Act) :=
  l ← listen bound; Some (serverRun cfg evs (mkNodeServer l [] s)).

(** ** What the clients sent, and what was done with it *)

(** The connections that came while the context lived; a failed [Accept] does not
    count. *)
Fixpoint arrived (evs : list ServerEvent) : list (list Z) :=
  match evs with
  | [] | ServerCancel :: _ => []
  | ServerAccept conn :: evs => option_list conn ++ arrived evs
  | ServerTurn _ _ :: evs => arrived evs
  end.

Fixpoint turns (i : nat) (evs : list ServerEvent) : nat :=
  match evs with
  | [] => 0
  | ServerTurn j _ :: evs => if decide (j = i) then S (turns i evs) else turns i evs
  | _ :: evs => turns i evs
  end.

(** The frames taken for connection [i], the readings of the messages accepted on it,
    and the readings it stored. *)
Definition handled (i : nat) : list Act -> list (list Z) :=
  omap (fun a => match a with ActFrame j p _ => if decide (j = i) then Some p else None | _ => None end).
Definition taken (i : nat) : list Act -> list Reading :=
  omap (fun a => match a with ActAccept j _ r => if decide (j = i) then r else None | _ => None end).
Definition stored (i : nat) : list Act -> list Reading :=
  omap (fun a => match a with ActStore j r => if decide (j = i) then Some r else None | _ => None end).
(** The message IDs accepted and the readings stored, over all connections. *)
Definition accepted : list Act -> list string :=
  omap (fun a => match a with ActAccept _ x _ => Some x | _ => None end).
Definition all_stored : list Act -> list Reading :=
  omap (fun a => match a with ActStore _ r => Some r | _ => None end).

(** What a connection has still to read, and the reading it is about to store. *)
Definition frames (stream : list Z) : list (list Z) := (readFrames stream).1.
Definition unread (c : Conn) : list (list Z) :=
  match c with
  | CReading stream | CStoring _ _ _ _ stream | CForwarding _ _ _ stream => frames stream
  | CClosed => []
  end.
Definition holding (c : Conn) : list Reading := match c with CStoring _ _ r _ _ => [r] | _ => [] end.

(** ** A frame that nothing interrupts *)

(** The rounds of one connection alone. *)
Fixpoint connRounds (cfg : config) (i : nat) (e : AppEnv) (k : nat) (c : Conn) (s : state) : Conn * state * list Act :=
  match k with
  | O => (c, s, [])
  | S k =>
      let '(c, s, acts) := connTurn cfg i e c s in
      let '(c, s, acts') := connRounds cfg i e k c s in (c, s, acts ++ acts')
  end.

Definition replies_of : list Act -> list string :=
  mbind (fun a => match a with ActFrame _ _ replies => replies | _ => [] end).
Definition sends_of : list Act -> sends :=
  mbind (fun a => match a with ActSend _ out => out | _ => [] end).

(** Frames of the other types are handled under one lock, and send no gossip. *)
Lemma handleFrame_plain e cfg (s : state) payload :
  negb (TrimSpace (string_of payload) =?s "") && ((parseMessage (TrimSpace (string_of payload))).1 =?s gossipMsgType) = false ->
  (NodeApp.handleFrame reading_node DecodeReading e cfg s payload).2 = [].
Proof.
  unfold NodeApp.handleFrame. case_bool_decide; [done|]. cbn [negb andb].
  destruct (parseMessage _) as [ty parts]. cbn [fst]. intros ->. by repeat case_match.
Qed.

Lemma handleFrame_as_gossip e cfg (s : state) payload parts :
  TrimSpace (string_of payload) <> "" -> parseMessage (TrimSpace (string_of payload)) = (gossipMsgType, parts) ->
  NodeApp.handleFrame reading_node DecodeReading e cfg s payload =
    let '(s, out) := NodeApp.handleGossipMessage reading_node DecodeReading e cfg s parts in (s, [], out).
Proof. intros Hm Hp. unfold NodeApp.handleFrame. by rewrite (bool_decide_eq_false_2 _ Hm), Hp. Qed.

(** A frame that takes one round. *)
Ltac one_round Ht := by exists 1%nat; eexists _, _; split; [lia|]; rewrite (Ht _ _ _ eq_refl).

(** Then the rounds come to [handleFrame]. *)
Lemma frame_undisturbed cfg i e stream payload rest (s : state) :
  readFrame stream = inr (payload, rest) ->
  exists k s' acts, (1 <= k <= 3)%nat /\ connRounds cfg i e k (CReading stream) s = (CReading rest, s', acts) /\
  NodeApp.handleFrame reading_node DecodeReading e cfg s payload = (s', replies_of acts, sends_of acts).
Proof.
  intros Hr. pose proof (handleFrame_plain e cfg s payload) as Hplain.
  destruct (parseMessage (TrimSpace (string_of payload))) as [ty parts] eqn:Hp.
  destruct (negb (TrimSpace (string_of payload) =?s "") && (ty =?s gossipMsgType)) eqn:Hg.
  - apply andb_prop in Hg as [Hm%negb_true_iff%bool_decide_eq_false ->%bool_decide_eq_true].
    rewrite (handleFrame_as_gossip e cfg s payload parts Hm Hp).
    assert (Ht : forall m s' acts, takeFrame cfg i e payload rest s = (m, s', acts) ->
      forall k, connRounds cfg i e (S k) (CReading stream) s =
        let '(c, s2, acts') := connRounds cfg i e k m s' in (c, s2, acts ++ acts')).
    { intros m s' acts E k. cbn [connRounds connTurn]. by rewrite Hr, E. }
    unfold takeFrame in Ht. rewrite Hp, (bool_decide_eq_false_2 _ Hm), (bool_decide_eq_true_2 _ (eq_refl gossipMsgType)) in Ht.
    cbn [negb andb] in Ht. unfold NodeApp.handleGossipMessage.
    destruct parts as [|x [|t [|en parts]]];
      try one_round Ht.
    destruct (shouldProcessGossip e s x) as [s1 fresh]. destruct fresh; cbn [negb] in Ht |- *;
      [|one_round Ht].
    unfold validGossip in Ht.
    destruct (Atoi t) as [ttl|]; [|one_round Ht]. cbn [mbind option_bind] in Ht.
    destruct (ttl <? 0); [one_round Ht|].
    destruct (base64_DecodeString en) as [pl|]; [|one_round Ht]. cbn [mbind option_bind] in Ht.
    destruct (DecodeReading pl) as [r|]; [|one_round Ht]. cbn [mbind option_bind] in Ht.
    destruct (ttl =? 0) eqn:H0.
    + exists 2%nat. eexists _, _. split; [lia|]. rewrite (Ht _ _ _ eq_refl). cbn [connRounds connTurn]. by rewrite H0.
    + exists 3%nat. eexists _, _. split; [lia|]. rewrite (Ht _ _ _ eq_refl). cbn [connRounds connTurn]. rewrite H0.
      split; [reflexivity|]. unfold sends_of. cbn [mbind list_bind app]. by rewrite app_nil_r.
  - specialize (Hplain Hg). destruct (NodeApp.handleFrame reading_node DecodeReading e cfg s payload) as [[s' rs] out] eqn:E.
    cbn in Hplain. subst out. exists 1%nat. eexists _, _. split; [lia|]. cbn [connRounds connTurn]. rewrite Hr.
    unfold takeFrame. rewrite Hp, Hg, E.
    split; [reflexivity|]. unfold replies_of, sends_of. cbn [mbind list_bind app]. by rewrite app_nil_r.
Qed.

(** ** Every run *)

Lemma frames_eq stream : frames stream =
  match readFrame stream with inl _ => [] | inr (payload, rest) => payload :: frames rest end.
Proof. unfold frames. rewrite readFrames_eq. by destruct (readFrame stream) as [|[? ?]]. Qed.

(** The rounds a connection needs at most. *)
Definition cost (c : Conn) : nat :=
  (3 * length (unread c) + match c with CStoring _ _ _ _ _ => 2 | CForwarding _ _ _ _ => 1 | _ => 0 end)%nat.

(** One connection between two points of a run: it took the frames it no longer has to
    read, and stored what it held and the readings it accepted, all but what it holds. *)
Definition conn_does (i : nat) (acts : list Act) (c c' : Conn) : Prop :=
  handled i acts ++ unread c' = unread c /\ holding c ++ taken i acts = stored i acts ++ holding c' /\
  (cost c' <= cost c)%nat.

Lemma conn_does_nil i c : conn_does i [] c c.
Proof. split_and!; [done|by rewrite app_nil_r|lia]. Qed.

Lemma conn_does_app i acts acts' c c1 c' :
  conn_does i acts c c1 -> conn_does i acts' c1 c' -> conn_does i (acts ++ acts') c c'.
Proof.
  unfold conn_does, handled, taken, stored. intros (H1 & H2 & H5) (H3 & H4 & H6). rewrite !omap_app. split_and!.
  - by rewrite <- app_assoc, H3.
  - by rewrite app_assoc, H2, <- !app_assoc, H4.
  - lia.
Qed.

Definition act_conn (a : Act) : nat :=
  match a with ActFrame i _ _ | ActAccept i _ _ | ActStore i _ | ActSend i _ => i end.

Lemma conn_does_other i j acts c : Forall (fun a => act_conn a = i) acts -> j <> i -> conn_does j acts c c.
Proof.
  intros Ha Hne. assert (H : handled j acts = [] /\ taken j acts = [] /\ stored j acts = []).
  { induction Ha as [|a acts Ha Hacts (IH1 & IH2 & IH3)]; [done|].
    unfold handled, taken, stored in *. destruct a; cbn in Ha |- *; rewrite ?decide_False by congruence; done. }
  destruct H as (H1 & H2 & H3). unfold conn_does. rewrite H1, H2, H3. split_and!; [done|by rewrite app_nil_r|lia].
Qed.

Lemma connTurn_does cfg i e c s :
  let '(c', s', acts) := connTurn cfg i e c s in
  conn_does i acts c c' /\ Forall (fun a => act_conn a = i) acts /\ (c = CClosed -> c' = CClosed) /\
  (c' <> CClosed -> cost c' < cost c)%nat.
Proof.
  destruct c as [stream|x ttl r en stream|x ttl en stream|]; cbn [connTurn].
  - destruct (readFrame stream) as [er|[payload rest]] eqn:Hr.
    { unfold conn_does, cost. cbn. rewrite frames_eq, Hr. split_and!; [done|done|lia|constructor|done|done]. }
    unfold conn_does, takeFrame, cost. cbn [unread holding]. rewrite (frames_eq stream), Hr.
    destruct (parseMessage _) as [ty parts]. destruct (_ && _).
    + destruct parts as [|x [|t [|en parts]]]; cbn [unread holding]; try (unfold handled; cbn; rewrite decide_True by done; split_and!; [done|done|cbn; lia|by repeat constructor|done|cbn; lia]).
      destruct (shouldProcessGossip e s x) as [s1 []]; cbn [negb]; [destruct (validGossip t en) as [[ttl r]|]|];
        unfold handled, taken; cbn; rewrite !decide_True by done; (split_and!; [done|done|cbn; lia|by repeat constructor|done|cbn; lia]).
    + destruct (NodeApp.handleFrame reading_node DecodeReading e cfg s payload) as [[s' rs] out].
      unfold handled; cbn; rewrite decide_True by done. split_and!; [done|done|cbn; lia|by repeat constructor|done|cbn; lia].
  - unfold conn_does, stored, cost. cbn. rewrite decide_True by done.
    destruct (ttl =? 0); cbn; (split_and!; [done|done|lia|by repeat constructor|done|lia]).
  - unfold conn_does, cost. cbn. split_and!; [done|done|lia|by repeat constructor|done|lia].
  - cbn. split_and!; [apply conn_does_nil|constructor|done|done].
Qed.

(** The shared state between two points of a run: the readings are those stored, the
    last of each node, and a message ID is accepted by exactly one connection, once. *)
Definition state_does (acts : list Act) (s s' : state) : Prop :=
  readings s' = fold_left (fun m r => <[reading_node r := r]> m) (all_stored acts) (readings s) /\
  NoDup (accepted acts) /\ (forall x, x ∈ accepted acts -> seenGossip s !! x = None) /\
  (forall x, is_Some (seenGossip s' !! x) <-> is_Some (seenGossip s !! x) \/ x ∈ accepted acts).

Lemma state_does_quiet acts s s' : readings s' = readings s -> seenGossip s' = seenGossip s ->
  all_stored acts = [] -> accepted acts = [] -> state_does acts s s'.
Proof. intros E1 E2 E3 E4. unfold state_does. rewrite E1, E2, E3, E4. split_and!; [done|constructor|set_solver|set_solver]. Qed.

Lemma state_does_app acts acts' s s1 s' :
  state_does acts s s1 -> state_does acts' s1 s' -> state_does (acts ++ acts') s s'.
Proof.
  intros (H1 & N1 & F1 & S1) (H2 & N2 & F2 & S2).
  assert (E : forall x, x ∈ accepted acts' -> seenGossip s !! x = None /\ x ∉ accepted acts).
  { intros x Hx. apply F2 in Hx. rewrite <- not_elem_of_dom, elem_of_dom in Hx.
    rewrite S1 in Hx. split; [|naive_solver]. apply eq_None_not_Some. naive_solver. }
  unfold state_does, all_stored, accepted in *. rewrite !omap_app. split_and!.
  - by rewrite fold_left_app, <- H1.
  - apply NoDup_app. split_and!; [done| |done]. intros x Hx Hx'. by apply E in Hx' as [_ ?].
  - intros x [Hx|Hx]%elem_of_app; [by apply F1|by apply E].
  - intros x. rewrite S2, S1, elem_of_app. tauto.
Qed.

Lemma handleFrame_state e cfg (s : state) payload :
  negb (TrimSpace (string_of payload) =?s "") && ((parseMessage (TrimSpace (string_of payload))).1 =?s gossipMsgType) = false ->
  let s' := (NodeApp.handleFrame reading_node DecodeReading e cfg s payload).1.1 in
  readings s' = readings s /\ seenGossip s' = seenGossip s.
Proof.
  unfold NodeApp.handleFrame. case_bool_decide; [done|]. cbn [negb andb].
  destruct (parseMessage _) as [ty parts]. cbn [fst]. intros ->. repeat case_match; try done.
  unfold upsertPeer. by case_match.
Qed.

Lemma connTurn_state cfg i e c s : let '(c', s', acts) := connTurn cfg i e c s in state_does acts s s'.
Proof.
  destruct c as [stream|x ttl r en stream|x ttl en stream|]; cbn [connTurn];
    [|unfold state_does; cbn; split_and!; [done|apply NoDup_nil_2|set_solver|set_solver]|by apply state_does_quiet..].
  destruct (readFrame stream) as [er|[payload rest]]; [by apply state_does_quiet|]. unfold takeFrame.
  pose proof (handleFrame_state e cfg s payload) as Hf. destruct (parseMessage _) as [ty parts]. cbn [fst] in Hf.
  destruct (_ && _).
  - destruct parts as [|x [|t [|en parts]]]; try by apply state_does_quiet. unfold shouldProcessGossip.
    destruct (seenGossip s !! x) eqn:Hx; cbn [negb]; [by apply state_does_quiet|].
    assert (H : forall acts s1, s1 = mkNodeState (self s) (peers s) (readings s) (<[x := env_now e]> (seenGossip s)) ->
      all_stored acts = [] -> accepted acts = [x] -> state_does acts s s1).
    { intros acts s1 -> E1 E2. unfold state_does. rewrite E1, E2. cbn. split_and!; [done|apply NoDup_singleton| |].
      - by intros y ->%list_elem_of_singleton.
      - intros y. rewrite lookup_insert_is_Some, list_elem_of_singleton. destruct (decide (x = y)); naive_solver. }
    destruct (validGossip t en) as [[ttl r]|]; by apply H.
  - specialize (Hf eq_refl) as [Hf1 Hf2]. destruct (NodeApp.handleFrame reading_node DecodeReading e cfg s payload) as [[s' rs] out].
    by apply state_does_quiet.
Qed.

Lemma serverStep_state cfg ev srv :
  let '(srv', acts) := serverStep cfg ev srv in state_does acts (ns_state srv) (ns_state srv').
Proof.
  destruct ev as [conn|j e|]; cbn [serverStep]; [destruct (acceptRound _ _); by apply state_does_quiet| |by apply state_does_quiet].
  destruct (ns_conns srv !! j) as [c|]; [|by apply state_does_quiet].
  pose proof (connTurn_state cfg j e c (ns_state srv)) as H. by destruct (connTurn cfg j e c (ns_state srv)) as [[? ?] ?].
Qed.

Lemma serverRun_state cfg evs srv :
  let '(srv', acts) := serverRun cfg evs srv in state_does acts (ns_state srv) (ns_state srv').
Proof.
  revert srv. induction evs as [|ev evs IH]; intros srv; cbn [serverRun]; [by apply state_does_quiet|].
  pose proof (serverStep_state cfg ev srv) as Hs. destruct (serverStep cfg ev srv) as [srv1 acts1].
  specialize (IH srv1). destruct (serverRun cfg evs srv1) as [srv' acts]. by eapply state_does_app.
Qed.

(** The connections once those that will still arrive are counted. *)
Definition expected (evs : list ServerEvent) (srv : NodeServer) : list Conn :=
  ns_conns srv ++ map CReading (if lis_open (ns_listener srv) && lis_loop (ns_listener srv) then arrived evs else []).

Lemma serverStep_expected cfg ev evs srv :
  let '(srv', acts) := serverStep cfg ev srv in
  length (expected evs srv') = length (expected (ev :: evs) srv) /\
  forall i c, expected (ev :: evs) srv !! i = Some c ->
    exists c', expected evs srv' !! i = Some c' /\ conn_does i acts c c'.
Proof.
  destruct srv as [[o r] cs s]. destruct ev as [conn|j e|]; unfold expected; cbn [serverStep ns_listener ns_conns ns_state arrived].
  - unfold acceptRound. cbn [lis_open lis_loop].
    destruct r, o; cbn [negb andb]; [destruct conn as [st|]|..]; cbn [ns_listener ns_conns lis_open lis_loop andb option_list];
      rewrite ?app_nil_r, <- ?app_assoc; cbn [app map]; by eauto using conn_does_nil.
  - destruct (cs !! j) as [c|] eqn:Hj; [|by eauto using conn_does_nil].
    pose proof (connTurn_does cfg j e c s) as Ht. destruct (connTurn cfg j e c s) as [[conn s'] acts].
    destruct Ht as (Hd & Hc & _). cbn [ns_listener ns_conns lis_open lis_loop]. split; [by rewrite !length_app, length_insert|].
    intros i c0 Hi. rewrite <- (insert_app_l cs _ j conn) by (by eapply lookup_lt_Some). destruct (decide (i = j)) as [->|Hne].
    + apply (lookup_app_l_Some _ (map CReading (if o && r then arrived evs else []))) in Hj as Hj'. rewrite Hj' in Hi. injection Hi as <-.
      exists conn. split; [|exact Hd]. apply list_lookup_insert_eq. by eapply lookup_lt_Some.
    + exists c0. split; [by rewrite list_lookup_insert_ne by congruence|by apply (conn_does_other j)].
  - cbn [closeListener lis_open lis_loop andb map]. rewrite app_nil_r. destruct (o && r); cbn [map]; rewrite ?app_nil_r; by eauto using conn_does_nil.
Qed.

Lemma serverRun_does cfg evs srv :
  let '(srv', acts) := serverRun cfg evs srv in
  length (ns_conns srv') = length (expected evs srv) /\
  forall i c, expected evs srv !! i = Some c ->
    exists c', ns_conns srv' !! i = Some c' /\ conn_does i acts c c'.
Proof.
  revert srv. induction evs as [|ev evs IH]; intros srv.
  - unfold expected. cbn. case_match; cbn; rewrite app_nil_r; by eauto using conn_does_nil.
  - cbn [serverRun]. pose proof (serverStep_expected cfg ev evs srv) as Hs. destruct (serverStep cfg ev srv) as [srv1 acts1].
    specialize (IH srv1). destruct (serverRun cfg evs srv1) as [srv' acts]. destruct Hs as [Hl Hs], IH as [Hl' IH].
    split; [congruence|]. intros i c (c1 & H1 & E1)%Hs. destruct (IH i c1 H1) as (c' & H2 & E2).
    exists c'. split; [done|]. by eapply conn_does_app.
Qed.

(** The loop ends only after the context has. *)
Lemma serverRun_loop cfg evs srv : ServerCancel ∉ evs ->
  ns_listener (serverRun cfg evs srv).1 = ns_listener srv \/ lis_open (ns_listener srv) = false.
Proof.
  revert srv. induction evs as [|ev evs IH]; intros srv Hc; cbn [serverRun]; [by left|].
  apply not_elem_of_cons in Hc as [Hne Hc]. destruct (lis_open (ns_listener srv)) eqn:Ho; [left|by right].
  assert (Hs : ns_listener (serverStep cfg ev srv).1 = ns_listener srv).
  { destruct ev as [conn|j e|]; cbn [serverStep]; [| |done].
    - unfold acceptRound. rewrite Ho. destruct (ns_listener srv) as [o r]. destruct r, conn; done.
    - destruct (ns_conns srv !! j) as [c|]; [|done]. by destruct (connTurn _ _ _ _ _) as [[? ?] ?]. }
  destruct (serverStep cfg ev srv) as [srv1 acts1]. specialize (IH srv1 Hc). cbn [fst] in Hs. rewrite Hs in IH.
  destruct (serverRun cfg evs srv1) as [srv' acts]. destruct IH as [IH|IH]; [exact IH|congruence].
Qed.

(** A connection still open has used each of its turns. *)
Lemma serverStep_cost cfg ev srv i c : ns_conns srv !! i = Some c ->
  exists c', ns_conns (serverStep cfg ev srv).1 !! i = Some c' /\ (c = CClosed -> c' = CClosed) /\
    (c' <> CClosed -> turns i [ev] + cost c' <= cost c)%nat.
Proof.
  intros Hi. destruct ev as [conn|j e|]; cbn [serverStep turns].
  - destruct (acceptRound conn _) as [l started]. cbn [fst ns_conns]. rewrite (lookup_app_l_Some _ _ _ _ Hi). by eauto.
  - destruct (decide (j = i)) as [->|Hne].
    + rewrite Hi. pose proof (connTurn_does cfg i e c (ns_state srv)) as Ht.
      destruct (connTurn cfg i e c (ns_state srv)) as [[conn s'] acts]. cbn [fst ns_conns].
      rewrite list_lookup_insert_eq by (by eapply lookup_lt_Some). destruct Ht as (_ & _ & Hn & Ht).
      exists conn. split_and!; [done..|]. intros Hc. apply Ht in Hc. lia.
    + destruct (ns_conns srv !! j) as [c2|]; [|cbn [fst]; by eauto].
      destruct (connTurn cfg j e c2 (ns_state srv)) as [[conn s'] acts]. cbn [fst ns_conns].
      rewrite list_lookup_insert_ne by done. by eauto.
  - cbn [fst ns_conns]. by eauto.
Qed.

Lemma turns_cons i ev evs : turns i (ev :: evs) = (turns i [ev] + turns i evs)%nat.
Proof. destruct ev; cbn; try case_decide; lia. Qed.

Lemma serverRun_cost cfg evs : forall srv i c, ns_conns srv !! i = Some c ->
  exists c', ns_conns (serverRun cfg evs srv).1 !! i = Some c' /\ (c = CClosed -> c' = CClosed) /\
    (c' <> CClosed -> turns i evs + cost c' <= cost c)%nat.
Proof.
  induction evs as [|ev evs IH]; intros srv i c Hi; cbn [serverRun]; [by eauto|].
  destruct (serverStep_cost cfg ev srv i c Hi) as (c1 & H1 & N1 & T1).
  destruct (serverStep cfg ev srv) as [srv1 acts1]. destruct (IH srv1 i c1 H1) as (c' & H2 & N2 & T2).
  destruct (serverRun cfg evs srv1) as [srv' acts]. exists c'. split; [exact H2|]. split; [by eauto|]. intros Hs.
  rewrite turns_cons. specialize (T2 Hs). assert (Hc1 : c1 <> CClosed) by eauto. specialize (T1 Hc1). lia.
Qed.

Lemma serverRun_app cfg evs evs' : forall srv,
  serverRun cfg (evs ++ evs') srv =
    let '(srv, acts) := serverRun cfg evs srv in let '(srv, acts') := serverRun cfg evs' srv in (srv, acts ++ acts').
Proof.
  induction evs as [|ev evs IH]; intros srv; cbn [app serverRun]; [by destruct (serverRun cfg evs' srv)|].
  destruct (serverStep cfg ev srv) as [srv1 acts1]. rewrite IH. destruct (serverRun cfg evs srv1) as [srv2 acts2].
  destruct (serverRun cfg evs' srv2) as [srv3 acts3]. by rewrite app_assoc.
Qed.

(** A connection that has had enough rounds is done. *)
Lemma serverRun_done cfg srv0 evs1 evs2 srv acts i stream :
  serverRun cfg (evs1 ++ evs2) srv0 = (srv, acts) -> expected evs1 srv0 !! i = Some (CReading stream) ->
  (3 * length (frames stream) < turns i evs2)%nat ->
  ns_conns srv !! i = Some CClosed /\ handled i acts = frames stream /\ stored i acts = taken i acts.
Proof.
  intros E Hi Ht. rewrite serverRun_app in E.
  pose proof (serverRun_does cfg evs1 srv0) as Hf1. destruct (serverRun cfg evs1 srv0) as [srv1 acts1].
  destruct Hf1 as [_ Hf1]. destruct (Hf1 i _ Hi) as (c1 & H1 & E1).
  destruct (serverRun_cost cfg evs2 srv1 i c1 H1) as (c' & H2 & _ & T2).
  pose proof (serverRun_does cfg evs2 srv1) as Hf2. destruct (serverRun cfg evs2 srv1) as [srv2 acts2]. injection E as <- <-.
  destruct Hf2 as [_ Hf2]. destruct (Hf2 i c1) as (c2 & H3 & E3).
  { unfold expected. by rewrite (lookup_app_l_Some _ _ _ _ H1). }
  cbn [fst] in H2. rewrite H2 in H3. injection H3 as <-.
  assert (Hc : c' = CClosed).
  { destruct c'; try reflexivity; exfalso; specialize (T2 ltac:(done)); unfold cost in T2;
      destruct E1 as (_ & _ & E1); unfold cost in E1; cbn in *; lia. }
  subst c'. split; [exact H2|]. destruct (conn_does_app _ _ _ _ _ _ E1 E3) as (Eh & Es & _).
  cbn [unread holding app] in Eh, Es. by rewrite app_nil_r in Eh, Es.
Qed.

(** C20: the server serves every connection.  On an address that can be bound, for any
    order of accepts, failed accepts and rounds of the connections, where other
    connections may run between the locked sections of one gossip message: every
    connection that arrives before the context ends is served, and the loop ends for
    no other reason; of each connection the frames taken are the first frames its
    client sent, in order, none lost and none twice, and the readings it stored are
    those of the messages accepted on it, in order, all but one it may be about to
    store; with more rounds than three for each frame it has taken all frames, stored
    all readings and returned.  Over all connections a message ID is accepted at most
    once, and only if it was not seen before; the IDs seen at the end are those seen
    before and those accepted; and the readings of the node are those stored, in the
    order of the stores. *)
Theorem node_server_serves cfg s evs :
  exists srv acts, runTCPServer cfg true s evs = Some (srv, acts) /\
    (ServerCancel ∉ evs -> ns_listener srv = mkListener true true) /\
    length (ns_conns srv) = length (arrived evs) /\
    (forall i stream, arrived evs !! i = Some stream ->
       exists c, ns_conns srv !! i = Some c /\ handled i acts ++ unread c = frames stream /\
                 taken i acts = stored i acts ++ holding c) /\
    (forall i stream evs1 evs2, evs = evs1 ++ evs2 -> arrived evs1 !! i = Some stream ->
       (3 * length (frames stream) < turns i evs2)%nat ->
       ns_conns srv !! i = Some CClosed /\ handled i acts = frames stream /\ stored i acts = taken i acts) /\
    NoDup (accepted acts) /\ (forall x, x ∈ accepted acts -> seenGossip s !! x = None) /\
    (forall x, is_Some (seenGossip (ns_state srv) !! x) <-> is_Some (seenGossip s !! x) \/ x ∈ accepted acts) /\
    readings (ns_state srv) = fold_left (fun m r => <[reading_node r := r]> m) (all_stored acts) (readings s).
Proof.
  set (srv0 := mkNodeServer (mkListener true true) [] s).
  assert (Hexp : forall evs, expected evs srv0 = map CReading (arrived evs)) by done.
  destruct (serverRun cfg evs srv0) as [srv acts] eqn:E. exists srv, acts.
  pose proof (serverRun_does cfg evs srv0) as Hf. pose proof (serverRun_state cfg evs srv0) as Hs.
  pose proof (serverRun_loop cfg evs srv0) as Hl. rewrite E in Hf, Hs, Hl. destruct Hf as [Hlen Hf], Hs as (H1 & H2 & H3 & H4).
  rewrite Hexp in Hlen, Hf. split_and!; try done; [by unfold runTCPServer; cbn; f_equal|by intros [?|?]%Hl|by rewrite Hlen, length_map|..].
  - intros i stream Hi. destruct (Hf i (CReading stream)) as (c & Hc & E1 & E2 & _); [by rewrite list_lookup_fmap, Hi|]. by exists c.
  - intros i stream evs1 evs2 -> Hi Ht. eapply serverRun_done; [exact E| |exact Ht]. by rewrite Hexp, list_lookup_fmap, Hi.
Qed.
End NodeServer.

(** ** Two clients *)

(** A greeting and a question on one connection, a greeting on the other; an accept
    that fails and a round too many do no harm. *)
Definition demo_clients : list ServerEvent :=
  [ServerAccept (Some (sent ["HELLO|n2|b:1"; "GETPEERS"])); ServerAccept None; ServerAccept (Some (sent ["HELLO|n3|c:1"]));
   ServerTurn 1 demo_app_env; ServerTurn 0 demo_app_env; ServerTurn 0 demo_app_env; ServerTurn 1 demo_app_env;
   ServerTurn 0 demo_app_env; ServerTurn 1 demo_app_env].

Example two_clients :
  match runTCPServer (fun r : string => r) demo_decode demo_config true demo_state demo_clients with
  | Some (srv, acts) => ns_conns srv = [CClosed; CClosed] /\ map act_conn acts = [1; 0; 0]%nat /\
      replies_of acts = ["ACK|HELLO"; "ACK|HELLO"; String.append "PEERS|" (Join (peerAddrs (ns_state srv)) comma)]
  | None => False
  end.
Proof. vm_compute. repeat split; reflexivity. Qed.

(** ** A race *)

(** Readings of one byte of node and one of value.  Both clients send the message [x]
    with value 1; the second then sends [y] with the newer value 2.  The first
    connection marks [x] and is overtaken before it stores: the second drops its
    copy of [x], stores the newer value, and then the first stores the old one.  No
    order of whole frames that respects the connections ends with value 1. *)
Definition race_frame (x : string) (value : Z) : string := formatGossip x 0 (base64_EncodeToString [110; value]).
Definition race_clients : list ServerEvent :=
  [ServerAccept (Some (sent [race_frame "x" 1])); ServerAccept (Some (sent [race_frame "x" 1; race_frame "y" 2]));
   ServerTurn 0 demo_app_env; ServerTurn 1 demo_app_env; ServerTurn 1 demo_app_env; ServerTurn 1 demo_app_env;
   ServerTurn 0 demo_app_env].

Example old_reading_wins :
  match runTCPServer (fun r : list Z => string_of (take 1 r)) Some demo_config true
          (mkNodeState (mkPeerInfo "n1" "a:1" 0) ∅ ∅ ∅) race_clients with
  | Some (srv, acts) => accepted acts = ["x"; "y"] /\ all_stored acts = [[110; 2]; [110; 1]] /\
      readings (ns_state srv) !! "n" = Some [110; 1]
  | None => False
  end.
Proof. vm_compute. repeat split; reflexivity. Qed.
