(* ===== verification/NodeMain.v ===== *)
(** * The node process (src/cmd/node/main.go, config.go, sensor_state.go, metrics.go)

    How a node is configured from flags and environment, the state its goroutines
    share, its metrics, and the process: the server's connections, the sensor loop that
    reads, stores and broadcasts, the bootstrap and the loop that reports the routing
    table, interleaved at every lock they take. *)

From Stdlib Require Import Ascii String.
From stdpp Require Import base strings list sorting sets gmap.
From S2P Require Import Prelude GoBytes Sha256 GoText GoFloat GoFlag.
From S2P Require Import GoTime SensorCodec Base64 Wire Sensor.
From S2P Require Import NodeApp Servers.

#[local] Open Scope Z_scope.
#[local] Open Scope go_scope.
#[local] Set Default Proof Using "Type".

Definition second : Z := 1000000000.

(** ** Configuration (config.go) *)

Definition getenvDefault (env : string -> string) (key fallback : string) : string :=
  let value := TrimSpace (env key) in if value =?s "" then fallback else value.

Definition durationFromEnv (env : string -> string) (key : string) (fallback : Z) : Z :=
  let value := TrimSpace (env key) in
  if value =?s "" then fallback else default fallback (ParseDuration value).

Definition intFromEnv (env : string -> string) (key : string) (fallback : Z) : Z :=
  let value := TrimSpace (env key) in
  if value =?s "" then fallback else default fallback (Atoi value).

(** The variables the flags set: the configuration and [bootstrap]. *)
Definition Flags : Type := config * string.

(** The flags and their defaults, before [flag.Parse]. *)
Definition defaultFlags (env : string -> string) : Flags :=
  (mkNodeConfig (getenvDefault env "NODE_ID" "") (getenvDefault env "LISTEN_ADDR" "0.0.0.0:8000")
     (getenvDefault env "METRICS_ADDR" "0.0.0.0:9100") (getenvDefault env "ADVERTISE_ADDR" "")
     (getenvDefault env "PEER_ADDR" "") [] (getenvDefault env "MESSAGE" "hello")
     (2 * second) (durationFromEnv env "SENSOR_INTERVAL" (5 * second))
     (getenvDefault env "COORDINATOR_ADDR" "") (intFromEnv env "GOSSIP_FANOUT" 3) (intFromEnv env "GOSSIP_TTL" 3),
   getenvDefault env "BOOTSTRAP_ADDRS" "").

Definition setNodeFlag (name value : string) (f : Flags) : option (option Flags) :=
  let '(mkNodeConfig nid listen metrics advertise peer boots message retry interval coord fanout ttl, bootstrap) := f in
  let str c := Some (Some (c, bootstrap)) in
  let num parse c := Some (match parse value with Some x => Some (c x, bootstrap) | None => None end) in
  if name =?s "node-id" then str (mkNodeConfig value listen metrics advertise peer boots message retry interval coord fanout ttl)
  else if name =?s "listen" then str (mkNodeConfig nid value metrics advertise peer boots message retry interval coord fanout ttl)
  else if name =?s "metrics" then str (mkNodeConfig nid listen value advertise peer boots message retry interval coord fanout ttl)
  else if name =?s "advertise" then str (mkNodeConfig nid listen metrics value peer boots message retry interval coord fanout ttl)
  else if name =?s "peer" then str (mkNodeConfig nid listen metrics advertise value boots message retry interval coord fanout ttl)
  else if name =?s "bootstrap" then Some (Some (f.1, value))
  else if name =?s "message" then str (mkNodeConfig nid listen metrics advertise peer boots value retry interval coord fanout ttl)
  else if name =?s "retry" then
    num ParseDuration (fun x => mkNodeConfig nid listen metrics advertise peer boots message x interval coord fanout ttl)
  else if name =?s "sensor-interval" then
    num ParseDuration (fun x => mkNodeConfig nid listen metrics advertise peer boots message retry x coord fanout ttl)
  else if name =?s "coordinator" then str (mkNodeConfig nid listen metrics advertise peer boots message retry interval value fanout ttl)
  else if name =?s "gossip-fanout" then
    num ParseInt (fun x => mkNodeConfig nid listen metrics advertise peer boots message retry interval coord x ttl)
  else if name =?s "gossip-ttl" then
    num ParseInt (fun x => mkNodeConfig nid listen metrics advertise peer boots message retry interval coord fanout x)
  else None.

(** What the process asks the system for: host name, clock, random bytes. *)
Record System : Type := mkSystem { sys_hostname : option string; sys_now : Z; sys_random : option (list Z) }.

Definition generateNodeID (sys : System) : option string :=
  let hostname := match sys_hostname sys with
                  | Some h => if TrimSpace h =?s "" then "node" else h
                  | None => "node"
                  end in
  match sys_random sys with
  | None => None
  | Some randBytes =>
      let input := String.append hostname (String.append "-" (String.append (Itoa (sys_now sys))
                     (String.append "-" (EncodeToString randBytes)))) in
      Some (String.append hostname (String.append "-" (EncodeToString (Sum256 (bytes_of input)))))
  end.

Definition loadConfig (sys : System) (env : string -> string) (args : list string) : FlagOutcome config :=
  match flag_Parse setNodeFlag args (defaultFlags env) with
  | FlagsHelp => FlagsHelp
  | FlagsError => FlagsError
  | FlagsParsed (mkNodeConfig nid listen metrics advertise peer boots message retry interval coord fanout ttl, bootstrap) =>
      let nid := if nid =?s "" then
                   match generateNodeID sys with
                   | None => String.append "node-" (Itoa (sys_now sys))
                   | Some generated => generated
                   end
                 else nid in
      let advertise := if advertise =?s "" then listen else advertise in
      let boots := if bootstrap =?s "" then boots else splitAndTrim bootstrap in
      FlagsParsed (mkNodeConfig nid listen metrics advertise peer boots message retry interval coord fanout ttl)
  end.

(** ** Metrics (metrics.go) *)

(** A [GaugeVec] by label; a histogram as the values observed. *)
Record nodeMetrics : Type := mkNodeMetrics {
  lookupLatency : gmap string (list float64); routingTableSize : gmap string float64;
  temperatureC : gmap string float64 }.

Definition newNodeMetrics : nodeMetrics := mkNodeMetrics ∅ ∅ ∅.

(** [time.Duration.Seconds]. *)
Definition Seconds (d : Z) : float64 :=
  f_add (f_of_int (Z.quot d second)) (f_div (f_of_int (Z.rem d second)) (f_of_int 1000000000)).

(** The methods; a nil receiver ignores the call. *)
Definition ObserveLookupLatency (nodeID : string) (duration : Z) (m : option nodeMetrics) : option nodeMetrics :=
  m ← m; Some (mkNodeMetrics
    (<[nodeID := default [] (lookupLatency m !! nodeID) ++ [Seconds duration]]> (lookupLatency m))
    (routingTableSize m) (temperatureC m)).

Definition SetRoutingTableSize (nodeID : string) (size : Z) (m : option nodeMetrics) : option nodeMetrics :=
  m ← m; Some (mkNodeMetrics (lookupLatency m) (<[nodeID := f_of_int size]> (routingTableSize m)) (temperatureC m)).

Definition SetTemperature (nodeID : string) (temperature : float64) (m : option nodeMetrics) : option nodeMetrics :=
  m ← m; Some (mkNodeMetrics (lookupLatency m) (routingTableSize m) (<[nodeID := temperature]> (temperatureC m))).

(** ** The last reading (sensor_state.go) *)

Record sensorState : Type := mkSensorState { reading : Reading; hasReading : bool }.

Definition newSensorState : sensorState := mkSensorState zeroReading false.

Definition Set_ (s : sensorState) (r : Reading) : sensorState := mkSensorState r true.

Definition Last (s : sensorState) : Reading * bool := (reading s, hasReading s).

(** ** The process (main.go) *)

Section Process.
Context {R : Type} {Hrand : Rand R}.

(** The time under which a reading is gossiped. *)
Definition reading_unix (r : Reading) : Z := UnixNano (Sensor.Timestamp r).

(** Where the sensor loop is in its round: before reading the sensor, before
    [setReading], [SetTemperature], [shouldProcessGossip] and [selectGossipTargets]; the
    last with the message ID and the encoded reading, none if it could not be encoded. *)
Inductive SensorAt : Type :=
| AtTick
| AtStore (r : Reading)
| AtTemp (r : Reading)
| AtMark (r : Reading)
| AtSend (msg : option (string * string)).

(** Where the bootstrap is: greeting addresses, with the peers found so far; adding those
    peers; about to send its message to the known peers; done. *)
Inductive BootAt : Type :=
| BootGreet (todo found : list string)
| BootAdd (todo : list string)
| BootDone.

(** What the goroutines of [main] share (the node's state is in the server), and where
    they are. *)
Record Process : Type := mkProcess {
  p_server : NodeServer (Reading := Reading); p_sensors : sensorState; p_metrics : option nodeMetrics;
  p_generator : Generator (R := R); p_at : SensorAt; p_boot : BootAt }.

Definition p_state (p : Process) : nodeState (Reading := Reading) := ns_state (p_server p).
Definition with_state (p : Process) (s : nodeState) : Process :=
  mkProcess (mkNodeServer (ns_listener (p_server p)) (ns_conns (p_server p)) s) (p_sensors p) (p_metrics p)
    (p_generator p) (p_at p) (p_boot p).
Definition with_metrics (p : Process) (m : option nodeMetrics) : Process :=
  mkProcess (p_server p) (p_sensors p) m (p_generator p) (p_at p) (p_boot p).
Definition with_at (p : Process) (l : SensorAt) : Process :=
  mkProcess (p_server p) (p_sensors p) (p_metrics p) (p_generator p) l (p_boot p).
Definition with_boot (p : Process) (b : BootAt) : Process :=
  mkProcess (p_server p) (p_sensors p) (p_metrics p) (p_generator p) (p_at p) b.

(** The addresses [bootstrapDiscovery] greets. *)
Definition bootstrapAttempts (cfg : config) : list string :=
  filter (fun a => a <> "")
    (cfg_bootstrapAddrs cfg ++ if cfg_peerAddr cfg =?s "" then [] else [cfg_peerAddr cfg]).

(** The variables before the goroutines start; the server listens (if it cannot, the
    process ends), and there may be nothing to bootstrap from. *)
Definition startProcess (now : Z) (cfg : config) : Process :=
  mkProcess (mkNodeServer (mkListener true true) []
               (mkNodeState (mkPeerInfo (cfg_nodeID cfg) (cfg_advertiseAddr cfg) now) ∅ ∅ ∅))
    newSensorState (Some newNodeMetrics)
    (NewGenerator (cfg_nodeID cfg) (LocationFromSeed (cfg_nodeID cfg))) AtTick
    (if bool_decide (cfg_bootstrapAddrs cfg = []) && (cfg_peerAddr cfg =?s "") then BootDone
     else BootGreet (bootstrapAttempts cfg) []).

(** [time.NewTicker] panics on an interval that is not positive. *)
Definition startTicker (interval : Z) : exec Datatypes.unit := if interval <=? 0 then Panic else Ok tt.

(** One round of the sensor loop that nothing interrupts, reading the sensor at time [t]. *)
Definition sensorTick (t : Z) (e : AppEnv) (cfg : config) (p : Process) : Process * sends :=
  let '(r, g) := Next t (p_generator p) in
  let sensors := Set_ (p_sensors p) r in
  let s := setReading Sensor.NodeID (p_state p) r in
  let metrics := SetTemperature (cfg_nodeID cfg) (TemperatureC r) (p_metrics p) in
  let '(s, out, _) := gossipBroadcast reading_unix EncodeReading e cfg s r in
  (with_state (mkProcess (p_server p) sensors metrics g (p_at p) (p_boot p)) s, out).

(** The sensor loop up to its next lock; [t] is the time if it reads the sensor. *)
Definition sensorStep (t : Z) (e : AppEnv) (cfg : config) (p : Process) : Process * sends :=
  match p_at p with
  | AtTick =>
      let '(r, g) := Next t (p_generator p) in
      (mkProcess (p_server p) (Set_ (p_sensors p) r) (p_metrics p) g (AtStore r) (p_boot p), [])
  | AtStore r => (with_at (with_state p (setReading Sensor.NodeID (p_state p) r)) (AtTemp r), [])
  | AtTemp r =>
      (with_at (with_metrics p (SetTemperature (cfg_nodeID cfg) (TemperatureC r) (p_metrics p))) (AtMark r), [])
  | AtMark r =>
      match EncodeReading r with
      | None => (with_at p (AtSend None), [])
      | Some payload =>
          let messageID := gossipMessageID (cfg_nodeID cfg) (reading_unix r) in
          let '(s, _) := shouldProcessGossip e (p_state p) messageID in
          (with_at (with_state p s) (AtSend (Some (messageID, base64_EncodeToString payload))), [])
      end
  | AtSend None => (with_at p AtTick, [])
  | AtSend (Some (messageID, encoded)) =>
      let targets := selectGossipTargets e (p_state p) (cfg_coordinatorAddr cfg) (cfg_gossipFanout cfg) in
      (with_at p AtTick, map (fun a => (a, formatGossip messageID (cfg_gossipTTL cfg) encoded)) targets)
  end.

(** One round of the loop that reports the routing table. *)
Definition metricsTick (cfg : config) (p : Process) : Process :=
  with_metrics p (SetRoutingTableSize (cfg_nodeID cfg) (peerCount (p_state p)) (p_metrics p)).

(** What [sendMessage] writes to a peer the bootstrap found. *)
Definition messageText (cfg : config) : string := Join ["MESSAGE"; cfg_nodeID cfg; cfg_message cfg] bar.
Definition sendMessage (cfg : config) : list Z := writeFrame (bytes_of (messageText cfg)).

(** [sendMessageToPeer]: nothing is written if the connection cannot be made. *)
Definition sendMessageToPeer (dialed : bool) (cfg : config) : option (list Z) :=
  if dialed then Some (sendMessage cfg) else None.

(** The bootstrap up to its next lock: [answer] is the outcome of [helloAndGetPeers],
    which took [took], if it greets an address. *)
Definition bootStep (e : AppEnv) (answer : option (list string)) (took : Z) (cfg : config) (p : Process)
  : Process * sends :=
  match p_boot p with
  | BootGreet (_ :: todo) found =>
      (with_boot (with_metrics p (ObserveLookupLatency (cfg_nodeID cfg) took (p_metrics p)))
         (BootGreet todo (found ++ default [] answer)), [])
  | BootGreet [] found => (with_boot p (BootAdd found), [])
  | BootAdd (a :: todo) =>
      let p := if (a =?s "") || (a =?s cfg_advertiseAddr cfg) then p
               else with_state p (upsertPeer e (p_state p) (mkPeerInfo "" a (env_now e))) in
      (with_boot p (BootAdd todo), [])
  | BootAdd [] =>
      (with_boot p BootDone,
       map (fun a => (a, messageText cfg)) (filter (fun a => a <> cfg_advertiseAddr cfg) (peerAddrs (p_state p))))
  | BootDone => (p, [])
  end.

(** A step of the server: an accept, a connection up to its next lock, or the end of
    the context. *)
Definition serveStep (cfg : config) (ev : ServerEvent) (p : Process) : Process * sends :=
  let '(srv, acts) := serverStep Sensor.NodeID DecodeReading cfg ev (p_server p) in
  (mkProcess srv (p_sensors p) (p_metrics p) (p_generator p) (p_at p) (p_boot p), sends_of acts).

(** The goroutines of [main], each up to its next lock. *)
Inductive NodeEvent : Type :=
| SensorStep (t : Z) (e : AppEnv)
| MetricsTick
| Serve (ev : ServerEvent)
| BootStep (e : AppEnv) (answer : option (list string)) (took : Z).

Definition nodeStep (cfg : config) (ev : NodeEvent) (p : Process) : Process * sends :=
  match ev with
  | SensorStep t e => sensorStep t e cfg p
  | MetricsTick => (metricsTick cfg p, [])
  | Serve ev => serveStep cfg ev p
  | BootStep e answer took => bootStep e answer took cfg p
  end.

Fixpoint nodeRun (cfg : config) (evs : list NodeEvent) (p : Process) : Process * sends :=
  match evs with
  | [] => (p, [])
  | ev :: evs =>
      let '(p, out) := nodeStep cfg ev p in
      let '(p, out') := nodeRun cfg evs p in (p, out ++ out')
  end.

(** [main]: the process ends before the first reading if the interval is not
    positive. *)
Definition nodeMain (now : Z) (cfg : config) (evs : list NodeEvent) : exec (Process * sends) :=
  let! _ := startTicker (cfg_sensorInterval cfg) in
  Ok (nodeRun cfg evs (startProcess now cfg)).

(** A round of the sensor loop has five steps; the first of each reads the sensor. *)
Fixpoint tick_times_from (k : nat) (evs : list NodeEvent) : list Z :=
  match evs with
  | [] => []
  | SensorStep t _ :: evs => match k with O => t :: tick_times_from 4 evs | S k => tick_times_from k evs end
  | _ :: evs => tick_times_from k evs
  end.
Definition tick_times : list NodeEvent -> list Z := tick_times_from 0.

(** ** Goroutines that nothing interrupts *)

(** The five steps of a round come to [sensorTick]. *)
Lemma sensorTick_steps t e cfg p : p_at p = AtTick ->
  nodeRun cfg (replicate 5 (SensorStep t e)) p = sensorTick t e cfg p.
Proof.
  intros Hat. destruct p as [srv sen met gen pt bt]. cbn in Hat. subst pt. unfold sensorTick.
  cbn [replicate nodeRun nodeStep sensorStep p_at p_generator].
  destruct (Next t gen) as [r g]. cbn [nodeRun nodeStep sensorStep p_at with_at].
  cbn [p_state with_state with_metrics with_at p_server ns_state p_metrics p_at].
  unfold gossipBroadcast. destruct (EncodeReading r) as [payload|]; cbn [p_at with_at]; [|by cbn].
  cbn [p_state with_state with_metrics with_at p_server ns_state p_metrics p_at].
  destruct (shouldProcessGossip e _ _) as [s b]. cbn. by rewrite app_nil_r.
Qed.

(** Greeting the addresses one after the other; each attempt is timed. *)
Definition observeAttempts (cfg : config) (n : nat) (took : nat -> Z) (m : option nodeMetrics) : option nodeMetrics :=
  fold_left (fun m i => ObserveLookupLatency (cfg_nodeID cfg) (took i) m) (seq 0 n) m.

Lemma fold_left_fmap {A B C} (f : A -> B -> A) (h : C -> B) l a :
  fold_left f (map h l) a = fold_left (fun a x => f a (h x)) l a.
Proof. revert a. induction l as [|x l IH]; intros a; [done|]. apply IH. Qed.

Lemma greet_run e cfg hello todo : forall took found p, p_boot p = BootGreet todo found ->
  nodeRun cfg (imap (fun i a => BootStep e (hello a) (took i)) todo) p =
    (with_boot (with_metrics p (observeAttempts cfg (length todo) took (p_metrics p)))
       (BootGreet [] (found ++ mjoin (map (fun a => default [] (hello a)) todo))), []).
Proof.
  induction todo as [|a todo IH]; intros took found [srv sen met gen pt bt] Hb; cbn in Hb; subst bt.
  - cbn. by rewrite app_nil_r.
  - cbn [imap nodeRun nodeStep bootStep p_boot]. rewrite (IH (fun i => took (S i)) (found ++ default [] (hello a))) by done.
    cbn [with_boot with_metrics p_server p_sensors p_metrics p_generator p_at p_boot length map mjoin list_join app].
    rewrite <- app_assoc. unfold observeAttempts. cbn [seq fold_left]. rewrite <- seq_shift, fold_left_fmap. done.
Qed.

Definition addPeers (e : AppEnv) (cfg : config) (found : list string) (s : nodeState (Reading := Reading)) :=
  fold_left (fun s a => if (a =?s "") || (a =?s cfg_advertiseAddr cfg) then s
                        else upsertPeer e s (mkPeerInfo "" a (env_now e))) found s.

Lemma add_run e cfg found : forall p, p_boot p = BootAdd found ->
  nodeRun cfg (replicate (length found) (BootStep e None 0)) p =
    (with_boot (with_state p (addPeers e cfg found (p_state p))) (BootAdd []), []).
Proof.
  induction found as [|a found IH]; intros [[ls cs st] sen met gen pt bt] Hb; cbn in Hb; subst bt; [done|].
  cbn [length replicate nodeRun nodeStep bootStep p_boot]. rewrite IH by done.
  unfold addPeers. cbn [fold_left]. by case_match.
Qed.

Lemma nodeRun_app cfg evs evs' : forall p, nodeRun cfg (evs ++ evs') p =
  let '(p, out) := nodeRun cfg evs p in let '(p, out') := nodeRun cfg evs' p in (p, out ++ out').
Proof.
  induction evs as [|ev evs IH]; intros p; cbn [app nodeRun]; [by destruct (nodeRun cfg evs' p)|].
  destruct (nodeStep cfg ev p) as [p1 out1]. rewrite IH. destruct (nodeRun cfg evs p1) as [p2 out2].
  destruct (nodeRun cfg evs' p2) as [p3 out3]. by rewrite app_assoc.
Qed.

Lemma attempts_found (hello : string -> option (list string)) addrs :
  mjoin (map (fun a => if a =?s "" then [] else default [] (hello a)) addrs) =
  mjoin (map (fun a => default [] (hello a)) (filter (fun a => a <> "") addrs)).
Proof.
  induction addrs as [|a addrs IH]; [done|]. destruct (decide (a = "")) as [->|Hne].
  - rewrite filter_cons_False by naive_solver. exact IH.
  - rewrite filter_cons_True by done. cbn [map]. rewrite bool_decide_eq_false_2 by done.
    exact (f_equal (app (default [] (hello a))) IH).
Qed.

(** The steps of the bootstrap come to [bootstrapDiscovery] with every attempt timed. *)
Lemma bootstrap_steps e cfg hello took now : exists evs,
  let p := startProcess now cfg in
  let '(p', out) := nodeRun cfg evs p in
  p_boot p' = BootDone /\ (p_state p', map fst out) = bootstrapDiscovery e cfg (p_state p) hello /\
  p_metrics p' = observeAttempts cfg (length (bootstrapAttempts cfg)) took (p_metrics p).
Proof.
  set (p := startProcess now cfg).
  assert (Hb : p_boot p = if bool_decide (cfg_bootstrapAddrs cfg = []) && (cfg_peerAddr cfg =?s "") then BootDone
    else BootGreet (bootstrapAttempts cfg) []) by done. clearbody p.
  unfold bootstrapDiscovery. destruct (bool_decide (cfg_bootstrapAddrs cfg = []) && (cfg_peerAddr cfg =?s "")) eqn:E.
  { apply andb_prop in E as [E1%bool_decide_eq_true E2%bool_decide_eq_true]. exists []. cbn.
    split_and!; [done..|]. unfold bootstrapAttempts. by rewrite E1, E2. }
  exists (imap (fun i a => BootStep e (hello a) (took i)) (bootstrapAttempts cfg) ++ [BootStep e None 0] ++
    replicate (length (mjoin (map (fun a => default [] (hello a)) (bootstrapAttempts cfg)))) (BootStep e None 0) ++ [BootStep e None 0]);
    rewrite attempts_found; fold (bootstrapAttempts cfg);
    rewrite nodeRun_app, (greet_run e cfg hello _ took [] p Hb), nodeRun_app;
    cbn [nodeRun nodeStep bootStep p_boot with_boot app];
    rewrite nodeRun_app, add_run by done; cbn [nodeRun nodeStep bootStep p_boot with_boot app]; unfold addPeers;
    split_and!; [done| |done]; rewrite ?app_nil_r, map_map; cbn [fst]; rewrite map_id; reflexivity.
Qed.

(** ** What every run keeps *)

Definition tempGauge (cfg : config) (p : Process) : option float64 :=
  p_metrics p ≫= fun m => temperatureC m !! cfg_nodeID cfg.

(** The message under which a node's reading is gossiped has been seen. *)
Definition marked (cfg : config) (s : nodeState (Reading := Reading)) (r : Reading) : Prop :=
  is_Some (seenGossip s !! gossipMessageID (cfg_nodeID cfg) (reading_unix r)).

(** The readings whose temperature has been reported, and those whose message has been
    marked: all, but for the one of a round that has not come so far. *)
Definition reported (l : SensorAt) (rs : list Reading) : list Reading :=
  match l with AtStore _ | AtTemp _ => removelast rs | _ => rs end.
Definition announced (l : SensorAt) (rs : list Reading) : list Reading :=
  match l with AtStore _ | AtTemp _ | AtMark _ => removelast rs | _ => rs end.

(** The steps left in the round, and the reading it is about. *)
Definition steps_left (l : SensorAt) : nat :=
  match l with AtTick => 0 | AtStore _ => 4 | AtTemp _ => 3 | AtMark _ => 2 | AtSend _ => 1 end.
Definition at_reading (l : SensorAt) : option Reading :=
  match l with AtStore r | AtTemp r | AtMark r => Some r | _ => None end.

(** What holds when the sensor loop has read [rs]. *)
Record node_inv (cfg : config) (rs : list Reading) (p : Process) : Prop := {
  ni_sensors : p_sensors p = match last rs with Some r => mkSensorState r true | None => newSensorState end;
  ni_at r : at_reading (p_at p) = Some r -> last rs = Some r;
  ni_temp : tempGauge cfg p = TemperatureC <$> last (reported (p_at p) rs);
  ni_metrics : is_Some (p_metrics p);
  ni_marked : Forall (fun r => is_Some (EncodeReading r) -> marked cfg (p_state p) r) (announced (p_at p) rs) }.

(** Steps of the other goroutines leave the sensor loop alone, and keep what was seen. *)
Lemma node_inv_other cfg rs p p' : node_inv cfg rs p ->
  p_sensors p' = p_sensors p -> p_at p' = p_at p -> tempGauge cfg p' = tempGauge cfg p -> is_Some (p_metrics p') ->
  (forall x, is_Some (seenGossip (p_state p) !! x) -> is_Some (seenGossip (p_state p') !! x)) -> node_inv cfg rs p'.
Proof.
  intros [H1 H2 H3 H4 H5] E1 E2 E3 E4 E5. split; rewrite ?E1, ?E2, ?E3; try done.
  eapply Forall_impl; [exact H5|]. intros r Hr He. by apply E5, Hr.
Qed.

Lemma removelast_snoc {A} (l : list A) x : removelast (l ++ [x]) = l.
Proof. rewrite removelast_app by done. cbn. apply app_nil_r. Qed.

Lemma sensorStep_inv t e cfg rs p : node_inv cfg rs p ->
  let p' := (sensorStep t e cfg p).1 in
  let rs' := match p_at p with AtTick => [(Next t (p_generator p)).1] | _ => [] end in
  node_inv cfg (rs ++ rs') p' /\
  p_generator p' = match p_at p with AtTick => (Next t (p_generator p)).2 | _ => p_generator p end /\
  steps_left (p_at p') = match p_at p with AtTick => 4%nat | l => pred (steps_left l) end.
Proof.
  intros [H1 H2 H3 H4 H5]. destruct p as [srv sen met gen pt bt]. cbn [p_at] in *.
  destruct pt as [|r|r|r|[[x en]|]]; cbn [sensorStep p_at p_generator]; rewrite ?app_nil_r;
    cbn [at_reading reported announced] in *.
  - destruct (Next t gen) as [r g]. cbn [fst snd p_generator p_at]. split; [|done]. split; cbn [p_sensors p_at at_reading p_metrics reported announced].
    + by rewrite last_snoc.
    + intros r' [= <-]. by rewrite last_snoc.
    + by rewrite removelast_snoc.
    + done.
    + by rewrite removelast_snoc.
  - split; [|done]. split; try done.
  - specialize (H2 r eq_refl). split; [|done]. destruct H4 as [m Hm]. cbn in Hm. subst met.
    split; cbn [p_sensors p_at at_reading p_metrics reported announced fst with_at with_metrics]; try done.
    + by intros ? [= <-].
    + unfold tempGauge. cbn. rewrite H2. apply lookup_insert_eq.
  - specialize (H2 r eq_refl). apply last_Some in H2 as [rs0 ->]. rewrite removelast_snoc in H5.
    destruct (EncodeReading r) as [payload|] eqn:He; cbn [fst].
    + unfold p_state in *. cbn [p_server ns_state] in *. set (x := gossipMessageID _ _).
      pose proof (shouldProcess_seen e (ns_state srv) x) as S1. pose proof (shouldProcess_mono e (ns_state srv) x) as S2.
      destruct (shouldProcessGossip e (ns_state srv) x) as [s b]. cbn [fst] in *. split; [|done].
      split; cbn [p_sensors p_at at_reading p_metrics announced with_at with_state]; try done.
      apply Forall_app. split; [|by constructor; [intros _; exact S1|constructor]].
      eapply Forall_impl; [exact H5|]. intros r' Hr' He'. by apply S2, Hr'.
    + split; [|done]. split; cbn [p_sensors p_at at_reading p_metrics announced with_at]; try done.
      apply Forall_app. split; [exact H5|]. constructor; [|constructor]. rewrite He. by intros [? [=]].
  - split; [|done]. by split.
  - split; [|done]. by split.
Qed.

Lemma upsert_seen e (s : nodeState (Reading := Reading)) q : seenGossip (upsertPeer e s q) = seenGossip s.
Proof. unfold upsertPeer. by case_match. Qed.

Lemma other_inv cfg ev rs p : node_inv cfg rs p -> (forall t e, ev <> SensorStep t e) ->
  let p' := (nodeStep cfg ev p).1 in
  node_inv cfg rs p' /\ p_generator p' = p_generator p /\ p_at p' = p_at p.
Proof.
  intros Hi Hne. destruct (ni_metrics _ _ _ Hi) as [m Hm]. destruct ev as [t e| |ev|e answer took]; [by destruct (Hne t e)|..]; cbn [nodeStep].
  - split; [|done]. eapply node_inv_other; [exact Hi|done..| | |done]; unfold tempGauge, metricsTick; cbn; rewrite Hm; [done|by eexists].
  - unfold serveStep. pose proof (serverStep_state Sensor.NodeID DecodeReading cfg ev (p_server p)) as Hs.
    destruct (serverStep _ _ _ _ _) as [srv acts]. destruct Hs as (_ & _ & _ & Hs). split; [|done].
    eapply node_inv_other; [exact Hi|done..| |]; cbn; [by rewrite Hm|]. intros x Hx. apply Hs. by left.
  - unfold bootStep. destruct (p_boot p) as [[|a todo] found|[|a todo]|]; cbn [fst];
      (split; [|try done; by case_match]); (eapply node_inv_other; [exact Hi|try done; by case_match..| | |]);
      unfold tempGauge; cbn; rewrite ?Hm; try done; try (by eexists); try (by case_match; cbn; rewrite ?Hm).
    case_match; [done|]. cbn. intros x. by rewrite upsert_seen.
Qed.

Lemma generate_app ts ts' (g : Generator (R := R)) :
  generate (ts ++ ts') g =
    ((generate ts g).1 ++ (generate ts' (generate ts g).2).1, (generate ts' (generate ts g).2).2).
Proof.
  revert g. induction ts as [|t ts IH]; intros g; simpl; [by destruct (generate ts' g)|].
  destruct (Next t g) as [r g']. rewrite IH. by destruct (generate ts g').
Qed.

Lemma run_inv cfg evs : forall rs p, node_inv cfg rs p ->
  let new := generate (tick_times_from (steps_left (p_at p)) evs) (p_generator p) in
  let p' := (nodeRun cfg evs p).1 in
  node_inv cfg (rs ++ new.1) p' /\ p_generator p' = new.2.
Proof.
  induction evs as [|ev evs IH]; intros rs p Hi; [cbn; by rewrite app_nil_r|]. cbn [nodeRun].
  assert (Hcase : (exists t e, ev = SensorStep t e) \/ forall t e, ev <> SensorStep t e).
  { destruct ev; [left; eauto|right; done..]. }
  destruct Hcase as [(t & e & ->)|Hne].
  - pose proof (sensorStep_inv t e cfg rs p Hi) as (Hi' & Hg & Hk). cbn [nodeStep].
    destruct (sensorStep t e cfg p) as [p1 out]. cbn [fst] in *. specialize (IH _ p1 Hi') as [IH1 IH2].
    destruct (nodeRun cfg evs p1) as [p2 out2]. cbn [fst] in *. rewrite Hk, Hg in IH1, IH2.
    cbn [tick_times_from]. destruct (p_at p); cbn [steps_left pred] in *; rewrite ?app_nil_r in IH1; try done.
    cbn [generate]. destruct (Next t (p_generator p)) as [r g]. cbn [fst snd] in *.
    destruct (generate _ g) as [rs2 g2]. cbn [fst snd] in *. by rewrite <- app_assoc in IH1.
  - pose proof (other_inv cfg ev rs p Hi Hne) as (Hi' & Hg & Hk).
    destruct (nodeStep cfg ev p) as [p1 out]. cbn [fst] in *. specialize (IH _ p1 Hi') as [IH1 IH2].
    destruct (nodeRun cfg evs p1) as [p2 out2]. cbn [fst] in *. rewrite Hk, Hg in IH1, IH2.
    by destruct ev as [t e| | |]; [destruct (Hne t e)|..].
Qed.

Lemma start_inv now cfg : node_inv cfg [] (startProcess now cfg).
Proof. by split. Qed.

Lemma announced_incl l rs r : r ∈ announced l rs -> r ∈ rs.
Proof.
  assert (H : forall x, x ∈ removelast rs -> x ∈ rs).
  { intros x. destruct rs as [|y rs' _] using rev_ind; [done|]. rewrite removelast_snoc. set_solver. }
  destruct l; cbn; auto.
Qed.

(** C19: the node process.  With an interval that is not positive the process panics
    before its first reading.  Otherwise, however its goroutines (the sensor loop, the
    connections of its server with whatever they receive, the bootstrap and the
    metrics loop) interleave at the locks they take: the readings it takes are those
    of its generator, well-formed and its own; the last of them is what its sensor
    state holds; the last whose round has reported it is what its temperature gauge
    holds; and whenever one whose round has announced it, read in a year of four digits, comes back
    as gossip, with whatever hop count and payload, it is ignored.  Between rounds all
    readings are reported and announced; in a round all but the one it is about. *)
Theorem node_process now cfg evs :
  let g := NewGenerator (cfg_nodeID cfg) (LocationFromSeed (cfg_nodeID cfg)) in
  let rs := (generate (tick_times evs) g).1 in
  match nodeMain now cfg evs with
  | Panic => cfg_sensorInterval cfg <= 0
  | Ok (p, _) => 0 < cfg_sensorInterval cfg /\
      map Sensor.Timestamp rs = map UTC (tick_times evs) /\
      Forall (fun r => Sensor.NodeID r = cfg_nodeID cfg /\ wf_reading r) rs /\
      Last (p_sensors p) = match last rs with Some r => (r, true) | None => (zeroReading, false) end /\
      tempGauge cfg p = TemperatureC <$> last (reported (p_at p) rs) /\
      forall r e rest, r ∈ announced (p_at p) rs -> writable (t_nano (Sensor.Timestamp r)) ->
        handleGossipMessage Sensor.NodeID DecodeReading e cfg (p_state p)
          (gossipMessageID (cfg_nodeID cfg) (reading_unix r) :: rest) = (p_state p, [])
  end.
Proof.
  intros g rs. unfold nodeMain, startTicker. destruct (Z.leb_spec (cfg_sensorInterval cfg) 0) as [|Hpos]; [done|].
  cbn [exec_bind]. pose proof (run_inv cfg evs [] (startProcess now cfg) (start_inv now cfg)) as [[Hs _ Ht _ Hm] _].
  change ([] ++ (generate _ _).1) with rs in *.
  destruct (nodeRun cfg evs (startProcess now cfg)) as [p out]. cbn [fst] in *.
  destruct (NewGenerator_wf (R := R) (cfg_nodeID cfg) (LocationFromSeed (cfg_nodeID cfg))) as (Hg & Hid & Hl & _).
  destruct (generate_wf (tick_times evs) g Hg) as [Hwf Htimes].
  split; [exact Hpos|]. split; [exact Htimes|]. split; [|split; [|split]].
  - eapply Forall_impl; [exact Hwf|]. intros r (H1 & H2 & H3). subst g. rewrite Hid in H1. rewrite Hl in H2.
    split; [exact H1|]. split; [exact H3|]. rewrite H2. apply LocationFromSeed_wf.
  - unfold Last. rewrite Hs. by destruct (last rs).
  - exact Ht.
  - intros r e rest Hr Hw. apply handleGossip_seen. rewrite Forall_forall in Hm. apply Hm; [done|].
    pose proof (generate_encodable (tick_times evs) g (NewGenerator_numbers _ _)) as Henc. fold rs in Henc.
    rewrite Forall_forall in Henc. destruct (reading_roundtrip r) as (payload & -> & _); [|by eexists].
    apply Henc; [|done]. by apply (announced_incl (p_at p)).
Qed.
End Process.

(** ** What a configuration guarantees *)

(** Intervals and counts are 64-bit integers; the list of bootstrap addresses is
    empty until the flags are parsed. *)
Definition flags_ok (f : Flags) : Prop :=
  int64 (cfg_retryInterval f.1) /\ int64 (cfg_sensorInterval f.1) /\
  int64 (cfg_gossipFanout f.1) /\ int64 (cfg_gossipTTL f.1) /\ cfg_bootstrapAddrs f.1 = [].

Lemma defaultFlags_ok env : flags_ok (defaultFlags env).
Proof.
  assert (Hd : forall key z, int64 z -> int64 (durationFromEnv env key z)).
  { intros key z Hz. unfold durationFromEnv. case_match; [done|].
    destruct (ParseDuration _) eqn:E; [by apply ParseDuration_range in E|done]. }
  assert (Hi : forall key z, int64 z -> int64 (intFromEnv env key z)).
  { intros key z Hz. unfold intFromEnv. case_match; [done|]. destruct (Atoi _) eqn:E; [by apply Atoi_range in E|done]. }
  unfold flags_ok, defaultFlags. cbn [fst cfg_retryInterval cfg_sensorInterval cfg_gossipFanout cfg_gossipTTL cfg_bootstrapAddrs].
  split_and!; [|apply Hd|apply Hi|apply Hi|done]; unfold int64, second; lia.
Qed.

Lemma setNodeFlag_ok name value f f' : flags_ok f -> setNodeFlag name value f = Some (Some f') -> flags_ok f'.
Proof.
  destruct f as [[nid listen metrics advertise peer boots message retry interval coord fanout ttl] bootstrap].
  intros (H1 & H2 & H3 & H4 & H5). unfold setNodeFlag. cbn [fst] in *.
  repeat (case_bool_decide; [|]); intros E; simplify_eq; try done;
    repeat case_match; simplify_eq; try done; unfold flags_ok; cbn in *;
    split_and!; try done; first [by eapply ParseDuration_range|by eapply ParseInt_range].
Qed.

Lemma append_nonempty a c b : String.append a (String c b) <> "".
Proof. by destruct a. Qed.

Lemma getenvDefault_nonempty env key fallback : fallback <> "" -> getenvDefault env key fallback <> "".
Proof. unfold getenvDefault. intros Hf. by case_bool_decide. Qed.

(** every configuration is usable.  Whatever the environment and the
    arguments, if the flags parse then the node has an identifier, advertises an
    address if it listens on one, its bootstrap addresses are not empty and its
    intervals and counts are 64-bit numbers.  Without arguments the flags always
    parse, and the node listens on and advertises an address. *)
Theorem node_config sys env args :
  (forall cfg, loadConfig sys env args = FlagsParsed cfg ->
     cfg_nodeID cfg <> "" /\ (cfg_listenAddr cfg <> "" -> cfg_advertiseAddr cfg <> "") /\
     Forall (fun a => a <> "") (cfg_bootstrapAddrs cfg) /\
     int64 (cfg_retryInterval cfg) /\ int64 (cfg_sensorInterval cfg) /\
     int64 (cfg_gossipFanout cfg) /\ int64 (cfg_gossipTTL cfg)) /\
  exists cfg, loadConfig sys env [] = FlagsParsed cfg /\
    cfg_listenAddr cfg <> "" /\ cfg_advertiseAddr cfg <> "" /\ cfg_metricsAddr cfg <> "" /\ cfg_message cfg <> "".
Proof.
  split.
  - intros cfg. unfold loadConfig.
    destruct (flag_Parse setNodeFlag args (defaultFlags env)) as [f| |] eqn:Hp; [|done..].
    pose proof (flag_Parse_inv setNodeFlag flags_ok (fun n v s s' Hs => setNodeFlag_ok n v s s' Hs) (length args) args
      (defaultFlags env) f (le_n _) (defaultFlags_ok env) Hp) as (H1 & H2 & H3 & H4 & H5).
    destruct f as [[nid listen metrics advertise peer boots message retry interval coord fanout ttl] bootstrap].
    cbn in *. subst boots. intros [= <-]. cbn. split_and!; try done.
    + case_bool_decide; [|done]. unfold generateNodeID. destruct (sys_random sys); [apply append_nonempty|discriminate].
    + by case_bool_decide.
    + case_bool_decide; [done|]. apply Forall_forall. intros a Ha. unfold splitAndTrim in Ha.
      by apply list_elem_of_filter in Ha as [? _].
  - eexists. split; [reflexivity|]. cbn.
    split_and!; [| |by apply getenvDefault_nonempty..]; [by apply getenvDefault_nonempty|].
    case_bool_decide; [by apply getenvDefault_nonempty|done].
Qed.

(** ** A concrete node *)

Definition demo_env (key : string) : string :=
  if key =?s "GOSSIP_TTL" then " 7 " else if key =?s "SENSOR_INTERVAL" then "soon"
  else if key =?s "BOOTSTRAP_ADDRS" then "h1:8000, ,h2:8000" else "".
Definition demo_system : System := mkSystem (Some "host") 42 (Some [1; 2; 3]).
Definition demo_args : list string := ["-node-id=n1"; "--gossip-fanout"; "0x4"; "rest"; "-listen"].

(** A flag beats the environment, the environment beats the default, and a value
    of the environment that does not parse counts for nothing. *)
Lemma node_config_witness : exists cfg,
  loadConfig demo_system demo_env demo_args = FlagsParsed cfg /\ cfg_nodeID cfg = "n1" /\
  cfg_gossipFanout cfg = 4 /\ cfg_gossipTTL cfg = 7 /\ cfg_sensorInterval cfg = 5 * second /\
  cfg_bootstrapAddrs cfg = ["h1:8000"; "h2:8000"] /\ Forall (fun a => a <> "") (cfg_bootstrapAddrs cfg).
Proof.
  destruct (loadConfig demo_system demo_env demo_args) as [cfg| |] eqn:E; vm_compute in E; [|discriminate E..].
  exists cfg. split; [reflexivity|]. pose proof E as E'. injection E' as <-.
  split_and!; [vm_compute; reflexivity..|].
  destruct (node_config demo_system demo_env demo_args) as [Hc _].
  eapply (Hc (mkNodeConfig "n1" _ _ _ _ ["h1:8000"; "h2:8000"] _ _ _ _ _ _)). vm_compute. reflexivity.
Defined.

(** A node whose interval is zero or negative crashes at its start. *)
Example zero_interval : exists cfg,
  loadConfig demo_system (fun key => if key =?s "SENSOR_INTERVAL" then "-5s" else "") [] = FlagsParsed cfg /\
  startTicker (cfg_sensorInterval cfg) = Panic.
Proof. eexists. vm_compute. split; reflexivity. Qed.

Definition demo_cfg : config :=
  mkNodeConfig "n1" "h1:8000" "h1:9100" "h1:8000" "" [] "hello" (2 * second) (5 * second) "co:9000" 3 3.
Definition demo_app_env : AppEnv := mkAppEnv 7 (seq 0) "".
Definition demo_round (t : Z) : list NodeEvent := replicate 5 (SensorStep t demo_app_env).
(** A round, a client whose greeting arrives in the middle of the next one. *)
Definition demo_events : list NodeEvent :=
  demo_round 10 ++ [MetricsTick; Serve (ServerAccept (Some (writeFrame (bytes_of "HELLO|n2|h2:8000"))));
   SensorStep 20 demo_app_env; SensorStep 20 demo_app_env; Serve (ServerTurn 0 demo_app_env)] ++
  replicate 3 (SensorStep 20 demo_app_env).

Lemma node_process_witness : exists p out r,
  nodeMain (Hrand := still_rand) 0 demo_cfg demo_events = Ok (p, out) /\
  Last (p_sensors p) = (r, true) /\ Sensor.Timestamp r = UTC 20 /\ length out = 3%nat.
Proof.
  pose proof (node_process (Hrand := still_rand) 0 demo_cfg demo_events) as H.
  cbv zeta in H. set (rs := (generate _ _).1) in H.
  assert (Hout : match nodeMain (Hrand := still_rand) 0 demo_cfg demo_events with
    Ok (_, out) => length out | Panic => 0%nat end = 3%nat) by (vm_compute; reflexivity).
  destruct (nodeMain 0 demo_cfg demo_events) as [[p out]|] eqn:E; [|vm_compute in H; done].
  destruct H as (_ & Ht & _ & Hl & _). destruct (last rs) as [r|] eqn:El.
  - exists p, out, r. split; [reflexivity|]. split; [exact Hl|]. split.
    + apply last_Some in El as [l' El]. rewrite El, map_app in Ht. simpl in Ht.
      apply (app_inj_tail _ [UTC 10] _ (UTC 20)) in Ht as [_ Ht]. exact Ht.
    + exact Hout.
  - exfalso. apply last_None in El. rewrite El in Ht. discriminate Ht.
Defined.
