(* ===== verification/Coordinator.v ===== *)
(** * The coordinator (src/cmd/coordinator)

    The reading store and the commands that change it, the intake of gossip and
    the parsing of the peer list.  Generic in the readings and their codec, as
    [NodeApp] is; [EndToEnd] and [CoordinatorMain] use those of pkg/sensor. *)

From Stdlib Require Import Ascii String.
From stdpp Require Import base strings list sets gmap.
From S2P Require Import Prelude RaftNode GoBytes Sha256 GoText Base64.
From S2P Require Import Wire NodeApp NodeExchange GoFloat.

#[local] Open Scope Z_scope.
#[local] Open Scope go_scope.
#[local] Set Default Proof Using "Type".

#[export] Instance RaftError_eq_dec : EqDecision RaftError.
Proof. solve_decision. Defined.

Section Coordinator.
Context {Reading : Type} (reading_node : Reading -> string)
  (EncodeReading : Reading -> option (list Z)) (DecodeReading : list Z -> option Reading).

(** ** The reading store (main.go) *)

Record readingStore : Type := mkStore {
  readings : gmap string Reading; firstSeen : option Z; targetReached : bool; targetCount : Z }.

(** [newReadingStore]; [junk] is what the conversion to [int] makes of a number
    that is not one. *)
Definition newReadingStore (junk totalNodes : Z) (targetRatio : float64) : readingStore :=
  let totalNodes := if totalNodes <=? 0 then 1 else totalNodes in
  let targetRatio := if f_le targetRatio (Fin 0) || f_lt (f_of_int 1) targetRatio
                     then f_const 9 10 else targetRatio in
  let count := default junk (f_int (f_ceil (f_mul (f_of_int totalNodes) targetRatio))) in
  mkStore ∅ None false count.

(** [upsert]; the clock is read at most twice. *)
Definition upsert (clock : Z * Z) (s : readingStore) (r : Reading) : readingStore * (Z * bool * Z) :=
  let first := match firstSeen s with Some t => t | None => clock.1 end in
  let rs := <[reading_node r := r]> (readings s) in
  let reached := Z.of_nat (size rs) in
  if negb (targetReached s) && (targetCount s <=? reached)
  then (mkStore rs (Some first) true (targetCount s), (reached, true, clock.2 - first))
  else (mkStore rs (Some first) (targetReached s) (targetCount s), (reached, false, 0)).

(** [snapshot]; the order of the map's iteration is a parameter. *)
Definition snapshot (rangeMap : gmap string Reading -> list Reading) (s : readingStore) : list Reading :=
  rangeMap (readings s).

(** ** Commands (raft_integration.go) *)

Definition encodeReadingCommand (r : Reading) : option string :=
  match EncodeReading r with
  | None => None
  | Some payload => Some (base64_EncodeToString payload)
  end.

(** [storeAndLog]; the second component is whether it announces the target. *)
Definition storeAndLog (clock : Z * Z) (s : readingStore) (r : Reading) : readingStore * bool :=
  let '(s, (_, reached, _)) := upsert clock s r in (s, reached).

Definition applyReadingCommand (clock : Z * Z) (s : readingStore) (command : string)
  : readingStore * bool :=
  match base64_DecodeString command with
  | None => (s, false)
  | Some payload =>
      match DecodeReading payload with
      | None => (s, false)
      | Some r => storeAndLog clock s r
      end
  end.

(** ** Gossip intake ([handleGossipConn]) *)

(** What the handler sees of its Raft node, each read a critical section of its
    own: the role and the leader, the outcome of [Propose], the leader again. *)
Record RaftView : Type := mkView {
  seen_state : State; seen_leader : string; propose_result : option RaftError; seen_leader' : string }.

Inductive CoordAction : Type :=
| DoPropose (command : string)
| DoForward (addr command : string).

(** [sendPropose] to the leader, if its address is known. *)
Definition forwardTo (raftPeers : gmap string string) (leader command : string) : list CoordAction :=
  match raftPeers !! leader with
  | None => []
  | Some a => if a =?s "" then [] else [DoForward a command]
  end.

(** A decoded reading: stored without Raft, else forwarded or proposed. *)
Definition intakeReading (clock : Z * Z) (s : readingStore) (raftNode : option RaftView)
    (raftPeers : gmap string string) (reading : Reading) : readingStore * list CoordAction :=
  match raftNode with
  | None => ((storeAndLog clock s reading).1, [])
  | Some v =>
      match encodeReadingCommand reading with
      | None => (s, [])
      | Some command =>
          if bool_decide (seen_state v <> StateLeader) && negb (seen_leader v =?s "")
          then (s, forwardTo raftPeers (seen_leader v) command)
          else
            match propose_result v with
            | None => (s, [DoPropose command])
            | Some _ =>
                (* the [err] of the enclosing function, nil here: the
                   error of [Propose] has its own variable *)
                let err : option RaftError := None in
                if bool_decide (err = Some ErrNotLeader)
                then (s, DoPropose command :: forwardTo raftPeers (seen_leader' v) command)
                else (s, [DoPropose command])
            end
      end
  end.

(** What the handler reads off its connection, [None] on the paths that end with a
    warning. *)
Definition gossipReading (stream : list Z) : option Reading :=
  match coordinator_readFrame stream with
  | inl _ => None
  | inr (payload, _) =>
      let '(msgType, parts) := coordinator_parseMessage (string_of payload) in
      match parts with
      | _ :: _ :: encoded :: _ =>
          if negb (msgType =?s "GOSSIP") then None
          else
            match base64_DecodeString encoded with
            | None => None
            | Some data => DecodeReading data
            end
      | _ => None
      end
  end.

Definition handleGossipConn (clock : Z * Z) (s : readingStore) (raftNode : option RaftView)
    (raftPeers : gmap string string) (stream : list Z) : readingStore * list CoordAction :=
  match gossipReading stream with
  | None => (s, [])
  | Some reading => intakeReading clock s raftNode raftPeers reading
  end.

(** ** The peer list *)

Definition addPeerEntry (peers : gmap string string) (entry : string) : gmap string string :=
  match SplitN2 entry 61 with
  | [a; b] =>
      let id := TrimSpace a in
      let addr := TrimSpace b in
      if (id =?s "") || (addr =?s "") then peers else <[id := addr]> peers
  | _ => peers
  end.

Definition raftPeersFromEnv (value : string) : gmap string string :=
  if value =?s "" then ∅ else fold_left addPeerEntry (coordinator_splitAndTrim value) ∅.

(** [raftPeerIDs]; [rangeKeys] is the order in which the map is visited. *)
Definition raftPeerIDs (rangeKeys : gmap string string -> list string) (peers : gmap string string)
    (selfID : string) : list string :=
  filter (fun id => id <> selfID) (rangeKeys peers).

(** ** The store as a state machine *)

(** The commands Raft hands over, each applied at its own time; the list are the
    announcements. *)
Fixpoint applyCommands (cmds : list ((Z * Z) * string)) (s : readingStore) : readingStore * list bool :=
  match cmds with
  | [] => (s, [])
  | (clock, command) :: cmds =>
      let '(s, b) := applyReadingCommand clock s command in
      let '(s, bs) := applyCommands cmds s in (s, b :: bs)
  end.

(** The reading a command carries. *)
Definition decodeCommand (command : string) : option Reading :=
  base64_DecodeString command ≫= DecodeReading.

Definition put (m : gmap string Reading) (r : Reading) : gmap string Reading := <[reading_node r := r]> m.

(** A store announced its target exactly if it has enough readings. *)
Definition store_inv (s : readingStore) : Prop :=
  targetReached s = bool_decide (0 < size (readings s))%nat && (targetCount s <=? Z.of_nat (size (readings s))).

Definition announced (b : bool) : nat := if b then 1%nat else 0%nat.

Lemma size_put m r : (size m <= size (put m r))%nat /\ (0 < size (put m r))%nat.
Proof. unfold put. rewrite map_size_insert. destruct (m !! reading_node r) eqn:E; [|simpl; lia].
  assert (size m <> 0)%nat; [|simpl; lia]. intros H%map_size_empty_inv. by rewrite H, lookup_empty in E.
Qed.

Lemma storeAndLog_spec clock s r : store_inv s ->
  let '(s', b) := storeAndLog clock s r in
  readings s' = put (readings s) r /\ targetCount s' = targetCount s /\ store_inv s' /\
  (announced (targetReached s) + announced b)%nat = announced (targetReached s').
Proof.
  intros Hinv. unfold storeAndLog, upsert. fold (put (readings s) r).
  destruct (size_put (readings s) r) as [H1 H2]. unfold store_inv in *.
  destruct (targetReached s) eqn:Ht; simpl.
  - symmetry in Hinv. apply andb_prop in Hinv as [_ Hc%Z.leb_le].
    split_and!; try done. rewrite bool_decide_eq_true_2 by done. symmetry. apply Z.leb_le. lia.
  - destruct (Z.leb_spec (targetCount s) (Z.of_nat (size (put (readings s) r)))); simpl; split_and!; try done.
    + rewrite bool_decide_eq_true_2 by done. symmetry. by apply Z.leb_le.
    + rewrite (proj2 (Z.leb_gt _ _)) by done. by rewrite andb_false_r.
Qed.

Lemma applyReadingCommand_spec clock s command : store_inv s ->
  let '(s', b) := applyReadingCommand clock s command in
  readings s' = fold_left put (option_list (decodeCommand command)) (readings s) /\
  targetCount s' = targetCount s /\ store_inv s' /\
  (announced (targetReached s) + announced b)%nat = announced (targetReached s').
Proof.
  intros Hinv. unfold applyReadingCommand, decodeCommand.
  destruct (base64_DecodeString command) as [payload|]; simpl; [|split_and!; try done; lia].
  destruct (DecodeReading payload) as [r|]; simpl; [|split_and!; try done; lia].
  by apply storeAndLog_spec.
Qed.

Lemma applyCommands_spec cmds s : store_inv s ->
  let '(s', bs) := applyCommands cmds s in
  readings s' = fold_left put (omap decodeCommand (map snd cmds)) (readings s) /\
  targetCount s' = targetCount s /\ store_inv s' /\
  (announced (targetReached s) + length (filter (fun b => b = true) bs))%nat = announced (targetReached s').
Proof.
  revert s. induction cmds as [|[clock command] cmds IH]; intros s Hinv.
  { simpl. split_and!; try done. }
  simpl applyCommands. pose proof (applyReadingCommand_spec clock s command Hinv) as H.
  destruct (applyReadingCommand clock s command) as [s1 b]. destruct H as (Hr & Hc & Hinv1 & Hb).
  specialize (IH s1 Hinv1). destruct (applyCommands cmds s1) as [s2 bs].
  destruct IH as (Hr2 & Hc2 & Hinv2 & Hb2). split_and!; [|congruence|done|].
  - rewrite Hr2, Hr. csimpl. by destruct (decodeCommand command).
  - rewrite <- Hb2, <- Hb. rewrite filter_cons. destruct b; case_decide; simpl; try done; lia.
Qed.

Lemma newReadingStore_inv junk total ratio : store_inv (newReadingStore junk total ratio).
Proof. reflexivity. Qed.

(** What a new store holds after the commands of Raft. *)
Lemma applied_readings junk total ratio cmds :
  readings (applyCommands cmds (newReadingStore junk total ratio)).1 = fold_left put (omap decodeCommand (map snd cmds)) ∅.
Proof.
  pose proof (applyCommands_spec cmds (newReadingStore junk total ratio) (newReadingStore_inv junk total ratio)) as H.
  destruct (applyCommands cmds (newReadingStore junk total ratio)) as [s bs]. exact (proj1 H).
Qed.

Lemma fold_put_lookup l m n :
  fold_left put l m !! n =
    match last (filter (fun r => reading_node r = n) l) with Some r => Some r | None => m !! n end.
Proof.
  revert m. induction l as [|r l IH] using rev_ind; intros m; [done|].
  rewrite fold_left_app, filter_app. simpl. unfold put at 1.
  rewrite filter_cons, filter_nil. case_decide as Hd.
  - rewrite last_snoc, <- Hd. by rewrite lookup_insert_eq.
  - rewrite app_nil_r, lookup_insert_ne by done. apply IH.
Qed.

(** C11: coordinators that apply the same commands hold the same readings.
    Whenever and however late the commands of the log are applied, the store
    holds for every node the last reading the log carries for it, and malformed
    commands change nothing; so replicas that applied the same commands agree. *)
Theorem coordinator_replicas_agree junk total ratio cmds cmds' n :
  map snd cmds = map snd cmds' ->
  let s := (applyCommands cmds (newReadingStore junk total ratio)).1 in
  let s' := (applyCommands cmds' (newReadingStore junk total ratio)).1 in
  readings s = readings s' /\ targetReached s = targetReached s' /\
  readings s !! n = last (filter (fun r => reading_node r = n) (omap decodeCommand (map snd cmds))).
Proof.
  intros Heq s s'. pose proof (newReadingStore_inv junk total ratio) as Hnew.
  pose proof (applyCommands_spec cmds _ Hnew) as H. pose proof (applyCommands_spec cmds' _ Hnew) as H'.
  subst s s'. destruct (applyCommands cmds _) as [s bs], (applyCommands cmds' _) as [s' bs'].
  destruct H as (Hr & Hc & Hi & _), H' as (Hr' & Hc' & Hi' & _). cbn [fst].
  assert (Hrr : readings s = readings s') by (by rewrite Hr, Hr', Heq).
  split_and!; [done| |].
  - unfold store_inv in *. by rewrite Hi, Hi', Hrr, Hc, Hc'.
  - rewrite Hr, fold_put_lookup. by destruct (last _).
Qed.

(** the target is announced once.  Over any run of commands the store
    announces its target exactly once if it ends with at least the target number
    of nodes (and at least one), and never otherwise. *)
Theorem target_announced_once junk total ratio cmds :
  let start := newReadingStore junk total ratio in
  let '(s, announcements) := applyCommands cmds start in
  length (filter (fun b => b = true) announcements) =
    if bool_decide (0 < size (readings s))%nat && (targetCount start <=? Z.of_nat (size (readings s)))
    then 1%nat else 0%nat.
Proof.
  cbv zeta. pose proof (newReadingStore_inv junk total ratio) as Hnew.
  pose proof (applyCommands_spec cmds _ Hnew) as H.
  assert (Hf : targetReached (newReadingStore junk total ratio) = false) by reflexivity.
  set (start := newReadingStore junk total ratio) in *. clearbody start.
  destruct (applyCommands cmds start) as [s bs]. destruct H as (_ & Hc & Hi & Hb).
  rewrite Hf in Hb. unfold announced in Hb at 1. rewrite Nat.add_0_l in Hb.
  unfold store_inv in Hi. by rewrite Hb, Hi, Hc.
Qed.

(** C39: the target is attainable.  Whatever the configured total and ratio, an
    actual number, the target count is at least one and at most the number of
    nodes (one if the total is not positive). *)
Theorem target_count_in_range junk total ratio : wf_float ratio -> ratio <> NaN -> total <= 2 ^ 53 ->
  1 <= targetCount (newReadingStore junk total ratio) <= Z.max 1 total.
Proof.
  intros Hwf Hnan Htot. unfold newReadingStore. set (ratio' := if _ || _ then _ else _). cbn [targetCount].
  set (n := if total <=? 0 then 1 else total).
  assert (Hn : 1 <= n <= 2 ^ 53 /\ n = Z.max 1 total) by (subst n; destruct (Z.leb_spec total 0); lia).
  assert (Hr : exists k, ratio' = Fin k /\ 0 < k <= unit /\ bound k).
  { subst ratio'. destruct (f_le ratio (Fin 0) || f_lt (f_of_int 1) ratio) eqn:E.
    - exists (round_Z (9 * unit) 10). split; [vm_compute; reflexivity|].
      split; [vm_compute; split; [reflexivity|discriminate]|].
      apply (bool_decide_eq_true_1 _). vm_compute. reflexivity.
    - apply orb_false_iff in E as [E1 E2]. rewrite f_of_int_exact in E2 by lia. rewrite Z.mul_1_l in E2.
      destruct ratio as [|[]|k]; try done. apply Z.leb_gt in E1. apply Z.ltb_ge in E2. exists k. auto. }
  destruct Hr as (k & -> & Hk & Hb). destruct Hn as [Hn Hmax].
  destruct (within_fraction n k Hn Hk Hb) as (p & -> & Hp).
  destruct (ceil_int p n) as (c & -> & Hc); [lia|lia|]. simpl. lia.
Qed.

(** ** Intake *)

(** A gossip frame of a node carries its reading to the coordinator. *)
Lemma handleGossipConn_gossip clock s raftNode raftPeers x ttl payload r :
  field x -> - 2 ^ 63 <= ttl < 2 ^ 63 -> Forall is_byte payload -> DecodeReading payload = Some r ->
  short (formatGossip x ttl (base64_EncodeToString payload)) ->
  handleGossipConn clock s raftNode raftPeers (sent [formatGossip x ttl (base64_EncodeToString payload)]) =
    intakeReading clock s raftNode raftPeers r.
Proof.
  intros Hx Ht Hb Hdec Hshort.
  destruct (parse_built gossipMsgType [x; Itoa ttl; base64_EncodeToString payload]) as (_ & _ & Hp).
  { by apply upper_word_dec_true. }
  { repeat constructor; try apply Hx; by apply Itoa_field || by apply base64_field. }
  set (msg := formatGossip _ _ _) in *. unfold handleGossipConn, gossipReading, coordinator_readFrame.
  change (sent [msg]) with (writeFrame (bytes_of msg) ++ []).
  rewrite readFrame_small by exact Hshort. rewrite string_bytes. subst msg. unfold formatGossip. rewrite Hp.
  rewrite bool_decide_eq_true_2 by done. simpl negb. cbv iota.
  by rewrite base64_roundtrip, Hdec.
Qed.

Lemma decodeCommand_encode r payload : EncodeReading r = Some payload -> Forall is_byte payload ->
  DecodeReading payload = Some r -> decodeCommand (base64_EncodeToString payload) = Some r.
Proof. intros Henc Hb Hdec. unfold decodeCommand. by rewrite base64_roundtrip. Qed.

(** C38: what the coordinator does with a node's gossip frame.  Without Raft the
    reading is stored.  With Raft nothing is stored yet: a follower that knows a
    leader forwards the reading to it if it knows its address; anyone else
    proposes it, once.  The result of the proposal makes no difference: in
    particular a proposal refused with [ErrNotLeader] is not forwarded.  The
    command carries the reading: applying it stores what was decoded. *)
Theorem gossip_intake clock s raftNode raftPeers x ttl payload r payload' :
  field x -> - 2 ^ 63 <= ttl < 2 ^ 63 -> Forall is_byte payload -> DecodeReading payload = Some r ->
  EncodeReading r = Some payload' -> Forall is_byte payload' -> DecodeReading payload' = Some r ->
  short (formatGossip x ttl (base64_EncodeToString payload)) ->
  exists command, decodeCommand command = Some r /\
  handleGossipConn clock s raftNode raftPeers (sent [formatGossip x ttl (base64_EncodeToString payload)]) =
    match raftNode with
    | None => ((storeAndLog clock s r).1, [])
    | Some v =>
        (s, if bool_decide (seen_state v = StateLeader) || (seen_leader v =?s "")
            then [DoPropose command]
            else match raftPeers !! seen_leader v with
                 | Some a => if a =?s "" then [] else [DoForward a command]
                 | None => [] end)
    end.
Proof.
  intros Hx Ht Hb Hdec Henc Hb' Hdec' Hshort.
  exists (base64_EncodeToString payload'). split; [by eapply decodeCommand_encode|].
  rewrite (handleGossipConn_gossip _ _ _ _ _ _ _ r) by done. destruct raftNode as [v|]; [|done].
  unfold intakeReading, encodeReadingCommand. rewrite Henc. unfold forwardTo.
  destruct (decide (seen_state v = StateLeader)) as [Hl|Hl].
  - rewrite (bool_decide_eq_false_2 (_ <> _)), (bool_decide_eq_true_2 (_ = StateLeader)) by tauto.
    simpl. by destruct (propose_result v).
  - rewrite (bool_decide_eq_true_2 (_ <> _)), (bool_decide_eq_false_2 (_ = StateLeader)) by done.
    simpl. destruct (seen_leader v =?s ""); simpl; [by destruct (propose_result v)|done].
Qed.
End Coordinator.

(** ** The peer list *)

Definition equals : Z := 61.

(** IDs and addresses the list can carry. *)
Definition peer_entry (p : string * string) : Prop :=
  Forall visible (bytes_of p.1) /\ comma ∉ bytes_of p.1 /\ equals ∉ bytes_of p.1 /\ p.1 <> "" /\
  Forall visible (bytes_of p.2) /\ comma ∉ bytes_of p.2 /\ p.2 <> "".
#[export] Instance peer_entry_dec p : Decision (peer_entry p).
Proof. unfold peer_entry. apply _. Defined.

Definition peer_text (p : string * string) : string := Join [p.1; p.2] equals.

Lemma split_first_app sep l acc rest : sep ∉ l ->
  split_first sep (l ++ sep :: rest) acc = [acc ++ l; rest].
Proof.
  revert acc. induction l as [|b l IH]; intros acc Hl; simpl.
  - by rewrite Z.eqb_refl, app_nil_r.
  - apply not_elem_of_cons in Hl as [Hb Hl]. rewrite (proj2 (Z.eqb_neq _ _)) by done.
    rewrite IH by done. by rewrite <- app_assoc.
Qed.

Lemma peer_text_bytes p : bytes_of (peer_text p) = bytes_of p.1 ++ equals :: bytes_of p.2.
Proof.
  unfold peer_text, Join. rewrite bytes_string; [done|]. simpl. apply Forall_app.
  split; [apply bytes_of_range|]. constructor; [unfold is_byte, equals; lia|apply bytes_of_range].
Qed.

Lemma SplitN2_peer p : equals ∉ bytes_of p.1 -> SplitN2 (peer_text p) equals = [p.1; p.2].
Proof.
  intros Hp. unfold SplitN2. rewrite peer_text_bytes, split_first_app by done. simpl.
  by rewrite !string_bytes.
Qed.

Lemma splitAndTrim_peers ps : ps <> [] -> Forall peer_entry ps ->
  splitAndTrim (Join (map peer_text ps) comma) = map peer_text ps.
Proof.
  intros Hne Hps. unfold splitAndTrim. rewrite Split_Join; [|unfold is_byte, comma; lia|by destruct ps|].
  - clear Hne. induction Hps as [|p ps (Hv1 & _ & _ & Hne & Hv2 & _) _ IH]; [done|].
    assert (Hv : Forall visible (bytes_of (peer_text p))).
    { rewrite peer_text_bytes. apply Forall_app. split; [done|].
      constructor; [unfold visible, equals; lia|done]. }
    assert (Ht : peer_text p <> "").
    { intros E. pose proof (peer_text_bytes p) as H. rewrite E in H. by destruct (bytes_of p.1). }
    simpl. rewrite TrimSpace_visible by done. rewrite filter_cons_True by done. by rewrite IH.
  - apply Forall_map. eapply Forall_impl; [exact Hps|]. intros p (_ & Hc1 & _ & _ & _ & Hc2 & _).
    rewrite peer_text_bytes. intros [?|[?|?]%elem_of_cons]%elem_of_app; done.
Qed.

Lemma fold_peers ps (m : gmap string string) : Forall peer_entry ps ->
  fold_left addPeerEntry (map peer_text ps) m = fold_left (fun m p => <[p.1 := p.2]> m) ps m.
Proof.
  intros Hps. revert m. induction Hps as [|p ps (Hv1 & _ & He & Hne1 & Hv2 & _ & Hne2) _ IH]; intros m; [done|].
  simpl. unfold addPeerEntry at 2. change 61 with equals. rewrite SplitN2_peer, !TrimSpace_visible by done.
  rewrite !bool_decide_eq_false_2 by done. apply IH.
Qed.

Lemma fold_insert_map ps (m : gmap string string) : NoDup ps.*1 ->
  fold_left (fun m p => <[p.1 := p.2]> m) ps m = list_to_map ps ∪ m.
Proof.
  revert m. induction ps as [|[k v] ps IH]; intros m Hnd; simpl; [by rewrite map_empty_union|].
  apply NoDup_cons in Hnd as [Hk Hnd]. rewrite IH by done.
  rewrite <- insert_union_r, insert_union_l; [done|]. by apply not_elem_of_list_to_map.
Qed.

(** the peer list round trips.  A list of distinct IDs with addresses,
    written as [id=addr,id=addr,...], is parsed into exactly that table; and the
    peer IDs Raft is configured with are, in whatever order the table is visited,
    the listed IDs other than the coordinator's own, each once. *)
Theorem raft_peers_roundtrip rangeKeys ps selfID :
  (forall m : gmap string string, rangeKeys m ≡ₚ (map_to_list m).*1) ->
  ps <> [] -> Forall peer_entry ps -> NoDup ps.*1 ->
  let peers := raftPeersFromEnv (Join (map peer_text ps) comma) in
  let ids := raftPeerIDs rangeKeys peers selfID in
  peers = list_to_map ps /\ NoDup ids /\ forall i, i ∈ ids <-> i ∈ ps.*1 /\ i <> selfID.
Proof.
  intros Hrange Hne Hps Hnd peers ids.
  assert (Hpeers : peers = list_to_map ps).
  { subst peers. unfold raftPeersFromEnv, coordinator_splitAndTrim.
    rewrite splitAndTrim_peers, fold_peers, fold_insert_map, map_union_empty by done.
    rewrite bool_decide_eq_false_2; [done|]. intros E.
    pose proof (splitAndTrim_peers ps Hne Hps) as H. rewrite E in H. by destruct ps. }
  assert (Hkeys : rangeKeys peers ≡ₚ ps.*1).
  { rewrite Hrange, Hpeers. by rewrite map_to_list_to_map. }
  split; [done|]. unfold ids, raftPeerIDs. split.
  - apply NoDup_filter. by rewrite Hkeys.
  - intros i. rewrite list_elem_of_filter, Hkeys. tauto.
Qed.

(** ** A concrete coordinator *)

Definition demo_name (r : string) : string := r.
Definition demo_command (r : string) : string := base64_EncodeToString (bytes_of r).
Definition demo_commands : list ((Z * Z) * string) :=
  [((1, 1), demo_command "n1"); ((2, 2), "not base64"); ((3, 5), demo_command "n2")].
Definition demo_commands_late : list ((Z * Z) * string) :=
  [((7, 7), demo_command "n1"); ((8, 8), "not base64"); ((9, 9), demo_command "n2")].

(** Twenty nodes and a ratio of 0.9, the defaults. *)
Lemma target_count_in_range_witness :
  1 <= targetCount (newReadingStore (Reading := string) 0 20 (f_const 9 10)) <= 20 /\
  targetCount (newReadingStore (Reading := string) 0 20 (f_const 9 10)) = 18.
Proof.
  assert (H : wf_float (f_const 9 10)) by (unfold f_const; apply wf_round; lia).
  split; [|vm_compute; reflexivity]. apply (target_count_in_range 0 20 (f_const 9 10)).
  - exact H.
  - vm_compute. discriminate.
  - lia.
Defined.

Lemma coordinator_replicas_agree_witness :
  readings (applyCommands demo_name demo_decode demo_commands (newReadingStore 0 2 (f_of_int 1))).1 =
  readings (applyCommands demo_name demo_decode demo_commands_late (newReadingStore 0 2 (f_of_int 1))).1 /\
  readings (applyCommands demo_name demo_decode demo_commands (newReadingStore 0 2 (f_of_int 1))).1 !! "n2" = Some "n2".
Proof.
  destruct (coordinator_replicas_agree demo_name demo_decode 0 2 (f_of_int 1) demo_commands demo_commands_late "n2")
    as (H1 & _ & H2); [reflexivity|]. split; [exact H1|]. rewrite H2. vm_compute. reflexivity.
Defined.

Lemma gossip_intake_witness :
  let msg := formatGossip "00ff" 3 (base64_EncodeToString (bytes_of "n9")) in
  let view := mkView StateLeader "" (Some ErrNotLeader) "B" in
  exists command, (handleGossipConn demo_name demo_encode demo_decode (1, 1) (newReadingStore 0 2 (f_of_int 1))
    (Some view) {["B" := "b:7000"]} (sent [msg])).2 = [DoPropose command].
Proof.
  intros msg view.
  destruct (gossip_intake demo_name demo_encode demo_decode (1, 1) (newReadingStore 0 2 (f_of_int 1)) (Some view)
    {["B" := "b:7000"]} "00ff" 3 (bytes_of "n9") "n9" (bytes_of "n9")) as (command & _ & H).
  - apply (bool_decide_eq_true_1 _). vm_compute. reflexivity.
  - lia.
  - apply bytes_of_range.
  - vm_compute. reflexivity.
  - reflexivity.
  - apply bytes_of_range.
  - vm_compute. reflexivity.
  - unfold short. vm_compute. reflexivity.
  - exists command. fold msg in H. rewrite H. reflexivity.
Defined.

Lemma raft_peers_roundtrip_witness :
  raftPeersFromEnv "coord-1=c1:7000,coord-2=c2:7000" = {["coord-1" := "c1:7000"; "coord-2" := "c2:7000"]} /\
  raftPeerIDs (fun m => (map_to_list m).*1) (raftPeersFromEnv "coord-1=c1:7000,coord-2=c2:7000") "coord-1" =
    ["coord-2"].
Proof.
  destruct (raft_peers_roundtrip (fun m => (map_to_list m).*1)
    [("coord-1", "c1:7000"); ("coord-2", "c2:7000")] "coord-1") as (H & _).
  - reflexivity.
  - discriminate.
  - apply (bool_decide_eq_true_1 _). vm_compute. reflexivity.
  - apply (bool_decide_eq_true_1 _). vm_compute. reflexivity.
  - split; [|vm_compute; reflexivity].
    replace "coord-1=c1:7000,coord-2=c2:7000" with
      (Join (map peer_text [("coord-1", "c1:7000"); ("coord-2", "c2:7000")]) comma)
      by (vm_compute; reflexivity).
    exact H.
Defined.
