(* ===== verification/RpcMessages.v ===== *)
(** * The messages of the Raft RPCs and their JSON (src/cmd/coordinator/raft_rpc.go,
    src/pkg/raft/types.go)

    The envelope with its tags, the requests and responses with the names of their
    fields.  Decoding merges into what is there, as [encoding/json] does: a pointer is
    allocated once, a slice keeps its elements beyond its length.  Messages with
    64-bit numbers and UTF-8 strings survive. *)

From Stdlib Require Import Ascii String.
From stdpp Require Import base strings list.
From S2P Require Import Prelude RaftNode GoBytes GoText GoUtf8 GoJson.
From S2P Require Import GoTime SensorCodec.

#[local] Open Scope Z_scope.
#[local] Open Scope go_scope.

(** ** Messages *)

Record proposeRequest : Type := mkProposeReq { pq_Command : string }.

Record proposeResponse : Type := mkProposeResp {
  pp_OK : bool; pp_LeaderID : string; pp_Error : string }.

Record raftEnvelope : Type := mkEnvelope {
  env_Type : string; env_RequestVote : option RequestVoteRequest;
  env_AppendEntries : option AppendEntriesRequest; env_Propose : option proposeRequest }.

Definition rpcRequestVote : string := "REQUEST_VOTE".
Definition rpcAppendEntries : string := "APPEND_ENTRIES".
Definition rpcPropose : string := "PROPOSE".

(** ** Encoding *)

Definition encode_vote_request (r : RequestVoteRequest) : json :=
  encode_struct [("Term", encode_uint (rv_Term r)); ("CandidateID", encode_string (rv_CandidateID r));
                 ("LastLogIndex", encode_uint (rv_LastLogIndex r)); ("LastLogTerm", encode_uint (rv_LastLogTerm r))].

Definition encode_vote_response (r : RequestVoteResponse) : json :=
  encode_struct [("Term", encode_uint (rvr_Term r)); ("VoteGranted", JBool (rvr_VoteGranted r))].

Definition encode_entry (e : LogEntry) : json :=
  encode_struct [("Term", encode_uint (entry_Term e)); ("Command", encode_string (entry_Command e))].

(** The program only builds nil slices and slices of one entry: nil is null. *)
Definition encode_entries (es : list LogEntry) : json :=
  match es with [] => JNull | _ => JArr (map encode_entry es) end.

Definition encode_append_request (r : AppendEntriesRequest) : json :=
  encode_struct [("Term", encode_uint (ae_Term r)); ("LeaderID", encode_string (ae_LeaderID r));
                 ("PrevLogIndex", encode_uint (ae_PrevLogIndex r)); ("PrevLogTerm", encode_uint (ae_PrevLogTerm r));
                 ("Entries", encode_entries (ae_Entries r)); ("LeaderCommit", encode_uint (ae_LeaderCommit r))].

Definition encode_append_response (r : AppendEntriesResponse) : json :=
  encode_struct [("Term", encode_uint (aer_Term r)); ("Success", JBool (aer_Success r))].

Definition encode_propose_request (r : proposeRequest) : json :=
  encode_struct [("command", encode_string (pq_Command r))].

(** [omitempty]: a nil pointer or an empty string leaves no member. *)
Definition omit_nil {A} (name : string) (enc : A -> json) (p : option A) : list (string * json) :=
  match p with None => [] | Some a => [(name, enc a)] end.
Definition omit_empty (name s : string) : list (string * json) :=
  if s =?s "" then [] else [(name, encode_string s)].

Definition encode_propose_response (r : proposeResponse) : json :=
  encode_struct ([("ok", JBool (pp_OK r))] ++ omit_empty "leader_id" (pp_LeaderID r) ++ omit_empty "error" (pp_Error r)).

Definition encode_envelope (e : raftEnvelope) : json :=
  encode_struct ([("type", encode_string (env_Type e))] ++ omit_nil "request_vote" encode_vote_request (env_RequestVote e) ++
                 omit_nil "append_entries" encode_append_request (env_AppendEntries e) ++
                 omit_nil "propose" encode_propose_request (env_Propose e)).

(** ** Decoding *)

Definition set_vote_request (name : string) (v : json) (r : RequestVoteRequest) : option RequestVoteRequest :=
  let '(mkVoteReq term cand index lterm) := r in
  if name =?s "Term" then x ← decode_uint64 v term; Some (mkVoteReq x cand index lterm)
  else if name =?s "CandidateID" then x ← decode_string v cand; Some (mkVoteReq term x index lterm)
  else if name =?s "LastLogIndex" then x ← decode_uint64 v index; Some (mkVoteReq term cand x lterm)
  else x ← decode_uint64 v lterm; Some (mkVoteReq term cand index x).
Definition decode_vote_request : json -> RequestVoteRequest -> option RequestVoteRequest :=
  decode_struct ["Term"; "CandidateID"; "LastLogIndex"; "LastLogTerm"] set_vote_request.

Definition set_vote_response (name : string) (v : json) (r : RequestVoteResponse) : option RequestVoteResponse :=
  let '(mkVoteResp term granted) := r in
  if name =?s "Term" then x ← decode_uint64 v term; Some (mkVoteResp x granted)
  else x ← decode_bool v granted; Some (mkVoteResp term x).
Definition decode_vote_response : json -> RequestVoteResponse -> option RequestVoteResponse :=
  decode_struct ["Term"; "VoteGranted"] set_vote_response.

Definition set_entry (name : string) (v : json) (e : LogEntry) : option LogEntry :=
  let '(mkEntry term command) := e in
  if name =?s "Term" then x ← decode_uint64 v term; Some (mkEntry x command)
  else x ← decode_string v command; Some (mkEntry term x).
Definition decode_entry : json -> LogEntry -> option LogEntry := decode_struct ["Term"; "Command"] set_entry.

(** [array] into a slice, with the elements between its length and its capacity:
    element [i] is decoded into what is there; fresh memory is zero. *)
Fixpoint decode_elems (vs : list json) (cells : list LogEntry) : option (list LogEntry * list LogEntry) :=
  match vs with
  | [] => Some ([], cells)
  | v :: vs =>
      e ← decode_entry v (default (mkEntry 0 "") (head cells));
      '(es, cells) ← decode_elems vs (tail cells); Some (e :: es, cells)
  end.

Definition decode_entries (v : json) (s : list LogEntry * list LogEntry) : option (list LogEntry * list LogEntry) :=
  match v with
  | JNull | JArr [] => Some ([], [])
  | JArr vs => decode_elems vs (s.1 ++ s.2)
  | _ => None
  end.

(** An append request with the rest of the capacity of its slice. *)
Definition set_append_request (name : string) (v : json) (r : AppendEntriesRequest * list LogEntry)
  : option (AppendEntriesRequest * list LogEntry) :=
  let '(mkAppendReq term leader index pterm entries commit, spare) := r in
  if name =?s "Term" then x ← decode_uint64 v term; Some (mkAppendReq x leader index pterm entries commit, spare)
  else if name =?s "LeaderID" then x ← decode_string v leader; Some (mkAppendReq term x index pterm entries commit, spare)
  else if name =?s "PrevLogIndex" then x ← decode_uint64 v index; Some (mkAppendReq term leader x pterm entries commit, spare)
  else if name =?s "PrevLogTerm" then x ← decode_uint64 v pterm; Some (mkAppendReq term leader index x entries commit, spare)
  else if name =?s "Entries" then
    '(es, spare) ← decode_entries v (entries, spare); Some (mkAppendReq term leader index pterm es commit, spare)
  else x ← decode_uint64 v commit; Some (mkAppendReq term leader index pterm entries x, spare).
Definition decode_append_request
  : json -> AppendEntriesRequest * list LogEntry -> option (AppendEntriesRequest * list LogEntry) :=
  decode_struct ["Term"; "LeaderID"; "PrevLogIndex"; "PrevLogTerm"; "Entries"; "LeaderCommit"] set_append_request.

Definition set_append_response (name : string) (v : json) (r : AppendEntriesResponse) : option AppendEntriesResponse :=
  let '(mkAppendResp term success) := r in
  if name =?s "Term" then x ← decode_uint64 v term; Some (mkAppendResp x success)
  else x ← decode_bool v success; Some (mkAppendResp term x).
Definition decode_append_response : json -> AppendEntriesResponse -> option AppendEntriesResponse :=
  decode_struct ["Term"; "Success"] set_append_response.

Definition set_propose_request (name : string) (v : json) (r : proposeRequest) : option proposeRequest :=
  x ← decode_string v (pq_Command r); Some (mkProposeReq x).
Definition decode_propose_request : json -> proposeRequest -> option proposeRequest :=
  decode_struct ["command"] set_propose_request.

Definition set_propose_response (name : string) (v : json) (r : proposeResponse) : option proposeResponse :=
  let '(mkProposeResp ok leader err) := r in
  if name =?s "ok" then x ← decode_bool v ok; Some (mkProposeResp x leader err)
  else if name =?s "leader_id" then x ← decode_string v leader; Some (mkProposeResp ok x err)
  else x ← decode_string v err; Some (mkProposeResp ok leader x).
Definition decode_propose_response : json -> proposeResponse -> option proposeResponse :=
  decode_struct ["ok"; "leader_id"; "error"] set_propose_response.

(** Into a pointer: null makes it nil, otherwise it is allocated if it is nil. *)
Definition decode_pointer {A} (dec : json -> A -> option A) (zero : A) (v : json) (p : option A) : option (option A) :=
  match v with JNull => Some None | _ => Some <$> dec v (default zero p) end.

(** The envelope while it is decoded. *)
Record openEnvelope : Type := mkOpen {
  oe_Type : string; oe_RequestVote : option RequestVoteRequest;
  oe_AppendEntries : option (AppendEntriesRequest * list LogEntry); oe_Propose : option proposeRequest }.

Definition set_envelope (name : string) (v : json) (e : openEnvelope) : option openEnvelope :=
  let '(mkOpen type vote append propose) := e in
  if name =?s "type" then x ← decode_string v type; Some (mkOpen x vote append propose)
  else if name =?s "request_vote" then
    x ← decode_pointer decode_vote_request (mkVoteReq 0 "" 0 0) v vote; Some (mkOpen type x append propose)
  else if name =?s "append_entries" then
    x ← decode_pointer decode_append_request (mkAppendReq 0 "" 0 0 [] 0, []) v append; Some (mkOpen type vote x propose)
  else x ← decode_pointer decode_propose_request (mkProposeReq "") v propose; Some (mkOpen type vote append x).
Definition decode_open : json -> openEnvelope -> option openEnvelope :=
  decode_struct ["type"; "request_vote"; "append_entries"; "propose"] set_envelope.

Definition decode_envelope (v : json) : option raftEnvelope :=
  '(mkOpen type vote append propose) ← decode_open v (mkOpen "" None None None);
  Some (mkEnvelope type vote (fst <$> append) propose).

(** [json.Marshal] and [json.Unmarshal] at a type. *)
Class Json (A : Type) := { to_json : A -> json; of_json : json -> option A }.

Definition Marshal {A} `{Json A} (a : A) : option (list Z) := Some (print_json (to_json a)).
Definition Unmarshal {A} `{Json A} (l : list Z) : option A := v ← parse_json l; of_json v.

#[export] Instance json_envelope : Json raftEnvelope := {| to_json := encode_envelope; of_json := decode_envelope |}.
#[export] Instance json_vote_response : Json RequestVoteResponse :=
  {| to_json := encode_vote_response; of_json v := decode_vote_response v (mkVoteResp 0 false) |}.
#[export] Instance json_append_response : Json AppendEntriesResponse :=
  {| to_json := encode_append_response; of_json v := decode_append_response v (mkAppendResp 0 false) |}.
#[export] Instance json_propose_response : Json proposeResponse :=
  {| to_json := encode_propose_response; of_json v := decode_propose_response v (mkProposeResp false "" "") |}.

(** ** Messages that survive *)

Definition uint64 (z : Z) : Prop := 0 <= z < 2 ^ 64.
Definition utf8 (s : string) : Prop := ValidString s = true.

Definition entry_ok (e : LogEntry) : Prop := uint64 (entry_Term e) /\ utf8 (entry_Command e).
Definition vote_request_ok (r : RequestVoteRequest) : Prop :=
  uint64 (rv_Term r) /\ utf8 (rv_CandidateID r) /\ uint64 (rv_LastLogIndex r) /\ uint64 (rv_LastLogTerm r).
Definition append_request_ok (r : AppendEntriesRequest) : Prop :=
  uint64 (ae_Term r) /\ utf8 (ae_LeaderID r) /\ uint64 (ae_PrevLogIndex r) /\ uint64 (ae_PrevLogTerm r) /\
  Forall entry_ok (ae_Entries r) /\ uint64 (ae_LeaderCommit r).
Definition option_ok {A} (P : A -> Prop) (o : option A) : Prop := match o with None => True | Some a => P a end.
Definition envelope_ok (e : raftEnvelope) : Prop :=
  utf8 (env_Type e) /\ option_ok vote_request_ok (env_RequestVote e) /\
  option_ok append_request_ok (env_AppendEntries e) /\ option_ok (fun r => utf8 (pq_Command r)) (env_Propose e).

(** The value decodes, over whatever was there, to what was encoded; and its printed
    form scans within [d] levels. *)
Definition carries {A} (v : json) (d : nat) (a : option A) (b : A) : Prop :=
  a = Some b /\ printable v = true /\ (nesting v <= d)%nat.

Lemma decode_uint_ok z x : uint64 z -> decode_uint64 (encode_uint z) x = Some z.
Proof. intros H. by apply decode_encode_uint. Qed.
Lemma decode_string_ok s x : utf8 s -> decode_string (encode_string s) x = Some s.
Proof. intros H. by apply unquote_quote_valid. Qed.
Lemma printable_uint z : uint64 z -> printable (encode_uint z) = true.
Proof. intros H. by apply (decode_encode_uint z 0). Qed.
Lemma printable_string s : printable (encode_string s) = true.
Proof. apply quote_ok. Qed.

(** Structs print if their parts do. *)
Lemma printable_struct fs : Forall (fun f => str_ok (bytes_of f.1) = true /\ printable f.2 = true) fs ->
  printable (encode_struct fs) = true.
Proof.
  intros H. unfold encode_struct. cbn [printable]. rewrite forallb_Forall, Forall_map. eapply Forall_impl; [exact H|].
  intros [n v] [H1 H2]. cbn [fst snd] in *. by rewrite H1, H2.
Qed.

Lemma nesting_struct fs d : Forall (fun f => (nesting f.2 <= d)%nat) fs -> (nesting (encode_struct fs) <= S d)%nat.
Proof.
  intros H. unfold encode_struct. cbn [nesting]. apply le_n_S, maximum_le. rewrite map_map. apply Forall_map.
  eapply Forall_impl; [exact H|]. by intros [n v].
Qed.

(** The fields of concrete messages. *)
Ltac fields := cbn [rv_Term rv_CandidateID rv_LastLogIndex rv_LastLogTerm rvr_Term rvr_VoteGranted entry_Term entry_Command
  ae_Term ae_LeaderID ae_PrevLogIndex ae_PrevLogTerm ae_Entries ae_LeaderCommit aer_Term aer_Success
  env_Type env_RequestVote env_AppendEntries env_Propose pq_Command pp_OK pp_LeaderID pp_Error] in *.

(** Read the member at hand with the setter [f]. *)
Ltac set_member f :=
  next_member;
  match goal with |- context [f ?n ?v ?a] =>
    let e := eval lazy beta iota zeta delta [f] in (f n v a) in change (f n v a) with e end;
  repeat first [rewrite bool_decide_eq_true_2 by reflexivity | rewrite bool_decide_eq_false_2 by discriminate];
  rewrite ?decode_uint_ok, ?decode_string_ok by done; cbn [mbind option_bind decode_bool].

(** The fields of a struct print. *)
Ltac print_members :=
  apply printable_struct; repeat constructor; cbn [fst snd];
  first [reflexivity | by apply printable_uint | apply printable_string | idtac].

(** And nest no deeper than the parts allow. *)
Ltac nest_members :=
  apply nesting_struct; fields; repeat (apply Forall_cons; split); try apply Forall_nil_2;
  cbn [snd]; first [assumption | cbn [nesting encode_uint encode_string]; lia].

Lemma vote_request_carried r r0 : vote_request_ok r ->
  carries (encode_vote_request r) 1 (decode_vote_request (encode_vote_request r) r0) r.
Proof.
  intros (H1 & H2 & H3 & H4). destruct r as [term cand index lterm], r0 as [a b c d]. fields. split; [|split].
  - unfold decode_vote_request, decode_struct, encode_vote_request, encode_struct. cbn [map]. fields.
    do 4 set_member set_vote_request. reflexivity.
  - print_members.
  - nest_members.
Qed.

Lemma entry_carried e e0 : entry_ok e -> carries (encode_entry e) 1 (decode_entry (encode_entry e) e0) e.
Proof.
  intros (H1 & H2). destruct e as [term command], e0 as [a b]. fields. split; [|split].
  - unfold decode_entry, decode_struct, encode_entry, encode_struct. cbn [map]. fields.
    do 2 set_member set_entry. reflexivity.
  - print_members.
  - nest_members.
Qed.

Lemma decode_elems_ok es cells : Forall entry_ok es -> decode_elems (map encode_entry es) cells = Some (es, drop (length es) cells).
Proof.
  intros H. revert cells. induction H as [|e es He _ IH]; intros cells; cbn [map decode_elems]; [done|].
  destruct (entry_carried e (default (mkEntry 0 "") (head cells)) He) as [-> _]. cbn [mbind option_bind]. rewrite IH.
  destruct cells; simpl; by rewrite ?drop_nil.
Qed.

Lemma entries_carried es s : Forall entry_ok es -> exists spare,
  carries (encode_entries es) 2 (decode_entries (encode_entries es) s) (es, spare).
Proof.
  intros H. destruct es as [|e es]; [exists []; split; [done|split; [done|simpl; lia]]|].
  exists (drop (length (e :: es)) (s.1 ++ s.2)). unfold encode_entries. split; [|split].
  - rewrite <- decode_elems_ok by done. done.
  - cbn [printable]. rewrite forallb_Forall, Forall_map. eapply Forall_impl; [exact H|]. intros x Hx. by apply (entry_carried x x Hx).
  - cbn [nesting]. apply le_n_S, maximum_le. rewrite map_map. apply Forall_map. eapply Forall_impl; [exact H|].
    intros x Hx. by apply (entry_carried x x Hx).
Qed.

Lemma append_request_carried r r0 : append_request_ok r -> exists spare,
  carries (encode_append_request r) 3 (decode_append_request (encode_append_request r) r0) (r, spare).
Proof.
  intros (H1 & H2 & H3 & H4 & H5 & H6). destruct r as [term leader index pterm entries commit], r0 as [[a b c d es f] sp]. fields.
  destruct (entries_carried entries (es, sp) H5) as (spare & E & P & N). exists spare. split; [|split].
  - unfold decode_append_request, decode_struct, encode_append_request, encode_struct. cbn [map]. fields.
    do 5 set_member set_append_request. rewrite E. cbn [mbind option_bind]. set_member set_append_request. reflexivity.
  - print_members. exact P.
  - nest_members.
Qed.

Lemma propose_request_carried r r0 : utf8 (pq_Command r) ->
  carries (encode_propose_request r) 1 (decode_propose_request (encode_propose_request r) r0) r.
Proof.
  intros H. destruct r as [command]. fields. split; [|split].
  - unfold decode_propose_request, decode_struct, encode_propose_request, encode_struct. cbn [map]. fields.
    set_member set_propose_request. reflexivity.
  - print_members.
  - nest_members.
Qed.

(** A pointer to a struct. *)
Lemma pointer_ok {A} dec zero v p (a : A) : v <> JNull -> dec v (default zero p) = Some a ->
  decode_pointer dec zero v p = Some (Some a).
Proof. intros Hv H. destruct v; try done; unfold decode_pointer; by rewrite H. Qed.

Lemma decode_open_ok e : envelope_ok e -> exists spare,
  decode_open (encode_envelope e) (mkOpen "" None None None) =
    Some (mkOpen (env_Type e) (env_RequestVote e) ((fun r => (r, spare)) <$> env_AppendEntries e) (env_Propose e)).
Proof.
  intros (Ht & Hv & Ha & Hp). destruct e as [type vote append propose]. fields.
  unfold decode_open, decode_struct, encode_envelope, encode_struct. fields.
  destruct append as [append|]; cbn [option_ok] in Ha.
  1: destruct (append_request_carried append (mkAppendReq 0 "" 0 0 [] 0, []) Ha) as (spare & Ea & _); exists spare.
  2: exists [].
  all: destruct vote as [vote|]; cbn [option_ok] in Hv;
    [destruct (vote_request_carried vote (mkVoteReq 0 "" 0 0) Hv) as (Ev & _)|].
  all: destruct propose as [propose|]; cbn [option_ok] in Hp;
    [destruct (propose_request_carried propose (mkProposeReq "") Hp) as (Ep & _)|].
  all: cbn [omit_nil app map]; set_member set_envelope;
    repeat (set_member set_envelope; erewrite pointer_ok by done; cbn [mbind option_bind]); reflexivity.
Qed.

Lemma envelope_carried e : envelope_ok e -> carries (encode_envelope e) 4 (decode_envelope (encode_envelope e)) e.
Proof.
  intros He. destruct (decode_open_ok e He) as (spare & Hd). destruct He as (Ht & Hv & Ha & Hp).
  destruct e as [type vote append propose]. fields. split; [|split].
  - unfold decode_envelope. rewrite Hd. cbn [mbind option_bind]. by destruct append.
  - apply printable_struct. fields. repeat (apply Forall_app; split).
    + constructor; [|constructor]. split; [reflexivity|apply printable_string].
    + destruct vote as [r|]; constructor; [|constructor]. split; [reflexivity|]. by apply (vote_request_carried r r Hv).
    + destruct append as [r|]; constructor; [|constructor]. split; [reflexivity|].
      by destruct (append_request_carried r (r, []) Ha) as (? & _ & ? & _).
    + destruct propose as [r|]; constructor; [|constructor]. split; [reflexivity|]. by apply (propose_request_carried r r Hp).
  - apply nesting_struct. fields. repeat (apply Forall_app; split).
    + constructor; [simpl; lia|constructor].
    + destruct vote as [r|]; constructor; [|constructor]. cbn [snd]. destruct (vote_request_carried r r Hv) as (_ & _ & ?). lia.
    + destruct append as [r|]; constructor; [|constructor]. cbn [snd].
      destruct (append_request_carried r (r, []) Ha) as (? & _ & _ & ?). lia.
    + destruct propose as [r|]; constructor; [|constructor]. cbn [snd].
      destruct (propose_request_carried r r Hp) as (_ & _ & ?). lia.
Qed.

Lemma vote_response_carried r r0 : uint64 (rvr_Term r) ->
  carries (encode_vote_response r) 1 (decode_vote_response (encode_vote_response r) r0) r.
Proof.
  intros H. destruct r as [term granted], r0 as [a b]. fields. split; [|split].
  - unfold decode_vote_response, decode_struct, encode_vote_response, encode_struct. cbn [map]. fields.
    do 2 set_member set_vote_response. reflexivity.
  - print_members.
  - nest_members.
Qed.

Lemma append_response_carried r r0 : uint64 (aer_Term r) ->
  carries (encode_append_response r) 1 (decode_append_response (encode_append_response r) r0) r.
Proof.
  intros H. destruct r as [term success], r0 as [a b]. fields. split; [|split].
  - unfold decode_append_response, decode_struct, encode_append_response, encode_struct. cbn [map]. fields.
    do 2 set_member set_append_response. reflexivity.
  - print_members.
  - nest_members.
Qed.

(** Into a zero response: a member that was omitted stays empty. *)
Lemma propose_response_carried r : utf8 (pp_LeaderID r) -> utf8 (pp_Error r) ->
  carries (encode_propose_response r) 1 (decode_propose_response (encode_propose_response r) (mkProposeResp false "" "")) r.
Proof.
  intros Hl He. destruct r as [ok leader err]. fields. unfold omit_empty. split; [|split].
  - unfold decode_propose_response, decode_struct, encode_propose_response, encode_struct, omit_empty. fields.
    destruct (decide (leader = "")) as [->|Hnl], (decide (err = "")) as [->|Hne];
      rewrite ?(bool_decide_eq_false_2 (leader = _)), ?(bool_decide_eq_false_2 (err = _)) by done;
      rewrite ?(bool_decide_eq_true_2 ("" = "")) by done; cbn [app map]; repeat set_member set_propose_response; reflexivity.
  - apply printable_struct. fields. unfold omit_empty.
    repeat (apply Forall_app; split); [by repeat constructor|..];
      case_bool_decide; constructor; (split; [reflexivity|apply printable_string]) || constructor.
  - apply nesting_struct. fields. unfold omit_empty.
    repeat (apply Forall_app; split); [by repeat constructor|..];
      case_bool_decide; constructor; (simpl; lia) || constructor.
Qed.

(** ** In a frame *)

(** A value that is encoded into a frame and decoded into itself. *)
Definition json_ok {A} `{Json A} (a : A) : Prop :=
  exists p, Marshal a = Some p /\ Z.of_nat (length p) < 2 ^ 32 /\ Unmarshal p = Some a.

(** The printed value fits into a frame. *)
Definition fits {A} `{Json A} (a : A) : Prop := Z.of_nat (length (print_json (to_json a))) < 2 ^ 32.

Lemma carried_ok {A} `{Json A} (a : A) d : carries (to_json a) d (of_json (to_json a)) a -> (d <= maxNestingDepth)%nat ->
  fits a -> json_ok a.
Proof.
  intros (E & P & N) Hd Hf. eexists. split; [reflexivity|]. split; [exact Hf|]. unfold Unmarshal.
  rewrite parse_print; [exact E|exact P|]. by etrans.
Qed.

Lemma depth_ok d : (d <= 4)%nat -> (d <= maxNestingDepth)%nat.
Proof. intros H. etrans; [exact H|]. apply (bool_decide_eq_true_1 _). vm_compute. reflexivity. Qed.

Lemma envelope_json e : envelope_ok e -> fits e -> json_ok e.
Proof. intros He. apply (carried_ok e 4); [by apply envelope_carried|by apply depth_ok]. Qed.

(** Responses are short whatever they say. *)
Lemma uint_length z : uint64 z -> (length (bytes_of (Itoa z)) <= 20)%nat.
Proof. intros H. unfold uint64 in H. rewrite Itoa_pos_bytes by lia. apply dec_digits_length. Qed.

Lemma response_length term name b : uint64 term -> (length (bytes_of name) <= 20)%nat ->
  Z.of_nat (length (print_json (encode_struct [("Term", encode_uint term); (name, JBool b)]))) < 2 ^ 32.
Proof.
  intros Ht Hn. pose proof (uint_length term Ht) as Hl.
  assert (H : (length (print_json (encode_struct [("Term", encode_uint term); (name, JBool b)])) <= 100)%nat); [|lia].
  unfold encode_struct. cbn [map]. rewrite print_obj. unfold print_member, encode_uint. cbn [map join_bytes fst snd print_json].
  change (length (34 :: bytes_of "Term" ++ 34 :: 58 :: bytes_of (Itoa term))) with (7 + length (bytes_of (Itoa term)))%nat.
  assert (Hb : (length (bytes_of (if b then "true" else "false")) <= 5)%nat) by (destruct b; simpl; lia).
  repeat (rewrite length_app || cbn [length]). change (length (bytes_of "Term")) with 4%nat. lia.
Qed.

Lemma vote_response_json r : uint64 (rvr_Term r) -> json_ok r.
Proof.
  intros Hr. apply (carried_ok r 1); [by apply vote_response_carried|by apply depth_ok; lia|]. by apply response_length; [|simpl; lia].
Qed.

Lemma append_response_json r : uint64 (aer_Term r) -> json_ok r.
Proof.
  intros Hr. apply (carried_ok r 1); [by apply append_response_carried|by apply depth_ok; lia|]. by apply response_length; [|simpl; lia].
Qed.

Lemma propose_response_json r : utf8 (pp_LeaderID r) -> utf8 (pp_Error r) -> fits r -> json_ok r.
Proof. intros Hl He. apply (carried_ok r 1); [by apply propose_response_carried|apply depth_ok; lia]. Qed.

(** C14: Raft messages survive their JSON form.  An envelope whose numbers are 64-bit
    and whose strings are UTF-8 comes out of a frame as it went in, whichever requests
    it carries; so does every vote and append response with a 64-bit term. *)
Theorem raft_messages_roundtrip e v a : envelope_ok e -> uint64 (rvr_Term v) -> uint64 (aer_Term a) ->
  Unmarshal (print_json (to_json e)) = Some e /\ json_ok v /\ json_ok a.
Proof.
  intros He Hv Ha. split; [|split; [by apply vote_response_json|by apply append_response_json]].
  destruct (envelope_carried e He) as (E & P & N). unfold Unmarshal. rewrite parse_print; [exact E|exact P|].
  etrans; [exact N|]. by apply depth_ok.
Qed.

Definition demo_append : raftEnvelope :=
  mkEnvelope rpcAppendEntries None (Some (mkAppendReq 3 "coord-1" 2 1 [mkEntry 3 "e30="] (2 ^ 64 - 1))) None.

Lemma raft_messages_roundtrip_witness :
  print_json (to_json demo_append) = json_text
    "{'type':'APPEND_ENTRIES','append_entries':{'Term':3,'LeaderID':'coord-1','PrevLogIndex':2,'PrevLogTerm':1,'Entries':[{'Term':3,'Command':'e30='}],'LeaderCommit':18446744073709551615}}" /\
  Unmarshal (print_json (to_json demo_append)) = Some demo_append.
Proof.
  split; [vm_compute; reflexivity|]. apply (raft_messages_roundtrip demo_append (mkVoteResp 0 true) (mkAppendResp 0 true)).
  - repeat split; simpl; try lia; by repeat constructor.
  - split; simpl; lia.
  - split; simpl; lia.
Defined.

(** Heartbeats carry null entries; duplicates merge into what is there, also into
    elements beyond a slice's length. *)
Example decoding_merges :
  (fst <$> (v ← parse_json (json_text "{'Entries':[{'Term':1,'Command':'a'},{'Term':2,'Command':'b'}],'Entries':[{'Term':9}],'entries':[{},{}]}");
     decode_append_request v (mkAppendReq 0 "" 0 0 [] 0, []))) =
    Some (mkAppendReq 0 "" 0 0 [mkEntry 9 "a"; mkEntry 2 "b"] 0) /\
  (ae_Entries <$> (v ← parse_json (json_text "{'Entries':null}"); fst <$> decode_append_request v (mkAppendReq 0 "" 0 0 [] 0, []))) = Some [] /\
  Unmarshal (A := RequestVoteResponse) (json_text "{'Term':-1}") = None /\
  Unmarshal (A := RequestVoteResponse) (json_text "{'Term':1.0}") = None.
Proof. vm_compute. repeat split; reflexivity. Qed.

(** ** What decoding guarantees *)

Lemma decode_struct_inv {A} (P : A -> Prop) names setField v (a a' : A) :
  (forall n v a a', setField n v a = Some a' -> P a -> P a') ->
  decode_struct names setField v a = Some a' -> P a -> P a'.
Proof.
  intros Hset. destruct v as [| | | | |ms]; try done; cbn [decode_struct]; [by intros [= <-]|].
  revert a. induction ms as [|[k v] ms IH]; intros a; cbn [decode_members]; [by intros [= <-]|].
  intros (key & _ & (a1 & H1 & H2)%bind_Some)%bind_Some Ha. apply (IH a1 H2).
  destruct (find_field names key); [by eapply Hset|]. by simplify_eq.
Qed.

Lemma digits_value_nonneg l acc z : digits_value acc l = Some z -> 0 <= acc -> 0 <= z.
Proof.
  revert acc. induction l as [|c l IH]; intros acc; cbn [digits_value]; [by intros [= ->]|].
  destruct (Z.leb_spec 48 c), (Z.leb_spec c 57); cbn [andb]; try done. intros Hd Ha. apply (IH _ Hd). lia.
Qed.

Lemma decode_uint64_nonneg v n z : decode_uint64 v n = Some z -> 0 <= n -> 0 <= z.
Proof.
  destruct v; try done; cbn [decode_uint64]; [by intros [= <-]|].
  intros (x & Hx & Hz)%bind_Some _. case_match; [|done]. apply (inj Some) in Hz as <-. by eapply digits_value_nonneg.
Qed.

Definition prev_nonneg (r : AppendEntriesRequest * list LogEntry) : Prop := 0 <= ae_PrevLogIndex r.1.

Lemma set_append_nonneg n v a a' : set_append_request n v a = Some a' -> prev_nonneg a -> prev_nonneg a'.
Proof.
  destruct a as [[term leader index pterm entries commit] spare]. unfold prev_nonneg. cbn [fst ae_PrevLogIndex].
  intros H Hi. cbn [set_append_request] in H.
  destruct (_ =?s "Term"); [|destruct (_ =?s "LeaderID"); [|destruct (_ =?s "PrevLogIndex");
    [|destruct (_ =?s "PrevLogTerm"); [|destruct (_ =?s "Entries")]]]];
    apply bind_Some in H as (x & Hx & E); try destruct x as [es sp]; apply (inj Some) in E as <-; try done.
  by eapply decode_uint64_nonneg.
Qed.

(** The indices of a decoded request are not negative. *)
Lemma decoded_prev payload env req : Unmarshal payload = Some env -> env_AppendEntries env = Some req ->
  0 <= ae_PrevLogIndex req.
Proof.
  unfold Unmarshal. intros (v & _ & Hv)%bind_Some Hreq. cbn [of_json json_envelope] in Hv. unfold decode_envelope in Hv.
  apply bind_Some in Hv as ([type vote append propose] & Ho & Hv). apply (inj Some) in Hv as <-. cbn in Hreq.
  apply fmap_Some in Hreq as ([req' spare] & -> & ->). cbn.
  cut (option_ok prev_nonneg (oe_AppendEntries (mkOpen type vote (Some (req', spare)) propose))); [done|].
  revert Ho. generalize (mkOpen type vote (Some (req', spare)) propose). intros o Ho.
  apply (decode_struct_inv (fun o => option_ok prev_nonneg (oe_AppendEntries o)) _ _ _ _ _) in Ho; [done| |done].
  clear. intros n v [t vo ap pr] a' H Ha. cbn [oe_AppendEntries] in Ha. unfold set_envelope in H.
  destruct (_ =?s "type"); [|destruct (_ =?s "request_vote"); [|destruct (_ =?s "append_entries")]];
    apply bind_Some in H as (x & Hx & H); apply (inj Some) in H as <-; cbn [oe_AppendEntries]; try done.
  unfold decode_pointer in Hx. assert (Hd : prev_nonneg (default (mkAppendReq 0 "" 0 0 [] 0, []) ap)) by (destruct ap; done).
  destruct v; try (apply (inj Some) in Hx as <-; done); apply fmap_Some in Hx as (y & Hy & ->); cbn;
    by eapply (decode_struct_inv prev_nonneg); [apply set_append_nonneg|exact Hy|].
Qed.
