(* ===== verification/CoordinatorRpc.v ===== *)
(** * Raft RPCs between coordinators (src/cmd/coordinator/raft_rpc.go,
    raft_transport.go)

    Requests in an envelope, JSON in a frame, one request per connection.  The
    in-process transport and this one implement one interface, [pkg/raft]'s
    [Transport]; the TCP transport carries what survives its JSON form. *)

From Stdlib Require Import Ascii String.
From stdpp Require Import base strings list sets gmap.
From S2P Require Import Prelude RaftNode RaftNodeFacts RaftScenario RaftTransport.
From S2P Require Import GoBytes Sha256 Wire GoUtf8 GoJson RpcMessages.

#[local] Open Scope Z_scope.
#[local] Open Scope go_scope.
#[local] Set Default Proof Using "Type".

(** [err.Error()]; the server's context is cancelled, it has no deadline. *)
Definition errorText (err : RaftError) : string :=
  match err with
  | ErrInvalidConfig => "invalid raft config"
  | ErrNilTransport => "transport is required"
  | ErrInvalidTimeout => "timeouts must be positive"
  | ErrNotLeader => "not leader"
  | ErrReplicationFailed => "replication failed"
  | ErrContext => "context canceled"
  end.

(** ** The server *)

(** [writeJSONFrame]: the bytes written. *)
Definition writeJSONFrame {A} `{Json A} (a : A) : list Z :=
  match Marshal a with None => [] | Some data => coordinator_writeFrame data end.

(** The response to a proposal; [LeaderID] is called when it is needed. *)
Definition proposeAnswer (n : Node) (err : option RaftError) : proposeResponse :=
  match err with
  | None => mkProposeResp true "" ""
  | Some ErrNotLeader => mkProposeResp false (LeaderID n) (errorText ErrNotLeader)
  | Some err => mkProposeResp false "" (errorText err)
  end.

(** [handleRaftConn] on what the client sends: the node, the bytes written back
    and the entries handed to the state machine.  [resps] are what the peers
    answer to a proposal. *)
Definition handleRaftConn (e : Env) (n : Node) (resps : list (option AppendEntriesResponse))
    (stream : list Z) : exec (Node * list Z * list LogEntry) :=
  match coordinator_readFrame stream with
  | inl _ => Ok (n, [], [])
  | inr (payload, _) =>
      match Unmarshal payload with
      | None => Ok (n, [], [])
      | Some envelope =>
          if env_Type envelope =?s rpcRequestVote then
            match env_RequestVote envelope with
            | None => Ok (n, [], [])
            | Some req => let '(n, resp) := HandleRequestVote e n req in Ok (n, writeJSONFrame resp, [])
            end
          else if env_Type envelope =?s rpcAppendEntries then
            match env_AppendEntries envelope with
            | None => Ok (n, [], [])
            | Some req => let! (n, resp, es) := HandleAppendEntries e n req in
                          Ok (n, writeJSONFrame resp, es)
            end
          else if env_Type envelope =?s rpcPropose then
            match env_Propose envelope with
            | None => Ok (n, [], [])
            | Some req =>
                let! (n, err, es) := Propose n (pq_Command req) resps in
                Ok (n, writeJSONFrame (proposeAnswer n err), es)
            end
          else Ok (n, [], [])
      end
  end.

(** ** The client *)

(** What [sendRaftRPC] writes, and what it makes of the answer; [None] is an
    error. *)
Definition rpcRequest (req : raftEnvelope) : option (list Z) := coordinator_writeFrame <$> Marshal req.

Definition rpcResponse {A} `{Json A} (stream : list Z) : option A :=
  match coordinator_readFrame stream with
  | inl _ => None
  | inr (payload, _) => Unmarshal payload
  end.

(** The coordinators of the network by address; a connection to an address
    without a coordinator fails. *)
Notation Coordinators := (gmap string Node).

(** [sendRaftRPC] against them. *)
Definition sendRaftRPC {A} `{Json A} (e : Env) (h : Coordinators) (resps : list (option AppendEntriesResponse))
    (addr : string) (req : raftEnvelope) : exec (Coordinators * option A) :=
  match h !! addr, rpcRequest req with
  | Some n, Some bytes =>
      let! (n, answer, _) := handleRaftConn e n resps bytes in
      Ok (<[addr := n]> h, rpcResponse answer)
  | _, _ => Ok (h, None)
  end.

Definition sendPropose (e : Env) (h : Coordinators) (resps : list (option AppendEntriesResponse))
    (addr command : string) : exec (Coordinators * option proposeResponse) :=
  sendRaftRPC e h resps addr (mkEnvelope rpcPropose None None (Some (mkProposeReq command))).

(** ** The transport *)

Record tcpTransport : Type := mkTcp { tcp_peers : gmap string string }.

Definition newTCPTransport (peers : gmap string string) : tcpTransport := mkTcp peers.

Definition tcp_RequestVote (e : Env) (h : Coordinators) (t : tcpTransport) (targetID : string)
    (req : RequestVoteRequest) : exec (Coordinators * option RequestVoteResponse) :=
  match tcp_peers t !! targetID with
  | None => Ok (h, None)
  | Some addr => sendRaftRPC e h [] addr (mkEnvelope rpcRequestVote (Some req) None None)
  end.

Definition tcp_AppendEntries (e : Env) (h : Coordinators) (t : tcpTransport) (targetID : string)
    (req : AppendEntriesRequest) : exec (Coordinators * option AppendEntriesResponse) :=
  match tcp_peers t !! targetID with
  | None => Ok (h, None)
  | Some addr => sendRaftRPC e h [] addr (mkEnvelope rpcAppendEntries None (Some req) None)
  end.

Lemma rpcResponse_frame {A} `{Json A} (a : A) : json_ok a -> rpcResponse (writeJSONFrame a) = Some a.
Proof.
  intros (p & Hm & Hs & Hu). unfold rpcResponse, writeJSONFrame. rewrite Hm.
  unfold coordinator_readFrame, coordinator_writeFrame. rewrite <- (app_nil_r (writeFrame p)). by rewrite readFrame_small.
Qed.

Lemma readFrame_request req bytes : json_ok req -> rpcRequest req = Some bytes ->
  exists p, coordinator_readFrame bytes = inr (p, []) /\ Unmarshal p = Some req.
Proof.
  intros (p & Hm & Hs & Hu). unfold rpcRequest. rewrite Hm. intros [= <-]. exists p. split; [|done].
  unfold coordinator_readFrame, coordinator_writeFrame. rewrite <- (app_nil_r (writeFrame p)). by rewrite readFrame_small.
Qed.

Lemma rpcRequest_ok req : json_ok req -> exists bytes, rpcRequest req = Some bytes.
Proof. intros (p & Hm & _). unfold rpcRequest. rewrite Hm. by eexists. Qed.

Definition vote_envelope (req : RequestVoteRequest) : raftEnvelope :=
  mkEnvelope rpcRequestVote (Some req) None None.
Definition append_envelope (req : AppendEntriesRequest) : raftEnvelope :=
  mkEnvelope rpcAppendEntries None (Some req) None.
Definition propose_envelope (command : string) : raftEnvelope :=
  mkEnvelope rpcPropose None None (Some (mkProposeReq command)).

Lemma sendRaftRPC_vote e h resps addr n req : h !! addr = Some n -> json_ok (vote_envelope req) ->
  json_ok (HandleRequestVote e n req).2 ->
  sendRaftRPC e h resps addr (vote_envelope req) =
    Ok (<[addr := (HandleRequestVote e n req).1]> h, Some (HandleRequestVote e n req).2).
Proof.
  intros Hn Hq Hr. destruct (rpcRequest_ok _ Hq) as [bytes Hb].
  destruct (readFrame_request _ _ Hq Hb) as (p & Hp & Hu).
  unfold sendRaftRPC. rewrite Hn, Hb. unfold handleRaftConn. rewrite Hp, Hu. simpl.
  destruct (HandleRequestVote e n req) as [n' resp]. simpl. by rewrite rpcResponse_frame.
Qed.

Lemma sendRaftRPC_append e h resps addr n req n' resp es : h !! addr = Some n ->
  json_ok (append_envelope req) -> HandleAppendEntries e n req = Ok (n', resp, es) -> json_ok resp ->
  sendRaftRPC e h resps addr (append_envelope req) = Ok (<[addr := n']> h, Some resp).
Proof.
  intros Hn Hq Hh Hr. destruct (rpcRequest_ok _ Hq) as [bytes Hb].
  destruct (readFrame_request _ _ Hq Hb) as (p & Hp & Hu).
  unfold sendRaftRPC. rewrite Hn, Hb. unfold handleRaftConn. rewrite Hp, Hu.
  change (env_Type (append_envelope req) =?s rpcRequestVote) with false.
  change (env_Type (append_envelope req) =?s rpcAppendEntries) with true. cbv iota.
  simpl env_AppendEntries. cbv iota. rewrite Hh. simpl. by rewrite rpcResponse_frame.
Qed.

Lemma errorText_utf8 err : utf8 (errorText err).
Proof. destruct err; vm_compute; reflexivity. Qed.

(** C37: a forwarded proposal is the leader's.  A command forwarded to a coordinator runs
    [Propose] there and comes back with its outcome: the response says OK exactly if
    the proposal succeeded, and a coordinator that does not lead names its leader. *)
Theorem forwarded_proposal e h resps addr command n n' err es :
  h !! addr = Some n -> utf8 command -> fits (propose_envelope command) ->
  Propose n command resps = Ok (n', err, es) -> utf8 (leaderID n') -> fits (proposeAnswer n' err) ->
  exists resp, sendPropose e h resps addr command = Ok (<[addr := n']> h, Some resp) /\
    (pp_OK resp = true <-> err = None) /\ (err = Some ErrNotLeader -> pp_LeaderID resp = leaderID n').
Proof.
  intros Hn Hc Hf HP Hl Hfr. exists (proposeAnswer n' err).
  assert (Hq : json_ok (propose_envelope command)) by (apply envelope_json; [by repeat split|exact Hf]).
  assert (Hr : json_ok (proposeAnswer n' err)).
  { apply propose_response_json; [| |exact Hfr]; destruct err as [[]|]; try done; apply errorText_utf8. }
  destruct (rpcRequest_ok _ Hq) as [bytes Hb]. destruct (readFrame_request _ _ Hq Hb) as (p & Hp & Hu). split.
  - unfold sendPropose, sendRaftRPC. fold (propose_envelope command). rewrite Hn, Hb. unfold handleRaftConn. rewrite Hp, Hu.
    change (env_Type (propose_envelope command) =?s rpcRequestVote) with false.
    change (env_Type (propose_envelope command) =?s rpcAppendEntries) with false.
    change (env_Type (propose_envelope command) =?s rpcPropose) with true. cbv iota.
    cbn [propose_envelope env_Propose pq_Command]. rewrite HP. cbn [exec_bind]. by rewrite rpcResponse_frame.
  - destruct err as [[]|]; by split.
Qed.

(** ** The interface

    What [pkg/raft] asks of a [Transport]: an RPC to a node runs that node's
    handler and brings its response back; an RPC to nobody is an error without
    effect.  [W] is the state the nodes live in; [carries] are the values the
    transport can carry. *)
Class Transport (T W : Type) := {
  tr_node : T -> W -> string -> option Node;
  tr_RequestVote : Env -> W -> T -> string -> RequestVoteRequest -> exec (W * option RequestVoteResponse);
  tr_AppendEntries : Env -> W -> T -> string -> AppendEntriesRequest -> exec (W * option AppendEntriesResponse);
  tr_carries_vote : RequestVoteRequest -> RequestVoteResponse -> Prop;
  tr_carries_append : AppendEntriesRequest -> AppendEntriesResponse -> Prop;
  tr_vote e w t i n req : tr_node t w i = Some n -> tr_carries_vote req (HandleRequestVote e n req).2 ->
    exists w', tr_RequestVote e w t i req = Ok (w', Some (HandleRequestVote e n req).2) /\
      tr_node t w' i = Some (HandleRequestVote e n req).1 /\
      (forall j, tr_node t w' j = tr_node t w j \/
         tr_node t w j = Some n /\ tr_node t w' j = Some (HandleRequestVote e n req).1);
  tr_append e w t i n req n' resp es : tr_node t w i = Some n ->
    HandleAppendEntries e n req = Ok (n', resp, es) -> tr_carries_append req resp ->
    exists w', tr_AppendEntries e w t i req = Ok (w', Some resp) /\ tr_node t w' i = Some n';
  tr_nobody e w t i : tr_node t w i = None ->
    (forall req, tr_RequestVote e w t i req = Ok (w, None)) /\
    (forall req, tr_AppendEntries e w t i req = Ok (w, None)) }.

(** The in-process transport; an error is [None]. *)
Definition answer {W E A} (r : W * (E + A)) : W * option A :=
  (r.1, match r.2 with inr a => Some a | inl _ => None end).

Definition mem_node (t : MemoryTransport) (h : Heap) (i : string) : option Node :=
  mt_nodes t !! i ≫= fun l => h !! l.
Definition mem_RequestVote (e : Env) (h : Heap) (t : MemoryTransport) (i : string) (req : RequestVoteRequest)
  : exec (Heap * option RequestVoteResponse) := Ok (answer (RequestVote e h t i req)).
Definition mem_AppendEntries (e : Env) (h : Heap) (t : MemoryTransport) (i : string) (req : AppendEntriesRequest)
  : exec (Heap * option AppendEntriesResponse) :=
  let! r := AppendEntries e h t i req in Ok (answer r).

Lemma bind_Some {A B} (m : option A) (f : A -> option B) b :
  m ≫= f = Some b -> exists a, m = Some a /\ f a = Some b.
Proof. destruct m as [a|]; [|done]. intros H. by exists a. Qed.

#[export] Instance MemoryTransport_interface : Transport MemoryTransport Heap.
Proof.
  refine {| tr_node := mem_node; tr_RequestVote := mem_RequestVote; tr_AppendEntries := mem_AppendEntries;
            tr_carries_vote _ _ := True; tr_carries_append _ _ := True |}.
  - intros e h t i n req (l & Hl & Hn)%bind_Some _. unfold mem_RequestVote, RequestVote, lookup, mem_node.
    rewrite Hl, Hn. destruct (HandleRequestVote e n req) as [n' resp]. eexists. split; [done|].
    simpl. split; [by rewrite lookup_insert_eq|]. intros j. destruct (mt_nodes t !! j) as [l'|]; [simpl|by left].
    destruct (decide (l = l')) as [<-|]; [right; by rewrite lookup_insert_eq|left; by rewrite lookup_insert_ne].
  - intros e h t i n req n' resp es (l & Hl & Hn)%bind_Some Hh _.
    unfold mem_AppendEntries, AppendEntries, lookup, mem_node.
    rewrite Hl, Hn, Hh. simpl. eexists. split; [done|]. simpl. by rewrite lookup_insert_eq.
  - intros e h t i Hn. unfold mem_node in Hn.
    unfold mem_RequestVote, mem_AppendEntries, RequestVote, AppendEntries, lookup.
    destruct (mt_nodes t !! i) as [l|]; [|done]. simpl in Hn. by rewrite Hn.
Defined.

Definition tcp_node (t : tcpTransport) (h : gmap string Node) (i : string) : option Node :=
  tcp_peers t !! i ≫= fun a => h !! a.

#[export] Instance tcpTransport_interface : Transport tcpTransport (gmap string Node).
Proof.
  refine {| tr_node := tcp_node; tr_RequestVote := tcp_RequestVote; tr_AppendEntries := tcp_AppendEntries;
            tr_carries_vote req resp := json_ok (vote_envelope req) /\ json_ok resp;
            tr_carries_append req resp := json_ok (append_envelope req) /\ json_ok resp |}.
  - intros e h t i n req (a & Ha & Hn)%bind_Some [Hq Hr]. unfold tcp_RequestVote, tcp_node. rewrite Ha.
    eexists. split; [by apply sendRaftRPC_vote|]. simpl. split; [by rewrite lookup_insert_eq|].
    intros j. destruct (tcp_peers t !! j) as [a'|]; [simpl|by left].
    destruct (decide (a = a')) as [<-|]; [right; by rewrite lookup_insert_eq|left; by rewrite lookup_insert_ne].
  - intros e h t i n req n' resp es (a & Ha & Hn)%bind_Some Hh [Hq Hr].
    unfold tcp_AppendEntries, tcp_node. rewrite Ha.
    eexists. split; [by eapply sendRaftRPC_append|]. simpl. by rewrite lookup_insert_eq.
  - intros e h t i Hn. unfold tcp_node in Hn. unfold tcp_RequestVote, tcp_AppendEntries, sendRaftRPC.
    destruct (tcp_peers t !! i) as [a|]; [|done]. simpl in Hn. by rewrite Hn.
Defined.

(** ** A client: the vote requests of an election *)

Section Votes.
Context {T W : Type} `{Transport T W}.

(** The requests [startElection] sends to its peers, in some order. *)
Fixpoint requestVotes (e : Env) (w : W) (t : T) (req : RequestVoteRequest) (peers : list string)
  : exec (W * list (option RequestVoteResponse)) :=
  match peers with
  | [] => Ok (w, [])
  | peer :: peers =>
      let! (w, resp) := tr_RequestVote e w t peer req in
      let! (w, resps) := requestVotes e w t req peers in
      Ok (w, resp :: resps)
  end.

(** The node voted as the request asks. *)
Definition voted (req : RequestVoteRequest) (n : Node) : Prop :=
  votedFor n = rv_CandidateID req /\ currentTerm n = rv_Term req.

Lemma vote_granted e n req : rvr_VoteGranted (HandleRequestVote e n req).2 = true ->
  voted req (HandleRequestVote e n req).1.
Proof.
  unfold HandleRequestVote, voted, stepDownLocked. destruct (Z.ltb_spec (rv_Term req) (currentTerm n)); [done|].
  destruct (Z.ltb_spec (currentTerm n) (rv_Term req)); simpl; case_match; simpl; try done;
    (destruct (_ || _); [|done]); simpl; intros _; split; done || lia.
Qed.

Lemma vote_kept e n req : voted req n -> voted req (HandleRequestVote e n req).1.
Proof.
  intros [Hv Ht]. unfold HandleRequestVote, voted. rewrite Ht, Z.ltb_irrefl. cbv zeta iota.
  destruct (negb _); simpl; [done|]. destruct (_ || _); by simpl.
Qed.

(** Terms stay 64-bit numbers. *)
Lemma vote_terms e n req : uint64 (rv_Term req) -> uint64 (currentTerm n) ->
  uint64 (rvr_Term (HandleRequestVote e n req).2) /\ uint64 (currentTerm (HandleRequestVote e n req).1).
Proof.
  intros Hr Hn. unfold HandleRequestVote, stepDownLocked. destruct (_ <? _); [done|].
  destruct (_ <? _); simpl; case_match; simpl; try done; destruct (_ || _); done.
Qed.

(** The world of an election: every node there has a 64-bit term. *)
Definition terms_ok (t : T) (w : W) : Prop := forall i n, tr_node t w i = Some n -> uint64 (currentTerm n).

Section Requests.
Context (e : Env) (t : T) (req : RequestVoteRequest).
Hypothesis Hreq : uint64 (rv_Term req).
Hypothesis Hcarry : forall resp, uint64 (rvr_Term resp) -> tr_carries_vote req resp.

(** One request: the node answers, and nothing else changes. *)
Lemma one_request w i : terms_ok t w -> exists w' resp, tr_RequestVote e w t i req = Ok (w', resp) /\ terms_ok t w' /\
  (forall j m, tr_node t w j = Some m -> voted req m -> exists m', tr_node t w' j = Some m' /\ voted req m') /\
  (forall r, resp = Some r -> rvr_VoteGranted r = true -> exists n, tr_node t w' i = Some n /\ voted req n).
Proof using Hreq Hcarry.
  intros Hw. destruct (tr_node t w i) as [n|] eqn:Hn.
  - destruct (vote_terms e n req Hreq (Hw i n Hn)) as [H1 H2].
    destruct (tr_vote e w t i n req Hn (Hcarry _ H1)) as (w' & E & Hi & Hframe). eexists w', _. split; [exact E|].
    split; [|split].
    + intros j m Hm. destruct (Hframe j) as [Hj|[_ Hj]]; [apply (Hw j); by rewrite <- Hj|]. rewrite Hj in Hm. by injection Hm as <-.
    + intros j m Hm Hv. destruct (Hframe j) as [Hj|[Hj Hj']]; [exists m; by rewrite Hj|]. eexists. split; [exact Hj'|].
      apply vote_kept. rewrite Hj in Hm. by injection Hm as <-.
    + intros r [= <-] Hg. eexists. split; [exact Hi|]. by apply vote_granted.
  - eexists w, None. split; [apply (tr_nobody e w t i Hn)|]. split; [done|]. split; [eauto|done].
Qed.

Lemma requests w peers : terms_ok t w -> exists w' resps, requestVotes e w t req peers = Ok (w', resps) /\
  length resps = length peers /\
  (forall j m, tr_node t w j = Some m -> voted req m -> exists m', tr_node t w' j = Some m' /\ voted req m') /\
  forall k i r, peers !! k = Some i -> resps !! k = Some (Some r) -> rvr_VoteGranted r = true ->
    exists n, tr_node t w' i = Some n /\ voted req n.
Proof using Hreq Hcarry.
  revert w. induction peers as [|i peers IH]; intros w Hw; cbn [requestVotes].
  { exists w, []. split_and!; eauto. done. }
  destruct (one_request w i Hw) as (w1 & resp & -> & Hw1 & Hkeep1 & Hi). cbn [exec_bind].
  destruct (IH w1 Hw1) as (w2 & resps & -> & Hl & Hkeep2 & Hv). cbn [exec_bind].
  eexists w2, _. split; [reflexivity|]. split; [simpl; lia|]. split.
  - intros j m Hm Hvm. destruct (Hkeep1 j m Hm Hvm) as (m' & Hm' & Hvm'). by eapply Hkeep2.
  - intros [|k] j r Hj Hr Hg; [|by eapply Hv]. simpl in Hj, Hr. injection Hj as <-. injection Hr as ->.
    destruct (Hi r eq_refl Hg) as (n & Hn & Hvn). by eapply Hkeep2.
Qed.
End Requests.

(** C36: votes that were counted were cast.  Over any transport that keeps the
    interface's promise for 64-bit terms, the requests of an election all come back,
    one answer or error per peer; and every peer whose answer grants the vote has,
    when they are over, voted for the candidate in its term. *)
Theorem granted_votes_are_cast e t req peers w :
  uint64 (rv_Term req) -> (forall resp, uint64 (rvr_Term resp) -> tr_carries_vote req resp) -> terms_ok t w ->
  exists w' resps, requestVotes e w t req peers = Ok (w', resps) /\ length resps = length peers /\
  forall k i resp, peers !! k = Some i -> resps !! k = Some (Some resp) -> rvr_VoteGranted resp = true ->
    exists n, tr_node t w' i = Some n /\ voted req n.
Proof.
  intros Hreq Hcarry Hw. destruct (requests e t req Hreq Hcarry w peers Hw) as (w' & resps & E & Hl & _ & Hv).
  exists w', resps. by split_and!.
Qed.
End Votes.

(** The TCP transport carries the votes of a candidate with a UTF-8 name. *)
Lemma tcp_carries_votes req : vote_request_ok req -> fits (vote_envelope req) ->
  forall resp, uint64 (rvr_Term resp) -> tr_carries_vote (T := tcpTransport) (W := gmap string Node) req resp.
Proof.
  intros Hreq Hfits resp Hresp. split; [|by apply vote_response_json]. apply envelope_json; [|exact Hfits].
  split; [reflexivity|]. split; [exact Hreq|]. by split.
Qed.

(** ** Two coordinators over TCP *)

Definition demo_vote : RequestVoteRequest := mkVoteReq 1 "A" 0 0.
Definition demo_tcp : tcpTransport := newTCPTransport {["B" := "b:7000"; "C" := "c:7000"]}.
Definition demo_coordinators : gmap string Node := {["b:7000" := demo_node "B" ["A"; "C"]]}.

Lemma granted_votes_are_cast_witness :
  exists h resps, requestVotes demo_env demo_coordinators demo_tcp demo_vote ["B"; "C"] = Ok (h, resps) /\
    resps = [Some (mkVoteResp 1 true); None] /\
    exists n, tr_node demo_tcp h "B" = Some n /\ voted demo_vote n.
Proof.
  destruct (granted_votes_are_cast demo_env demo_tcp demo_vote ["B"; "C"] demo_coordinators)
    as (h & resps & E & _ & Hv).
  - split; simpl; lia.
  - apply tcp_carries_votes; [repeat split; simpl; lia|vm_compute; reflexivity].
  - intros i n (a & _ & Hn)%bind_Some. unfold demo_coordinators in Hn. apply lookup_singleton_Some in Hn as [_ <-].
    split; simpl; lia.
  - exists h, resps. split; [exact E|].
    assert (Hr : resps = [Some (mkVoteResp 1 true); None]).
    { assert (H : match requestVotes demo_env demo_coordinators demo_tcp demo_vote ["B"; "C"] with
        Ok (_, r) => r = [Some (mkVoteResp 1 true); None] | Panic => False end) by (vm_compute; reflexivity).
      rewrite E in H. exact H. }
    split; [exact Hr|]. apply (Hv 0%nat "B" (mkVoteResp 1 true)); [reflexivity|by rewrite Hr|reflexivity].
Defined.

Definition demo_leader : Node := mkNode "B" ["A"; "C"] 1 "B" "B" StateLeader [] 0 0 0 150 300 50 200 None.
Definition demo_answers : list (option AppendEntriesResponse) := [None; Some (mkAppendResp 1 true)].

Lemma forwarded_proposal_witness : exists n es resp,
  Propose demo_leader "cmd" demo_answers = Ok (n, None, es) /\
  sendPropose demo_env {["b:7000" := demo_leader]} demo_answers "b:7000" "cmd" = Ok ({["b:7000" := n]}, Some resp) /\
  pp_OK resp = true.
Proof.
  eexists _, _. assert (HP : Propose demo_leader "cmd" demo_answers =
    Ok (set_commit (set_log demo_leader [mkEntry 1 "cmd"]) 1 1, None, [mkEntry 1 "cmd"])) by (vm_compute; reflexivity).
  destruct (forwarded_proposal demo_env {["b:7000" := demo_leader]} demo_answers "b:7000" "cmd" demo_leader _ _ _
    (lookup_singleton_eq _ _) eq_refl ltac:(vm_compute; reflexivity) HP eq_refl ltac:(vm_compute; reflexivity)) as (resp & Hs & Hok & _).
  exists resp. split; [exact HP|]. split; [|by apply Hok]. rewrite Hs, insert_singleton_eq. reflexivity.
Defined.
