(* ===== verification/CoordinatorHttp.v ===== *)
(** * The coordinator's HTTP query (src/cmd/coordinator/main.go)

    The [/region] handler over the readings the store holds, and the environment
    helpers of the coordinator.  The query string is the function [query.Get]. *)

From Stdlib Require Import Ascii String.
From stdpp Require Import base strings list sets gmap.
From S2P Require Import Prelude RaftNode GoBytes Sha256 GoText GoFloat.
From S2P Require Import GoParse GoJson GoTime GoFormat Sensor SensorCodec.
From S2P Require Import Coordinator.

#[local] Open Scope Z_scope.
#[local] Open Scope go_scope.

(** ** Configuration *)

(** [os.Getenv]: the empty string if unset. *)
Definition getenvDefault (env : string -> string) (key fallback : string) : string :=
  let value := env key in if value =?s "" then fallback else value.

Definition intFromEnv (env : string -> string) (key : string) (fallback : Z) : Z :=
  let value := env key in
  if value =?s "" then fallback
  else match Atoi value with None => fallback | Some parsed => parsed end.

Definition floatFromEnv (env : string -> string) (key : string) (fallback : float64) : float64 :=
  let value := env key in
  if value =?s "" then fallback
  else match ParseFloat value with None => fallback | Some parsed => parsed end.

Record config : Type := mkCoordConfig {
  gossipAddr : string; httpAddr : string; metricsAddr : string; raftID : string; raftAddr : string;
  raftPeers : gmap string string; totalNodes : Z; targetRatio : float64 }.

Definition loadConfig (env : string -> string) : config :=
  mkCoordConfig (getenvDefault env "GOSSIP_ADDR" "0.0.0.0:9000") (getenvDefault env "HTTP_ADDR" "0.0.0.0:8080")
    (getenvDefault env "METRICS_ADDR" "0.0.0.0:9200") (getenvDefault env "RAFT_ID" "coord-1")
    (getenvDefault env "RAFT_ADDR" "0.0.0.0:7000") (raftPeersFromEnv (env "RAFT_PEERS"))
    (intFromEnv env "TOTAL_NODES" 20) (floatFromEnv env "TARGET_RATIO" (f_const 9 10)).

(** The Raft node [main] configures. *)
Definition coordinatorRaftConfig (rangeKeys : gmap string string -> list string) (cfg : config) : Config :=
  let ms := 1000000 in
  mkConfig (raftID cfg) (raftPeerIDs rangeKeys (raftPeers cfg) (raftID cfg)) true
    (150 * ms) (300 * ms) (50 * ms) (200 * ms).

(** a coordinator always starts.  In every environment the configuration
    [main] builds is one [NewNode] accepts: the node has a non-empty ID, each peer
    once and never itself, and the intervals of the source. *)
Theorem coordinator_starts rangeKeys env :
  (forall m : gmap string string, rangeKeys m ≡ₚ (map_to_list m).*1) ->
  exists n, NewNode (coordinatorRaftConfig rangeKeys (loadConfig env)) = inr n /\
    id n = raftID (loadConfig env) /\ id n <> "" /\ NoDup (peers n) /\ id n ∉ peers n /\
    (forall i, i ∈ peers n <-> is_Some (raftPeers (loadConfig env) !! i) /\ i <> id n) /\
    0 < heartbeat n < electionMin n /\ electionMin n < electionMax n.
Proof.
  intros Hrange. set (cfg := loadConfig env).
  assert (Hid : raftID cfg <> "").
  { subst cfg. simpl. unfold getenvDefault. by case_bool_decide. }
  clearbody cfg.
  unfold NewNode, coordinatorRaftConfig. cbn [cfg_ID cfg_hasTransport cfg_ElectionTimeoutMin
    cfg_ElectionTimeoutMax cfg_HeartbeatInterval cfg_RPCTimeout cfg_Peers].
  rewrite bool_decide_eq_false_2 by done. simpl. eexists. split; [reflexivity|]. simpl.
  assert (Hk : forall i, i ∈ rangeKeys (raftPeers cfg) <-> is_Some (raftPeers cfg !! i)).
  { intros i. rewrite Hrange, list_elem_of_fmap. split.
    - intros ([k v] & -> & Hin). apply elem_of_map_to_list in Hin. by exists v.
    - intros [v Hv]. exists (i, v). split; [done|]. by apply elem_of_map_to_list. }
  unfold raftPeerIDs. split_and!; try done; try lia.
  - apply NoDup_filter. rewrite Hrange. apply NoDup_fst_map_to_list.
  - rewrite list_elem_of_filter. by intros [[] _].
  - intros i. rewrite list_elem_of_filter, Hk. split; intros [? ?]; done.
Qed.

Lemma coordinator_starts_witness : exists n,
  NewNode (coordinatorRaftConfig (fun m => (map_to_list m).*1) (loadConfig (fun _ => ""))) = inr n /\
  id n = "coord-1".
Proof.
  destruct (coordinator_starts (fun m => (map_to_list m).*1) (fun _ => "")) as (n & Hn & Hid & _);
    [reflexivity|]. exists n. split; [exact Hn|]. rewrite Hid. reflexivity.
Defined.

(** ** The query *)

Inductive QueryError : Type := InvalidLat | InvalidLon | InvalidRadius.

Definition parseFloat (value : string) : option float64 :=
  if value =?s "" then None else ParseFloat value.

Definition parseRegionQuery (query : string -> string) : QueryError + Location * float64 :=
  match parseFloat (query "lat") with
  | None => inl InvalidLat
  | Some lat =>
      match parseFloat (query "lon") with
      | None => inl InvalidLon
      | Some lon =>
          match parseFloat (query "radius_km") with
          | None => inl InvalidRadius
          | Some radius => if f_le radius (Fin 0) then inl InvalidRadius
                           else inr (mkLocation lat lon, radius)
          end
      end
  end.

Record regionResponse : Type := mkRegion {
  Center : Location; RadiusKm : float64; AvgTempC : float64; Samples : Z; Readings : list Reading }.

(** Its JSON, with the tags of the struct. *)
Definition encode_region (r : regionResponse) : option json :=
  center ← encode_location (Center r); radius ← encode_float (RadiusKm r); avg ← encode_float (AvgTempC r);
  rs ← mapM encode_reading (Readings r);
  Some (encode_struct [("center", center); ("radius_km", radius); ("avg_temp_c", avg); ("samples", encode_uint (Samples r));
                       ("readings", JArr rs)]).

(** [json.NewEncoder(w).Encode(response)]: a line, or nothing if it cannot be encoded,
    which is only logged. *)
Definition region_body (r : regionResponse) : list Z :=
  match encode_region r with Some v => print_json v ++ [10] | None => [] end.

(** [encoding/json] refuses the numbers JSON does not have, and times RFC 3339 does
    not have. *)
Definition json_number (x : float64) : bool := match x with Fin _ => true | _ => false end.
Definition json_location (l : Location) : bool := json_number (Latitude l) && json_number (Longitude l).
Definition json_time (t : Time) : bool := match formatRFC3339 t with Some _ => true | None => false end.
Definition json_reading (r : Reading) : bool :=
  json_number (TemperatureC r) && json_location (Loc r) && json_time (Timestamp r).
Definition json_region (r : regionResponse) : bool :=
  json_location (Center r) && json_number (RadiusKm r) && json_number (AvgTempC r) &&
  forallb json_reading (Readings r).

Lemma encode_float_iff x : (exists v, encode_float x = Some v) <-> json_number x = true.
Proof.
  unfold encode_float, formatFloat. destruct x as [| |k]; cbn; [by split; [intros [? ?]|]..|]. split; [done|]. intros _. by eexists.
Qed.

Lemma encode_float_some x : json_number x = true -> exists v, encode_float x = Some v.
Proof. apply encode_float_iff. Qed.

Lemma encode_reading_some r : json_reading r = true -> exists v, encode_reading r = Some v.
Proof.
  intros [[Ht [Ha Ho]%andb_prop]%andb_prop Hts]%andb_prop. unfold encode_reading, encode_location, encode_time.
  destruct (encode_float_some _ Ht) as [v1 ->], (encode_float_some _ Ha) as [v2 ->], (encode_float_some _ Ho) as [v3 ->].
  unfold json_time in Hts. destruct (formatRFC3339 (Timestamp r)); [|done]. cbn. by eexists.
Qed.

Lemma encode_readings_some rs : forallb json_reading rs = true -> exists vs, mapM encode_reading rs = Some vs.
Proof.
  intros H%forallb_Forall. induction H as [|r rs Hr _ [vs IH]]; [by eexists|]. destruct (encode_reading_some r Hr) as [v Hv].
  exists (v :: vs). cbn. by rewrite Hv, IH.
Qed.

(** A response that JSON can carry is encoded. *)
Lemma encode_region_some r : json_region r = true -> exists v, encode_region r = Some v.
Proof.
  intros [[[Hc Hr]%andb_prop Ha]%andb_prop Hrs]%andb_prop. unfold encode_region, encode_location.
  apply andb_prop in Hc as [Hla Hlo].
  destruct (encode_float_some _ Hla) as [v1 ->], (encode_float_some _ Hlo) as [v2 ->], (encode_float_some _ Hr) as [v3 ->],
    (encode_float_some _ Ha) as [v4 ->], (encode_readings_some _ Hrs) as [vs ->]. cbn. by eexists.
Qed.

(** One that is not leaves the body empty. *)
Lemma region_body_empty r : json_location (Center r) && json_number (RadiusKm r) = false -> region_body r = [].
Proof.
  intros H. unfold region_body, encode_region, encode_location, encode_float, formatFloat.
  destruct (Center r) as [lat lon]. unfold json_location in H. cbn [Latitude Longitude] in *.
  destruct lat as [| |a]; [done..|]. destruct lon as [| |o]; [done..|]. destruct (RadiusKm r) as [| |k]; done.
Qed.

(** Status 400 or 404 with an error, or 200 with the bytes of the body. *)
Inductive HttpAnswer : Type :=
| StatusBadRequest (err : QueryError)
| StatusNotFound (err : AggregateError)
| StatusOK (body : list Z).

Section Http.
Context `{Trig} (rangeMap : gmap string Reading -> list Reading).

Definition handleRegion (query : string -> string) (store : readingStore (Reading := Reading)) : HttpAnswer :=
  match parseRegionQuery query with
  | inl err => StatusBadRequest err
  | inr (center, radiusKm) =>
      let readings := snapshot rangeMap store in
      match AverageTemperatureInRadius readings center radiusKm with
      | inl err => StatusNotFound err
      | inr (avgTemp, count) =>
          let matched := FilterByRadius readings center radiusKm in
          let response := mkRegion center radiusKm avgTemp count matched in
          StatusOK (region_body response)
      end
  end.

Context (Hrange : forall m, rangeMap m ≡ₚ (map_to_list m).*2).

Lemma elem_of_snapshot store r : r ∈ snapshot rangeMap store <-> exists n, readings store !! n = Some r.
Proof using Hrange.
  unfold snapshot. rewrite Hrange, list_elem_of_fmap. split.
  - intros ([n r'] & -> & Hin). apply elem_of_map_to_list in Hin. by exists n.
  - intros [n Hn]. exists (n, r). split; [done|]. by apply elem_of_map_to_list.
Qed.

Lemma length_snapshot store : length (snapshot rangeMap store) = size (readings store).
Proof using Hrange. unfold snapshot. rewrite Hrange, length_fmap. apply length_map_to_list. Qed.

Lemma parseRegionQuery_positive query center radius : parseRegionQuery query = inr (center, radius) ->
  f_le radius (Fin 0) = false.
Proof.
  unfold parseRegionQuery. intros Hq. repeat case_match; try done. by injection Hq as <- <-.
Qed.

(** Readings a query can answer with: well-formed, at a time that can be written. *)
Definition wf_stored (r : Reading) : Prop := wf_reading r /\ is_Some (formatRFC3339 (Timestamp r)).

Lemma json_wf r : wf_stored r -> json_reading r = true.
Proof.
  intros [[(k & Ht & _) [(a & Ha & _) (o & Ho & _)]] [text Hts]]. unfold json_reading, json_location, json_time.
  by rewrite Ht, Ha, Ho, Hts.
Qed.

Definition near (center : Location) (radius : float64) (r : Reading) : Prop :=
  f_le (DistanceKm center (Loc r)) radius = true.

Lemma handleRegion_parsed query store center radius :
  map_Forall (fun _ r => wf_stored r) (readings store) -> Z.of_nat (size (readings store)) < 2 ^ 47 ->
  parseRegionQuery query = inr (center, radius) ->
  match handleRegion query store with
  | StatusBadRequest _ => False
  | StatusNotFound err => err = ErrNoReadingsInRadius /\
      forall n r, readings store !! n = Some r -> ~ near center radius r
  | StatusOK body =>
      if json_location center && json_number radius then
        exists resp v, encode_region resp = Some v /\ body = print_json v ++ [10] /\ Center resp = center /\ RadiusKm resp = radius /\
          Samples resp = Z.of_nat (length (Readings resp)) /\ 0 < Samples resp /\
          wf_temperature (AvgTempC resp) /\
          forall r, r ∈ Readings resp <-> (exists n, readings store !! n = Some r) /\ near center radius r
      else body = [] /\ exists n r, readings store !! n = Some r /\ near center radius r
  end.
Proof using Hrange.
  intros Hwf Hsize Hq. unfold handleRegion. rewrite Hq.
  pose proof (parseRegionQuery_positive _ _ _ Hq) as Hpos.
  assert (Hrs : Forall wf_reading (snapshot rangeMap store)).
  { apply Forall_forall. intros r [n Hn]%elem_of_snapshot. exact (proj1 (Hwf n r Hn)). }
  pose proof (AverageTemperatureInRadius_spec (snapshot rangeMap store) center radius Hrs) as HR.
  rewrite length_snapshot in HR. specialize (HR Hsize). cbv zeta in HR.
  assert (Hm : forall r, r ∈ FilterByRadius (snapshot rangeMap store) center radius <->
    (exists n, readings store !! n = Some r) /\ near center radius r).
  { intros r. rewrite FilterByRadius_spec, elem_of_snapshot. split; [intros (_ & H1 & H2)|intros [H1 H2]];
      [exact (conj H1 H2)|exact (conj Hpos (conj H1 H2))]. }
  destruct (AverageTemperatureInRadius (snapshot rangeMap store) center radius) as [err|[avg n]].
  - destruct HR as (-> & Hnil & _). split; [reflexivity|]. intros n r Hn Hnear.
    assert (Hin : r ∈ FilterByRadius (snapshot rangeMap store) center radius)
      by (apply Hm; split; [exists n; exact Hn|exact Hnear]).
    rewrite Hnil in Hin. by apply elem_of_nil in Hin.
  - destruct HR as (-> & Hn & Havg). set (resp := mkRegion _ _ _ _ _).
    destruct (json_location center && json_number radius) eqn:Hjc.
    2: { split; [by apply region_body_empty|]. destruct (FilterByRadius (snapshot rangeMap store) center radius) as [|r l];
         [simpl in Hn; lia|]. destruct (proj1 (Hm r)) as [[i Hi] Hr]; [left|]. exists i, r. exact (conj Hi Hr). }
    assert (Hj : json_region resp = true).
    { unfold json_region, resp. cbn [Center RadiusKm AvgTempC Readings]. rewrite Hjc. destruct Havg as (k & -> & _). cbn [json_number andb].
      apply forallb_forall. intros r Hr%list_elem_of_In. apply Hm in Hr as [[i Hi] _]. apply json_wf. exact (Hwf i r Hi). }
    destruct (encode_region_some resp Hj) as [v Hv]. exists resp, v. unfold region_body. rewrite Hv.
    split; [reflexivity|]. split; [reflexivity|]. split; [reflexivity|]. split; [reflexivity|]. split; [reflexivity|].
    split; [exact Hn|]. split; [exact Havg|exact Hm].
Qed.

(** C12: the region query over HTTP.  A query whose latitude, longitude or radius
    is missing, not a number or not a positive radius is answered with 400 and
    says which is wrong first.  With well-formed readings stored, any other is
    answered with 404 exactly if no stored reading is within the radius, else
    with 200.  The body then is the JSON line of the stored readings within the
    radius, their number and an average between -10 and 45 degrees; except that
    for a query with an infinity or NaN the body is empty, since such a number
    cannot be encoded (a stored reading is within the radius then too). *)
Theorem region_handler query store :
  map_Forall (fun _ r => wf_stored r) (readings store) -> Z.of_nat (size (readings store)) < 2 ^ 47 ->
  match parseFloat (query "lat"), parseFloat (query "lon"), parseFloat (query "radius_km") with
  | None, _, _ => handleRegion query store = StatusBadRequest InvalidLat
  | _, None, _ => handleRegion query store = StatusBadRequest InvalidLon
  | _, _, None => handleRegion query store = StatusBadRequest InvalidRadius
  | Some lat, Some lon, Some radius =>
      if f_le radius (Fin 0) then handleRegion query store = StatusBadRequest InvalidRadius
      else
        let center := mkLocation lat lon in
        match handleRegion query store with
        | StatusBadRequest _ => False
        | StatusNotFound err => err = ErrNoReadingsInRadius /\
            forall n r, readings store !! n = Some r -> ~ near center radius r
        | StatusOK body =>
            if json_location center && json_number radius then
              exists resp v, encode_region resp = Some v /\ body = print_json v ++ [10] /\ Center resp = center /\ RadiusKm resp = radius /\
                Samples resp = Z.of_nat (length (Readings resp)) /\ 0 < Samples resp /\
                wf_temperature (AvgTempC resp) /\
                forall r, r ∈ Readings resp <-> (exists n, readings store !! n = Some r) /\ near center radius r
            else body = [] /\ exists n r, readings store !! n = Some r /\ near center radius r
        end
  end.
Proof using Hrange.
  intros Hwf Hsize. pose proof (fun c rd => handleRegion_parsed query store c rd Hwf Hsize) as HP.
  unfold handleRegion, parseRegionQuery in *.
  destruct (parseFloat (query "lat")) as [lat|]; [|reflexivity].
  destruct (parseFloat (query "lon")) as [lon|]; [|reflexivity].
  destruct (parseFloat (query "radius_km")) as [radius|]; [|reflexivity].
  destruct (f_le radius (Fin 0)); [reflexivity|]. cbv zeta. apply HP. reflexivity.
Qed.
End Http.

(** ** A concrete query *)

Definition demo_query (radius key : string) : string :=
  if key =?s "lat" then "48" else if key =?s "lon" then "16" else if key =?s "radius_km" then radius else "".

Definition demo_region_store : readingStore (Reading := Reading) :=
  mkStore (list_to_map (map (fun r => (NodeID r, r)) demo_readings)) (Some 0) true 1.

Definition range_values (m : gmap string Reading) : list Reading := (map_to_list m).*2.

Lemma demo_store_wf : map_Forall (fun _ r => wf_stored r) (readings demo_region_store).
Proof.
  intros n r Hn. apply elem_of_list_to_map_2, list_elem_of_fmap in Hn as (r' & [= -> ->] & Hr). split.
  - pose proof demo_readings_wf as H. rewrite Forall_forall in H. exact (H _ Hr).
  - destruct (NewGenerator_wf (H := still_rand) "n1" demo_place) as (Hg & _). destruct (generate_wf (H := still_rand) [1; 2] _ Hg) as [_ Ht].
    assert (Hin : Timestamp r' ∈ map Timestamp demo_readings) by (apply list_elem_of_fmap; by exists r').
    unfold demo_readings in Hin. rewrite Ht in Hin. apply list_elem_of_fmap in Hin as (t & -> & Hin). apply format_UTC.
    assert (Hall : Forall writable [1; 2]) by (repeat constructor; unfold writable; lia). rewrite Forall_forall in Hall. by apply Hall.
Qed.

Lemma region_handler_witness :
  (exists resp v, encode_region resp = Some v /\
     handleRegion (H := flat_trig) range_values (demo_query "10") demo_region_store = StatusOK (print_json v ++ [10]) /\
     Samples resp = Z.of_nat (length (Readings resp))) /\
  handleRegion (H := flat_trig) range_values (demo_query "inf") demo_region_store = StatusOK [].
Proof.
  split; [|vm_compute; reflexivity].
  pose proof (region_handler (H := flat_trig) range_values (fun m => reflexivity _) (demo_query "10")
    demo_region_store demo_store_wf) as HR.
  assert (Eq : match parseFloat (demo_query "10" "lat"), parseFloat (demo_query "10" "lon"), parseFloat (demo_query "10" "radius_km") with
    | Some lat, Some lon, Some rd => json_location (mkLocation lat lon) && json_number rd && negb (f_le rd (Fin 0))
    | _, _, _ => false end = true) by (vm_compute; reflexivity).
  assert (Eo : match handleRegion (H := flat_trig) range_values (demo_query "10") demo_region_store with
    StatusOK _ => true | _ => false end = true) by (vm_compute; reflexivity).
  destruct (parseFloat (demo_query "10" "lat")) as [lat|]; [|discriminate Eq].
  destruct (parseFloat (demo_query "10" "lon")) as [lon|]; [|discriminate Eq].
  destruct (parseFloat (demo_query "10" "radius_km")) as [rd|]; [|discriminate Eq].
  apply andb_prop in Eq as [Eq Er]. destruct (f_le rd (Fin 0)); [discriminate Er|]. cbv zeta in HR. rewrite Eq in HR.
  destruct (handleRegion (H := flat_trig) range_values (demo_query "10") demo_region_store) as [?|?|body];
    [discriminate Eo|discriminate Eo|].
  destruct HR as (resp & v & Hv & -> & _ & _ & Hs & _); [vm_compute; reflexivity|].
  exists resp, v. exact (conj Hv (conj eq_refl Hs)).
Defined.
