(* ===== verification/CoordinatorMetrics.v ===== *)
(** * The coordinator's gauges (src/cmd/coordinator/metrics.go, updateRaftMetrics)

    What Prometheus is told about the Raft node, every half second. *)

From Stdlib Require Import Ascii String.
From stdpp Require Import base strings list gmap.
From S2P Require Import Prelude GoFloat RaftNode.

#[local] Open Scope Z_scope.
#[local] Open Scope go_scope.
#[local] Set Default Proof Using "Type".

(** A [GaugeVec] is its value by label. *)
Record coordinatorMetrics : Type := mkCoordinatorMetrics {
  g_isLeader : gmap string float64; g_currentTerm : gmap string float64;
  g_commitIndex : gmap string float64; g_lastHeartbeat : gmap string float64 }.

Definition newCoordinatorMetrics : coordinatorMetrics := mkCoordinatorMetrics ∅ ∅ ∅ ∅.

(** [Update]; times are nanoseconds, 0 is the zero time. *)
Definition Update (nodeID : string) (isLeader : bool) (term commitIndex lastHeartbeat : Z)
    (m : option coordinatorMetrics) : option coordinatorMetrics :=
  match m with
  | None => None
  | Some m =>
      let leaderValue := if isLeader then f_of_int 1 else Fin 0 in
      Some (mkCoordinatorMetrics (<[nodeID := leaderValue]> (g_isLeader m))
        (<[nodeID := f_of_int term]> (g_currentTerm m)) (<[nodeID := f_of_int commitIndex]> (g_commitIndex m))
        (if lastHeartbeat =? 0 then g_lastHeartbeat m
         else <[nodeID := f_of_int (lastHeartbeat / 1000000000)]> (g_lastHeartbeat m)))
  end.

(** A tick of [updateRaftMetrics].  Each accessor takes the lock on its own, so
    the four values may come from four states of the node. *)
Definition raftMetricsTick (nodeID : string) (n1 n2 n3 n4 : Node) (m : option coordinatorMetrics)
  : option coordinatorMetrics :=
  Update nodeID (bool_decide (Node_State n1 = StateLeader)) (CurrentTerm n2) (CommitIndex n3) (LastHeartbeatTime n4) m.

(** The gauges show the node: the leader gauge is 1 exactly for a leader, terms
    and indices below 2^53 are shown exactly and so can be told apart, a node that
    heard no heartbeat keeps the old value, and other nodes' gauges do not move. *)
Theorem gauges_show_node nodeID n1 n2 n3 n4 m :
  0 <= currentTerm n2 <= 2 ^ 53 -> 0 <= commitIndex n3 <= 2 ^ 53 ->
  exists m', raftMetricsTick nodeID n1 n2 n3 n4 (Some m) = Some m' /\
    (g_isLeader m' !! nodeID = Some (f_of_int 1) <-> state n1 = StateLeader) /\
    (forall t, 0 <= t <= 2 ^ 53 -> g_currentTerm m' !! nodeID = Some (f_of_int t) <-> t = currentTerm n2) /\
    (forall c, 0 <= c <= 2 ^ 53 -> g_commitIndex m' !! nodeID = Some (f_of_int c) <-> c = commitIndex n3) /\
    (lastHeartbeat n4 = 0 -> g_lastHeartbeat m' = g_lastHeartbeat m) /\
    (forall x, x <> nodeID -> g_isLeader m' !! x = g_isLeader m !! x /\ g_currentTerm m' !! x = g_currentTerm m !! x /\
       g_commitIndex m' !! x = g_commitIndex m !! x /\ g_lastHeartbeat m' !! x = g_lastHeartbeat m !! x).
Proof.
  intros Ht Hc. assert (Hu : 0 < unit) by reflexivity.
  assert (Hex : forall a b, 0 <= a <= 2 ^ 53 -> 0 <= b <= 2 ^ 53 -> Some (f_of_int a) = Some (f_of_int b) <-> b = a).
  { intros a b Ha Hb. rewrite !f_of_int_exact by lia. split; [intros [= E]; nia|by intros ->]. }
  eexists. split; [reflexivity|]. cbn [g_isLeader g_currentTerm g_commitIndex g_lastHeartbeat].
  rewrite !lookup_insert_eq. split_and!.
  - rewrite f_of_int_exact by lia. case_bool_decide as Hl; [done|].
    split; [intros [= E]; lia|]. intros ?. contradiction.
  - intros t Hb. by apply Hex.
  - intros c Hb. by apply Hex.
  - unfold LastHeartbeatTime. by intros ->.
  - intros x Hx. rewrite !lookup_insert_ne by done. split_and!; try done. case_match; [done|]. by rewrite lookup_insert_ne.
Qed.
