(* ===== verification/HttpMux.v ===== *)
(** * The HTTP servers (src/cmd/coordinator/main.go, metrics.go; src/cmd/node/metrics.go)

    The coordinator's [/region] and the two [/metrics] endpoints are each one pattern
    of an [http.ServeMux] (Go 1.21): a request is served if its path is the pattern,
    redirected if its path is not clean, and not found otherwise. *)

From Stdlib Require Import Ascii String.
From stdpp Require Import base strings list sets gmap.
From S2P Require Import Prelude GoBytes Sha256 GoText Sensor Coordinator.
From S2P Require Import CoordinatorHttp.

#[local] Open Scope Z_scope.
#[local] Open Scope go_scope.
#[local] Set Default Proof Using "Type".

(** ** Paths, as bytes *)

Definition slash : Z := 47.
Definition dot : list Z := [46].
Definition dotdot : list Z := [46; 46].

(** [path.Clean] of a rooted path: the elements one after the other. *)
Definition pushElement (done : list (list Z)) (element : list Z) : list (list Z) :=
  if bool_decide (element = []) || bool_decide (element = dot) then done
  else if bool_decide (element = dotdot) then removelast done
  else done ++ [element].

Definition elements (p : list Z) : list (list Z) := fold_left pushElement (split_bytes slash p []) [].

Definition path_Clean (p : list Z) : list Z := slash :: join_bytes slash (elements p).

(** [net/http]'s [cleanPath]: a trailing slash is kept. *)
Definition cleanPath (p : list Z) : list Z :=
  if bool_decide (p = []) then [slash]
  else
    let p := if bool_decide (head p = Some slash) then p else slash :: p in
    let np := path_Clean p in
    if bool_decide (last p = Some slash) && negb (bool_decide (np = [slash])) then np ++ [slash] else np.

(** ** The mux *)

Record Request : Type := mkRequest { rq_Method : string; rq_Path : list Z; rq_Query : string -> string }.

Inductive MuxAnswer (A : Type) : Type :=
| MuxServed (a : A)
| MuxMoved (path : list Z) (query : string -> string)   (* 301, with the location *)
| MuxNotFound.
Arguments MuxServed {A} a. Arguments MuxMoved {A} path query. Arguments MuxNotFound {A}.

(** [ServeMux.Handler] with one pattern, which does not end in a slash; a request
    line with [*] for a path does not reach it. *)
Definition serveMux {A} (pattern : list Z) (handler : Request -> A) (r : Request) : MuxAnswer A :=
  let path := if rq_Method r =?s "CONNECT" then rq_Path r else cleanPath (rq_Path r) in
  if negb (bool_decide (path = rq_Path r)) then MuxMoved path (rq_Query r)
  else if bool_decide (rq_Path r = pattern) then MuxServed (handler r) else MuxNotFound.

(** ** The servers *)

(** [runHTTPServer]: [None] is the error of [ListenAndServe] when the address cannot
    be bound; the handler does not look at the method. *)
Definition runHTTPServer `{Trig} (rangeMap : gmap string Reading -> list Reading) (bound : bool)
    (store : readingStore (Reading := Reading)) : option (Request -> MuxAnswer HttpAnswer) :=
  if bound then Some (serveMux (bytes_of "/region") (fun r => handleRegion rangeMap (rq_Query r) store)) else None.

(** [startMetricsServer], of the node and of the coordinator: the metrics handler of the
    Prometheus library is a parameter; an address that cannot be bound is logged and
    the program goes on without the endpoint. *)
Definition startMetricsServer {A} (promhttp : Request -> A) (bound : bool) : option (Request -> MuxAnswer A) :=
  if bound then Some (serveMux (bytes_of "/metrics") promhttp) else None.
Definition coordinator_startMetricsServer {A} (promhttp : Request -> A) (bound : bool) : option (Request -> MuxAnswer A) :=
  startMetricsServer promhttp bound.

(** ** Clean paths *)

Definition plainElement (e : list Z) : Prop := e <> [] /\ e <> dot /\ e <> dotdot /\ slash ∉ e.

Lemma removelast_Forall {A} (P : A -> Prop) l : Forall P l -> Forall P (removelast l).
Proof.
  induction 1 as [|x l Hx Hl IH]; cbn; [constructor|]. destruct l; [constructor|]. by constructor.
Qed.

Lemma pushElement_plain es e : Forall plainElement es -> slash ∉ e -> Forall plainElement (pushElement es e).
Proof.
  intros Hes He. unfold pushElement. repeat case_bool_decide; cbn [orb]; try done; [by apply removelast_Forall|].
  apply Forall_app. split; [done|]. by repeat constructor.
Qed.

Lemma split_bytes_sep sep l acc : sep ∉ acc -> Forall (fun x => sep ∉ x) (split_bytes sep l acc).
Proof.
  revert acc. induction l as [|b l IH]; intros acc Ha; cbn; [by repeat constructor|].
  destruct (Z.eqb_spec b sep) as [->|Hb]; [constructor; [done|]; apply IH; set_solver|].
  apply IH. rewrite elem_of_app, list_elem_of_singleton. intros [?|?]; congruence.
Qed.

Lemma elements_plain p : Forall plainElement (elements p).
Proof.
  unfold elements. pose proof (split_bytes_sep slash p [] ltac:(set_solver)) as Hs. revert Hs.
  generalize (split_bytes slash p []). intros l Hs.
  assert (Hd : Forall plainElement []) by constructor. revert Hd. generalize (@nil (list Z)).
  induction Hs as [|e es He Hes IH]; intros d Hd; cbn; [done|]. apply IH. by apply pushElement_plain.
Qed.

(** Elements that are plain are kept. *)
Lemma push_plain es d : Forall plainElement es -> fold_left pushElement es d = d ++ es.
Proof.
  intros Hes. revert d. induction Hes as [|e es (H1 & H2 & H3 & _) Hes IH]; intros d; cbn; [by rewrite app_nil_r|].
  unfold pushElement at 2. rewrite !bool_decide_eq_false_2 by done. cbn [orb]. by rewrite IH, <- app_assoc.
Qed.

(** The shape of what [cleanPath] returns. *)
Definition cleanForm (es : list (list Z)) (trailing : bool) : list Z :=
  if bool_decide (es = []) then [slash]
  else join_bytes slash ([] :: es ++ if trailing then [[]] else []).

Lemma join_bytes_snoc sep ls x : ls <> [] -> join_bytes sep (ls ++ [x]) = join_bytes sep ls ++ sep :: x.
Proof.
  induction ls as [|l ls IH]; [done|]. intros _. destruct ls as [|l' ls]; [done|].
  cbn [app join_bytes] in *. rewrite IH by done. by rewrite <- app_assoc.
Qed.

Lemma join_plain es : Forall plainElement es -> es <> [] ->
  exists l b, join_bytes slash es = l ++ [b] /\ b <> slash.
Proof.
  intros Hes Hne. destruct es as [|e es _] using rev_ind; [done|]. clear Hne.
  apply Forall_app in Hes as [_ He]. apply Forall_cons in He as [(H1 & _ & _ & H4) _].
  destruct e as [|b e _] using rev_ind; [done|]. assert (Hb : b <> slash) by set_solver.
  destruct es as [|e' es]; [by exists e, b|]. exists (join_bytes slash (e' :: es) ++ slash :: e), b.
  split; [|done]. rewrite join_bytes_snoc by done. by rewrite <- app_assoc.
Qed.

Lemma elements_slash p : elements (slash :: p) = elements p.
Proof. done. Qed.

Lemma cleanPath_form p : cleanPath p = cleanForm (elements p) (bool_decide (last p = Some slash)).
Proof.
  unfold cleanPath. case_bool_decide as Hp; [by subst|]. set (q := if bool_decide _ then p else _).
  assert (Hq : elements q = elements p /\ last q = last p).
  { subst q. case_bool_decide; [done|]. split; [apply elements_slash|]. by destruct p. }
  destruct Hq as [<- <-]. clearbody q. clear Hp p.
  pose proof (elements_plain q) as Hes. unfold path_Clean, cleanForm. generalize dependent (elements q). intros es Hes.
  destruct es as [|e es]; [rewrite !(bool_decide_eq_true_2 _ (eq_refl _)); cbn; by rewrite andb_false_r|].
  destruct (join_plain _ Hes ltac:(done)) as (l & b & El & _).
  rewrite (bool_decide_eq_false_2 (slash :: _ = _)) by (rewrite El; by destruct l).
  rewrite andb_true_r, (bool_decide_eq_false_2 (e :: es = [])) by done. case_bool_decide.
  - change ([] :: (e :: es) ++ [[]]) with (([] :: e :: es) ++ [[]]). by rewrite join_bytes_snoc by done.
  - by rewrite app_nil_r.
Qed.

Lemma cleanForm_elements es trailing : Forall plainElement es -> elements (cleanForm es trailing) = es.
Proof.
  intros Hes. unfold cleanForm. case_bool_decide as Hne; [by subst|].
  unfold elements. rewrite split_join_bytes; [|done|].
  - cbn [fold_left]. rewrite fold_left_app, (push_plain es) by done. by destruct trailing.
  - constructor; [set_solver|]. apply Forall_app.
    split; [by eapply Forall_impl; [exact Hes|]; intros ? (_ & _ & _ & ?)|destruct trailing; repeat constructor; set_solver].
Qed.

Lemma cleanForm_last es trailing : Forall plainElement es -> es <> [] ->
  last (cleanForm es trailing) = Some slash <-> trailing = true.
Proof.
  intros Hes Hne. unfold cleanForm. rewrite bool_decide_eq_false_2 by done.
  destruct (join_plain es Hes Hne) as (l & b & El & Hb). destruct trailing.
  - change ([] :: es ++ [[]]) with (([] :: es) ++ [[]]). by rewrite join_bytes_snoc, last_snoc by done.
  - rewrite app_nil_r. destruct es as [|e es]; [done|].
    change (join_bytes slash ([] :: e :: es)) with (slash :: join_bytes slash (e :: es)).
    rewrite El, app_comm_cons, last_snoc. naive_solver.
Qed.

Lemma cleanForm_trailing es t t' : es = [] \/ t = t' -> cleanForm es t = cleanForm es t'.
Proof. by intros [->| ->]. Qed.

(** A clean path: the root, or plain elements, each after a slash, and perhaps a last
    slash. *)
Definition clean_path (p : list Z) : Prop :=
  exists es trailing, Forall plainElement es /\ p = cleanForm es trailing.

Lemma cleanPath_clean p : clean_path (cleanPath p).
Proof. rewrite cleanPath_form. eexists _, _. split; [apply elements_plain|done]. Qed.

(** Exactly the clean paths are what [cleanPath] leaves alone. *)
Lemma cleanPath_fix p : cleanPath p = p <-> clean_path p.
Proof.
  split; [intros <-; apply cleanPath_clean|]. intros (es & t & Hes & ->).
  rewrite cleanPath_form, cleanForm_elements by done. apply cleanForm_trailing.
  destruct (decide (es = [])) as [->|Hne]; [by left|right]. pose proof (cleanForm_last es t Hes Hne).
  destruct t; [by rewrite bool_decide_eq_true_2 by naive_solver|by rewrite bool_decide_eq_false_2 by naive_solver].
Qed.

Lemma cleanPath_elements p : elements (cleanPath p) = elements p.
Proof. rewrite cleanPath_form. apply cleanForm_elements, elements_plain. Qed.

(** A trailing slash is kept, and none is added. *)
Lemma cleanPath_last p : elements p <> [] -> last (cleanPath p) = Some slash <-> last p = Some slash.
Proof.
  intros Hne. rewrite cleanPath_form, cleanForm_last by (done || apply elements_plain).
  by rewrite bool_decide_eq_true.
Qed.

(** ** Routing *)

(** What a mux of one clean pattern does with a request. *)
Definition routes {A} (pattern : list Z) (handler : Request -> A) (serve : Request -> MuxAnswer A) : Prop :=
  forall r,
  (rq_Method r = "CONNECT" \/ clean_path (rq_Path r) ->
   serve r = if bool_decide (rq_Path r = pattern) then MuxServed (handler r) else MuxNotFound) /\
  (rq_Method r <> "CONNECT" -> ~ clean_path (rq_Path r) ->
   exists path, serve r = MuxMoved path (rq_Query r) /\ clean_path path /\
   elements path = elements (rq_Path r) /\
   (elements path <> [] -> last path = Some slash <-> last (rq_Path r) = Some slash)).

Lemma serveMux_routes {A} pattern (handler : Request -> A) : routes pattern handler (serveMux pattern handler).
Proof.
  intros r. unfold serveMux. split.
  - intros Hr. set (path := if rq_Method r =?s "CONNECT" then _ else _).
    assert (E : path = rq_Path r).
    { subst path. case_bool_decide; [done|]. destruct Hr as [?|?%cleanPath_fix]; done. }
    by rewrite E, (bool_decide_eq_true_2 (rq_Path r = rq_Path r)) by done.
  - intros Hm Hc. rewrite (bool_decide_eq_false_2 (rq_Method r = _)) by done.
    rewrite (bool_decide_eq_false_2 (cleanPath _ = _)) by (by rewrite cleanPath_fix). cbn [negb].
    exists (cleanPath (rq_Path r)). split_and!; [done|apply cleanPath_clean|apply cleanPath_elements|].
    rewrite cleanPath_elements. apply cleanPath_last.
Qed.


(** The same for the metrics of both programs. *)
Lemma metrics_endpoint {A} (promhttp : Request -> A) :
  exists serve, startMetricsServer promhttp true = Some serve /\ coordinator_startMetricsServer promhttp true = Some serve /\
  routes (bytes_of "/metrics") promhttp serve.
Proof. eexists. split; [reflexivity|]. split; [reflexivity|]. apply serveMux_routes. Qed.

(** [/region] is clean, and what the redirects of some paths lead to. *)
Lemma region_clean : clean_path (bytes_of "/region").
Proof. apply cleanPath_fix. by vm_compute. Qed.

Example mux_paths :
  map cleanPath (map bytes_of ["/region"; "//region"; "/x/../region"; "/region/"; "region"; "/../a/./b/"; ""]) =
    map bytes_of ["/region"; "/region"; "/region"; "/region/"; "/region"; "/a/b/"; "/"].
Proof. by vm_compute. Qed.
