(* ===== verification/CoordinatorMain.v ===== *)
(** * The coordinator process (src/cmd/coordinator/main.go, raft_integration.go)

    What [main] starts, as goroutines over shared state: the accept loops, a goroutine
    for each gossip or Raft connection, the [Run] loop of the Raft node with its
    heartbeat goroutines, the metrics loop and the query server.  A step of a goroutine
    ends at the next lock of the node or the store, so the steps interleave in any
    order.  Entries are applied after the node's lock is released, by the goroutine
    that collected them: nothing is lost or applied twice, but two goroutines may apply
    in either order. *)

From Stdlib Require Import Ascii String.
From stdpp Require Import base strings list sets gmap.
From S2P Require Import Prelude RaftNode RaftNodeFacts RaftApply.
From S2P Require Import Wire Base64 GoBytes Sha256 GoFloat GoText.
From S2P Require Import GoUtf8 GoJson GoTime Sensor SensorCodec RpcMessages.
From S2P Require Import Coordinator CoordinatorRpc CoordinatorHttp CoordinatorMetrics.
From S2P Require Import Servers HttpMux.

#[local] Open Scope Z_scope.
#[local] Open Scope go_scope.
#[local] Set Default Proof Using "Type".

#[local] Notation Store := (readingStore (Reading := Reading)).
#[local] Notation apply_all := (applyCommands Sensor.NodeID DecodeReading).
#[local] Notation commands := (map entry_Command).

(** ** Connections *)

(** Who waits for a proposal: the gossip handler, or a peer through an RPC. *)
Inductive Client : Type := ForGossip | ForPeer.

(** A goroutine, where it stands: the gossip handler before it reads its connection,
    and at its calls of [State], [LeaderID] and [Propose]; the Raft handler; the loop of
    [Propose]; [applyEntries] with the entries left and what follows; after [Propose]
    returned; a heartbeat to a peer; and the end, with what was written. *)
Inductive Task : Type :=
| GossipConn (stream : list Z)
| GossipState (command : string)
| GossipLeader (command : string)
| GossipPropose (command : string)
| RaftConn (stream : list Z)
| Proposing (client : Client) (pr : Proposal)
| Applying (entries : list LogEntry) (next : Task)
| Proposed (client : Client) (err : option RaftError)
| HeartbeatPeer (term : Z)
| Finished (written : list Z).

(** What a step meets outside: the clock and the random numbers of the node, the clock
    of the store, and what a peer answered ([None]: the RPC failed). *)
Record TaskInput : Type := mkInput {
  in_env : Env; in_clock : Z * Z; in_answer : option AppendEntriesResponse }.

(** What a step adds to the history: entries collected under the node's lock, commands
    applied to the store with the clock they saw, proposals forwarded, answers to
    queries. *)
Record Output : Type := mkOut {
  out_collected : list LogEntry; out_applied : list ((Z * Z) * string); out_forwarded : list CoordAction;
  out_answers : list (MuxAnswer HttpAnswer) }.

Definition silent : Output := mkOut [] [] [] [].
Definition out_app (a b : Output) : Output :=
  mkOut (out_collected a ++ out_collected b) (out_applied a ++ out_applied b)
    (out_forwarded a ++ out_forwarded b) (out_answers a ++ out_answers b).

(** [Propose] up to its loop, which does not run without peers. *)
Definition enterPropose (client : Client) (command : string) (n : Node) : Node * Task :=
  match Propose_enter n command with
  | inl err => (n, Proposed client (Some err))
  | inr (n, pr) =>
      (n, if 0 <? Z.of_nat (length (RaftNode.peers n)) then Proposing client pr
          else Proposed client (Some ErrReplicationFailed))
  end.

(** [handleRaftConn] up to the first unlock. *)
Definition raftStep (e : Env) (n : Node) (stream : list Z) : exec (Node * Task * list LogEntry) :=
  match coordinator_readFrame stream with
  | inl _ => Ok (n, Finished [], [])
  | inr (payload, _) =>
      match Unmarshal payload with
      | None => Ok (n, Finished [], [])
      | Some envelope =>
          if env_Type envelope =?s rpcRequestVote then
            match env_RequestVote envelope with
            | None => Ok (n, Finished [], [])
            | Some req => let '(n, resp) := HandleRequestVote e n req in Ok (n, Finished (writeJSONFrame resp), [])
            end
          else if env_Type envelope =?s rpcAppendEntries then
            match env_AppendEntries envelope with
            | None => Ok (n, Finished [], [])
            | Some req => let! (n, resp, es) := HandleAppendEntries e n req in
                          Ok (n, Applying es (Finished (writeJSONFrame resp)), es)
            end
          else if env_Type envelope =?s rpcPropose then
            match env_Propose envelope with
            | None => Ok (n, Finished [], [])
            | Some req => let '(n, t) := enterPropose ForPeer (pq_Command req) n in Ok (n, t, [])
            end
          else Ok (n, Finished [], [])
      end
  end.

(** One step of a goroutine. *)
Definition taskStep (raftPeers : gmap string string) (inp : TaskInput) (t : Task) (n : Node) (s : Store)
  : exec (Task * Node * Store * Output) :=
  match t with
  | GossipConn stream =>
      match gossipReading DecodeReading stream ≫= encodeReadingCommand EncodeReading with
      | None => Ok (Finished [], n, s, silent)
      | Some command => Ok (GossipState command, n, s, silent)
      end
  | GossipState command =>
      Ok (if bool_decide (Node_State n <> StateLeader) then GossipLeader command else GossipPropose command, n, s, silent)
  | GossipLeader command =>
      let leaderID := LeaderID n in
      if negb (leaderID =?s "") then Ok (Finished [], n, s, mkOut [] [] (forwardTo raftPeers leaderID command) [])
      else Ok (GossipPropose command, n, s, silent)
  | GossipPropose command => let '(n, t) := enterPropose ForGossip command n in Ok (t, n, s, silent)
  | RaftConn stream => let! (n, t, es) := raftStep (in_env inp) n stream in Ok (t, n, s, mkOut es [] [] [])
  | Proposing client pr =>
      let resp := match in_answer inp with Some resp => resp
                  | None => mkAppendResp (entry_Term (pr_entry pr)) false end in
      let! (n, out, es) := Propose_recv n pr resp in
      Ok (match out with
          | ProposeWait pr => Proposing client pr
          | ProposeReturn err => Applying es (Proposed client err)
          end, n, s, mkOut es [] [] [])
  | Applying [] next => Ok (next, n, s, silent)
  | Applying (entry :: entries) next =>
      Ok (Applying entries next, n,
          (applyReadingCommand Sensor.NodeID DecodeReading (in_clock inp) s (entry_Command entry)).1,
          mkOut [] [(in_clock inp, entry_Command entry)] [] [])
  | Proposed ForGossip err => Ok (Finished [], n, s, silent)
  | Proposed ForPeer err => Ok (Finished (writeJSONFrame (proposeAnswer n err)), n, s, silent)
  | HeartbeatPeer term =>
      Ok (Finished [], match in_answer inp with
                       | Some resp => sendHeartbeats_recv (in_env inp) n term resp
                       | None => n end, s, silent)
  | Finished written => Ok (t, n, s, silent)
  end.

(** A round of [runGossipServer] and of [runRaftServer]. *)
Definition runGossipServer (conn : option (list Z)) (l : Listener) : Listener * list Task :=
  let '(l, started) := acceptRound conn l in (l, option_list (GossipConn <$> started)).
Definition runRaftServer (conn : option (list Z)) (l : Listener) : Listener * list Task :=
  let '(l, started) := acceptRound conn l in (l, option_list (RaftConn <$> started)).

(** ** The loop of [Run] *)

(** In the [select]; in the loop of [startElection]; before [becomeLeader]; before
    [sendHeartbeats]. *)
Inductive Runner : Type := RunSelect | RunElecting (el : Election) | RunPromoting | RunHeartbeats.

Inductive RunnerInput : Type :=
| InTimer                                          (* the election timer fired *)
| InTicker                                         (* the heartbeat ticker fired *)
| InVote (answer : option RequestVoteResponse).    (* a vote arrived, or the RPC failed *)

(** [sendHeartbeats]: one goroutine for each peer. *)
Definition heartbeatsStep (e : Env) (n : Node) : Node * list Task :=
  match sendHeartbeats_enter e n with
  | (n, None) => (n, [])
  | (n, Some term) => (n, map (fun _ => HeartbeatPeer term) (RaftNode.peers n))
  end.

(** One step of the goroutine, with the goroutines it starts; an input it does not
    wait for changes nothing. *)
Definition runnerStep (e : Env) (inp : RunnerInput) (r : Runner) (n : Node) : Runner * Node * list Task :=
  match r, inp with
  | RunSelect, InTimer =>
      match electionTimer n with
      | None => (r, n, [])
      | Some _ =>
          let '(n, start) := onElectionTimeout e (expireElectionTimer n) in
          if start then
            let '(n, el) := startElection_enter e n in
            (if 0 <? Z.of_nat (length (RaftNode.peers n)) then RunElecting el else RunSelect, n, [])
          else (RunSelect, n, [])
      end
  | RunSelect, InTicker => let '(n, ts) := heartbeatsStep e n in (RunSelect, n, ts)
  | RunElecting el, InVote answer =>
      let resp := match answer with Some resp => resp | None => mkVoteResp (el_term el) false end in
      let '(n, out) := startElection_recv e n el resp in
      (match out with
       | ElectionWait el => RunElecting el
       | ElectionReturn => RunSelect
       | ElectionPromote => RunPromoting
       end, n, [])
  | RunPromoting, _ => let '(n, ok) := becomeLeader n in (if ok then RunHeartbeats else RunSelect, n, [])
  | RunHeartbeats, _ => let '(n, ts) := heartbeatsStep e n in (RunSelect, n, ts)
  | _, _ => (r, n, [])
  end.

(** ** The loop of [updateRaftMetrics] *)

(** What a tick has read so far, each value under its own lock. *)
Inductive Meter : Type :=
| MeterTick | MeterLeader (isLeader : bool) | MeterTerm (isLeader : bool) (term : Z)
| MeterCommit (isLeader : bool) (term commit : Z).

Definition meterStep (nodeID : string) (n : Node) (m : Meter) (metrics : option coordinatorMetrics)
  : Meter * option coordinatorMetrics :=
  match m with
  | MeterTick => (MeterLeader (bool_decide (Node_State n = StateLeader)), metrics)
  | MeterLeader l => (MeterTerm l (CurrentTerm n), metrics)
  | MeterTerm l t => (MeterCommit l t (CommitIndex n), metrics)
  | MeterCommit l t c => (MeterTick, Update nodeID l t c (LastHeartbeatTime n) metrics)
  end.

Lemma meter_ticks nodeID n1 n2 n3 n4 m : 
  let '(w, m) := meterStep nodeID n1 MeterTick m in let '(w, m) := meterStep nodeID n2 w m in
  let '(w, m) := meterStep nodeID n3 w m in meterStep nodeID n4 w m = (MeterTick, raftMetricsTick nodeID n1 n2 n3 n4 m).
Proof. done. Qed.

(** ** The process *)

Record Coord : Type := mkCoord {
  co_node : Node; co_store : Store; co_metrics : option coordinatorMetrics;
  co_gossip : Listener; co_raft : Listener; co_tasks : list Task; co_runner : Runner; co_meter : Meter }.

Section Process.
Context `{Trig} (rangeMap : gmap string Reading -> list Reading) (rangeKeys : gmap string string -> list string).

(** [main]: the node and the store, the servers and [Run].  The process exits if the
    node cannot be created or an address cannot be bound, except the address of the
    metrics.  Its context is never cancelled. *)
Definition startCoordinator (e : Env) (junk : Z) (cfg : config) (boundRaft boundGossip boundHTTP : bool) : option Coord :=
  let store := newReadingStore junk (totalNodes cfg) (targetRatio cfg) in
  let metrics := newCoordinatorMetrics in
  match NewNode (coordinatorRaftConfig rangeKeys cfg) with
  | inl _ => None
  | inr raftNode =>
      raft ← listen boundRaft;
      gossip ← listen boundGossip;
      _ ← runHTTPServer rangeMap boundHTTP store;
      Some (mkCoord (resetElectionTimer e raftNode) store (Some metrics) gossip raft [] RunSelect MeterTick)
  end.

Inductive CoordEvent : Type :=
| CoGossipAccept (conn : option (list Z))
| CoRaftAccept (conn : option (list Z))
| CoTask (i : nat) (inp : TaskInput)
| CoRunner (e : Env) (inp : RunnerInput)
| CoMeter
| CoQuery (r : Request).

Definition coordStep (cfg : config) (ev : CoordEvent) (c : Coord) : exec (Coord * Output) :=
  let '(mkCoord n s m gossip raft ts r meter) := c in
  match ev with
  | CoGossipAccept conn =>
      let '(gossip, started) := runGossipServer conn gossip in
      Ok (mkCoord n s m gossip raft (ts ++ started) r meter, silent)
  | CoRaftAccept conn =>
      let '(raft, started) := runRaftServer conn raft in
      Ok (mkCoord n s m gossip raft (ts ++ started) r meter, silent)
  | CoTask i inp =>
      match ts !! i with
      | None => Ok (c, silent)
      | Some t =>
          let! (t, n, s, out) := taskStep (raftPeers cfg) inp t n s in
          Ok (mkCoord n s m gossip raft (<[i := t]> ts) r meter, out)
      end
  | CoRunner e inp =>
      let '(r, n, started) := runnerStep e inp r n in
      Ok (mkCoord n s m gossip raft (ts ++ started) r meter, silent)
  | CoMeter =>
      let '(meter, m) := meterStep (raftID cfg) n meter m in
      Ok (mkCoord n s m gossip raft ts r meter, silent)
  | CoQuery q =>
      Ok (c, mkOut [] [] [] (match runHTTPServer rangeMap true s with Some serve => [serve q] | None => [] end))
  end.

Fixpoint coordRun (cfg : config) (evs : list CoordEvent) (c : Coord) : exec (Coord * Output) :=
  match evs with
  | [] => Ok (c, silent)
  | ev :: evs =>
      let! (c, out) := coordStep cfg ev c in
      let! (c, out') := coordRun cfg evs c in Ok (c, out_app out out')
  end.

(** ** The history *)

(** Entries collected and not applied yet. *)
Fixpoint pending (t : Task) : list LogEntry :=
  match t with Applying es next => es ++ pending next | _ => [] end.
Definition pendings (ts : list Task) : list LogEntry := mjoin (map pending ts).

(** A step that collects and applies nothing. *)
Ltac quiet := intros; simplify_eq/=; split_and!; first [done | lia].

Lemma enterPropose_fields client command n : let '(n', t) := enterPropose client command n in
  lastApplied n' = lastApplied n /\ commitIndex n' = commitIndex n /\ pending t = [].
Proof.
  unfold enterPropose, Propose_enter. destruct (negb _); [done|]. cbn. by case_match.
Qed.

Lemma raftStep_history e n stream n' t es : raftStep e n stream = Ok (n', t, es) ->
  pending t = es /\ lastApplied n' = lastApplied n + Z.of_nat (length es).
Proof.
  unfold raftStep. destruct (coordinator_readFrame stream) as [|[payload ?]]; [quiet|].
  destruct (Unmarshal payload) as [env|]; [|quiet].
  destruct (_ =?s rpcRequestVote); [|destruct (_ =?s rpcAppendEntries); [|destruct (_ =?s rpcPropose)]].
  - destruct (env_RequestVote env) as [req|]; [|quiet].
    pose proof (HandleRequestVote_applied e n req) as Ha. destruct (HandleRequestVote e n req) as [n1 resp].
    intros [= <- <- <-]. cbn in *. split; [done|lia].
  - destruct (env_AppendEntries env) as [req|]; [|quiet].
    intros ([[n1 resp] es1] & Ha & [= <- <- <-])%exec_bind_Ok. apply HandleAppendEntries_hands in Ha as [Ha _]. cbn. by rewrite app_nil_r.
  - destruct (env_Propose env) as [req|]; [|quiet].
    pose proof (enterPropose_fields ForPeer (pq_Command req) n) as Hp. destruct (enterPropose _ _ n) as [n1 t1].
    intros [= <- <- <-]. cbn. destruct Hp as (Hl & _ & Ht). split; [done|lia].
  - quiet.
Qed.

Definition step_history (t t' : Task) (n n' : Node) (s s' : Store) (out : Output) : Prop :=
  s' = (apply_all (out_applied out) s).1 /\
  commands (pending t ++ out_collected out) = map snd (out_applied out) ++ commands (pending t') /\
  lastApplied n' = lastApplied n + Z.of_nat (length (out_collected out)).

Lemma taskStep_history rp inp t n s t' n' s' out :
  taskStep rp inp t n s = Ok (t', n', s', out) -> step_history t t' n n' s s' out.
Proof.
  unfold step_history.
  destruct t as [stream|cmd|cmd|cmd|stream|client pr|es next|client err|term|w]; cbn [taskStep].
  - case_match; quiet.
  - case_match; quiet.
  - case_match; quiet.
  - pose proof (enterPropose_fields ForGossip cmd n) as Hp. destruct (enterPropose _ _ n) as [n1 t1].
    intros [= <- <- <- <-]. destruct Hp as (Hl & _ & Ht). cbn. rewrite Ht. split_and!; [done..|lia].
  - intros ([[n1 t1] es1] & Hr & [= <- <- <- <-])%exec_bind_Ok. apply raftStep_history in Hr as [Hp Hl].
    cbn. rewrite Hp. by split_and!.
  - intros ([[n1 o] es1] & Hr & [= <- <- <- <-])%exec_bind_Ok. pose proof (Propose_recv_wait _ _ _ _ _ _ Hr) as Hw.
    apply Propose_recv_hands in Hr as [Hr _]. cbn [out_applied out_collected pending app map].
    split_and!; [done| |done]. destruct o; [destruct Hw as (_ & -> & _); done|]. cbn. by rewrite app_nil_r.
  - destruct es as [|x es]; intros [= <- <- <- <-]; cbn.
    + rewrite app_nil_r. split_and!; [done..|lia].
    + rewrite !app_nil_r. split_and!; [by destruct (applyReadingCommand _ _ _ _ _)|done|lia].
  - destruct client; quiet.
  - intros [= <- <- <- <-]. cbn. split_and!; [done..|]. case_match; rewrite ?sendHeartbeats_recv_applied; lia.
  - quiet.
Qed.

Lemma heartbeatsStep_fields e n : let '(n', ts) := heartbeatsStep e n in
  lastApplied n' = lastApplied n /\ commitIndex n' = commitIndex n /\ pendings ts = [].
Proof.
  unfold heartbeatsStep, sendHeartbeats_enter. destruct (negb _); [done|]. cbn. split_and!; [done..|].
  by induction (RaftNode.peers n).
Qed.

Lemma becomeLeader_fields n : let '(_, n', ts) := (let '(n', ok) := becomeLeader n in (if ok then RunHeartbeats else RunSelect, n', [])) in
  lastApplied n' = lastApplied n /\ commitIndex n' = commitIndex n /\ pendings ts = [].
Proof. unfold becomeLeader. destruct (negb _); [done|]. by destruct (_ =?s _). Qed.

Lemma runnerStep_fields e inp r n : let '(_, n', ts) := runnerStep e inp r n in
  lastApplied n' = lastApplied n /\ commitIndex n' = commitIndex n /\ pendings ts = [].
Proof.
  destruct r as [|el| |], inp as [| |answer]; cbn [runnerStep]; try done.
  - destruct (electionTimer n); [|done]. unfold onElectionTimeout. by case_bool_decide.
  - pose proof (heartbeatsStep_fields e n) as Hh. by destruct (heartbeatsStep e n).
  - destruct (startElection_recv e n el _) as [n1 o] eqn:E.
    apply startElection_recv_cases in E as [(_ & -> & _)|(_ & -> & _)]; cbn; [|done].
    destruct (adopt_fields n (rvr_Term (match answer with Some resp => resp | None => mkVoteResp (el_term el) false end)) "")
      as (_ & _ & _ & ? & ? & _). done.
  - by apply becomeLeader_fields.
  - by apply becomeLeader_fields.
  - by apply becomeLeader_fields.
  - pose proof (heartbeatsStep_fields e n) as Hh. by destruct (heartbeatsStep e n).
  - pose proof (heartbeatsStep_fields e n) as Hh. by destruct (heartbeatsStep e n).
  - pose proof (heartbeatsStep_fields e n) as Hh. by destruct (heartbeatsStep e n).
Qed.

Lemma pendings_app ts ts' : pendings (ts ++ ts') = pendings ts ++ pendings ts'.
Proof. unfold pendings. by rewrite map_app, join_app. Qed.

Lemma runGossipServer_pendings conn l : pendings (runGossipServer conn l).2 = [].
Proof. unfold runGossipServer. by destruct (acceptRound conn l) as [l' [started|]]. Qed.
Lemma runRaftServer_pendings conn l : pendings (runRaftServer conn l).2 = [].
Proof. unfold runRaftServer. by destruct (acceptRound conn l) as [l' [started|]]. Qed.

Lemma perm_exchange {A} (a p b c x p' : list A) : p ++ c = x ++ p' -> (a ++ p ++ b) ++ c ≡ₚ x ++ a ++ p' ++ b.
Proof.
  intros E. trans (a ++ (p ++ c) ++ b); [|rewrite E, <- app_assoc; apply Permutation_app_swap_app].
  rewrite <- !app_assoc. by rewrite (Permutation_app_comm b c).
Qed.

(** What every step does to the history. *)
Definition history (c c' : Coord) (out : Output) : Prop :=
  co_store c' = (apply_all (out_applied out) (co_store c)).1 /\
  commands (pendings (co_tasks c) ++ out_collected out) ≡ₚ map snd (out_applied out) ++ commands (pendings (co_tasks c')) /\
  lastApplied (co_node c') = lastApplied (co_node c) + Z.of_nat (length (out_collected out)).

Lemma history_quiet n s m l1 l2 ts r w n' m' l1' l2' ts' r' w' fs qs : lastApplied n' = lastApplied n -> pendings ts' = pendings ts ->
  history (mkCoord n s m l1 l2 ts r w) (mkCoord n' s m' l1' l2' ts' r' w') (mkOut [] [] fs qs).
Proof. intros Ha Hp. unfold history. cbn [co_store co_tasks co_node out_applied out_collected]. rewrite Hp, app_nil_r. split_and!; [done..|cbn; lia]. Qed.

Lemma coordStep_history cfg ev c c' out : coordStep cfg ev c = Ok (c', out) -> history c c' out.
Proof.
  destruct c as [n s m l1 l2 ts r w]. destruct ev as [conn|conn|i inp|e inp| |q]; cbn [coordStep].
  - pose proof (runGossipServer_pendings conn l1) as Hp. destruct (runGossipServer conn l1) as [l started]. cbn [snd] in Hp.
    intros [= <- <-]. apply history_quiet; [done|]. by rewrite pendings_app, Hp, app_nil_r.
  - pose proof (runRaftServer_pendings conn l2) as Hp. destruct (runRaftServer conn l2) as [l started]. cbn [snd] in Hp.
    intros [= <- <-]. apply history_quiet; [done|]. by rewrite pendings_app, Hp, app_nil_r.
  - destruct (ts !! i) as [t|] eqn:Hi; [|intros [= <- <-]; by apply history_quiet].
    intros ([[[t' n'] s'] o] & Ht & [= <- <-])%exec_bind_Ok. apply taskStep_history in Ht as (Hs & Hp & Hl).
    unfold history. cbn [co_store co_tasks co_node]. split_and!; [exact Hs| |exact Hl].
    rewrite insert_take_drop by (by eapply lookup_lt_Some). rewrite <- (take_drop_middle ts i t Hi) at 1.
    rewrite !pendings_app.
    change (pendings (t :: drop (S i) ts)) with (pending t ++ pendings (drop (S i) ts)).
    change (pendings (t' :: drop (S i) ts)) with (pending t' ++ pendings (drop (S i) ts)).
    rewrite !map_app in *. by apply perm_exchange.
  - pose proof (runnerStep_fields e inp r n) as Hr. destruct (runnerStep e inp r n) as [[r' n'] ts'].
    intros [= <- <-]. destruct Hr as (Hl & _ & Hp). apply history_quiet; [exact Hl|]. by rewrite pendings_app, Hp, app_nil_r.
  - destruct (meterStep _ _ _ _) as [w' m']. intros [= <- <-]. by apply history_quiet.
  - intros [= <- <-]. by apply history_quiet.
Qed.

(** ** What a step keeps, and when it panics *)

Lemma enterPropose_commit client command n : commit_ok n -> commit_ok (enterPropose client command n).1.
Proof.
  pose proof (enterPropose_fields client command n) as Hp. destruct (enterPropose client command n) as [n' t].
  destruct Hp as (H1 & H2 & _). unfold commit_ok. cbn. by rewrite H1, H2.
Qed.

Lemma raftStep_commit e n stream n' t es : raftStep e n stream = Ok (n', t, es) -> commit_ok n -> commit_ok n'.
Proof.
  intros Hr Hc. unfold raftStep in Hr. destruct (coordinator_readFrame stream) as [|[payload ?]]; [by simplify_eq|].
  destruct (Unmarshal payload) as [env|]; [|by simplify_eq].
  destruct (_ =?s rpcRequestVote); [|destruct (_ =?s rpcAppendEntries); [|destruct (_ =?s rpcPropose); [|by simplify_eq]]].
  - destruct (env_RequestVote env) as [req|]; [|by simplify_eq]. pose proof (HandleRequestVote_commit e n req Hc) as Hv.
    destruct (HandleRequestVote e n req). by simplify_eq.
  - destruct (env_AppendEntries env) as [req|]; [|by simplify_eq].
    apply exec_bind_Ok in Hr as ([[n1 resp] es1] & Ha & E). simplify_eq. by eapply HandleAppendEntries_commit.
  - destruct (env_Propose env) as [req|]; [|by simplify_eq]. pose proof (enterPropose_commit ForPeer (pq_Command req) n Hc) as Hp.
    destruct (enterPropose _ _ n). by simplify_eq.
Qed.

(** Whatever bytes arrive, a node whose log is a Go slice handles them. *)
Lemma raftStep_total e n stream : node_inv n -> exists n' t es, raftStep e n stream = Ok (n', t, es).
Proof.
  intros Hn. unfold raftStep. destruct (coordinator_readFrame stream) as [|[payload ?]]; [by eauto|].
  destruct (Unmarshal payload) as [env|] eqn:Hu; [|by eauto].
  destruct (_ =?s rpcRequestVote); [|destruct (_ =?s rpcAppendEntries); [|destruct (_ =?s rpcPropose); [|by eauto]]].
  - destruct (env_RequestVote env) as [req|]; [|by eauto]. destruct (HandleRequestVote e n req). by eauto.
  - destruct (env_AppendEntries env) as [req|] eqn:Hreq; [|by eauto].
    destruct (HandleAppendEntries_cases e n req Hn (decoded_prev _ _ _ Hu Hreq)) as (n' & resp & es & -> & _). by eauto.
  - destruct (env_Propose env) as [req|]; [|by eauto]. destruct (enterPropose _ _ n). by eauto.
Qed.

Lemma taskStep_commit rp inp t n s t' n' s' out :
  taskStep rp inp t n s = Ok (t', n', s', out) -> commit_ok n -> commit_ok n'.
Proof.
  intros Hs Hc. destruct t as [stream|cmd|cmd|cmd|stream|client pr|[|x es] next|[|] err|term|w]; cbn [taskStep] in Hs;
    try by simplify_eq.
  - case_match; by simplify_eq.
  - case_match; by simplify_eq.
  - pose proof (enterPropose_commit ForGossip cmd n Hc) as Hp. destruct (enterPropose _ _ n). by simplify_eq.
  - apply exec_bind_Ok in Hs as ([[n1 t1] es] & Hr & E). simplify_eq. by eapply raftStep_commit.
  - apply exec_bind_Ok in Hs as ([[n1 o] es] & Hr & E). simplify_eq. by eapply Propose_recv_commit.
  - simplify_eq. destruct (in_answer inp) as [resp|]; [|done].
    unfold sendHeartbeats_recv. fold (adopt n (aer_Term resp) ""). case_match; [|done]. by apply adopt_commit.
Qed.

(** A proposal whose entry the log does not reach any more. *)
Definition entry_cut (t : Task) (n : Node) : Prop :=
  exists client pr, t = Proposing client pr /\ Z.of_nat (length (log n)) < pr_newIndex pr.

Lemma taskStep_total rp inp t n s : node_inv n -> ~ entry_cut t n ->
  exists t' n' s' out, taskStep rp inp t n s = Ok (t', n', s', out).
Proof.
  intros Hn Hcut. destruct t as [stream|cmd|cmd|cmd|stream|client pr|[|x es] next|[|] err|term|w]; cbn [taskStep]; try by eauto.
  - case_match; by eauto.
  - case_match; by eauto.
  - destruct (enterPropose _ _ n). by eauto.
  - destruct (raftStep_total (in_env inp) n stream Hn) as (n' & t' & es & ->). by eauto.
  - set (resp := match in_answer inp with Some _ => _ | None => _ end).
    destruct (Propose_recv_cases n pr resp (proj1 Hn)) as (n' & out & es & -> & _); [|by eauto].
    intros _ _ _. destruct (Z.le_gt_cases (pr_newIndex pr) (Z.of_nat (length (log n)))); [done|]. destruct Hcut. by eexists _, _.
Qed.

Lemma coordStep_commit cfg ev c c' out : coordStep cfg ev c = Ok (c', out) -> commit_ok (co_node c) -> commit_ok (co_node c').
Proof.
  destruct c as [n s m l1 l2 ts r w]. destruct ev as [conn|conn|i inp|e inp| |q]; cbn [coordStep co_node]; intros Hs Hc.
  - destruct (runGossipServer conn l1). by simplify_eq.
  - destruct (runRaftServer conn l2). by simplify_eq.
  - destruct (ts !! i) as [t|]; [|by simplify_eq].
    apply exec_bind_Ok in Hs as ([[[t' n'] s'] o] & Ht & E). simplify_eq. by eapply taskStep_commit.
  - pose proof (runnerStep_fields e inp r n) as Hr. destruct (runnerStep e inp r n) as [[r' n'] ts'].
    destruct Hr as (H1 & H2 & _). simplify_eq. unfold commit_ok. cbn. by rewrite H1, H2.
  - destruct (meterStep _ _ _ _). by simplify_eq.
  - by simplify_eq.
Qed.

(** A step panics only for a proposal whose entry was cut from the log. *)
Lemma coordStep_panics cfg ev c : commit_ok (co_node c) -> Z.of_nat (length (log (co_node c))) < 2 ^ 63 ->
  coordStep cfg ev c = Panic ->
  exists i inp t, ev = CoTask i inp /\ co_tasks c !! i = Some t /\ entry_cut t (co_node c).
Proof.
  intros Hc Hl. destruct c as [n s m l1 l2 ts r w]. destruct ev as [conn|conn|i inp|e inp| |q]; cbn [coordStep co_node co_tasks] in *.
  - by destruct (runGossipServer conn l1).
  - by destruct (runRaftServer conn l2).
  - destruct (ts !! i) as [t|] eqn:Hi; [|done]. intros HP. exists i, inp, t. split_and!; [done..|].
    destruct t as [stream|cmd|cmd|cmd|stream|client pr|es next|client err|term|w']; cbv [entry_cut].
    6: { destruct (Z.le_gt_cases (pr_newIndex pr) (Z.of_nat (length (log n)))) as [Hle|Hgt]; [|by eexists _, _].
      destruct (taskStep_total (raftPeers cfg) inp (Proposing client pr) n s (conj Hc Hl)) as (? & ? & ? & ? & E).
      { intros (? & ? & [= -> ->] & ?). lia. }
      by rewrite E in HP. }
    all: match type of HP with context [taskStep _ _ ?t _ _] =>
           destruct (taskStep_total (raftPeers cfg) inp t n s (conj Hc Hl)) as (? & ? & ? & ? & E);
             [by intros (? & ? & ? & _)|by rewrite E in HP] end.
  - by destruct (runnerStep e inp r n) as [[? ?] ?].
  - by destruct (meterStep _ _ _ _).
  - done.
Qed.

(** ** Runs *)

Lemma applyCommands_app a b : forall s : Store, (apply_all (a ++ b) s).1 = (apply_all b (apply_all a s).1).1.
Proof.
  induction a as [|[clock cmd] a IH]; intros s; [done|]. cbn [app applyCommands].
  destruct (applyReadingCommand _ _ clock s cmd) as [s1 x]. specialize (IH s1).
  destruct (apply_all (a ++ b) s1), (apply_all a s1). exact IH.
Qed.

Lemma history_app c c1 c2 o1 o2 : history c c1 o1 -> history c1 c2 o2 -> history c c2 (out_app o1 o2).
Proof.
  intros (S1 & P1 & L1) (S2 & P2 & L2). unfold history, out_app. cbn [out_applied out_collected]. split_and!.
  - by rewrite applyCommands_app, <- S1.
  - rewrite !map_app in *. rewrite app_assoc, P1, <- app_assoc, P2. by rewrite app_assoc.
  - rewrite L2, L1, length_app. lia.
Qed.

Lemma coordRun_history cfg evs : forall c c' out, coordRun cfg evs c = Ok (c', out) ->
  history c c' out /\ (commit_ok (co_node c) -> commit_ok (co_node c')).
Proof.
  induction evs as [|ev evs IH]; intros c c' out; cbn [coordRun].
  - intros [= <- <-]. split; [|done]. unfold history. cbn [out_applied out_collected silent]. rewrite app_nil_r.
    split_and!; [done..|cbn; lia].
  - intros ([c1 o1] & H1 & ([c2 o2] & H2 & [= <- <-])%exec_bind_Ok)%exec_bind_Ok.
    destruct (IH _ _ _ H2) as [Hh Hc]. split; [by eapply history_app; [eapply coordStep_history|]|].
    intros Hk. apply Hc. by eapply coordStep_commit.
Qed.

Lemma coordRun_panics cfg evs : forall c, commit_ok (co_node c) -> coordRun cfg evs c = Panic ->
  exists evs1 ev evs2 c1 out1, evs = evs1 ++ ev :: evs2 /\ coordRun cfg evs1 c = Ok (c1, out1) /\
    commit_ok (co_node c1) /\ coordStep cfg ev c1 = Panic.
Proof.
  induction evs as [|ev evs IH]; intros c Hc; [done|]. cbn [coordRun].
  destruct (coordStep cfg ev c) as [[c1 o1]|] eqn:E; cbn [exec_bind].
  - intros HP. pose proof (coordStep_commit _ _ _ _ _ E Hc) as Hc1.
    destruct (coordRun cfg evs c1) as [[c2 o2]|] eqn:E2; [done|].
    destruct (IH c1 Hc1 E2) as (evs1 & ev' & evs2 & c' & out' & -> & H1 & H2 & H3).
    exists (ev :: evs1), ev', evs2, c', (out_app o1 out'). split_and!; [done| |done..].
    cbn [coordRun]. rewrite E. cbn [exec_bind]. by rewrite H1.
  - intros _. exists [], ev, evs, c, silent. by split_and!.
Qed.

(** What [main] starts from. *)
Lemma startCoordinator_ok e junk env : exists n,
  startCoordinator e junk (loadConfig env) true true true =
    Some (mkCoord n (newReadingStore junk (totalNodes (loadConfig env)) (targetRatio (loadConfig env)))
            (Some newCoordinatorMetrics) (mkListener true true) (mkListener true true) [] RunSelect MeterTick) /\
  lastApplied n = 0 /\ commitIndex n = 0 /\ log n = [] /\ RaftNode.id n = raftID (loadConfig env).
Proof.
  unfold startCoordinator. destruct (NewNode (coordinatorRaftConfig rangeKeys (loadConfig env))) as [err|n] eqn:E.
  - unfold NewNode in E. cbn in E. unfold getenvDefault in E. by repeat case_bool_decide.
  - exists (resetElectionTimer e n). split; [done|]. unfold NewNode in E. repeat case_match; simplify_eq. by split_and!.
Qed.

(** C6: the coordinator process.  In every environment, on addresses it can bind, a
    coordinator starts; and however its goroutines interleave and whatever its clients
    send: the store is that of the commands applied so far; these, with those that a
    goroutine still has to apply, are the commands of the entries the node has
    collected, none lost and none twice; the node counts them; its commit index is
    never ahead of what was collected.  Only one thing ends the process: a proposal of
    its own, acknowledged by a majority after the entry was cut from its log. *)
Theorem coordinator_process e junk env evs :
  exists c0, startCoordinator e junk (loadConfig env) true true true = Some c0 /\
  match coordRun (loadConfig env) evs c0 with
  | Ok (c, out) =>
      co_store c = (apply_all (out_applied out) (co_store c0)).1 /\
      map snd (out_applied out) ++ commands (pendings (co_tasks c)) ≡ₚ commands (out_collected out) /\
      lastApplied (co_node c) = Z.of_nat (length (out_collected out)) /\
      0 <= commitIndex (co_node c) <= lastApplied (co_node c)
  | Panic =>
      exists evs1 ev evs2 c1 out1, evs = evs1 ++ ev :: evs2 /\ coordRun (loadConfig env) evs1 c0 = Ok (c1, out1) /\
        (Z.of_nat (length (log (co_node c1))) < 2 ^ 63 ->
         exists i inp t, ev = CoTask i inp /\ co_tasks c1 !! i = Some t /\ entry_cut t (co_node c1))
  end.
Proof.
  destruct (startCoordinator_ok e junk env) as (n & Hs & Ha & Hc & _). eexists. split; [exact Hs|].
  set (c0 := mkCoord n _ _ _ _ _ _ _). assert (H0 : commit_ok (co_node c0)) by (unfold commit_ok; cbn; lia).
  destruct (coordRun (loadConfig env) evs c0) as [[c out]|] eqn:E.
  - apply coordRun_history in E as [(S1 & P1 & L1) Hk]. split; [exact S1|]. split; [by symmetry|].
    split; [|by apply Hk]. rewrite L1. cbn. lia.
  - destruct (coordRun_panics _ _ _ H0 E) as (evs1 & ev & evs2 & c1 & out1 & He & H1 & H2 & H3).
    exists evs1, ev, evs2, c1, out1. split_and!; [done..|]. intros Hl. by eapply coordStep_panics.
Qed.

(** ** Order *)

(** Nothing is collected while something collected before is waiting. *)
Fixpoint calm (cfg : config) (evs : list CoordEvent) (c : Coord) : Prop :=
  match evs with
  | [] => True
  | ev :: evs =>
      match coordStep cfg ev c with
      | Ok (c', out) => (out_collected out = [] \/ pendings (co_tasks c) = []) /\ calm cfg evs c'
      | Panic => True
      end
  end.

(** At most one goroutine has entries to apply. *)
Definition one_pending (ts : list Task) : Prop :=
  forall i j t t', ts !! i = Some t -> ts !! j = Some t' -> pending t <> [] -> pending t' <> [] -> i = j.

Lemma pendings_nil ts : pendings ts = [] <-> forall i t, ts !! i = Some t -> pending t = [].
Proof.
  induction ts as [|t ts IH]; [done|].
  change (pendings (t :: ts)) with (pending t ++ pendings ts). split.
  - intros [H1 H2]%app_nil. intros [|i] x Hx; [by simplify_eq/=|]. by eapply IH.
  - intros Hall. rewrite (Hall 0%nat t eq_refl). cbn. apply IH. intros i x Hx. by apply (Hall (S i)).
Qed.

(** The entries of a list in which only the task at [i] has some. *)
Lemma pendings_one ts i t : ts !! i = Some t -> (forall j t', ts !! j = Some t' -> j <> i -> pending t' = []) ->
  pendings ts = pending t.
Proof.
  intros Hi Hother. rewrite <- (take_drop_middle ts i t Hi), pendings_app.
  change (pendings (t :: drop (S i) ts)) with (pending t ++ pendings (drop (S i) ts)).
  pose proof (lookup_lt_Some _ _ _ Hi) as Hlt.
  rewrite (proj2 (pendings_nil (take i ts))), (proj2 (pendings_nil (drop (S i) ts))); [by rewrite app_nil_r| |].
  - intros j x Hx. rewrite lookup_drop in Hx. by apply (Hother _ _ Hx); lia.
  - intros j x Hx. apply lookup_take_Some in Hx as [Hx Hj]. by apply (Hother _ _ Hx); lia.
Qed.

(** Two lists that differ in a task without entries. *)
Lemma pendings_insert_nil ts i t t' : ts !! i = Some t -> pending t = [] -> pending t' = [] ->
  pendings (<[i := t']> ts) = pendings ts.
Proof.
  intros Hi H1 H2. rewrite insert_take_drop by (by eapply lookup_lt_Some). rewrite <- (take_drop_middle ts i t Hi) at 3.
  rewrite !pendings_app. f_equal. unfold pendings. cbn. by rewrite H1, H2.
Qed.

Lemma task_in_order ts i t t' (applied collected : list string) : ts !! i = Some t -> one_pending ts ->
  (collected = [] \/ pendings ts = []) ->
  commands (pending t) ++ collected = applied ++ commands (pending t') ->
  commands (pendings ts) ++ collected = applied ++ commands (pendings (<[i := t']> ts)) /\ one_pending (<[i := t']> ts).
Proof.
  intros Hi Hone Hcalm Hstep. assert (Hlt := lookup_lt_Some _ _ _ Hi).
  destruct (decide (pending t = [] /\ collected = [])) as [[Ht ->]|Hsome].
  - rewrite Ht in Hstep. symmetry in Hstep. cbn in Hstep. apply app_nil in Hstep as [-> Ht'%fmap_nil_inv].
    rewrite (pendings_insert_nil ts i t t') by done. split; [by rewrite app_nil_r|].
    intros j k x y Hj Hk Hx Hy. apply list_lookup_insert_Some in Hj as [(_ & <- & _)|[_ Hj]]; [done|].
    apply list_lookup_insert_Some in Hk as [(_ & <- & _)|[_ Hk]]; [done|]. by eapply (Hone j k x y).
  - assert (Hother : forall j x, ts !! j = Some x -> j <> i -> pending x = []).
    { intros j x Hj Hne. destruct (decide (pending x = [])) as [|Hx]; [done|]. destruct Hcalm as [->|Hnil].
      - destruct (decide (pending t = [])) as [|Ht]; [by destruct Hsome|]. by destruct Hne; apply (Hone j i x t).
      - by apply (proj1 (pendings_nil ts) Hnil j). }
    rewrite (pendings_one ts i t) by done. rewrite (pendings_one (<[i := t']> ts) i t').
    + split; [done|]. intros j k x y Hj Hk Hx Hy.
      assert (Hloc : forall m z, <[i := t']> ts !! m = Some z -> pending z <> [] -> m = i).
      { intros m z [(-> & _ & _)|[Hne Hm]]%list_lookup_insert_Some Hz; [done|]. by destruct Hz; apply (Hother m z Hm). }
      by rewrite (Hloc j x), (Hloc k y).
    + by apply list_lookup_insert_eq.
    + intros j x [(-> & _ & _)|[_ Hj]]%list_lookup_insert_Some Hne; [done|]. by apply (Hother j).
Qed.

Lemma one_pending_app ts ts' : one_pending ts -> pendings ts' = [] -> one_pending (ts ++ ts').
Proof.
  intros Hone Hnil i j t t' Hi Hj Ht Ht'. rewrite pendings_nil in Hnil.
  apply lookup_app_Some in Hi as [Hi|[_ Hi]]; [|by destruct Ht; eapply Hnil].
  apply lookup_app_Some in Hj as [Hj|[_ Hj]]; [|by destruct Ht'; eapply Hnil]. by eapply Hone.
Qed.

Definition in_order (c c' : Coord) (out : Output) : Prop :=
  commands (pendings (co_tasks c)) ++ commands (out_collected out) =
    map snd (out_applied out) ++ commands (pendings (co_tasks c')) /\ one_pending (co_tasks c').

Lemma in_order_quiet n s m l1 l2 ts r w n' m' l1' l2' ts' r' w' fs qs : pendings ts' = [] -> one_pending ts ->
  in_order (mkCoord n s m l1 l2 ts r w) (mkCoord n' s m' l1' l2' (ts ++ ts') r' w') (mkOut [] [] fs qs).
Proof.
  intros Hnil Hone. unfold in_order. cbn [co_tasks out_collected out_applied]. rewrite pendings_app, Hnil, !app_nil_r.
  split; [done|]. by apply one_pending_app.
Qed.

Lemma coordStep_in_order cfg ev c c' out : coordStep cfg ev c = Ok (c', out) -> one_pending (co_tasks c) ->
  (out_collected out = [] \/ pendings (co_tasks c) = []) -> in_order c c' out.
Proof.
  destruct c as [n s m l1 l2 ts r w]. destruct ev as [conn|conn|i inp|e inp| |q]; cbn [coordStep co_tasks]; intros Hs Hone Hcalm.
  - pose proof (runGossipServer_pendings conn l1) as Hp. destruct (runGossipServer conn l1). simplify_eq. by apply in_order_quiet.
  - pose proof (runRaftServer_pendings conn l2) as Hp. destruct (runRaftServer conn l2). simplify_eq. by apply in_order_quiet.
  - destruct (ts !! i) as [t|] eqn:Hi.
    + apply exec_bind_Ok in Hs as ([[[t' n'] s'] o] & Ht & E). simplify_eq. apply taskStep_history in Ht as (_ & Hp & _).
      rewrite map_app in Hp. unfold in_order. cbn [co_tasks]. eapply task_in_order; [exact Hi|exact Hone| |exact Hp].
      destruct Hcalm as [->|?]; [by left|by right].
    + simplify_eq. rewrite <- (app_nil_r ts) at 2. by apply in_order_quiet.
  - pose proof (runnerStep_fields e inp r n) as Hr. destruct (runnerStep e inp r n) as [[r' n'] ts']. destruct Hr as (_ & _ & Hp).
    simplify_eq. by apply in_order_quiet.
  - destruct (meterStep _ _ _ _) as [w' m']. simplify_eq. rewrite <- (app_nil_r ts) at 2. by apply in_order_quiet.
  - simplify_eq. rewrite <- (app_nil_r ts) at 2. by apply in_order_quiet.
Qed.

Lemma coordRun_in_order cfg evs : forall c c' out, coordRun cfg evs c = Ok (c', out) -> calm cfg evs c ->
  one_pending (co_tasks c) -> in_order c c' out.
Proof.
  induction evs as [|ev evs IH]; intros c c' out; cbn [coordRun calm].
  - intros [= <- <-] _ Hone. unfold in_order. cbn [silent out_collected out_applied]. by rewrite app_nil_r.
  - intros ([c1 o1] & H1 & ([c2 o2] & H2 & [= <- <-])%exec_bind_Ok)%exec_bind_Ok. rewrite H1. intros [Hc Hcalm] Hone.
    destruct (coordStep_in_order _ _ _ _ _ H1 Hone Hc) as [E1 Hone1]. destruct (IH _ _ _ H2 Hcalm Hone1) as [E2 Hone2].
    split; [|exact Hone2]. unfold out_app. cbn [out_collected out_applied]. rewrite !map_app, app_assoc, E1, <- app_assoc, E2.
    by rewrite app_assoc.
Qed.

(** C22: a coordinator that applies before it collects again applies in log order.  If,
    in a run from the start, nothing is collected while an entry collected before is
    still to be applied, then the commands applied are the first commands collected, in
    their order, and the store is that of exactly those; once nothing is waiting it is
    the store of all of them. *)
Theorem applied_in_log_order e junk env evs c0 c out :
  startCoordinator e junk (loadConfig env) true true true = Some c0 ->
  coordRun (loadConfig env) evs c0 = Ok (c, out) -> calm (loadConfig env) evs c0 ->
  commands (out_collected out) = map snd (out_applied out) ++ commands (pendings (co_tasks c)) /\
  co_store c = (apply_all (out_applied out) (co_store c0)).1 /\
  readings (co_store c) =
    fold_left (put Sensor.NodeID)
      (omap (decodeCommand DecodeReading) (take (length (out_applied out)) (commands (out_collected out)))) ∅ /\
  (pendings (co_tasks c) = [] -> map snd (out_applied out) = commands (out_collected out)).
Proof.
  intros Hs Hr Hcalm. destruct (startCoordinator_ok e junk env) as (n & Hs' & _). rewrite Hs in Hs'. apply (inj Some) in Hs'.
  destruct (coordRun_in_order _ _ _ _ _ Hr Hcalm) as [E _]; [by rewrite Hs'; intros i j ? ? Hi; cbn in Hi; rewrite lookup_nil in Hi|].
  apply coordRun_history in Hr as [(S1 & _ & _) _]. rewrite Hs' in E. cbn [co_tasks] in E.
  change (commands (out_collected out) = map snd (out_applied out) ++ commands (pendings (co_tasks c))) in E.
  split; [exact E|]. split; [exact S1|]. split.
  - rewrite E, <- (length_map snd (out_applied out)), take_app_length, S1, Hs'. apply applied_readings.
  - intros Hnil. by rewrite E, Hnil, app_nil_r.
Qed.
End Process.

(** ** A goroutine that is not disturbed *)

Section Undisturbed.
Context (rp : gmap string string) (e : Env) (clock : Z * Z).

(** The steps of one goroutine with nothing between them. *)
Fixpoint runTask (answers : list (option AppendEntriesResponse)) (t : Task) (n : Node) (s : Store)
  : exec (Task * Node * Store * Output) :=
  match answers with
  | [] => Ok (t, n, s, silent)
  | a :: answers =>
      let! (t, n, s, out) := taskStep rp (mkInput e clock a) t n s in
      let! (t, n, s, out') := runTask answers t n s in Ok (t, n, s, out_app out out')
  end.

(** It ends with [written], having collected and applied [es]. *)
Definition ends (t : Task) (n : Node) (s : Store) (n' : Node) (written : list Z) (es : list LogEntry) : Prop :=
  exists answers out, runTask answers t n s = Ok (Finished written, n', (apply_all (out_applied out) s).1, out) /\
    out_collected out = es /\ commands (pending t ++ es) = map snd (out_applied out) /\ out_forwarded out = [].

Lemma ends_step a t n s t1 n1 s1 out1 n' written es es' : taskStep rp (mkInput e clock a) t n s = Ok (t1, n1, s1, out1) ->
  out_forwarded out1 = [] -> es' = out_collected out1 ++ es -> ends t1 n1 s1 n' written es -> ends t n s n' written es'.
Proof.
  intros H1 Hf -> (answers & out & Hr & <- & Hp & Hf'). exists (a :: answers), (out_app out1 out). cbn [runTask]. rewrite H1. cbn [exec_bind].
  rewrite Hr. cbn [exec_bind]. apply taskStep_history in H1 as (S1 & P1 & _). unfold out_app. cbn [out_applied out_collected out_forwarded].
  rewrite applyCommands_app, <- S1. split_and!; [done..| |by rewrite Hf, Hf']. rewrite app_assoc, map_app, P1, <- app_assoc, <- map_app, Hp.
  by rewrite map_app.
Qed.

Lemma ends_finished n s w : ends (Finished w) n s n w [].
Proof. by exists [], silent. Qed.

Lemma ends_applying es : forall next n s n' w, pending next = [] -> (forall s, ends next n s n' w []) -> ends (Applying es next) n s n' w [].
Proof.
  induction es as [|x es IH]; intros next n s n' w Hp Hn.
  - by eapply (ends_step None (Applying [] next)).
  - eapply (ends_step None (Applying (x :: es) next)); [reflexivity|reflexivity|reflexivity|]. by apply IH.
Qed.

(** The loop of [Propose], when every peer answers or fails. *)
Lemma ends_proposing client resps : forall pr n s acc n' err es w,
  Z.of_nat (length (RaftNode.peers n)) <= pr_responses pr + Z.of_nat (length resps) ->
  pr_responses pr < Z.of_nat (length (RaftNode.peers n)) ->
  Propose_loop n pr resps acc = Ok (n', err, acc ++ es) ->
  (forall s, ends (Proposed client err) n' s n' w []) -> ends (Proposing client pr) n s n' w es.
Proof.
  induction resps as [|r resps IH]; intros pr n s acc n' err es w Hlen Hlt HL Hend; [cbn in Hlen; lia|].
  cbn [Propose_loop] in HL. apply exec_bind_Ok in HL as ([[n1 o] es1] & Hr & HL).
  pose proof (Propose_recv_wait _ _ _ _ _ _ Hr) as Hw.
  assert (Hstep : forall s, taskStep rp (mkInput e clock r) (Proposing client pr) n s =
    Ok (match o with ProposeWait pr => Proposing client pr | ProposeReturn err => Applying es1 (Proposed client err) end, n1, s, mkOut es1 [] [] []))
    by (intros s'; cbn [taskStep in_answer]; by rewrite Hr).
  destruct o as [pr1|err1].
  - destruct Hw as (-> & -> & Hw & Hw'). rewrite app_nil_r in HL.
    eapply (ends_step r (Proposing client pr) n s _ _ _ _ n' w es es (Hstep s) eq_refl eq_refl).
    eapply (IH pr1 n s acc); [|done|done|done]. cbn [length] in Hlen. lia.
  - injection HL as <- <- Hes%app_inv_head. subst es1.
    eapply (ends_step r (Proposing client pr) n s _ _ _ _ n1 w [] es (Hstep s) eq_refl); [by cbn; rewrite app_nil_r|]. by apply ends_applying.
Qed.

Lemma ends_propose client command n s resps n' err es w : (length (RaftNode.peers n) <= length resps)%nat ->
  Propose n command resps = Ok (n', err, es) -> (forall s, ends (Proposed client err) n' s n' w []) ->
  ends (enterPropose client command n).2 (enterPropose client command n).1 s n' w es.
Proof.
  unfold Propose, enterPropose. intros Hlen HP Hend. destruct (Propose_enter n command) as [err'|[n1 pr]] eqn:E.
  - injection HP as <- <- <-. apply Hend.
  - assert (E1 : RaftNode.peers n1 = RaftNode.peers n /\ pr_responses pr = 0).
    { unfold Propose_enter in E. destruct (negb _); [done|]. by injection E as <- <-. }
    destruct E1 as [E1 E2]. rewrite <- E1 in Hlen. cbn [fst snd].
    destruct (Z.ltb_spec 0 (Z.of_nat (length (RaftNode.peers n1)))) as [Hpos|Hnone].
    + eapply (ends_proposing client (take (length (RaftNode.peers n1)) resps) pr n1 s [] n' err es); [|lia|done|done].
      rewrite length_take. lia.
    + destruct (RaftNode.peers n1) as [|? ?] eqn:Ep; [|cbn in Hnone; lia]. change (take (length []) resps) with (@nil (option AppendEntriesResponse)) in HP.
      cbn [Propose_loop] in HP. rewrite Ep, E2 in HP. injection HP as <- <- <-. apply Hend.
Qed.

Lemma raft_undisturbed n s resps stream n' w es : (length (RaftNode.peers n) <= length resps)%nat ->
  handleRaftConn e n resps stream = Ok (n', w, es) -> ends (RaftConn stream) n s n' w es.
Proof.
  intros Hlen Hh. cut (exists n1 t es1 es2, raftStep e n stream = Ok (n1, t, es1) /\ es = es1 ++ es2 /\ ends t n1 s n' w es2).
  { intros (n1 & t & es1 & es2 & Hr & -> & He). eapply (ends_step None); [cbn [taskStep in_env]; by rewrite Hr|reflexivity|reflexivity|exact He]. }
  unfold handleRaftConn in Hh. unfold raftStep.
  assert (Hquiet : Ok (n, [], []) = Ok (n', w, es) -> exists n1 t es1 es2,
    Ok (n, Finished [], []) = Ok (n1, t, es1) /\ es = es1 ++ es2 /\ ends t n1 s n' w es2).
  { intros [= <- <- <-]. eexists n, _, [], []. split_and!; [done..|]. apply ends_finished. }
  destruct (coordinator_readFrame stream) as [|[payload rest]]; [by apply Hquiet|].
  destruct (Unmarshal payload) as [env|]; [|by apply Hquiet].
  destruct (_ =?s rpcRequestVote); [|destruct (_ =?s rpcAppendEntries); [|destruct (_ =?s rpcPropose); [|by apply Hquiet]]].
  - destruct (env_RequestVote env) as [req|]; [|by apply Hquiet]. destruct (HandleRequestVote e n req) as [n1 resp].
    injection Hh as <- <- <-. eexists n1, _, [], []. split_and!; [done..|]. apply ends_finished.
  - destruct (env_AppendEntries env) as [req|]; [|by apply Hquiet].
    apply exec_bind_Ok in Hh as ([[n1 resp] es1] & -> & [= <- <- <-]). cbn [exec_bind]. eexists n1, _, es1, [].
    split_and!; [done|by rewrite app_nil_r|]. apply ends_applying; [done|]. intros s'. apply ends_finished.
  - destruct (env_Propose env) as [req|]; [|by apply Hquiet].
    apply exec_bind_Ok in Hh as ([[n1 err] es1] & HP & [= <- <- <-]).
    pose proof (fun w => ends_propose ForPeer (pq_Command req) n s resps n1 err es1 w Hlen HP) as He.
    destruct (enterPropose ForPeer (pq_Command req) n) as [n2 t]. eexists n2, t, [], es1. split_and!; [done..|]. apply He.
    intros s'. eapply (ends_step None); [reflexivity|reflexivity|reflexivity|]. apply ends_finished.
Qed.

(** the handlers as whole functions.  Where a goroutine is not disturbed by another
    and every peer answers a proposal or fails, the Raft handler does to the node,
    writes and applies what [handleRaftConn] says; and the gossip handler, seeing the
    node as it is, stops, forwards or proposes as [handleGossipConn] says, a proposal
    being [Propose]. *)
Theorem undisturbed_handlers n s resps stream v clock' :
  (length (RaftNode.peers n) <= length resps)%nat -> seen_state v = state n -> seen_leader v = leaderID n ->
  (forall n' w es, handleRaftConn e n resps stream = Ok (n', w, es) -> ends (RaftConn stream) n s n' w es) /\
  match handleGossipConn Sensor.NodeID EncodeReading DecodeReading clock' s (Some v) rp stream with
  | (s', []) => s' = s /\ ends (GossipConn stream) n s n [] []
  | (s', [DoForward addr command]) => s' = s /\
      exists answers, runTask answers (GossipConn stream) n s = Ok (Finished [], n, s, mkOut [] [] [DoForward addr command] [])
  | (s', [DoPropose command]) => s' = s /\
      forall n' err es, Propose n command resps = Ok (n', err, es) -> ends (GossipConn stream) n s n' [] es
  | _ => False
  end.
Proof.
  intros Hlen Hst Hle. split; [intros n' w es; by apply raft_undisturbed|].
  unfold handleGossipConn. assert (H0 : taskStep rp (mkInput e clock None) (GossipConn stream) n s =
    match gossipReading DecodeReading stream ≫= encodeReadingCommand EncodeReading with
    | None => Ok (Finished [], n, s, silent) | Some command => Ok (GossipState command, n, s, silent) end) by done.
  destruct (gossipReading DecodeReading stream) as [r|].
  2: { split; [done|]. by eapply (ends_step None); [exact H0|..|apply ends_finished]. }
  unfold intakeReading. cbn [mbind option_bind] in H0. destruct (encodeReadingCommand EncodeReading r) as [command|].
  2: { split; [done|]. by eapply (ends_step None); [exact H0|..|apply ends_finished]. }
  assert (Hpropose : (forall n' err es, Propose n command resps = Ok (n', err, es) ->
    ends (GossipPropose command) n s n' [] es)).
  { intros n' err es HP.
    apply (ends_step None (GossipPropose command) n s (enterPropose ForGossip command n).2 (enterPropose ForGossip command n).1
      s silent n' [] es es); [cbn [taskStep]; by destruct (enterPropose ForGossip command n)|done|done|].
    eapply ends_propose; [done|done|]. intros s'. by eapply (ends_step None); [..|apply ends_finished]. }
  rewrite Hst, Hle. assert (H1 : taskStep rp (mkInput e clock None) (GossipState command) n s =
    Ok (if bool_decide (state n <> StateLeader) then GossipLeader command else GossipPropose command, n, s, silent)) by done.
  destruct (bool_decide (state n <> StateLeader)); cbn [andb].
  - assert (H2 : taskStep rp (mkInput e clock None) (GossipLeader command) n s =
      if negb (leaderID n =?s "") then Ok (Finished [], n, s, mkOut [] [] (forwardTo rp (leaderID n) command) [])
      else Ok (GossipPropose command, n, s, silent)) by done.
    destruct (negb (leaderID n =?s "")).
    + assert (Hrun : runTask [None; None; None] (GossipConn stream) n s =
        Ok (Finished [], n, s, mkOut [] [] (forwardTo rp (leaderID n) command) [])).
      { cbn [runTask]. rewrite H0. cbn [exec_bind]. rewrite H1. cbn [exec_bind]. rewrite H2. cbn [exec_bind].
        unfold out_app. cbn. by rewrite app_nil_r. }
      unfold forwardTo in *. destruct (rp !! leaderID n) as [a|]; [destruct (a =?s "")|].
      * split; [done|]. exists [None; None; None], silent. split; [exact Hrun|done].
      * split; [done|]. exists [None; None; None]. exact Hrun.
      * split; [done|]. exists [None; None; None], silent. split; [exact Hrun|done].
    + assert (Hp : forall n' err es, Propose n command resps = Ok (n', err, es) -> ends (GossipConn stream) n s n' [] es).
      { intros n' err es HP. eapply (ends_step None); [exact H0|done|by rewrite app_nil_l|].
        eapply (ends_step None); [exact H1|done|by rewrite app_nil_l|].
        eapply (ends_step None); [exact H2|done|by rewrite app_nil_l|]. by eapply Hpropose. }
      destruct (propose_result v); by split.
  - assert (Hp : forall n' err es, Propose n command resps = Ok (n', err, es) -> ends (GossipConn stream) n s n' [] es).
    { intros n' err es HP. eapply (ends_step None); [exact H0|done|by rewrite app_nil_l|].
      eapply (ends_step None); [exact H1|done|by rewrite app_nil_l|]. by eapply Hpropose. }
    destruct (propose_result v); by split.
Qed.
End Undisturbed.

(** ** A run *)

Definition demo_env (key : string) : string :=
  if key =?s "RAFT_PEERS" then "coord-1=a:7000,coord-2=b:7000,coord-3=c:7000" else "".
Definition demo_keys (m : gmap string string) : list string := (map_to_list m).*1.
Definition demo_outside : Env := mkEnv 5 (fun _ => 0).

Definition demo_reading_of (degrees : Z) : Reading :=
  mkReading "n1" (f_of_int degrees) zeroLocation (UTC degrees).
Definition demo_command_of (degrees : Z) : string :=
  default "" (encodeReadingCommand EncodeReading (demo_reading_of degrees)).

(** What the leader [coord-2] sends: an entry after [prev] others, committed. *)
Definition demo_append (prev degrees : Z) : list Z :=
  default [] (rpcRequest (append_envelope (mkAppendReq 1 "coord-2" prev (Z.min prev 1)
    [mkEntry 1 (demo_command_of degrees)] (prev + 1)))).

Definition demo_step (i : nat) : CoordEvent := CoTask i (mkInput demo_outside (1, 1) None).

(** The two appends arrive on two connections; in the first run each is applied before
    the next is handled, in the second the later entry is applied first. *)
Definition demo_arrivals : list CoordEvent := [CoRaftAccept (Some (demo_append 0 20)); CoRaftAccept (Some (demo_append 1 30))].
Definition demo_calm : list CoordEvent := demo_arrivals ++ map demo_step [0; 0; 0; 1; 1; 1]%nat.
Definition demo_race : list CoordEvent := demo_arrivals ++ map demo_step [0; 1; 1; 1; 0; 0]%nat.

Section Demo.
Context `{Trig}.

Definition demo_start : option Coord :=
  startCoordinator range_values demo_keys demo_outside 0 (loadConfig demo_env) true true true.
Definition demo_result (evs : list CoordEvent) : option (list string * list string * option Reading) :=
  c0 ← demo_start;
  match coordRun range_values (loadConfig demo_env) evs c0 with
  | Ok (c, out) =>
      if bool_decide (pendings (co_tasks c) = [])
      then Some (map entry_Command (out_collected out), map snd (out_applied out), readings (co_store c) !! "n1") else None
  | Panic => None
  end.

(** C30: The entries of two appends can be applied in the wrong order, and the older reading
    then stays: two connections bring a reading of 20 and then one of 30 degrees, both
    are committed in this order, the goroutine of the second applies first, and when
    nothing is left to apply the store says 20. *)
Theorem apply_order_race :
  demo_result demo_race = Some (map demo_command_of [20; 30], map demo_command_of [30; 20], Some (demo_reading_of 20)).
Proof. vm_compute. reflexivity. Qed.
End Demo.

Lemma demo_calm_facts :
  match startCoordinator (H := flat_trig) range_values demo_keys demo_outside 0 (loadConfig demo_env) true true true with
  | Some c0 =>
      calm (H := flat_trig) range_values (loadConfig demo_env) demo_calm c0 /\
      match coordRun (H := flat_trig) range_values (loadConfig demo_env) demo_calm c0 with
      | Ok (c, out) => pendings (co_tasks c) = [] /\ map entry_Command (out_collected out) = map demo_command_of [20; 30] /\
                       readings (co_store c) !! "n1" = Some (demo_reading_of 30)
      | Panic => False
      end
  | None => False
  end.
Proof. vm_compute. repeat split; first [reflexivity | by left | by right]. Qed.

Lemma demo_calm_run : exists c0 c out,
  startCoordinator (H := flat_trig) range_values demo_keys demo_outside 0 (loadConfig demo_env) true true true = Some c0 /\
  coordRun (H := flat_trig) range_values (loadConfig demo_env) demo_calm c0 = Ok (c, out) /\
  calm (H := flat_trig) range_values (loadConfig demo_env) demo_calm c0 /\ pendings (co_tasks c) = [] /\
  map entry_Command (out_collected out) = map demo_command_of [20; 30] /\
  readings (co_store c) !! "n1" = Some (demo_reading_of 30).
Proof.
  generalize demo_calm_facts. generalize (loadConfig demo_env) demo_calm. intros cfg evs Hf.
  destruct (startCoordinator _ _ _ _ _ _ _ _) as [c0|]; [|destruct Hf]. destruct Hf as [Hc Hf]. exists c0.
  destruct (coordRun _ cfg evs c0) as [[c out]|]; [|destruct Hf]. destruct Hf as (Hp & H1 & H3). exists c, out.
  split; [reflexivity|]. split; [reflexivity|]. split; [exact Hc|]. split; [exact Hp|]. split; [exact H1|exact H3].
Qed.

Lemma applied_in_log_order_witness : exists c out,
  map snd (out_applied out) = map demo_command_of [20; 30] /\ readings (co_store c) !! "n1" = Some (demo_reading_of 30).
Proof.
  destruct demo_calm_run as (c0 & c & out & E0 & E & Hc & Hp & H1 & H3). exists c, out. split; [|exact H3].
  destruct (applied_in_log_order (H := flat_trig) range_values demo_keys demo_outside 0 demo_env demo_calm c0 c out E0 E Hc)
    as (_ & _ & _ & Hall). rewrite <- H1. exact (Hall Hp).
Defined.

(** A follower that knows its leader passes a reading on. *)
Definition demo_follower : Node :=
  mkNode "coord-1" ["coord-2"; "coord-3"] 1 "" "coord-2" StateFollower [] 0 0 0 150 300 50 200 None.
Definition demo_gossip_frame : list Z :=
  writeFrame (bytes_of (String.append "GOSSIP|m1|3|" (demo_command_of 20))).
Definition demo_store : Store := newReadingStore 0 2 (f_of_int 1).

Lemma demo_intake : handleGossipConn Sensor.NodeID EncodeReading DecodeReading (1, 1) demo_store
  (Some (mkView StateFollower "coord-2" None "")) {["coord-2" := "b:7000"]} demo_gossip_frame =
  (demo_store, [DoForward "b:7000" (demo_command_of 20)]).
Proof. vm_compute. reflexivity. Qed.

Lemma undisturbed_handlers_witness : exists answers,
  runTask {["coord-2" := "b:7000"]} demo_outside (1, 1) answers (GossipConn demo_gossip_frame) demo_follower demo_store =
    Ok (Finished [], demo_follower, demo_store, mkOut [] [] [DoForward "b:7000" (demo_command_of 20)] []).
Proof.
  destruct (undisturbed_handlers {["coord-2" := "b:7000"]} demo_outside (1, 1) demo_follower demo_store [None; None] demo_gossip_frame
    (mkView StateFollower "coord-2" None "") (1, 1) ltac:(cbn; lia) eq_refl eq_refl) as [_ Hg].
  rewrite demo_intake in Hg. exact (proj2 Hg).
Defined.
