(* ===== verification/EndToEnd.v ===== *)
(** * From a sensor to an answer

    The node's sensor loop, its gossip frame, the leading coordinator, the commands
    Raft applies and the region query, composed: what a node senses is what a query
    around the node returns. *)

From Stdlib Require Import Ascii String.
From stdpp Require Import base strings list sorting sets gmap.
From S2P Require Import Prelude GoBytes Sha256 GoText GoFloat RaftNode.
From S2P Require Import Base64 Wire Sensor NodeApp NodeExchange NodeMain.
From S2P Require Import GoUtf8 GoJson GoTime SensorCodec Coordinator CoordinatorHttp.

#[local] Open Scope Z_scope.
#[local] Open Scope go_scope.
#[local] Set Default Proof Using "Type".

Section EndToEnd.
Context {R : Type} {Hrand : Rand R} {Htrig : Trig}.
Context (rangeMap : gmap string Reading -> list Reading).
Hypothesis Hrange : forall m, rangeMap m ≡ₚ (map_to_list m).*2.

Notation decode := (decodeCommand DecodeReading).
Notation apply_all := (applyCommands Sensor.NodeID DecodeReading).

Lemma filter_none {A} (P : A -> Prop) `{forall x, Decision (P x)} l : Forall (fun x => ~ P x) l -> filter P l = [].
Proof. induction 1 as [|x l Hx Hl IH]; [done|]. by rewrite filter_cons_False. Qed.

(** The frames of a tick all carry the reading. *)
Lemma tick_frames t e cfg p payload a msg :
  let r := (Next t (p_generator p)).1 in
  EncodeReading r = Some payload ->
  (a, msg) ∈ (sensorTick t e cfg p).2 ->
  msg = formatGossip (gossipMessageID (cfg_nodeID cfg) (reading_unix r)) (cfg_gossipTTL cfg)
          (base64_EncodeToString payload).
Proof.
  intros r Henc. subst r. unfold sensorTick. destruct (Next t (p_generator p)) as [r g]. cbn [fst] in *.
  unfold gossipBroadcast. rewrite Henc. destruct (shouldProcessGossip _ _ _) as [s b]. cbn [snd].
  intros (x & [= -> ->] & _)%list_elem_of_fmap. done.
Qed.

(** The reading the next tick of a running node takes. *)
Lemma next_reading_wf now cfg evs t :
  let p := (nodeRun cfg evs (startProcess now cfg)).1 in
  let r := (Next t (p_generator p)).1 in
  wf_reading r /\ Sensor.NodeID r = cfg_nodeID cfg /\ Loc r = LocationFromSeed (cfg_nodeID cfg) /\
  (encodable r <-> writable t).
Proof.
  intros p r. destruct (NewGenerator_wf (R := R) (cfg_nodeID cfg) (LocationFromSeed (cfg_nodeID cfg))) as (Hg & Hid & Hl & _).
  set (g := NewGenerator _ _) in *. destruct (generate_wf (tick_times evs ++ [t]) g Hg) as [Hwf _].
  destruct (run_inv cfg evs [] (startProcess now cfg) (start_inv now cfg)) as [_ Hgen].
  fold p in Hgen. change (p_generator p = (generate (tick_times evs) g).2) in Hgen. rewrite generate_app in Hwf.
  apply Forall_app in Hwf as [_ Hwf]. rewrite <- Hgen in Hwf. cbn [generate] in Hwf.
  assert (Henc : encodable r <-> writable t).
  { apply Next_encodable. rewrite Hgen. apply generate_numbers, NewGenerator_numbers. }
  subst r. destruct (Next t (p_generator p)) as [r g']. cbn [fst] in *. apply Forall_cons in Hwf as [(H1 & H2 & H3) _].
  rewrite Hl in H2. split; [split; [exact H3|rewrite H2; apply LocationFromSeed_wf]|]. split; [congruence|]. split; [exact H2|exact Henc].
Qed.

Lemma fold_put_size (l : list Reading) m :
  (size (fold_left (put Sensor.NodeID) l m) <= size m + length l)%nat.
Proof.
  revert m. induction l as [|r l IH]; intros m; simpl; [lia|]. etrans; [apply IH|].
  unfold put. rewrite map_size_insert. destruct (m !! _); simpl; lia.
Qed.

Lemma fold_put_Forall (P : Reading -> Prop) l :
  Forall P l -> map_Forall (fun _ r => P r) (fold_left (put Sensor.NodeID) l ∅).
Proof.
  intros Hl n r Hr. rewrite fold_put_lookup in Hr. destruct (last (filter _ l)) as [r'|] eqn:E; [|by rewrite lookup_empty in Hr].
  simplify_eq. apply last_Some in E as [l' E]. assert (Hin : r ∈ filter (fun r => Sensor.NodeID r = n) l)
    by (rewrite E; apply elem_of_app; right; left). apply list_elem_of_filter in Hin as [_ Hin]. rewrite Forall_forall in Hl. auto.
Qed.

(** A region query around a stored reading answers with it. *)
Lemma query_finds junk total ratio cmds r query radius :
  Forall wf_stored (omap decode (map snd cmds)) -> Z.of_nat (length cmds) < 2 ^ 47 ->
  let s := (apply_all cmds (newReadingStore junk total ratio)).1 in
  readings s !! Sensor.NodeID r = Some r -> wf_stored r ->
  parseRegionQuery query = inr (Loc r, radius) -> json_number radius = true ->
  exists resp v, encode_region resp = Some v /\ handleRegion rangeMap query s = StatusOK (print_json v ++ [10]) /\
    r ∈ Readings resp /\ wf_temperature (AvgTempC resp).
Proof using Hrange.
  intros Hwf Hlen s Hr Hrwf Hq Hfin. pose proof (applied_readings Sensor.NodeID DecodeReading junk total ratio cmds) as Hs. fold s in Hs.
  pose proof (fold_put_size (omap decode (map snd cmds)) ∅) as Hsize. rewrite <- Hs, map_size_empty in Hsize.
  pose proof (length_omap_le decode (map snd cmds)) as Hle. rewrite length_map in Hle.
  pose proof (handleRegion_parsed rangeMap Hrange query s (Loc r) radius) as H.
  specialize (H ltac:(rewrite Hs; by apply fold_put_Forall) ltac:(lia) Hq).
  pose proof (parseRegionQuery_positive _ _ _ Hq) as Hpos.
  assert (Hnear : near (Loc r) radius r).
  { unfold near. rewrite DistanceKm_self by apply (proj1 Hrwf). destruct radius as [| |k]; try discriminate Hfin.
    unfold f_le in *. apply Z.leb_gt in Hpos. apply Z.leb_le. lia. }
  destruct (handleRegion rangeMap query s) as [?|err|body]; [contradiction| |].
  - destruct H as [_ Hno]. destruct (Hno _ _ Hr Hnear).
  - assert (Hj : json_location (Loc r) = true).
    { pose proof (json_wf r Hrwf) as Hj. unfold json_reading in Hj. apply andb_prop in Hj as [Hj _].
      by apply andb_prop in Hj as [_ ?]. }
    rewrite Hj, Hfin in H. destruct H as (resp & v & Hv & -> & _ & _ & _ & _ & Havg & Hin). exists resp, v.
    split; [exact Hv|]. split; [reflexivity|]. split; [|exact Havg]. apply Hin. split; [by eexists|exact Hnear].
Qed.

(** C5: what a node senses is what a query returns.  Take a node whose identifier
    is UTF-8 after any run, and let its next round of the sensor loop, uninterrupted
    and in a year of four digits, read [r] and send a frame that is short enough to be
    read.  A leading coordinator that receives the frame proposes one command and
    stores nothing yet.  On every coordinator whose Raft node has applied that command,
    provided that no later one was of the same node, that all readings applied are
    well-formed and of a time JSON can write (one that is not spoils every answer it is
    in), and that there were fewer than 2^47 commands, the store holds [r], and a region
    query around the node, of any finite positive radius, is answered with 200 and the
    JSON of a response with [r] among the readings and an average between -10 and 45
    degrees. *)
Theorem sensed_to_answer now cfg evs t e target msg clock s v raftPeers :
  let p := (nodeRun cfg evs (startProcess now cfg)).1 in
  let r := (Next t (p_generator p)).1 in
  writable t -> ValidString (cfg_nodeID cfg) = true -> - 2 ^ 63 <= cfg_gossipTTL cfg < 2 ^ 63 ->
  (target, msg) ∈ (sensorTick t e cfg p).2 -> short msg -> seen_state v = StateLeader ->
  exists command,
    handleGossipConn Sensor.NodeID EncodeReading DecodeReading clock s (Some v) raftPeers (sent [msg]) =
      (s, [DoPropose command]) /\
    decode command = Some r /\
    forall clk before after junk total ratio query radius,
      let cmds := before ++ (clk, command) :: after in
      let store := (apply_all cmds (newReadingStore junk total ratio)).1 in
      Forall wf_stored (omap decode (map snd cmds)) -> Z.of_nat (length cmds) < 2 ^ 47 ->
      Forall (fun r' => Sensor.NodeID r' <> cfg_nodeID cfg) (omap decode (map snd after)) ->
      parseRegionQuery query = inr (LocationFromSeed (cfg_nodeID cfg), radius) -> json_number radius = true ->
      readings store !! cfg_nodeID cfg = Some r /\
      exists resp v, encode_region resp = Some v /\ handleRegion rangeMap query store = StatusOK (print_json v ++ [10]) /\
        r ∈ Readings resp /\ wf_temperature (AvgTempC resp).
Proof using Hrange.
  intros p r Hclock Hvalid Httl Hmsg Hshort Hlead.
  destruct (next_reading_wf now cfg evs t) as (Hwf & Hid & Hloc & Hable). fold p in Hwf, Hid, Hloc, Hable. fold r in Hwf, Hid, Hloc, Hable.
  destruct (reading_roundtrip r (proj2 Hable Hclock)) as (payload & Henc & Hb & Hdec).
  rewrite received_valid in Hdec by (by rewrite Hid).
  rewrite (tick_frames t e cfg p payload target msg Henc Hmsg) in *.
  exists (base64_EncodeToString payload). split; [|split].
  - rewrite (handleGossipConn_gossip _ _ _ _ _ _ _ _ _ _ r); [|apply gossipMessageID_field|done..].
    unfold intakeReading, encodeReadingCommand. rewrite Henc, Hlead. simpl. by destruct (propose_result v).
  - by apply (decodeCommand_encode EncodeReading DecodeReading).
  - intros clk before after junk total ratio query radius cmds store Hall Hlen Hafter Hq Hfin.
    assert (Hr : readings store !! Sensor.NodeID r = Some r).
    { subst store. rewrite applied_readings, fold_put_lookup. subst cmds. rewrite map_app, omap_app. cbn [map snd omap list_omap].
      rewrite (decodeCommand_encode EncodeReading DecodeReading r payload Henc Hb Hdec).
      rewrite filter_app, filter_cons_True by done. rewrite (filter_none _ (omap decode (map snd after))), last_snoc by (by rewrite Hid). done. }
    split; [by rewrite <- Hid|]. apply (query_finds junk total ratio cmds r query radius); try done; [|by rewrite Hloc].
    split; [exact Hwf|]. by destruct (proj2 Hable Hclock) as (_ & _ & _ & _ & ?).
Qed.
End EndToEnd.

(** ** One reading, from the sensor to the answer *)

Definition demo_reading : Reading :=
  (Next (H := still_rand) 10 (p_generator (startProcess (Hrand := still_rand) 0 demo_cfg))).1.
Lemma demo_now : writable 10.
Proof. unfold writable. lia. Qed.

Definition demo_view : RaftView := mkView StateLeader "" None "".
Definition demo_msg : string :=
  formatGossip (gossipMessageID "n1" 10) 3 (base64_EncodeToString (default [] (EncodeReading demo_reading))).

(** The position of the node, as a client would write it. *)
Definition demo_question (key : string) : string :=
  if key =?s "lat" then "-0x1.14861c269ed78p+4" else if key =?s "lon" then "0x1.ded8e531d5640p+6" else "2.5".

Lemma demo_question_parses : exists k,
  parseRegionQuery demo_question = inr (LocationFromSeed (cfg_nodeID demo_cfg), Fin k).
Proof. eexists. vm_compute. reflexivity. Qed.

Lemma sensed_to_answer_witness : exists command store resp v,
  handleGossipConn Sensor.NodeID EncodeReading DecodeReading (0, 0) (newReadingStore 0 2 (f_of_int 1)) (Some demo_view) ∅
    (sent [demo_msg]) = (newReadingStore 0 2 (f_of_int 1), [DoPropose command]) /\
  store = (applyCommands Sensor.NodeID DecodeReading [((1, 1), command)] (newReadingStore 0 2 (f_of_int 1))).1 /\
  encode_region resp = Some v /\
  handleRegion (H := flat_trig) range_values demo_question store = StatusOK (print_json v ++ [10]) /\
  demo_reading ∈ Readings resp.
Proof.
  destruct demo_question_parses as [k Hq].
  destruct (next_reading_wf (Hrand := still_rand) 0 demo_cfg [] 10) as (Hwf & _ & _ & Hable).
  assert (Hst : wf_stored demo_reading) by (split; [exact Hwf|by destruct (proj2 Hable demo_now) as (_ & _ & _ & _ & ?)]).
  destruct (sensed_to_answer (Hrand := still_rand) (Htrig := flat_trig) range_values (fun m => reflexivity _)
    0 demo_cfg [] 10 demo_app_env "co:9000" demo_msg (0, 0) (newReadingStore 0 2 (f_of_int 1)) demo_view ∅)
    as (command & Hp & Hcmd & Hrest).
  - exact demo_now.
  - reflexivity.
  - simpl. lia.
  - apply (bool_decide_eq_true_1 _). vm_compute. reflexivity.
  - vm_compute. reflexivity.
  - reflexivity.
  - destruct (Hrest (1, 1) [] [] 0 2 (f_of_int 1) demo_question (Fin k)) as (_ & resp & v & Hv & HR & Hin & _).
    + cbn [app map snd omap list_omap]. rewrite Hcmd. constructor; [exact Hst|constructor].
    + reflexivity.
    + constructor.
    + exact Hq.
    + reflexivity.
    + eexists command, _, resp, v. split; [exact Hp|]. split; [reflexivity|]. split; [exact Hv|]. split; [exact HR|exact Hin].
Defined.

(** A gossip frame whose payload is an empty JSON object is a reading of nobody: it is
    proposed like any other, stored under the empty name, and counts as a node. *)
Example nameless_reading_counts : exists command,
  (handleGossipConn Sensor.NodeID EncodeReading DecodeReading (0, 0) (newReadingStore 0 1 (f_of_int 1)) (Some demo_view) ∅
    (sent [formatGossip "x" 0 (base64_EncodeToString (bytes_of "{}"))])).2 = [DoPropose command] /\
  let store := (applyCommands Sensor.NodeID DecodeReading [((1, 1), command)] (newReadingStore 0 1 (f_of_int 1))).1 in
  readings store = {["" := zeroReading]} /\ targetReached store = true.
Proof. eexists. split; [vm_compute; reflexivity|]. vm_compute. split; reflexivity. Qed.

(** A time zone of 24 hours is read but cannot be written: once a command with such a
    reading is applied, every query that finds it is answered with 200 and no body. *)
Definition day_offset_json : list Z := json_text "{'NodeID':'n','Timestamp':'2024-01-01T00:00:00+24:00'}".

Definition origin_query (key : string) : string := if key =?s "radius_km" then "1" else "0".

Definition day_offset_reading : Reading :=
  mkReading "n" (Fin 0) zeroLocation (mkTime ((1704067200 - 86400) * second) 86400).

Example unwritable_reading_empties_answer :
  DecodeReading day_offset_json = Some day_offset_reading /\ EncodeReading day_offset_reading = None /\
  let store := (applyCommands Sensor.NodeID DecodeReading [((1, 1), base64_EncodeToString day_offset_json)]
    (newReadingStore 0 1 (f_of_int 1))).1 in
  readings store !! "n" = Some day_offset_reading /\
  handleRegion (H := flat_trig) range_values origin_query store = StatusOK [].
Proof. vm_compute. repeat split; reflexivity. Qed.
